(* ===== verification/_CoqProject ===== *)
-Q . S2P
Prelude.v
Collections.v
JsNumber.v
Json.v
Models.v
GroupOrdering.v
GroupPaths.v
GroupMutations.v
SavedWorkspace.v
HostStore.v
GroupRepository.v
WorkspaceLayout.v
TmuxLayout.v
HostKeyPrompts.v
InteractiveAuth.v
WorkspaceState.v
WorkspaceReducers.v
WorkspaceInvariant.v
WorkspaceMachine.v
WorkspaceFacts.v
CoreFraming.v
SyncMerge.v
SyncOutbox.v
OutputFlowControl.v
Reconnect.v
ReconnectInvariant.v
ReconnectFacts.v
Base64.v
Vault.v
AsyncProc.v
SyncRecords.v
KnownHosts.v
DnsOverrides.v
AwsIni.v
AwsIniFacts.v
AwsProfiles.v
AwsProfileFiles.v
AwsProfileStore.v
ReplayData.v
ReplayPlayer.v
ReplayFormat.v
ReplayWriter.v
ReplayWriterInvariant.v
ReplayRecording.v
ReplayInstances.v
ReplaySession.v
SyncService.v
SyncLogic.v
SyncSpecs.v
SyncMachine.v
SyncInvariant.v
SyncSimulation.v
SyncSafety.v
