(* ===== verification/Prelude.v ===== *)
(** * Dolgate: a verification library for its TypeScript core

    Dolgate is a client for SSH, containers, remote desktops and serial lines: an Electron
    application (apps/desktop), a React Native one (apps/mobile), and what they share
    (packages/shared-core).  Cores written in Go and Rust (services/) do the network
    work; they are not modelled.  This library models the parts of the TypeScript code
    that decide something - stores, reducers, protocols, state machines - and proves
    what makes each of them correct.  Paths below are relative to src/.

    ** Foundations

    - [Prelude]: strings as code units ([jsstring]), [trim], [split], [join], numbers in
      decimal, [result] for code that throws; the tactics and hints all files use.
    - [Collections]: [Map] and [Set] as insertion-ordered lists, [Array.prototype.sort] as
      the stable insertion sort, [localeCompare] as the class [Collator].
    - [JsNumber], [Json]: binary64 numbers, and values that have not been checked yet.
    - [Models]: hosts, groups and jump chains (packages/shared-core/src/models.ts).
    - [AsyncProc]: [async] functions as trees of requests, with the statements
      ([doWhile], [try]) the services use.

    ** Groups, hosts and saved workspaces

    [GroupOrdering], [GroupPaths], [GroupMutations] are packages/shared-core/src/group-*.ts,
    a definition per function; [HostStore], [GroupRepository], [SavedWorkspace] are the
    repositories of apps/desktop/src/main/database.ts over the same data.  A drag lands
    where it was dropped ([planGroupReorder_lands]); the tree shown is the tree stored
    ([collectGroupPaths_tree]); renaming, moving and removing fail exactly when they
    should and otherwise rebase exactly what is inside ([mutateGroupPathIn_spec],
    [removeGroupFrom_spec]); a workspace that passes validation can be shown, and a valid
    one passes unchanged ([normalizeSavedWorkspaceRecord_sound], [_roundtrip]).

    ** The tab shell

    [WorkspaceLayout] and [TmuxLayout] are the trees of panes and the parser of tmux
    layouts, [HostKeyPrompts] and [InteractiveAuth] the questions that wait, [WorkspaceState]
    and [WorkspaceReducers] the window's sessions, tabs and workspaces with one definition
    per reducer (apps/desktop/src/renderer/store: utils/workspaces.ts, slices/sessionSlice.ts,
    utils/host-key-prompts.ts, utils/interactive-auth.ts).  [WorkspaceInvariant] and
    [WorkspaceMachine] show that every session is on screen exactly once in every
    reachable state ([tab_shell_invariant]); [WorkspaceFacts] holds the limits of a split and
    what a reconnection carries over.  [parseTmuxLayout_print] reads back every printed
    layout; its fuel, the length of the text, is always enough ([parseTmuxLayout_terminates]).

    ** Sessions

    - [CoreFraming] (main/core-framing.ts): frames survive any cutting of the pipe.
    - [OutputFlowControl] (renderer/lib/output-flow-control.ts): what is acknowledged.
    - [Reconnect], [ReconnectInvariant], [ReconnectFacts]
      (renderer/store/services/reconnect-orchestrator.ts): the engine as calls over its
      entries, timers and attempts in flight.
    - [KnownHosts] (KnownHostRepository of database.ts, ipc/coordinators/host-coordinator.ts,
      ipc/known-hosts-logs-keychain.ts): trusted keys by network scope, jump chains.
    - [DnsOverrides] (ipc/port-forwards-dns.ts, hosts-override-manager.ts and two repositories
      of database.ts): the rules and overrides stored together, and the entries of the
      hosts file.

    ** Recorded sessions

    - [ReplayData], [ReplayPlayer] (renderer/lib/replay-player.ts): playing a recorded
      session.  The terminal is the interface [ReplayTerminal]; whenever the player has caught
      up the terminal shows the screen of the recording ([replay_shows_recording]), and it
      always catches up ([replay_catches_up]).
    - [ReplayFormat], [ReplayWriter] (main/session-replay-events.ts): the lines, the
      segments, the index, and the writer with the handlers of its compressors as a step
      relation; [ReplayWriterInvariant] is its invariant.  JSON, gzip and Node's Base64 are
      interfaces ([ReplayInstances] has concrete ones).
    - [ReplayRecording] (main/session-replay-service.ts), [ReplaySession]: from the bytes of
      the session through the files to the screen of the player ([replay_shows_session]),
      crashes ([replay_after_crash], [replay_flush_durable]) and closing
      ([replay_writer_closes]).  Times and counts are whole numbers, as the recorder writes
      them; rewriting recordings of older formats is not modelled.

    ** Synchronisation

    - [Base64], [Vault] (packages/shared-core/src/base64.ts, vault.ts): encodings, the wrapped
      data key, when a cached key may be used.  The ciphers are an interface.
    - [SyncMerge], [SyncOutbox] (apps/mobile/src/lib): the phone's merge and its queue.
    - [SyncRecords], [SyncService] (apps/desktop/src/main/sync-service.ts and what it asks of
      auth-service.ts): every operation of the desktop as an [AsyncProc] tree.  Its store is
      the interface [SyncStore].  [SyncLogic] and [SyncSpecs] verify each asynchronous
      function against what it may write while others run; [SyncMachine] puts the service,
      its server and the outside world together as a step relation; [SyncInvariant] is its
      invariant, [SyncSimulation] an executable run, [SyncSafety] the guarantees: no write
      after the account has changed ([sync_fence]), no lost upload ([sync_push_completes]),
      no deletion dropped by an upload ([sync_deletion_sent]), no hidden change of another
      device ([sync_revision_known]), no overlap, no deadlock.

    ** Conventions

    A [throw] is [Throw] or a constructor of an error type; optional and nullable fields are
    [option]; a new id, the clock and [nowIso()] are arguments; an object the code compares
    with [===] has an identity.  Code that is not in the repository is a class or a section
    variable with its documented behaviour as laws, and every theorem that needs one has a
    witness at a concrete instance.  Where the code loops without structural recursion a
    definition takes fuel, and a theorem shows that the fuel given is enough.

    ** Not modelled

    The Go and Rust services; generated data and translations; React components and
    native views, which show the state modelled here; Electron glue, child processes and
    calls to AWS, which are input and output.  Of the desktop store: the host, snippet,
    settings, secret and profile repositories.  Of the synchronisation service: the
    snapshot format (the bodies of the merge of a snapshot into the store) and the watch
    loop.  Planned next: these, the files of AWS profiles
    (apps/desktop/src/main/aws-profile-files.ts) and the correlation of requests with
    answers in main/core-manager.ts. *)

From stdpp Require Export base tactics list strings gmap numbers option sorting.
From Stdlib Require Export ZArith Lia Permutation.
From Stdlib Require Ascii.

(** ** Strings

    A JavaScript string is a sequence of 16-bit code units.  It is a [list N]
    here, so that slicing, prefixes and concatenation are the list operations
    and every code unit of the source is representable.  [js] writes a literal. *)
Abbreviation jsstring := (list N).

Definition js (s : string) : jsstring :=
  Stdlib.Strings.Ascii.N_of_ascii <$> String.list_ascii_of_string s.
Arguments js : simpl never.

(** The code points ECMAScript's [String.prototype.trim] removes
    (WhiteSpace and LineTerminator). *)
Definition is_ws (c : N) : bool :=
  ((9 <=? c) && (c <=? 13) || (c =? 32) || (c =? 160) || (c =? 5760)
   || ((8192 <=? c) && (c <=? 8202)) || (c =? 8232) || (c =? 8233)
   || (c =? 8239) || (c =? 8287) || (c =? 12288) || (c =? 65279))%N.

Fixpoint trim_start (s : jsstring) : jsstring :=
  match s with
  | c :: s' => if is_ws c then trim_start s' else s
  | [] => []
  end.
Definition trim_end (s : jsstring) : jsstring := reverse (trim_start (reverse s)).

(** [s.trim()] *)
Definition js_trim (s : jsstring) : jsstring := trim_end (trim_start s).

(** [s.split(c)] for a one-unit separator: never the empty list. *)
Fixpoint js_split (c : N) (s : jsstring) : list jsstring :=
  match s with
  | [] => [[]]
  | x :: s' =>
      if decide (x = c) then [] :: js_split c s'
      else match js_split c s' with
           | seg :: rest => (x :: seg) :: rest
           | [] => [[x]]
           end
  end.

(** [l.join(sep)] *)
Fixpoint js_join (sep : jsstring) (l : list jsstring) : jsstring :=
  match l with
  | [] => []
  | [x] => x
  | x :: l' => x ++ sep ++ js_join sep l'
  end.

(** [s.startsWith(p)]; [s.slice(n)] is [drop n s]. *)
Definition startsWith (s p : jsstring) : bool := bool_decide (p `prefix_of` s).

(** [s.includes(c)] for a one-unit needle, and the truthiness of a string. *)
Definition includes_unit (s : jsstring) (c : N) : bool := bool_decide (c ∈ s).
Definition truthy (s : jsstring) : bool := bool_decide (s ≠ []).

(** [s.lastIndexOf(c)] for a one-unit needle; [None] is -1. *)
Fixpoint lastIndexOf (c : N) (s : jsstring) : option nat :=
  match s with
  | [] => None
  | x :: s' =>
      match lastIndexOf c s' with
      | Some i => Some (S i)
      | None => if decide (x = c) then Some 0 else None
      end
  end.

(** [s.indexOf(c)] *)
Fixpoint indexOf (c : N) (s : jsstring) : option nat :=
  match s with
  | [] => None
  | x :: s => if decide (x = c) then Some 0 else S <$> indexOf c s
  end.

(** An optional string read by truthiness: the empty string counts as absent. *)
Definition opt_truthy (o : option jsstring) : option jsstring :=
  match o with Some (c :: s) => Some (c :: s) | _ => None end.

(** [String(n)] for a natural number: its decimal digits. *)
Fixpoint digits_fuel (fuel : nat) (n : N) (acc : jsstring) : jsstring :=
  match fuel with
  | O => acc
  | S fuel' =>
      let acc' := (48 + n mod 10)%N :: acc in
      if (n <? 10)%N then acc' else digits_fuel fuel' (n / 10)%N acc'
  end.
Definition show_N (n : N) : jsstring := digits_fuel (S (N.to_nat (N.size n))) n [].

(** [m] with the error channel of a [throw new Error(msg)]. *)
Inductive result (A : Type) : Type :=
| Ok (a : A)
| Throw (msg : string).
Arguments Ok {A} a.
Arguments Throw {A} msg.

Definition rbind {A B} (r : result A) (f : A → result B) : result B :=
  match r with Ok a => f a | Throw m => Throw m end.

Declare Scope result_scope.
Notation "'let!' x ':=' r 'in' k" := (rbind r (λ x, k))
  (at level 10, x pattern, r at level 100, k at level 200) : result_scope.
Open Scope result_scope.

(** [Date.parse], in milliseconds; [None] is NaN. *)
Class DateParse := date_parse : jsstring → option Z.

(** A supply of fresh identifiers: [crypto.randomUUID()] reads the next one.
    [uuid n] is the n-th identifier the platform hands out. *)
Class UuidSupply := uuid : nat → jsstring.

Definition fresh_m (A : Type) : Type := nat → A * nat.
Definition fret {A} (a : A) : fresh_m A := λ n, (a, n).
Definition fbind {A B} (m : fresh_m A) (f : A → fresh_m B) : fresh_m B :=
  λ n, let '(a, n') := m n in f a n'.
Definition randomUUID `{UuidSupply} : fresh_m jsstring := λ n, (uuid n, S n).

Notation "'let@' x ':=' m 'in' k" := (fbind m (λ x, k))
  (at level 10, x pattern, m at level 100, k at level 200) : result_scope.

(** Allocation of an object: [{ ... }] has an identity no other object has. *)
Record object (A : Type) := { identity : nat; fields : A }.
Arguments identity {A} _.
Arguments fields {A} _.

Definition new {A} (a : A) : fresh_m (object A) := λ n, ({| identity := n; fields := a |}, S n).

(** [l.map(f)] where [f] allocates. *)
Fixpoint map_m {A B} (f : A → fresh_m B) (l : list A) : fresh_m (list B) :=
  match l with
  | [] => fret []
  | x :: l' => let@ y := f x in let@ l'' := map_m f l' in fret (y :: l'')
  end.

(** ** Automation *)

(** [eauto with dolgate]: facts that every component needs of its lists.
    [autorewrite with dolgate_reflect]: boolean tests as propositions. *)
Create HintDb dolgate.
Create HintDb dolgate_reflect.
#[export] Hint Rewrite @bool_decide_eq_true @bool_decide_eq_false andb_true_iff negb_true_iff orb_false_iff
  : dolgate_reflect.


(** Case analysis on every [bool_decide], [decide] and [if] in sight. *)
Ltac split_decides :=
  repeat (case_bool_decide || case_decide || case_match); simplify_eq/=.

Ltac destruct_result :=
  repeat match goal with
  | H : rbind ?r _ = Ok _ |- _ =>
      let E := fresh "E" in destruct r eqn:E; simpl in H; [|discriminate H]
  | H : Ok _ = Ok _ |- _ => injection H as H; subst
  | H : Throw _ = Ok _ |- _ => discriminate H
  | H : Ok _ = Throw _ |- _ => discriminate H
  end.

(** ** Lemmas on strings *)

Lemma js_split_nonempty c s : js_split c s ≠ [].
Proof. destruct s; simpl; [done|]. case_decide; [done|]. by case_match. Qed.

Lemma js_join_cons sep x l :
  l ≠ [] → js_join sep (x :: l) = x ++ sep ++ js_join sep l.
Proof. by destruct l. Qed.

Lemma js_join_split c s : js_join [c] (js_split c s) = s.
Proof.
  induction s as [|x s IH]; cbn [js_split]; [done|]. case_decide as Hx.
  - subst. rewrite js_join_cons by apply js_split_nonempty. by rewrite IH.
  - destruct (js_split c s) as [|seg rest] eqn:E; [by apply js_split_nonempty in E|].
    rewrite <- IH. by destruct rest.
Qed.

Lemma js_split_no_sep c s : c ∉ s → js_split c s = [s].
Proof.
  induction s as [|x s IH]; simpl; intros Hc; [done|].
  apply not_elem_of_cons in Hc as [Hx Hc]. rewrite decide_False by done.
  by rewrite IH.
Qed.

Lemma js_split_app c s t : js_split c (s ++ c :: t) = js_split c s ++ js_split c t.
Proof.
  induction s as [|x s IH]; cbn [js_split app].
  - by rewrite decide_True.
  - destruct (decide (x = c)) as [Hx|Hx]; [by rewrite IH|].
    rewrite IH. destruct (js_split c s) as [|seg rest] eqn:E; [|done].
    by apply js_split_nonempty in E.
Qed.

Lemma js_split_join c l :
  l ≠ [] → Forall (λ seg, c ∉ seg) l → js_split c (js_join [c] l) = l.
Proof.
  induction l as [|x l IH]; [done|]. intros _ [Hx Hl]%Forall_cons.
  destruct (decide (l = [])) as [->|Hne].
  - by apply js_split_no_sep.
  - rewrite js_join_cons by done.
    change (x ++ [c] ++ js_join [c] l) with (x ++ c :: js_join [c] l).
    rewrite js_split_app, js_split_no_sep by done. by rewrite IH.
Qed.

Lemma js_split_segments_no_sep c s : Forall (λ seg, c ∉ seg) (js_split c s).
Proof.
  induction s as [|x s IH]; cbn [js_split]; [repeat constructor; apply not_elem_of_nil|].
  destruct (decide (x = c)); [constructor; [apply not_elem_of_nil|done]|].
  destruct (js_split c s) as [|seg rest]; [by repeat constructor; set_solver|].
  apply Forall_cons in IH as [Hs Hr]. constructor; [|done].
  apply not_elem_of_cons. split; [congruence|done].
Qed.

Lemma js_split_inj c s t : js_split c s = js_split c t → s = t.
Proof. intros E. by rewrite <- (js_join_split c s), E, js_join_split. Qed.

Lemma js_join_app c l k :
  l ≠ [] → k ≠ [] → js_join [c] (l ++ k) = js_join [c] l ++ c :: js_join [c] k.
Proof.
  induction l as [|x l IH]; [done|]; intros _ Hk.
  destruct (decide (l = [])) as [->|Hne].
  - change (js_join [c] (x :: k) = x ++ c :: js_join [c] k).
    by rewrite js_join_cons.
  - assert (l ++ k ≠ []) by (destruct l; naive_solver).
    change (js_join [c] (x :: (l ++ k)) = js_join [c] (x :: l) ++ c :: js_join [c] k).
    rewrite !js_join_cons by done. rewrite IH by done. by rewrite <- !(assoc_L (++)).
Qed.

Lemma trim_start_no_ws s : Forall (λ c, is_ws c = false) s → trim_start s = s.
Proof. destruct 1 as [|c s Hc]; simpl; [done|]. by rewrite Hc. Qed.

Lemma trim_start_suffix s : ∃ w, s = w ++ trim_start s ∧ Forall (λ c, is_ws c = true) w.
Proof.
  induction s as [|c s (w & E & Hw)]; simpl; [by exists []|].
  destruct (is_ws c) eqn:Hc; [|by exists []].
  exists (c :: w). simpl. by rewrite <- E; auto.
Qed.

Lemma trim_start_idemp s : trim_start (trim_start s) = trim_start s.
Proof.
  induction s as [|c s IH]; simpl; [done|]. destruct (is_ws c) eqn:Hc; [done|].
  simpl. by rewrite Hc.
Qed.

Lemma trim_end_prefix s : trim_end s `prefix_of` s.
Proof.
  unfold trim_end. destruct (trim_start_suffix (reverse s)) as (w & E & _).
  exists (reverse w). by rewrite <- reverse_app, <- E, reverse_involutive.
Qed.

Lemma trim_end_idemp s : trim_end (trim_end s) = trim_end s.
Proof. unfold trim_end. by rewrite reverse_involutive, trim_start_idemp. Qed.

(** Trimming at the end does not expose whitespace at the front. *)
Lemma trim_start_trim_end s :
  trim_start s = s → trim_start (trim_end s) = trim_end s.
Proof.
  intros Hs. destruct (trim_end_prefix s) as [k Hk].
  destruct (trim_end s) as [|c t] eqn:E; [done|].
  rewrite Hk in Hs. simpl in *. destruct (is_ws c) eqn:Hc; [|done].
  exfalso. destruct (trim_start_suffix (t ++ k)) as (w & Ew & _).
  rewrite Hs in Ew. apply (f_equal length) in Ew.
  rewrite !length_app in Ew. simpl in Ew. rewrite length_app in Ew. lia.
Qed.

Lemma js_trim_idemp s : js_trim (js_trim s) = js_trim s.
Proof.
  unfold js_trim. rewrite (trim_start_trim_end (trim_start s)) by apply trim_start_idemp.
  apply trim_end_idemp.
Qed.

Lemma js_trim_subset s c : c ∈ js_trim s → c ∈ s.
Proof.
  unfold js_trim. intros Hc. destruct (trim_start_suffix s) as (w & E & _).
  destruct (trim_end_prefix (trim_start s)) as [k Hk].
  rewrite E, Hk. set_solver.
Qed.

Lemma truthy_spec s : truthy s = true ↔ s ≠ [].
Proof. unfold truthy. apply bool_decide_eq_true. Qed.

Lemma startsWith_spec s p : startsWith s p = true ↔ p `prefix_of` s.
Proof. unfold startsWith. apply bool_decide_eq_true. Qed.

Lemma opt_truthy_Some o s : opt_truthy o = Some s ↔ o = Some s ∧ s ≠ [].
Proof. destruct o as [[|c t]|]; simpl; naive_solver. Qed.

Lemma lastIndexOf_None c s : c ∉ s → lastIndexOf c s = None.
Proof.
  induction s as [|x s IH]; simpl; [done|]. intros Hc. rewrite IH by set_solver.
  rewrite decide_False by set_solver. done.
Qed.

Lemma lastIndexOf_app c s t : c ∉ t → lastIndexOf c (s ++ c :: t) = Some (length s).
Proof.
  intros Ht. induction s as [|x s IH]; simpl; [|by rewrite IH].
  by rewrite lastIndexOf_None, decide_True.
Qed.

Lemma js_trim_no_ws s : Forall (λ c, is_ws c = false) s → js_trim s = s.
Proof.
  intros Hs. unfold js_trim, trim_end. rewrite (trim_start_no_ws s) by done.
  rewrite trim_start_no_ws; [apply reverse_involutive|]. by rewrite reverse_Permutation.
Qed.

Lemma indexOf_app c tok r : c ∉ tok → indexOf c (tok ++ c :: r) = Some (length tok).
Proof.
  induction tok as [|x tok IH]; simpl; intros Hc; [by rewrite decide_True|].
  rewrite decide_False by set_solver. by rewrite IH by set_solver.
Qed.

Lemma indexOf_Some c s i : indexOf c s = Some i → s = take i s ++ c :: drop (S i) s ∧ c ∉ take i s.
Proof.
  revert i. induction s as [|x s IH]; intros i E; [done|]. cbn [indexOf] in E. case_decide as Hx.
  { injection E as <-. subst. split; [done|]. set_solver. }
  destruct (indexOf c s) as [j|] eqn:Ej; [|done]. injection E as <-. destruct (IH j eq_refl) as [E1 E2].
  split; [cbn; by rewrite <- E1|]. cbn. set_solver.
Qed.

Lemma indexOf_None c s : indexOf c s = None ↔ c ∉ s.
Proof.
  split.
  - intros E Hc. apply list_elem_of_split in Hc as (l1 & l2 & ->).
    destruct (decide (c ∈ l1)) as [Hin|Hout].
    + apply list_elem_of_split_l in Hin as (k1 & k2 & -> & Hk). rewrite <- (assoc_L (++)) in E. cbn in E.
      by rewrite indexOf_app in E.
    + by rewrite indexOf_app in E.
  - intros Hc. destruct (indexOf c s) as [i|] eqn:E; [|done]. apply indexOf_Some in E as [E _]. rewrite E in Hc. set_solver.
Qed.

(** *** Trimming

    [trimmed s] says that [s] is not blank and has no blanks around it; such a string
    is found again between blanks. *)
Abbreviation ws := (Forall (λ c, is_ws c = true)).
Definition trimmed (s : jsstring) : Prop := s ≠ [] ∧ js_trim s = s.

Lemma trim_start_ws w s : ws w → trim_start (w ++ s) = trim_start s.
Proof. induction 1 as [|c w Hc _ IH]; simpl; [done|]. by rewrite Hc. Qed.

Lemma trim_end_ws w s : ws w → trim_end (s ++ w) = trim_end s.
Proof. intros Hw. unfold trim_end. by rewrite reverse_app, trim_start_ws by (by rewrite reverse_Permutation). Qed.

Lemma trim_start_app s w : trim_start s ≠ [] → trim_start (s ++ w) = trim_start s ++ w.
Proof. induction s as [|c s IH]; [done|]. cbn [trim_start app]. by destruct (is_ws c). Qed.

Lemma js_trim_ws_l w s : ws w → js_trim (w ++ s) = js_trim s.
Proof. intros Hw. unfold js_trim. by rewrite trim_start_ws. Qed.

Lemma js_trim_ws_r w s : ws w → js_trim (s ++ w) = js_trim s.
Proof.
  intros Hw. unfold js_trim. destruct (decide (trim_start s = [])) as [E|E].
  - destruct (trim_start_suffix s) as (v & Ev & Hv). rewrite E, app_nil_r in Ev. subst v. rewrite E.
    rewrite trim_start_ws by done. rewrite <- (app_nil_r w), trim_start_ws; done.
  - by rewrite trim_start_app, trim_end_ws.
Qed.

Lemma js_trim_split s : ∃ w1 w2, s = w1 ++ js_trim s ++ w2 ∧ ws w1 ∧ ws w2.
Proof.
  destruct (trim_start_suffix s) as (w & E & Hw). destruct (trim_start_suffix (reverse (trim_start s))) as (w' & E' & Hw').
  exists w, (reverse w'). split; [|split; [done|by rewrite reverse_Permutation]].
  rewrite E at 1. f_equal. unfold js_trim, trim_end. by rewrite <- reverse_app, <- E', reverse_involutive.
Qed.

Lemma js_trim_blank s : js_trim s = [] ↔ ws s.
Proof.
  split.
  - intros E. destruct (js_trim_split s) as (w1 & w2 & Es & H1 & H2). rewrite Es, E. apply Forall_app. by split.
  - intros H. rewrite <- (app_nil_l s). by rewrite js_trim_ws_r.
Qed.

(** A string with no blank at either end. *)
Lemma js_trim_ends c s : is_ws c = false → (∀ d, last (c :: s) = Some d → is_ws d = false) → js_trim (c :: s) = c :: s.
Proof.
  intros Hc Hl. unfold js_trim. cbn [trim_start]. rewrite Hc. unfold trim_end.
  destruct (reverse (c :: s)) as [|d r] eqn:E; [apply (f_equal length) in E; by rewrite length_reverse in E|].
  cbn [trim_start]. rewrite Hl.
  - by rewrite <- E, reverse_involutive.
  - rewrite <- (reverse_involutive (c :: s)), E, reverse_cons. by rewrite last_snoc.
Qed.

Lemma js_trim_head c s : is_ws c = false → ∃ t, js_trim (c :: s) = c :: t.
Proof.
  intros Hc. destruct (js_trim_split (c :: s)) as (w1 & w2 & E & H1 & _).
  destruct w1 as [|d w1]; [|cbn in E; injection E as -> _; inversion H1; congruence].
  destruct (js_trim (c :: s)) as [|d t] eqn:Et; [|cbn in E; injection E as -> _; by exists t].
  apply js_trim_blank in Et. inversion Et. congruence.
Qed.

Lemma trimmed_head s : trimmed s → ∃ c s', s = c :: s' ∧ is_ws c = false.
Proof.
  intros [Hs E]. destruct s as [|c s]; [done|]. exists c, s. split; [done|].
  destruct (is_ws c) eqn:Hc; [|done]. exfalso. unfold js_trim in E. cbn [trim_start] in E. rewrite Hc in E.
  destruct (trim_end_prefix (trim_start s)) as [k Hk]. destruct (trim_start_suffix s) as (w & Ew & _).
  apply (f_equal length) in E, Hk, Ew. rewrite !length_app in *. cbn in E. lia.
Qed.

Lemma trimmed_last s : trimmed s → ∃ d, last s = Some d ∧ is_ws d = false.
Proof.
  intros [Hs E]. destruct (last s) as [d|] eqn:Hd; [|by apply last_None in Hd]. exists d. split; [done|].
  apply last_Some in Hd as [l ->]. destruct (is_ws d) eqn:Hw; [|done]. exfalso.
  rewrite js_trim_ws_r in E by (by repeat constructor).
  destruct (js_trim_split l) as (w1 & w2 & El & _). rewrite El in E at 2.
  apply (f_equal length) in E. rewrite !length_app in E. cbn in E. lia.
Qed.

(** ** Decimal numerals *)

Definition digit (c : N) : bool := ((48 <=? c) && (c <=? 57))%N.

(** [Number(s)] on a string of digits. *)
Definition digits_value (l : jsstring) : N := foldl (λ v c, v * 10 + (c - 48))%N 0%N l.

(** The longest prefix of digits ([/^\d*/]) and what follows it. *)
Fixpoint span_digits (s : jsstring) : jsstring * jsstring :=
  match s with
  | c :: s' => if digit c then let '(d, r) := span_digits s' in (c :: d, r) else ([], s)
  | [] => ([], [])
  end.

Lemma digits_value_app l k :
  digits_value (l ++ k) = foldl (λ v c, v * 10 + (c - 48))%N (digits_value l) k.
Proof. unfold digits_value. by rewrite foldl_app. Qed.

Lemma digits_fuel_spec fuel n acc : (n < 10 ^ N.of_nat fuel)%N → 0 < fuel →
  ∃ ds, digits_fuel fuel n acc = ds ++ acc ∧ Forall (λ c, digit c = true) ds ∧ ds ≠ []
    ∧ digits_value ds = n.
Proof.
  revert n acc. induction fuel as [|fuel IH]; intros n acc Hn Hf; [lia|]. simpl.
  assert (Hd : digit (48 + n mod 10)%N = true).
  { pose proof (N.mod_upper_bound n 10 ltac:(done)). unfold digit.
    apply andb_true_iff. rewrite !N.leb_le. revert H. generalize (n mod 10)%N. intros. lia. }
  destruct (N.ltb_spec n 10) as [Hlt|Hge].
  - exists [(48 + n mod 10)%N]. split_and!; [done|by repeat constructor|done|].
    unfold digits_value. cbn [foldl]. rewrite N.mod_small by done. lia.
  - destruct (IH (n / 10)%N ((48 + n mod 10)%N :: acc)) as (ds & -> & Hds & Hne & Hv).
    + apply N.Div0.div_lt_upper_bound. rewrite Nat2N.inj_succ, N.pow_succ_r' in Hn. lia.
    + destruct fuel; [|lia]. simpl in Hn. lia.
    + exists (ds ++ [(48 + n mod 10)%N]). split_and!.
      * by rewrite <- (assoc_L (++)).
      * apply Forall_app. split; [done|by repeat constructor].
      * by destruct ds.
      * rewrite digits_value_app, Hv. cbn [foldl]. pose proof (N.div_mod n 10 ltac:(done)).
        generalize dependent (n mod 10)%N. generalize dependent (n / 10)%N. intros. lia.
Qed.

Lemma show_N_spec n : Forall (λ c, digit c = true) (show_N n) ∧ show_N n ≠ [] ∧ digits_value (show_N n) = n.
Proof.
  unfold show_N. destruct (digits_fuel_spec (S (N.to_nat (N.size n))) n []) as (ds & -> & ? & ? & ?).
  - rewrite Nat2N.inj_succ, N2Nat.id. pose proof (N.size_gt n).
    assert (2 ^ N.size n ≤ 10 ^ N.size n)%N by (apply N.pow_le_mono_l; lia).
    assert (10 ^ N.size n ≤ 10 ^ N.succ (N.size n))%N by (apply N.pow_le_mono_r; lia). lia.
  - lia.
  - rewrite app_nil_r. done.
Qed.

Lemma show_N_inj n m : show_N n = show_N m → n = m.
Proof.
  intros E. destruct (show_N_spec n) as (_ & _ & <-), (show_N_spec m) as (_ & _ & <-). by rewrite E.
Qed.

Lemma span_digits_app ds r : Forall (λ c, digit c = true) ds →
  match r with c :: _ => digit c = false | [] => True end →
  span_digits (ds ++ r) = (ds, r).
Proof.
  intros Hds Hr. induction Hds as [|c ds Hc Hds IH]; simpl.
  - destruct r as [|c r]; [done|]. simpl. by rewrite Hr.
  - by rewrite Hc, IH.
Qed.

Lemma span_digits_split s : s = (span_digits s).1 ++ (span_digits s).2.
Proof.
  induction s as [|c s IH]; simpl; [done|]. destruct (digit c); [|done].
  destruct (span_digits s). simpl in *. by rewrite <- IH.
Qed.

Lemma span_digits_digits s : Forall (λ c, digit c = true) (span_digits s).1.
Proof.
  induction s as [|c s IH]; [constructor|]. simpl. destruct (digit c) eqn:E; [|constructor].
  destruct (span_digits s). by constructor.
Qed.

(** [s.includes(p)] *)
Fixpoint includes (s p : jsstring) : bool :=
  startsWith s p || match s with [] => false | _ :: s' => includes s' p end.
(** The letters of ASCII in lower case: what the [i] flag compares of a pattern in ASCII. *)
Definition ascii_lower (s : jsstring) : jsstring :=
  (λ c, if ((65 <=? c) && (c <=? 90))%N then (c + 32)%N else c) <$> s.
(** [/p1|p2|.../i.test(s)] for literal lower-case alternatives. *)
Definition test_any (patterns : list jsstring) (s : jsstring) : bool :=
  existsb (includes (ascii_lower s)) patterns.
