(* ===== verification/Collections.v ===== *)
(** * Insertion-ordered maps and sets, and the stable sort

    The source iterates its [Map]s and [Set]s, and what it observes is insertion
    order, so a [Map] is a list of entries and a [Set] a list without
    duplicates; [set] on a key already present keeps its place.
    [Array.prototype.sort] is stable, and is insertion sort here. *)

From S2P Require Import Prelude.

(** ** [Map] *)

Section jsmap.
Context {K V : Type} `{EqDecision K}.
Implicit Types (m : list (K * V)) (k : K) (v : V).

(** [m.get(k)] *)
Fixpoint mget (k : K) (m : list (K * V)) : option V :=
  match m with
  | [] => None
  | (k', v) :: m' => if decide (k = k') then Some v else mget k m'
  end.

(** [m.set(k, v)] *)
Fixpoint mset (k : K) (v : V) (m : list (K * V)) : list (K * V) :=
  match m with
  | [] => [(k, v)]
  | (k', v') :: m' => if decide (k = k') then (k, v) :: m' else (k', v') :: mset k v m'
  end.

(** [m.has(k)], [m.delete(k)], [[...m.keys()]], [[...m.values()]] *)
Definition mhas (k : K) (m : list (K * V)) : bool := bool_decide (k ∈ m.*1).
Definition mdelete (k : K) (m : list (K * V)) : list (K * V) :=
  filter (λ kv, kv.1 ≠ k) m.
Definition mkeys (m : list (K * V)) : list K := m.*1.
Definition mvalues (m : list (K * V)) : list V := m.*2.

(** [new Map(entries)] *)
Definition mof (l : list (K * V)) : list (K * V) :=
  foldl (λ m kv, mset kv.1 kv.2 m) [] l.

Lemma mget_here k v m : mget k ((k, v) :: m) = Some v.
Proof. simpl. by rewrite decide_True. Qed.
Lemma mget_skip k k' v m : bool_decide (k = k') = false → mget k ((k', v) :: m) = mget k m.
Proof. intros Hk%bool_decide_eq_false. simpl. by rewrite decide_False. Qed.

Lemma mget_mset_eq k v m : mget k (mset k v m) = Some v.
Proof.
  induction m as [|[k' v'] m IH]; simpl; [by rewrite decide_True|].
  destruct (decide (k = k')); simpl; [by rewrite decide_True|by rewrite decide_False].
Qed.

Lemma mget_mset_ne k k' v m : k ≠ k' → mget k (mset k' v m) = mget k m.
Proof.
  intros Hne. induction m as [|[k0 v0] m IH]; simpl; [by rewrite decide_False|].
  destruct (decide (k' = k0)) as [->|]; simpl; [by rewrite !decide_False|].
  by rewrite IH.
Qed.

Lemma mget_Some_elem k v m : mget k m = Some v → (k, v) ∈ m.
Proof.
  induction m as [|[k' v'] m IH]; simpl; [done|].
  case_decide; intros; simplify_eq; set_solver.
Qed.

Lemma mget_None k m : mget k m = None ↔ k ∉ m.*1.
Proof.
  induction m as [|[k' v'] m IH]; simpl; [set_solver|].
  case_decide; simplify_eq; set_solver.
Qed.

Lemma mhas_spec k m : mhas k m = true ↔ k ∈ m.*1.
Proof. apply bool_decide_eq_true. Qed.

Lemma mhas_false k m : mhas k m = false ↔ k ∉ m.*1.
Proof. apply bool_decide_eq_false. Qed.

Lemma elem_mget k v m : NoDup m.*1 → (k, v) ∈ m → mget k m = Some v.
Proof.
  induction m as [|[k' v'] m IH]; simpl; [set_solver|].
  intros [Hk Hm]%NoDup_cons [E|Hin]%elem_of_cons; simplify_eq.
  - by rewrite decide_True.
  - rewrite decide_False; [auto|]. intros ->. apply Hk.
    by apply (list_elem_of_fmap_2 fst) in Hin.
Qed.

Lemma mget_app k m m' : k ∉ m.*1 → mget k (m ++ m') = mget k m'.
Proof.
  induction m as [|[k' v] m IH]; [done|]. cbn. intros Hk. rewrite decide_False by set_solver. apply IH. set_solver.
Qed.
Lemma mset_app k v m m' : k ∉ m.*1 → mset k v (m ++ m') = m ++ mset k v m'.
Proof.
  induction m as [|[k' v'] m IH]; [done|]. cbn. intros Hk. rewrite decide_False by set_solver. rewrite IH by set_solver. done.
Qed.
Lemma mset_here k v v' m : mset k v ((k, v') :: m) = (k, v) :: m.
Proof. cbn. by rewrite decide_True. Qed.
Lemma mset_keys k v m :
  (mset k v m).*1 = if decide (k ∈ m.*1) then m.*1 else m.*1 ++ [k].
Proof.
  induction m as [|[k' v'] m IH]; [done|]. cbn [mset].
  destruct (decide (k = k')) as [->|Hne]; rewrite !fmap_cons; cbn [fst].
  - by rewrite decide_True by set_solver.
  - rewrite IH. destruct (decide (k ∈ m.*1)) as [H|H].
    + by rewrite decide_True by set_solver.
    + by rewrite decide_False by set_solver.
Qed.

Lemma mset_fresh k v m : k ∉ m.*1 → mset k v m = m ++ [(k, v)].
Proof.
  induction m as [|[k' v'] m IH]; simpl; [done|].
  intros Hk. rewrite decide_False by set_solver. rewrite IH by set_solver. done.
Qed.

Lemma mset_NoDup k v m : NoDup m.*1 → NoDup (mset k v m).*1.
Proof.
  intros Hm. rewrite mset_keys. case_decide; [done|].
  apply NoDup_app. split; [done|]. split; [set_solver|].
  by apply NoDup_singleton.
Qed.

Lemma mof_NoDup l : NoDup (mof l).*1.
Proof.
  unfold mof. assert (NoDup (@nil (K * V)).*1) as Hm by constructor.
  revert Hm. generalize (@nil (K * V)). induction l as [|[k v] l IH]; simpl; [done|].
  intros m Hm. by apply IH, mset_NoDup.
Qed.

Lemma mget_foldl k l m :
  mget k (foldl (λ m kv, mset kv.1 kv.2 m) m l)
  = match mget k (reverse l) with Some v => Some v | None => mget k m end.
Proof.
  revert m. induction l as [|[k' v'] l IH]; intros m; simpl; [done|].
  rewrite IH, reverse_cons.
  assert (∀ m1 m2, mget k (m1 ++ m2)
    = match mget k m1 with Some v => Some v | None => mget k m2 end) as Happ.
  { intros m1 m2. induction m1 as [|[k1 v1] m1 IH1]; simpl; [done|]. by case_decide. }
  rewrite Happ. simpl. destruct (mget k (reverse l)); [done|].
  case_decide as Hk; [subst; by rewrite mget_mset_eq|by rewrite mget_mset_ne].
Qed.

(** [new Map(l).get(k)] finds the last entry with that key. *)
Lemma mget_mof k l : mget k (mof l) = mget k (reverse l).
Proof. unfold mof. rewrite mget_foldl. by destruct (mget k (reverse l)). Qed.

Lemma mof_keys_elem k l : k ∈ (mof l).*1 ↔ k ∈ l.*1.
Proof.
  destruct (decide (k ∈ l.*1)) as [H|H].
  - split; [done|]. intros _. apply dec_stable. intros Hn.
    apply mget_None in Hn. rewrite mget_mof in Hn. apply mget_None in Hn.
    apply Hn. rewrite fmap_reverse. by rewrite elem_of_reverse.
  - split; [|done]. intros Hk. exfalso. apply (mget_None k (mof l)); [|done].
    rewrite mget_mof. apply mget_None. rewrite fmap_reverse. by rewrite elem_of_reverse.
Qed.

Lemma mof_id l : NoDup l.*1 → mof l = l.
Proof.
  unfold mof. assert (∀ m, NoDup (m ++ l).*1 →
    foldl (λ m kv, mset kv.1 kv.2 m) m l = m ++ l) as H; [|by apply (H [])].
  induction l as [|[k v] l IH]; intros m Hnd; simpl; [by rewrite app_nil_r|].
  rewrite mset_fresh.
  - rewrite IH by (by rewrite <- (assoc_L (++))). by rewrite <- (assoc_L (++)).
  - rewrite fmap_app in Hnd. apply NoDup_app in Hnd as (_ & Hd & _).
    intros Hk. apply (Hd k Hk). simpl. set_solver.
Qed.

Lemma mdelete_cons k k' v m :
  mdelete k ((k', v) :: m) = if decide (k' = k) then mdelete k m else (k', v) :: mdelete k m.
Proof.
  unfold mdelete. rewrite filter_cons. cbn [fst].
  destruct (decide (k' = k)); destruct (decide (k' ≠ k)); done.
Qed.

Lemma mget_mdelete k k' m :
  mget k (mdelete k' m) = if decide (k = k') then None else mget k m.
Proof.
  induction m as [|[k0 v0] m IH]; [simpl; by case_decide|].
  rewrite mdelete_cons. cbn [mget].
  destruct (decide (k0 = k')) as [->|H0]; cbn [mget]; rewrite IH;
    destruct (decide (k = k')); try done.
  subst. by rewrite decide_False.
Qed.

Lemma mdelete_NoDup k m : NoDup m.*1 → NoDup (mdelete k m).*1.
Proof.
  unfold mdelete. induction m as [|[k' v] m IH]; [done|]. rewrite filter_cons. intros [Hn Hnd]%NoDup_cons.
  case_decide; [|by apply IH]. apply NoDup_cons. split; [|by apply IH].
  intros ([k2 v2] & E & [_ H2]%list_elem_of_filter)%list_elem_of_fmap. cbn in *. subst.
  apply Hn. apply list_elem_of_fmap. by exists (k2, v2).
Qed.

End jsmap.

(** ** [Set] *)

Section jsset.
Context {A : Type} `{EqDecision A}.

(** [s.add(x)] *)
Definition sadd (x : A) (s : list A) : list A := if decide (x ∈ s) then s else s ++ [x].

(** [new Set(l)], and [for (x of l) s.add(x)] on an existing set. *)
Definition sadd_all (l : list A) (s : list A) : list A := foldl (λ s x, sadd x s) s l.
Definition sof (l : list A) : list A := sadd_all l [].
Definition shas (x : A) (s : list A) : bool := bool_decide (x ∈ s).

Lemma elem_sadd x y s : x ∈ sadd y s ↔ x = y ∨ x ∈ s.
Proof. unfold sadd. case_decide; set_solver. Qed.

Lemma elem_sadd_all x l s : x ∈ sadd_all l s ↔ x ∈ l ∨ x ∈ s.
Proof.
  unfold sadd_all. revert s. induction l as [|y l IH]; intros s; simpl; [set_solver|].
  rewrite IH, elem_sadd. set_solver.
Qed.

Lemma elem_sof x l : x ∈ sof l ↔ x ∈ l.
Proof. unfold sof. rewrite elem_sadd_all. set_solver. Qed.

Lemma sadd_NoDup x s : NoDup s → NoDup (sadd x s).
Proof.
  unfold sadd. intros. case_decide; [done|].
  apply NoDup_app. split; [done|]. split; [set_solver|apply NoDup_singleton].
Qed.

Lemma sadd_all_NoDup l s : NoDup s → NoDup (sadd_all l s).
Proof.
  unfold sadd_all. revert s. induction l as [|x l IH]; intros s; simpl; [done|].
  intros. by apply IH, sadd_NoDup.
Qed.

Lemma sof_NoDup l : NoDup (sof l).
Proof. apply sadd_all_NoDup. constructor. Qed.

Lemma shas_spec x s : shas x s = true ↔ x ∈ s.
Proof. apply bool_decide_eq_true. Qed.
End jsset.

(** ** [Array.prototype.sort] with a comparator *)

Section jssort.
Context {A : Type} (cmp : A → A → Z).

Fixpoint sort_insert (x : A) (l : list A) : list A :=
  match l with
  | [] => [x]
  | y :: l' => if (cmp x y <=? 0)%Z then x :: y :: l' else y :: sort_insert x l'
  end.

Definition js_sort (l : list A) : list A := foldr sort_insert [] l.

Lemma sort_insert_perm x l : sort_insert x l ≡ₚ x :: l.
Proof.
  induction l as [|y l IH]; simpl; [done|]. case_match; [done|].
  rewrite IH. apply Permutation_swap.
Qed.

Lemma js_sort_perm l : js_sort l ≡ₚ l.
Proof.
  unfold js_sort. induction l as [|x l IH]; simpl; [done|].
  by rewrite sort_insert_perm, IH.
Qed.

Lemma elem_js_sort x l : x ∈ js_sort l ↔ x ∈ l.
Proof. by rewrite js_sort_perm. Qed.
End jssort.

(** A consistent comparator, as ECMAScript requires of [sort]'s argument. *)
Class Comparator {A} (cmp : A → A → Z) : Prop := {
  cmp_antisym x y : (Z.sgn (cmp y x) = - Z.sgn (cmp x y))%Z;
  cmp_trans x y z : (cmp x y ≤ 0)%Z → (cmp y z ≤ 0)%Z → (cmp x z ≤ 0)%Z;
}.

Section jssort_lemmas.
Context {A : Type} (cmp : A → A → Z) `{!Comparator cmp}.

Lemma cmp_total x y : (cmp x y ≤ 0)%Z ∨ (cmp y x ≤ 0)%Z.
Proof. pose proof (cmp_antisym x y). lia. Qed.

Lemma cmp_refl x : cmp x x = 0%Z.
Proof. pose proof (cmp_antisym x x). lia. Qed.

Lemma sort_insert_sorted x l :
  StronglySorted (λ a b, (cmp a b ≤ 0)%Z) l →
  StronglySorted (λ a b, (cmp a b ≤ 0)%Z) (sort_insert cmp x l).
Proof.
  induction 1 as [|y l Hl IH Hy]; simpl; [by repeat constructor|].
  destruct (Z.leb_spec (cmp x y) 0) as [H|H].
  - constructor; [by constructor|]. constructor; [done|].
    eapply Forall_impl; [exact Hy|]. simpl. intros z. by apply cmp_trans.
  - constructor; [done|]. rewrite sort_insert_perm. constructor; [|done].
    pose proof (cmp_total x y). lia.
Qed.

Lemma js_sort_sorted l : StronglySorted (λ a b, (cmp a b ≤ 0)%Z) (js_sort cmp l).
Proof.
  unfold js_sort. induction l as [|x l IH]; simpl; [constructor|].
  by apply sort_insert_sorted.
Qed.

Lemma js_sort_id l : StronglySorted (λ a b, (cmp a b ≤ 0)%Z) l → js_sort cmp l = l.
Proof.
  unfold js_sort. induction 1 as [|x l Hl IH Hx]; simpl; [done|]. rewrite IH.
  destruct Hx as [|y l Hy _]; [done|]. simpl.
  destruct (Z.leb_spec (cmp x y) 0); [done|lia].
Qed.

Lemma sort_insert_stable x z l :
  StronglySorted (λ a b, (cmp a b ≤ 0)%Z) l →
  filter (λ y, cmp z y = 0%Z) (sort_insert cmp x l) = filter (λ y, cmp z y = 0%Z) (x :: l).
Proof.
  induction 1 as [|y l Hl IH Hy]; [done|]. simpl.
  destruct (Z.leb_spec (cmp x y) 0) as [H|H]; [done|].
  rewrite (filter_cons _ y), IH, !filter_cons.
  repeat case_decide; try done. exfalso.
  pose proof (cmp_antisym z y). pose proof (cmp_antisym x z).
  assert (cmp x y ≤ 0)%Z; [|lia]. apply (cmp_trans x z y); lia.
Qed.

(** Stability: elements that compare equal keep their relative order. *)
Lemma js_sort_stable z l :
  filter (λ y, cmp z y = 0%Z) (js_sort cmp l) = filter (λ y, cmp z y = 0%Z) l.
Proof.
  unfold js_sort. induction l as [|x l IH]; [done|]. simpl.
  rewrite sort_insert_stable by apply js_sort_sorted.
  rewrite !filter_cons. by rewrite IH.
Qed.
End jssort_lemmas.

(** [c1 || c2]: the second comparator breaks the ties of the first. *)
Definition cmp_or {A} (c1 c2 : A → A → Z) (x y : A) : Z :=
  if decide (c1 x y = 0%Z) then c2 x y else c1 x y.

Lemma cmp_lt_trans {A} (c : A → A → Z) `{!Comparator c} x y z :
  (c x y ≤ 0)%Z → (c y z ≤ 0)%Z → (c x y < 0 ∨ c y z < 0)%Z → (c x z < 0)%Z.
Proof.
  intros H1 H2 H. pose proof (cmp_trans (cmp:=c) x y z H1 H2).
  assert (c x z ≠ 0)%Z; [|lia]. intros E.
  pose proof (cmp_antisym (cmp:=c) x z). pose proof (cmp_antisym (cmp:=c) x y).
  pose proof (cmp_antisym (cmp:=c) y z).
  pose proof (cmp_trans (cmp:=c) y z x). pose proof (cmp_trans (cmp:=c) z x y). lia.
Qed.

#[export] Instance cmp_or_comparator {A} (c1 c2 : A → A → Z) :
  Comparator c1 → Comparator c2 → Comparator (cmp_or c1 c2).
Proof.
  intros H1 H2. split; unfold cmp_or.
  - intros x y. pose proof (cmp_antisym (cmp:=c1) x y).
    repeat case_decide; try lia. apply cmp_antisym.
  - intros x y z Hxy Hyz.
    assert (Hx : (c1 x y ≤ 0)%Z) by (destruct (decide (c1 x y = 0%Z)); lia).
    assert (Hy : (c1 y z ≤ 0)%Z) by (destruct (decide (c1 y z = 0%Z)); lia).
    destruct (decide (c1 x y < 0 ∨ c1 y z < 0)%Z) as [Hs|Hs].
    + pose proof (cmp_lt_trans c1 x y z Hx Hy Hs). destruct (decide (c1 x z = 0%Z)); lia.
    + assert (c1 x y = 0 ∧ c1 y z = 0)%Z as [E1 E2] by lia.
      rewrite decide_True in Hxy by done. rewrite decide_True in Hyz by done.
      pose proof (cmp_antisym (cmp:=c1) x y). pose proof (cmp_antisym (cmp:=c1) y z).
      pose proof (cmp_antisym (cmp:=c1) x z).
      pose proof (cmp_trans (cmp:=c1) x y z). pose proof (cmp_trans (cmp:=c1) z y x).
      rewrite decide_True by lia. by eapply cmp_trans.
Qed.

(** Comparing by a key. *)
#[export] Instance cmp_key_comparator {A B} (f : A → B) (c : B → B → Z) :
  Comparator c → Comparator (λ x y, c (f x) (f y)).
Proof. intros Hc. split; intros; [apply cmp_antisym|by eapply cmp_trans]. Qed.

(** Larger numbers first. *)
#[export] Instance cmp_desc_comparator {A} (f : A → Z) :
  Comparator (λ x y, f y - f x)%Z.
Proof. split; intros; lia. Qed.

(** ** Strongly sorted lists *)

Section sorted_lists.
Context {A : Type}.
Implicit Types (R S : A → A → Prop) (l : list A).

Lemma StronglySorted_impl R S l :
  (∀ x y, R x y → S x y) → StronglySorted R l → StronglySorted S l.
Proof.
  intros HRS. induction 1 as [|x l Hl IH Hx]; [constructor|].
  constructor; [done|]. eapply Forall_impl; [exact Hx|]. auto.
Qed.

Lemma StronglySorted_lookup R l i j x y :
  StronglySorted R l → l !! i = Some x → l !! j = Some y → i < j → R x y.
Proof.
  intros Hl. revert i j x y. induction Hl as [|z l Hl IH Hz]; [done|].
  intros [|i] [|j] x y; simpl; intros; simplify_eq; try lia.
  - rewrite Forall_lookup in Hz. eauto.
  - apply (IH i j); [done..|lia].
Qed.

Lemma StronglySorted_insert R k1 k2 m :
  StronglySorted R (k1 ++ k2) → Forall (λ y, R y m) k1 → Forall (R m) k2 →
  StronglySorted R (k1 ++ m :: k2).
Proof.
  rewrite !StronglySorted_app, StronglySorted_cons, !Forall_forall.
  intros (Hc & H1 & H2) Hk1 Hk2. split_and!; [|done..].
  intros x y Hx [->|Hy]%elem_of_cons; eauto.
Qed.

Lemma StronglySorted_remove R k1 k2 m :
  StronglySorted R (k1 ++ m :: k2) → StronglySorted R (k1 ++ k2).
Proof.
  rewrite !StronglySorted_app, StronglySorted_cons. set_solver.
Qed.

(** In a sorted list without duplicates, the pairs are of distinct members. *)
Lemma StronglySorted_distinct R l :
  StronglySorted R l → NoDup l →
  StronglySorted (λ x y, R x y ∧ x ≠ y ∧ x ∈ l ∧ y ∈ l) l.
Proof.
  induction 1 as [|x l Hl IH Hx]; [constructor|]. intros [Hn Hnd]%NoDup_cons.
  constructor.
  - eapply StronglySorted_impl; [|by apply IH]. simpl. set_solver.
  - rewrite Forall_forall in *. intros y Hy. split_and!; [by apply Hx| |set_solver..].
    by intros ->.
Qed.

Lemma StronglySorted_bind {B} (R : B → B → Prop) (f : A → list B) l :
  (∀ x, x ∈ l → StronglySorted R (f x)) →
  StronglySorted (λ x y, ∀ a b, a ∈ f x → b ∈ f y → R a b) l →
  StronglySorted R (l ≫= f).
Proof.
  intros Hf. induction 1 as [|x l Hl IH Hx]; [constructor|].
  rewrite bind_cons. apply StronglySorted_app. split_and!.
  - intros a b Ha (y & Hb & Hy)%list_elem_of_bind.
    rewrite Forall_forall in Hx. by eapply Hx.
  - apply Hf. set_solver.
  - apply IH. intros y Hy. apply Hf. set_solver.
Qed.
End sorted_lists.

(** ** The locale's collation

    [String.prototype.localeCompare] is the platform's collator.  The code
    relies on its being a consistent comparator, nothing else. *)
Class Collator := {
  localeCompare : jsstring → jsstring → Z;
  localeCompare_comparator :: Comparator localeCompare;
}.

(** Comparison by code units ([<] on strings): a concrete collator. *)
Fixpoint unit_compare (s t : jsstring) : Z :=
  match s, t with
  | [], [] => 0
  | [], _ :: _ => -1
  | _ :: _, [] => 1
  | c :: s', d :: t' =>
      if (c <? d)%N then -1 else if (d <? c)%N then 1 else unit_compare s' t'
  end%Z.

Definition str_gt (s t : jsstring) : bool := (0 <? unit_compare s t)%Z.

Lemma unit_compare_antisym s t : unit_compare t s = (- unit_compare s t)%Z.
Proof.
  revert t. induction s as [|c s IH]; intros [|d t]; simpl; [done..|].
  destruct (N.ltb_spec c d), (N.ltb_spec d c); try lia; auto.
Qed.

Lemma unit_compare_trans s t r :
  (unit_compare s t ≤ 0)%Z → (unit_compare t r ≤ 0)%Z → (unit_compare s r ≤ 0)%Z.
Proof.
  revert t r. induction s as [|c s IH]; intros [|d t] [|e r]; simpl; try lia.
  destruct (N.ltb_spec c d), (N.ltb_spec d c), (N.ltb_spec d e), (N.ltb_spec e d),
    (N.ltb_spec c e), (N.ltb_spec e c); try lia; eauto.
Qed.

Lemma unit_compare_eq s t : unit_compare s t = 0%Z → s = t.
Proof.
  revert t. induction s as [|c s IH]; intros [|d t]; simpl; try done.
  destruct (N.ltb_spec c d), (N.ltb_spec d c); try done.
  intros. f_equal; [lia|auto].
Qed.

#[export] Instance unit_comparator : Comparator unit_compare.
Proof.
  split; [|apply unit_compare_trans].
  intros x y. rewrite unit_compare_antisym. lia.
Qed.

Definition unit_collator : Collator := {| localeCompare := unit_compare |}.

(** ** Array helpers *)

(** [l.splice(i, 0, x)] and [l.splice(i, 1)] for an index in range. *)
Definition insert_at {A} (i : nat) (x : A) (l : list A) : list A := take i l ++ x :: drop i l.
Definition remove_at {A} (i : nat) (l : list A) : list A := take i l ++ drop (S i) l.

Definition findIndex {A} (P : A → bool) (l : list A) : option nat :=
  fst <$> list_find (λ x, P x = true) l.

Lemma insert_at_perm {A} i (x : A) l : insert_at i x l ≡ₚ x :: l.
Proof.
  unfold insert_at. rewrite <- Permutation_middle. by rewrite take_drop.
Qed.

Lemma remove_at_perm {A} i (x : A) l : l !! i = Some x → l ≡ₚ x :: remove_at i l.
Proof.
  intros H. unfold remove_at. rewrite Permutation_middle.
  by rewrite take_drop_middle.
Qed.

Lemma find_Some_1 {A} (P : A → bool) l x : List.find P l = Some x → x ∈ l ∧ P x = true.
Proof. intros H. apply find_some in H as [H1 H2]. by rewrite list_elem_of_In. Qed.

Lemma find_None_1 {A} (P : A → bool) l x : List.find P l = None → x ∈ l → P x = false.
Proof. intros H Hx. eapply find_none; [exact H|]. by rewrite <- list_elem_of_In. Qed.

Lemma findIndex_Some {A} (P : A → bool) l i :
  findIndex P l = Some i → ∃ x, l !! i = Some x ∧ P x = true.
Proof.
  unfold findIndex. intros H. apply fmap_Some in H as ([j x] & H & ->).
  apply list_find_Some in H as (? & ? & _). eauto.
Qed.

Lemma findIndex_None {A} (P : A → bool) l :
  findIndex P l = None ↔ ∀ x, x ∈ l → P x = false.
Proof.
  unfold findIndex. rewrite fmap_None, list_find_None, Forall_forall.
  split; intros H x Hx; specialize (H x Hx); by destruct (P x).
Qed.

Lemma findIndex_cons {A} (P : A → bool) x l :
  findIndex P (x :: l) = if P x then Some 0 else S <$> findIndex P l.
Proof.
  unfold findIndex. cbn. destruct (P x) eqn:E; [by rewrite decide_True|]. rewrite decide_False by done.
  by destruct (list_find _ l) as [[]|].
Qed.

Lemma existsb_spec {A} (P : A → bool) l : existsb P l = true ↔ ∃ x, x ∈ l ∧ P x = true.
Proof. rewrite existsb_exists. by setoid_rewrite list_elem_of_In. Qed.

Lemma existsb_false {A} (P : A → bool) l : existsb P l = false ↔ ∀ x, x ∈ l → P x = false.
Proof.
  split.
  - intros H x Hx. apply not_true_is_false. intros HP.
    assert (existsb P l = true) by (apply existsb_spec; eauto). congruence.
  - intros H. apply not_true_is_false. intros [x [Hx HP]]%existsb_spec.
    rewrite H in HP by done. done.
Qed.

Lemma forallb_spec {A} (P : A → bool) l : forallb P l = true ↔ ∀ x, x ∈ l → P x = true.
Proof. rewrite forallb_forall. by setoid_rewrite list_elem_of_In. Qed.

(** ** [Array.prototype.filter] *)

Lemma sublist_elem_of {A} (l k : list A) x : x ∈ l → l `sublist_of` k → x ∈ k.
Proof.
  intros Hx. induction 1 as [|y l k _ IH|y l k _ IH]; [done|..]; set_solver.
Qed.

Lemma sublist_fmap {A B} (f : A → B) (l k : list A) : l `sublist_of` k → f <$> l `sublist_of` f <$> k.
Proof. induction 1; rewrite ?fmap_cons; by constructor. Qed.

Lemma sublist_Forall {A} (P : A → Prop) (l k : list A) : l `sublist_of` k → Forall P k → Forall P l.
Proof. rewrite !Forall_forall. intros Hl Hk x Hx. eapply Hk, sublist_elem_of; eauto. Qed.

(** Members with the same key are the same member. *)
Lemma NoDup_fmap_inj {A B} (f : A → B) (l : list A) x y :
  NoDup (f <$> l) → x ∈ l → y ∈ l → f x = f y → x = y.
Proof.
  induction l as [|z l IH]; [set_solver|]. rewrite fmap_cons, NoDup_cons. intros [Hz Hn] Hx Hy E.
  apply elem_of_cons in Hx as [->|Hx], Hy as [->|Hy]; [done|..|by apply IH]; destruct Hz;
    [rewrite E|rewrite <- E]; by apply list_elem_of_fmap_2.
Qed.

Lemma filter_In_elem {A} (P : A → bool) l x : x ∈ List.filter P l ↔ x ∈ l ∧ P x = true.
Proof. by rewrite !list_elem_of_In, filter_In. Qed.
Lemma filter_sublist {A} (P : A → bool) l : List.filter P l `sublist_of` l.
Proof. induction l as [|x l IH]; simpl; [done|]. destruct (P x); by constructor. Qed.
Lemma NoDup_filter_list {A} (P : A → bool) l : NoDup l → NoDup (List.filter P l).
Proof. intros. by eapply sublist_NoDup, filter_sublist. Qed.
Lemma NoDup_fmap_filter {A B} (f : A → B) (P : A → bool) l : NoDup (f <$> l) → NoDup (f <$> List.filter P l).
Proof. intros. by eapply sublist_NoDup, sublist_fmap, filter_sublist. Qed.
#[export] Hint Resolve filter_sublist sublist_fmap sublist_Forall NoDup_filter_list NoDup_fmap_filter sof_NoDup
  mof_NoDup : dolgate.
#[export] Hint Rewrite @elem_sof @shas_spec @filter_In_elem @existsb_spec @forallb_spec : dolgate_reflect.

Lemma filter_split {A} (P : A → bool) l :
  List.filter (λ x, negb (P x)) l ++ List.filter P l ≡ₚ l.
Proof.
  induction l as [|x l IH]; simpl; [done|].
  destruct (P x); simpl; [rewrite <- Permutation_middle|]; by rewrite IH.
Qed.

Lemma NoDup_app_middle_2 {A} (l k : list A) x : NoDup (l ++ x :: k) → NoDup (l ++ k).
Proof. rewrite <- Permutation_middle. by intros [_ ?]%NoDup_cons. Qed.

Lemma filter_all {A} (P : A → bool) l : (∀ x, x ∈ l → P x = true) → List.filter P l = l.
Proof.
  induction l as [|x l IH]; simpl; [done|]. intros HP. rewrite HP by by left.
  f_equal. apply IH. intros. apply HP. by right.
Qed.
Lemma filter_none {A} (P : A → bool) l : (∀ x, x ∈ l → P x = false) → List.filter P l = [].
Proof.
  induction l as [|x l IH]; simpl; [done|]. intros HP. rewrite HP by by left.
  apply IH. intros. apply HP. by right.
Qed.

Lemma eq_perm {A} (l k : list A) : l = k → l ≡ₚ k.
Proof. by intros ->. Qed.
