(* ===== verification/JsNumber.v ===== *)
(** * JavaScript numbers

    A number is an IEEE 754 binary64 value, kept as Stdlib's executable
    [spec_float] (53 bits of mantissa, exponents up to 1024): NaN and the
    infinities are there because the code tests for them.  Counters and ports the
    code only ever sets to integers are plain [Z] elsewhere. *)

From Stdlib Require Export SpecFloat.
From S2P Require Import Prelude.

Abbreviation number := spec_float.

Definition prec : Z := 53.
Definition emax : Z := 1024.

(** An integer literal, and the literal [p/q] rounded to nearest. *)
Definition num_of_Z (z : Z) : number :=
  match z with
  | Z0 => S754_zero false
  | Zpos p => binary_normalize prec emax (Zpos p) 0 false
  | Zneg p => binary_normalize prec emax (Zneg p) 0 false
  end.
Definition num_frac (p q : Z) : number := SFdiv prec emax (num_of_Z p) (num_of_Z q).

Definition isNaN (x : number) : bool := match x with S754_nan => true | _ => false end.
Definition isFinite (x : number) : bool :=
  match x with S754_nan | S754_infinity _ => false | _ => true end.

Definition num_lt (x y : number) : bool := SFltb x y.
Definition num_le (x y : number) : bool := SFleb x y.

(** [Math.max(a, b)] and [Math.min(a, b)]: NaN if either is; the two zeros are not
    told apart. *)
Definition math_max (a b : number) : number :=
  if isNaN a || isNaN b then S754_nan else if num_lt a b then b else a.
Definition math_min (a b : number) : number :=
  if isNaN a || isNaN b then S754_nan else if num_lt b a then b else a.

Definition clamp (lo hi x : number) : number := math_min hi (math_max lo x).

(** The integer a number is, if it is one, and [Number.MAX_SAFE_INTEGER]. *)
Definition integer_of (x : number) : option Z :=
  match x with
  | S754_zero _ => Some 0%Z
  | S754_finite s m e =>
      let v := cond_Zopp s (Zpos m) in
      if (0 <=? e)%Z then Some (v * 2 ^ e)%Z
      else if (v mod 2 ^ (- e) =? 0)%Z then Some (v / 2 ^ (- e))%Z else None
  | _ => None
  end.
Definition MAX_SAFE_INTEGER : Z := 2 ^ 53 - 1.

(** [Math.round]: the nearest integer, ties upwards; a number that is not finite is
    not an integer, and is 0 here. *)
Definition math_round (x : number) : Z :=
  match x with
  | S754_finite s m e =>
      let v := cond_Zopp s (Zpos m) in
      if (0 <=? e)%Z then v * 2 ^ e else (2 * v + 2 ^ (- e)) / (2 * 2 ^ (- e))
  | _ => 0
  end.

#[export] Instance number_eq_dec : EqDecision number.
Proof. solve_decision. Defined.

Lemma SFcompare_antisym x y : SFcompare y x = (CompOpp <$> SFcompare x y).
Proof.
  destruct x as [s|s| |s m e], y as [s'|s'| |s' m' e']; simpl; try done;
    try (by destruct s); try (by destruct s'); try (by destruct s, s').
  destruct s, s'; simpl; try done; rewrite (Z.compare_antisym e e');
    destruct (Z.compare e e'); simpl; try done;
    rewrite (Pos.compare_cont_antisym m m'); simpl; by destruct (Pos.compare_cont Eq m m').
Qed.

Lemma SFcompare_None x y : SFcompare x y = None ↔ isNaN x = true ∨ isNaN y = true.
Proof.
  destruct x as [s|s| |s m e], y as [s'|s'| |s' m' e']; simpl;
    try destruct s; try destruct s'; simpl; try (destruct (Z.compare _ _));
    try destruct (Pos.compare_cont _ _ _); simpl; naive_solver.
Qed.

Lemma num_le_not_lt x y : isNaN x = false → isNaN y = false →
  num_le x y = negb (num_lt y x).
Proof.
  intros Hx Hy. unfold num_le, num_lt, SFleb, SFltb. rewrite (SFcompare_antisym x y).
  destruct (SFcompare x y) as [[]|] eqn:E; try done. apply SFcompare_None in E as [?|?]; congruence.
Qed.

Lemma num_le_refl x : isNaN x = false → num_le x x = true.
Proof.
  intros Hx. rewrite num_le_not_lt by done. unfold num_lt, SFltb.
  pose proof (SFcompare_antisym x x) as E. destruct (SFcompare x x) as [[]|]; done.
Qed.

Lemma num_lt_asym x y : num_lt x y = true → num_lt y x = false.
Proof.
  unfold num_lt, SFltb. rewrite (SFcompare_antisym x y). by destruct (SFcompare x y) as [[]|].
Qed.

Lemma num_lt_le x y : num_lt x y = true → num_le x y = true.
Proof. unfold num_lt, num_le, SFltb, SFleb. by destruct (SFcompare x y) as [[]|]. Qed.

(** Clamping a number that is not NaN lands in the interval and is stable. *)
Lemma clamp_range lo hi x : isNaN lo = false → isNaN hi = false → isNaN x = false →
  num_le lo hi = true →
  num_le lo (clamp lo hi x) = true ∧ num_le (clamp lo hi x) hi = true
  ∧ isNaN (clamp lo hi x) = false.
Proof.
  intros Hl Hh Hx Hlh. unfold clamp, math_max, math_min. rewrite Hl, Hx, Hh. simpl.
  destruct (num_lt lo x) eqn:E1; simpl.
  - rewrite Hx. destruct (num_lt x hi) eqn:E2; simpl.
    + split_and!; [by apply num_lt_le..|done].
    + split_and!; [done| |done]. by apply num_le_refl.
  - rewrite Hl. destruct (num_lt lo hi) eqn:E2; simpl.
    + split_and!; [by apply num_le_refl|done|done].
    + split_and!; [done|by apply num_le_refl|done].
Qed.

Definition isZero (x : number) : bool := match x with S754_zero _ => true | _ => false end.

Lemma SFcompare_Eq x y : SFcompare x y = Some Eq → isZero x = false → x = y.
Proof.
  destruct x as [s|s| |s m e], y as [s'|s'| |s' m' e']; simpl; try done;
    try (by destruct s); try (by destruct s'); try (by destruct s, s').
  destruct s, s'; simpl; try done; intros Hc _;
    destruct (Z.compare_spec e e'); try done; subst; simpl in Hc;
    assert (m = m') by (apply Pos.compare_eq; unfold Pos.compare;
      destruct (Pos.compare_cont Eq m m'); simpl in Hc; congruence); by subst.
Qed.

Lemma clamp_id lo hi x : isZero lo = false → isZero hi = false →
  isNaN lo = false → isNaN hi = false → isNaN x = false →
  num_le lo x = true → num_le x hi = true → clamp lo hi x = x.
Proof.
  intros Zl Zh Hl Hh Hx H1 H2. unfold clamp, math_max, math_min. rewrite Hl, Hx, Hh. simpl.
  assert ((if num_lt lo x then x else lo) = x) as ->.
  { unfold num_lt, num_le, SFltb, SFleb in *. destruct (SFcompare lo x) as [[]|] eqn:E; try done.
    by apply SFcompare_Eq. }
  rewrite Hx. unfold num_lt, num_le, SFltb, SFleb in *.
  rewrite (SFcompare_antisym hi x) in H2 |- *.
  destruct (SFcompare hi x) as [[]|] eqn:E; simpl in *; try done.
  by apply SFcompare_Eq in E.
Qed.
