(* ===== verification/Json.v ===== *)
(** * JSON values

    What [typeof], [Array.isArray] and property access can tell apart of a value the
    program has not checked yet ([unknown] in the source), and the accessors
    its validators use. *)

From S2P Require Import Prelude Collections JsNumber.

Inductive JValue :=
| JUndefined
| JNull
| JBool (b : bool)
| JNum (x : number)
| JStr (s : jsstring)
| JArr (l : list JValue)
| JObj (fields : list (jsstring * JValue)).

(** [v as Record<string, unknown>] when [v] is a plain object. *)
Definition as_object (v : JValue) : option (list (jsstring * JValue)) :=
  match v with JObj fields => Some fields | _ => None end.
Definition field (k : string) (fields : list (jsstring * JValue)) : JValue :=
  default JUndefined (mget (js k) fields).
Definition as_string (v : JValue) : option jsstring :=
  match v with JStr s => Some s | _ => None end.
(** [typeof v === 'string' && v.trim()] *)
Definition nonblank (v : JValue) : option jsstring :=
  match v with JStr s => if truthy (js_trim s) then Some s else None | _ => None end.
Definition is_str (v : JValue) (s : string) : bool :=
  match v with JStr t => bool_decide (t = js s) | _ => false end.

(** [typeof v === 'string'] *)
Definition is_string (v : JValue) : bool := match v with JStr _ => true | _ => false end.
(** [v === undefined] *)
Definition is_undefined (v : JValue) : bool := match v with JUndefined => true | _ => false end.
(** [v === z] for an integer literal. *)
Definition is_int (v : JValue) (z : Z) : bool :=
  match v with JNum x => match integer_of x with Some y => bool_decide (y = z) | None => false end | _ => false end.
(** [typeof v === 'number' && Number.isSafeInteger(v) && v >= 0] *)
Definition is_count (v : JValue) : bool :=
  match v with
  | JNum x => match integer_of x with Some y => (0 <=? y)%Z && (y <=? MAX_SAFE_INTEGER)%Z | None => false end
  | _ => false
  end.
