(* ===== verification/Models.v ===== *)
(** * The shared data model (packages/shared-core/src/models.ts)

    Hosts, groups and what the groups of operations below read of them.  An
    optional or nullable field ([T | null | undefined]) is an [option]; a closed
    union of string literals that the code only stores is kept as its string. *)

From S2P Require Import Prelude Collections.

(** ** Hosts *)

Inductive AuthType := password | privateKey | keyboardInteractive | certificate | agent.

Inductive HostStartupCommand :=
| StartupCommand (command : jsstring)
| StartupSnippet (snippetId : jsstring).

Record HostEnvVar := { env_key : jsstring; env_value : jsstring }.

Record HostDetectedOs := {
  os_id : jsstring; os_like : option jsstring; os_prettyName : option jsstring }.

(** The fields every kind of host has. *)
Record HostBaseRecord := {
  h_id : jsstring;
  h_label : jsstring;
  h_groupName : option jsstring;
  h_tags : option (list jsstring);
  h_terminalThemeId : option jsstring;
  h_favorite : option bool;
  h_detectedOs : option HostDetectedOs;
  h_createdAt : jsstring;
  h_updatedAt : jsstring;
}.

Record SshHostRecord := {
  ssh_tailnetId : option jsstring;
  ssh_hostname : jsstring;
  ssh_port : Z;
  ssh_username : jsstring;
  ssh_authType : AuthType;
  ssh_privateKeyPath : option jsstring;
  ssh_certificatePath : option jsstring;
  ssh_secretRef : option jsstring;
  ssh_jumpHostId : option jsstring;
  ssh_jumpHostIds : option (list jsstring);
  ssh_startupCommand : option HostStartupCommand;
  ssh_useMosh : option bool;
  ssh_agentForwarding : option bool;
  ssh_env : option (list HostEnvVar);
}.

Record RdpMonitorSelection := {
  mon_id : Z; mon_label : jsstring; mon_width : Z; mon_height : Z }.
Record RdpDriveShare := { drive_path : jsstring; drive_readOnly : option bool }.
Record RdpAwsSsmTarget := {
  ssm_profileId : option jsstring; ssm_profileName : jsstring;
  ssm_region : jsstring; ssm_instanceId : jsstring }.

Record RdpHostRecord := {
  rdp_hostname : jsstring;
  rdp_port : Z;
  rdp_secretRef : option jsstring;
  rdp_certificateFingerprint : option jsstring;
  rdp_drives : option (list RdpDriveShare);
  rdp_drivePath : option jsstring;
  rdp_driveReadOnly : option bool;
  rdp_adminSession : option bool;
  rdp_monitors : option (list RdpMonitorSelection);
  rdp_useAllMonitors : option bool;
  rdp_audioEnabled : option bool;
  rdp_microphoneEnabled : option bool;
  rdp_cameraEnabled : option bool;
  rdp_clipboardEnabled : option bool;
  rdp_colorDepth : option Z;
  rdp_tailnetId : option jsstring;
  rdp_awsSsm : option RdpAwsSsmTarget;
}.

Inductive VncImageQuality := lossless | balanced | fast.

Record VncHostRecord := {
  vnc_hostname : jsstring;
  vnc_port : Z;
  vnc_secretRef : option jsstring;
  vnc_shared : option bool;
  vnc_viewOnly : option bool;
  vnc_tailnetId : option jsstring;
  vnc_sshTunnelHostId : option jsstring;
  vnc_imageQuality : option VncImageQuality;
}.

Record AwsEc2HostRecord := {
  ec2_awsProfileId : option jsstring;
  ec2_awsProfileName : jsstring;
  ec2_awsRegion : jsstring;
  ec2_awsInstanceId : jsstring;
  ec2_awsAvailabilityZone : option jsstring;
  ec2_awsInstanceName : option jsstring;
  ec2_awsPlatform : option jsstring;
  ec2_awsPrivateIp : option jsstring;
  ec2_awsState : option jsstring;
  ec2_awsSshUsername : option jsstring;
  ec2_awsSshPort : option Z;
  ec2_awsSshMetadataStatus : option jsstring;
  ec2_awsSshMetadataError : option jsstring;
  ec2_awsSsmServerProxyEnabled : option bool;
  ec2_agentForwarding : option bool;
  ec2_startupCommand : option HostStartupCommand;
}.

Record AwsEcsHostRecord := {
  ecs_awsProfileId : option jsstring;
  ecs_awsProfileName : jsstring;
  ecs_awsRegion : jsstring;
  ecs_awsEcsClusterArn : jsstring;
  ecs_awsEcsClusterName : jsstring;
}.

Record WarpgateSshHostRecord := {
  wg_warpgateBaseUrl : jsstring;
  wg_warpgateSshHost : jsstring;
  wg_warpgateSshPort : Z;
  wg_warpgateTargetId : jsstring;
  wg_warpgateTargetName : jsstring;
  wg_warpgateUsername : jsstring;
  wg_startupCommand : option HostStartupCommand;
}.

Inductive SerialTransport := local | raw_tcp | rfc2217.

Record SerialHostRecord := {
  ser_transport : SerialTransport;
  ser_devicePath : option jsstring;
  ser_host : option jsstring;
  ser_port : option Z;
  ser_baudRate : Z;
  ser_dataBits : Z;
  ser_parity : jsstring;
  ser_stopBits : jsstring;
  ser_flowControl : jsstring;
  ser_transmitLineEnding : jsstring;
  ser_localEcho : bool;
  ser_localLineEditing : bool;
}.

(** [HostRecord] is a union discriminated by [kind]. *)
Inductive HostDetails :=
| HSsh (r : SshHostRecord)
| HAwsEc2 (r : AwsEc2HostRecord)
| HAwsEcs (r : AwsEcsHostRecord)
| HWarpgate (r : WarpgateSshHostRecord)
| HSerial (r : SerialHostRecord)
| HRdp (r : RdpHostRecord)
| HVnc (r : VncHostRecord).

Record HostRecord := { h_base : HostBaseRecord; h_details : HostDetails }.

Definition host_id (h : HostRecord) : jsstring := h_id (h_base h).
Definition groupName (h : HostRecord) : option jsstring := h_groupName (h_base h).
Definition host_updatedAt (h : HostRecord) : jsstring := h_updatedAt (h_base h).

(** [{ ...host, groupName, updatedAt }] *)
Definition host_with_group (h : HostRecord) (g : option jsstring) (ts : jsstring) : HostRecord :=
  {| h_base := {| h_id := h_id (h_base h); h_label := h_label (h_base h);
                  h_groupName := g; h_tags := h_tags (h_base h);
                  h_terminalThemeId := h_terminalThemeId (h_base h);
                  h_favorite := h_favorite (h_base h);
                  h_detectedOs := h_detectedOs (h_base h);
                  h_createdAt := h_createdAt (h_base h); h_updatedAt := ts |};
     h_details := h_details h |}.

Definition isSshHostRecord (h : HostRecord) : bool :=
  match h_details h with HSsh _ => true | _ => false end.
Definition isAwsEc2HostRecord (h : HostRecord) : bool :=
  match h_details h with HAwsEc2 _ => true | _ => false end.
Definition isAwsEcsHostRecord (h : HostRecord) : bool :=
  match h_details h with HAwsEcs _ => true | _ => false end.
Definition isWarpgateSshHostRecord (h : HostRecord) : bool :=
  match h_details h with HWarpgate _ => true | _ => false end.
Definition isSerialHostRecord (h : HostRecord) : bool :=
  match h_details h with HSerial _ => true | _ => false end.
Definition isRdpHostRecord (h : HostRecord) : bool :=
  match h_details h with HRdp _ => true | _ => false end.
Definition isVncHostRecord (h : HostRecord) : bool :=
  match h_details h with HVnc _ => true | _ => false end.

(** The credential a host points at. *)
Definition getHostSecretRef (h : HostRecord) : option jsstring :=
  match h_details h with
  | HSsh r => ssh_secretRef r
  | HRdp r => rdp_secretRef r
  | HVnc r => vnc_secretRef r
  | _ => None
  end.

(** The ProxyJump chain: the new field when it is a non-empty array, otherwise
    the legacy single hop; empty ids and repetitions dropped, order kept.  A
    [null] or [undefined] entry is [None]. *)
Definition jump_source (jumpHostIds : option (list (option jsstring)))
    (legacyJumpHostId : option jsstring) : list (option jsstring) :=
  match jumpHostIds with
  | Some (x :: l) => x :: l
  | _ => match opt_truthy legacyJumpHostId with Some id => [Some id] | None => [] end
  end.

Definition jump_step (acc : list jsstring) (id : option jsstring) : list jsstring :=
  match id with
  | Some (c :: s) => sadd (c :: s) acc
  | _ => acc
  end.

Definition normalizeJumpHostIds (jumpHostIds : option (list (option jsstring)))
    (legacyJumpHostId : option jsstring) : list jsstring :=
  foldl jump_step [] (jump_source jumpHostIds legacyJumpHostId).

Inductive PaneKind := pane_terminal | pane_rdp | pane_vnc.
#[export] Instance PaneKind_eq_dec : EqDecision PaneKind.
Proof. solve_decision. Defined.

Definition isSplittablePaneKind (paneKind : option PaneKind) : bool :=
  bool_decide (paneKind ≠ Some pane_rdp ∧ paneKind ≠ Some pane_vnc).

(** ** Groups *)

Record GroupRecord := {
  g_id : jsstring;
  g_name : jsstring;
  g_path : jsstring;
  g_parentPath : option jsstring;
  g_sortRank : option Z;
  g_createdAt : jsstring;
  g_updatedAt : jsstring;
}.

#[export] Instance GroupRecord_eq_dec : EqDecision GroupRecord.
Proof. solve_decision. Defined.

Inductive GroupRemoveMode := delete_subtree | reparent_descendants.
