(* ===== verification/GroupOrdering.v ===== *)
(** * Manual group order (packages/shared-core/src/group-ordering.ts)

    Sparse integer ranks between siblings, the sibling comparison, the plan of
    rank changes a drag produces, and the store's [setSortRanks] that writes it
    (apps/desktop/src/main/database.ts). *)

From S2P Require Import Prelude Collections Models.

Definition GROUP_RANK_STEP : Z := 1024.

(** What [compareGroupSiblings] reads: a group record, or the bare path of a
    group that only hosts name. *)
Record Sibling := { sb_rank : option Z; sb_path : jsstring; sb_id : option jsstring }.

Definition sibling_of (g : GroupRecord) : Sibling :=
  {| sb_rank := g_sortRank g; sb_path := g_path g; sb_id := Some (g_id g) |}.
Definition sibling_of_path (p : jsstring) : Sibling :=
  {| sb_rank := None; sb_path := p; sb_id := None |}.

Section ordering.
Context `{Collator}.

Definition compareGroupSiblings (left right : Sibling) : Z :=
  match sb_rank left, sb_rank right with
  | Some leftRank, Some rightRank =>
      if decide (leftRank = rightRank)
      then localeCompare (default [] (sb_id left)) (default [] (sb_id right))
      else leftRank - rightRank
  | Some _, None => -1
  | None, Some _ => 1
  | None, None => localeCompare (sb_path left) (sb_path right)
  end%Z.

Definition compareGroups (a b : GroupRecord) : Z :=
  compareGroupSiblings (sibling_of a) (sibling_of b).

Definition nextGroupRank (siblings : list GroupRecord) : Z :=
  let max := foldl (λ max s,
      match g_sortRank s with
      | Some r => match max with
                  | None => Some r
                  | Some m => if (m <? r)%Z then Some r else Some m
                  end
      | None => max
      end) None siblings in
  match max with None => GROUP_RANK_STEP | Some m => m + GROUP_RANK_STEP end%Z.

(** A [GroupRankAssignment] is a pair (id, sortRank). *)
Definition renumber (siblings : list GroupRecord) : list (jsstring * Z) :=
  imap (λ i s, (g_id s, (Z.of_nat i + 1) * GROUP_RANK_STEP)%Z) siblings.

(** The list with the moved group taken out and put back at [targetIndex]. *)
Definition reorder (siblings : list GroupRecord) (from : nat) (moved : GroupRecord)
    (targetIndex : Z) : nat * list GroupRecord :=
  let rest := remove_at from siblings in
  let clamped := Z.to_nat (Z.max 0 (Z.min targetIndex (Z.of_nat (length rest)))) in
  (clamped, insert_at clamped moved rest).

Definition planGroupReorder (siblings : list GroupRecord) (movedId : jsstring)
    (targetIndex : Z) : list (jsstring * Z) :=
  match findIndex (λ s, bool_decide (g_id s = movedId)) siblings with
  | None => []
  | Some from =>
      match siblings !! from with
      | None => []
      | Some moved =>
          let '(clamped, reordered) := reorder siblings from moved targetIndex in
          let before := if (0 <? clamped)%nat then reordered !! (clamped - 1)%nat else None in
          let after := if (clamped + 1 <? length reordered)%nat
                       then reordered !! (clamped + 1)%nat else None in
          let beforeRank := before ≫= g_sortRank in
          let afterRank := after ≫= g_sortRank in
          match before, after, beforeRank, afterRank with
          | None, _, _, Some a => [(g_id moved, a - GROUP_RANK_STEP)]
          | _, None, Some b, _ => [(g_id moved, b + GROUP_RANK_STEP)]
          | None, None, _, _ => [(g_id moved, GROUP_RANK_STEP)]
          | _, _, Some b, Some a =>
              if (1 <? a - b) then [(g_id moved, (b + a) / 2)] else renumber reordered
          | _, _, _, _ => renumber reordered
          end%Z
      end
  end.

Definition hasUnrankedSibling (siblings : list GroupRecord) : bool :=
  existsb (λ s, bool_decide (g_sortRank s = None)) siblings.

Definition seedGroupRanks (siblings : list GroupRecord) : list (jsstring * Z) :=
  renumber siblings.

Definition sortGroupSiblings (siblings : list GroupRecord) : list GroupRecord :=
  js_sort compareGroups siblings.
End ordering.

(** [{ ...record, sortRank, updatedAt }] *)
Definition with_rank (g : GroupRecord) (r : Z) (ts : jsstring) : GroupRecord :=
  {| g_id := g_id g; g_name := g_name g; g_path := g_path g;
     g_parentPath := g_parentPath g; g_sortRank := Some r;
     g_createdAt := g_createdAt g; g_updatedAt := ts |}.

(** What [setSortRanks] does to one record, and to the stored groups. *)
Definition set_rank (rankById : list (jsstring * Z)) (ts : jsstring) (g : GroupRecord) : GroupRecord :=
  match mget (g_id g) rankById with
  | None => g
  | Some r => if decide (g_sortRank g = Some r) then g else with_rank g r ts
  end.

Definition setSortRanks (assignments : list (jsstring * Z)) (ts : jsstring)
    (groups : list GroupRecord) : list GroupRecord :=
  match assignments with
  | [] => groups
  | _ => set_rank (mof assignments) ts <$> groups
  end.

(** ** The comparison *)

Section ordering_facts.
Context `{Collator}.

#[export] Instance compareGroupSiblings_comparator : Comparator compareGroupSiblings.
Proof.
  split.
  - intros x y. unfold compareGroupSiblings.
    destruct (sb_rank x) as [a|], (sb_rank y) as [b|]; try done;
      repeat case_decide; subst; try lia; try done; apply cmp_antisym.
  - intros x y z. unfold compareGroupSiblings.
    destruct (sb_rank x) as [a|], (sb_rank y) as [b|], (sb_rank z) as [c|];
      repeat case_decide; subst; try lia; try done; apply cmp_trans.
Qed.

#[export] Instance compareGroups_comparator : Comparator compareGroups.
Proof.
  split; unfold compareGroups; intros.
  - apply (cmp_antisym (cmp:=compareGroupSiblings)).
  - by eapply (cmp_trans (cmp:=compareGroupSiblings)).
Qed.

Definition before_eq (a b : GroupRecord) : Prop := (compareGroups a b < 0)%Z.

Lemma before_eq_trans a b c : before_eq a b → before_eq b c → before_eq a c.
Proof.
  unfold before_eq. intros H1 H2.
  pose proof (cmp_trans (cmp:=compareGroups) a b c).
  pose proof (cmp_trans (cmp:=compareGroups) c a b).
  pose proof (cmp_antisym (cmp:=compareGroups) a c).
  pose proof (cmp_antisym (cmp:=compareGroups) b c). lia.
Qed.

(** The id and the path of a record are not touched by [set_rank]; its rank is
    the assigned one. *)
Lemma set_rank_id m ts g : g_id (set_rank m ts g) = g_id g.
Proof. unfold set_rank. by repeat case_match. Qed.
Lemma set_rank_path m ts g : g_path (set_rank m ts g) = g_path g.
Proof. unfold set_rank. by repeat case_match. Qed.
Lemma set_rank_rank m ts g :
  g_sortRank (set_rank m ts g)
  = match mget (g_id g) m with Some r => Some r | None => g_sortRank g end.
Proof. unfold set_rank. case_match; [|done]. by case_decide. Qed.

Lemma sibling_of_set_rank m ts g :
  sibling_of (set_rank m ts g)
  = {| sb_rank := match mget (g_id g) m with Some r => Some r | None => g_sortRank g end;
       sb_path := g_path g; sb_id := Some (g_id g) |}.
Proof.
  unfold sibling_of. by rewrite set_rank_id, set_rank_path, set_rank_rank.
Qed.

(** A rank below, above or between those of ranked records orders as expected. *)
Lemma before_ranks a b ra rb :
  g_sortRank a = Some ra → g_sortRank b = Some rb → (ra < rb)%Z → before_eq a b.
Proof.
  intros Ha Hb Hlt. unfold before_eq, compareGroups, compareGroupSiblings. simpl.
  rewrite Ha, Hb. case_decide; lia.
Qed.
Lemma before_unranked a b ra :
  g_sortRank a = Some ra → g_sortRank b = None → before_eq a b.
Proof.
  intros Ha Hb. unfold before_eq, compareGroups, compareGroupSiblings. simpl.
  by rewrite Ha, Hb.
Qed.

(** What a record not after [b] (resp. not before [a]) can be ranked. *)
Lemma before_eq_ranked y b rb :
  y = b ∨ before_eq y b → g_sortRank b = Some rb →
  ∃ ry, g_sortRank y = Some ry ∧ (ry ≤ rb)%Z.
Proof.
  intros [->|Hy] Hb; [by exists rb|].
  unfold before_eq, compareGroups, compareGroupSiblings in Hy. simpl in Hy.
  rewrite Hb in Hy. destruct (g_sortRank y) as [ry|]; [|done].
  exists ry. split; [done|]. case_decide; lia.
Qed.
Lemma after_eq_ranked a y ra :
  y = a ∨ before_eq a y → g_sortRank a = Some ra →
  match g_sortRank y with Some ry => (ra ≤ ry)%Z | None => True end.
Proof.
  intros [->|Hy] Ha; [by rewrite Ha|].
  unfold before_eq, compareGroups, compareGroupSiblings in Hy. simpl in Hy.
  rewrite Ha in Hy. destruct (g_sortRank y) as [ry|]; [|done]. case_decide; lia.
Qed.

(** The new record goes after everything not after [b]. *)
Lemma before_new y b rb m r :
  y = b ∨ before_eq y b → g_sortRank b = Some rb →
  g_sortRank m = Some r → (rb < r)%Z → before_eq y m.
Proof.
  intros Hy Hb Hm Hr. destruct (before_eq_ranked _ _ _ Hy Hb) as (ry & Ey & ?).
  eapply before_ranks; eauto. lia.
Qed.
Lemma after_new a y ra m r :
  y = a ∨ before_eq a y → g_sortRank a = Some ra →
  g_sortRank m = Some r → (r < ra)%Z → before_eq m y.
Proof.
  intros Hy Ha Hm Hr. pose proof (after_eq_ranked _ _ _ Hy Ha) as Hle.
  destruct (g_sortRank y) as [ry|] eqn:Ey; [|by eapply before_unranked].
  eapply before_ranks; eauto. lia.
Qed.

(** A strictly ordered list is what sorting any of its permutations gives. *)
Lemma js_sort_strict l l' :
  StronglySorted before_eq l → l' ≡ₚ l → js_sort compareGroups l' = l.
Proof.
  intros Hl Hp.
  apply (StronglySorted_unique_strong (λ a b, (compareGroups a b ≤ 0)%Z)).
  - intros x y Hx Hy Hxy Hyx.
    rewrite elem_js_sort, Hp in Hx.
    destruct (decide (x = y)) as [|Hne]; [done|]. exfalso.
    apply list_elem_of_lookup in Hx as [i Hi]. apply list_elem_of_lookup in Hy as [j Hj].
    pose proof (StronglySorted_lookup before_eq l) as Hlt.
    pose proof (cmp_antisym (cmp:=compareGroups) x y).
    destruct (lt_eq_lt_dec i j) as [[Hij|Hij]|Hij].
    + pose proof (Hlt _ _ _ _ Hl Hi Hj Hij) as Hb. unfold before_eq in Hb. lia.
    + simplify_eq.
    + pose proof (Hlt _ _ _ _ Hl Hj Hi Hij) as Hb. unfold before_eq in Hb. lia.
  - apply js_sort_sorted, _.
  - eapply StronglySorted_impl; [|exact Hl]. unfold before_eq. intros. lia.
  - by rewrite js_sort_perm.
Qed.

(** ** The plan of a drag *)

Lemma setSortRanks_map asg ts gs : setSortRanks asg ts gs = set_rank (mof asg) ts <$> gs.
Proof.
  destruct asg; [|done]. simpl. rewrite <- (list_fmap_id gs) at 1.
  by apply list_fmap_ext.
Qed.

Lemma findIndex_moved siblings from moved :
  NoDup (g_id <$> siblings) → siblings !! from = Some moved →
  findIndex (λ s, bool_decide (g_id s = g_id moved)) siblings = Some from.
Proof.
  intros Hnd Hf. destruct (findIndex _ siblings) as [i|] eqn:E.
  - apply findIndex_Some in E as (x & Hx & Hid%bool_decide_eq_true). f_equal.
    apply (NoDup_lookup (g_id <$> siblings) _ _ (g_id moved)); [done|..];
      rewrite list_lookup_fmap.
    + rewrite Hx. simpl. by rewrite Hid.
    + by rewrite Hf.
  - rewrite findIndex_None in E. apply list_elem_of_lookup_2 in Hf.
    specialize (E _ Hf). by rewrite bool_decide_eq_false in E.
Qed.

Lemma fmap_middle_notin (k1 k2 : list GroupRecord) moved :
  NoDup (g_id <$> k1 ++ moved :: k2) → g_id moved ∉ g_id <$> (k1 ++ k2).
Proof.
  rewrite !fmap_app, fmap_cons. intros (_ & Hd & [Hm _]%NoDup_cons)%NoDup_app.
  set_solver.
Qed.

(** Where the moved record lands, and what is around it. *)
Lemma reorder_split siblings from moved target clamped reordered :
  siblings !! from = Some moved →
  reorder siblings from moved target = (clamped, reordered) →
  ∃ k1 k2, reordered = k1 ++ moved :: k2 ∧ remove_at from siblings = k1 ++ k2
    ∧ length k1 = clamped.
Proof.
  unfold reorder, insert_at. intros Hf [= <- <-].
  eexists _, _. split; [done|]. rewrite take_drop. split; [done|].
  rewrite length_take. lia.
Qed.

Lemma remove_at_sorted R (siblings : list GroupRecord) from moved :
  siblings !! from = Some moved → StronglySorted R siblings →
  StronglySorted R (remove_at from siblings).
Proof.
  intros Hf Hs. unfold remove_at. apply (StronglySorted_remove R _ _ moved).
  by rewrite take_drop_middle.
Qed.

(** One assignment, ordered against its two neighbours, keeps the list sorted. *)
Lemma single_rank_sorted k1 k2 moved r ts :
  StronglySorted before_eq (k1 ++ k2) →
  g_id moved ∉ g_id <$> (k1 ++ k2) →
  (∀ b, last k1 = Some b → ∃ rb, g_sortRank b = Some rb ∧ (rb < r)%Z) →
  (∀ a, head k2 = Some a → ∃ ra, g_sortRank a = Some ra ∧ (r < ra)%Z) →
  StronglySorted before_eq (set_rank [(g_id moved, r)] ts <$> k1 ++ moved :: k2).
Proof.
  intros Hs Hid Hb Ha. set (m := [(g_id moved, r)]).
  assert (Hother : ∀ l : list GroupRecord, g_id moved ∉ g_id <$> l → set_rank m ts <$> l = l).
  { intros l Hl. rewrite <- (list_fmap_id l) at 2. apply list_fmap_ext.
    intros i x Hx. unfold set_rank, m. cbn [mget].
    rewrite decide_False; [done|]. intros E. apply Hl. rewrite <- E.
    apply list_elem_of_fmap_2. by eapply list_elem_of_lookup_2. }
  rewrite fmap_app in Hid. rewrite fmap_app, fmap_cons, !Hother by set_solver.
  assert (Hm : g_sortRank (set_rank m ts moved) = Some r).
  { rewrite set_rank_rank. unfold m. cbn [mget]. by rewrite decide_True. }
  apply StronglySorted_insert; [done|..]; apply Forall_forall.
  - intros y Hy. destruct (last k1) as [b|] eqn:El; [|by apply last_None in El; subst; set_solver].
    destruct (Hb b eq_refl) as (rb & Erb & Hlt). apply (before_new y b rb _ r); [|done..].
    apply last_Some in El as [k ->]. apply elem_of_app in Hy as [Hy|Hy%list_elem_of_singleton]; [right|subst; by left].
    rewrite <- (assoc_L (++)) in Hs. apply (StronglySorted_app_1_elem_of _ _ _ _ _ Hs Hy). set_solver.
  - intros y Hy. destruct k2 as [|a k2]; [set_solver|].
    destruct (Ha a eq_refl) as (ra & Era & Hlt). apply (after_new a y ra _ r); [|done..].
    apply elem_of_cons in Hy as [->|Hy]; [by left|right].
    apply StronglySorted_app_1_r, StronglySorted_cons in Hs as [Hs _].
    by rewrite Forall_forall in Hs; apply Hs.
Qed.

Lemma renumber_lookup siblings i g :
  NoDup (g_id <$> siblings) → siblings !! i = Some g →
  mget (g_id g) (mof (renumber siblings)) = Some ((Z.of_nat i + 1) * GROUP_RANK_STEP)%Z.
Proof.
  intros Hnd Hg.
  assert (Hk : (renumber siblings).*1 = g_id <$> siblings).
  { unfold renumber. rewrite fmap_imap. apply list_eq. intros j.
    rewrite list_lookup_imap, list_lookup_fmap. by destruct (siblings !! j). }
  rewrite mof_id by by rewrite Hk. apply elem_mget; [by rewrite Hk|].
  apply list_elem_of_lookup. exists i. unfold renumber. by rewrite list_lookup_imap, Hg.
Qed.

(** Renumbering orders the list as it stands. *)
Lemma renumber_sorted siblings ts :
  NoDup (g_id <$> siblings) →
  StronglySorted before_eq (set_rank (mof (renumber siblings)) ts <$> siblings).
Proof.
  intros Hnd.
  assert (Hr : ∀ i g, siblings !! i = Some g →
    g_sortRank (set_rank (mof (renumber siblings)) ts g)
    = Some ((Z.of_nat i + 1) * GROUP_RANK_STEP)%Z).
  { intros i g Hg. rewrite set_rank_rank. by rewrite (renumber_lookup _ i). }
  revert Hr. generalize (set_rank (mof (renumber siblings)) ts). intros f Hr.
  assert (Hgen : ∀ k l, siblings = k ++ l → StronglySorted before_eq (f <$> l)); [|by apply (Hgen [])].
  intros k l. revert k. induction l as [|x l IH]; intros k Hk; [constructor|].
  rewrite fmap_cons. constructor; [apply (IH (k ++ [x])); by rewrite <- (assoc_L (++))|].
  apply Forall_forall. intros y (z & -> & Hz)%list_elem_of_fmap.
  apply list_elem_of_lookup in Hz as [j Hj].
  eapply before_ranks.
  - apply (Hr (length k)). by rewrite Hk, list_lookup_middle.
  - apply (Hr (length k + S j)). rewrite Hk, lookup_app_r by lia.
    by replace (length k + S j - length k) with (S j) by lia.
  - unfold GROUP_RANK_STEP. lia.
Qed.

(** The neighbours [planGroupReorder] looks at are the ends of the two halves. *)
Lemma neighbour_before (k1 k2 : list GroupRecord) moved :
  (if (0 <? length k1)%nat then (k1 ++ moved :: k2) !! (length k1 - 1)%nat else None) = last k1.
Proof.
  destruct (Nat.ltb_spec 0 (length k1)) as [Hl|Hl].
  - rewrite lookup_app_l by lia. by rewrite last_lookup, Nat.sub_1_r.
  - by destruct k1; [|simpl in Hl; lia].
Qed.
Lemma neighbour_after (k1 k2 : list GroupRecord) moved :
  (if (length k1 + 1 <? length (k1 ++ moved :: k2))%nat
   then (k1 ++ moved :: k2) !! (length k1 + 1)%nat else None) = head k2.
Proof.
  rewrite length_app. simpl. rewrite lookup_app_r by lia.
  replace (length k1 + 1 - length k1) with 1 by lia.
  destruct k2; simpl; [by case_match|].
  destruct (Nat.ltb_spec (length k1 + 1) (length k1 + S (S (length k2)))); [done|lia].
Qed.

(** The plan in terms of the two halves around the moved record. *)
Lemma plan_cases siblings from moved target clamped k1 k2 :
  NoDup (g_id <$> siblings) → siblings !! from = Some moved →
  reorder siblings from moved target = (clamped, k1 ++ moved :: k2) →
  length k1 = clamped →
  (∃ r, planGroupReorder siblings (g_id moved) target = [(g_id moved, r)]
    ∧ (∀ b, last k1 = Some b → ∃ rb, g_sortRank b = Some rb ∧ (rb < r)%Z)
    ∧ (∀ a, head k2 = Some a → ∃ ra, g_sortRank a = Some ra ∧ (r < ra)%Z))
  ∨ planGroupReorder siblings (g_id moved) target = renumber (k1 ++ moved :: k2).
Proof.
  intros Hnd Hf Hr Hc. unfold planGroupReorder.
  rewrite (findIndex_moved _ _ _ Hnd Hf), Hf, Hr. subst clamped.
  rewrite neighbour_before, neighbour_after.
  destruct (last k1) as [b|] eqn:Eb, (head k2) as [a|] eqn:Ea; simpl.
  - destruct (g_sortRank b) as [rb|] eqn:Erb, (g_sortRank a) as [ra|] eqn:Era; auto.
    destruct (Z.ltb_spec 1 (ra - rb)); [left|by right].
    exists ((rb + ra) `div` 2)%Z. split; [done|].
    split; intros ? [= <-]; eexists; (split; [done|]).
    + assert (rb + 1 ≤ (rb + ra) `div` 2)%Z; [|lia]. apply Z.div_le_lower_bound; lia.
    + apply Z.div_lt_upper_bound; lia.
  - destruct (g_sortRank b) as [rb|] eqn:Erb; [left|by right].
    eexists; split; [done|]. split; [|done]. intros ? [= <-]. unfold GROUP_RANK_STEP. eexists; split; [done|lia].
  - destruct (g_sortRank a) as [ra|] eqn:Era; [left|by right].
    eexists; split; [done|]. split; [done|]. intros ? [= <-]. unfold GROUP_RANK_STEP. eexists; split; [done|lia].
  - left. eexists; split; [done|]. done.
Qed.


(** Seeding ranks never moves anything: writing [seedGroupRanks] of a list
    with distinct ids and sorting shows the list as it was, ranked or not, in
    any order, and afterwards no sibling is unranked. *)
Theorem seedGroupRanks_keeps_order siblings ts :
  NoDup (g_id <$> siblings) →
  g_id <$> sortGroupSiblings (setSortRanks (seedGroupRanks siblings) ts siblings)
    = g_id <$> siblings
  ∧ hasUnrankedSibling (setSortRanks (seedGroupRanks siblings) ts siblings) = false.
Proof.
  intros Hnd. unfold seedGroupRanks, sortGroupSiblings. rewrite setSortRanks_map. split.
  - rewrite (js_sort_strict _ _ (renumber_sorted siblings ts Hnd)) by done.
    rewrite <- list_fmap_compose. apply list_fmap_ext. intros. apply set_rank_id.
  - apply existsb_false. intros x (g & -> & Hg)%list_elem_of_fmap.
    apply list_elem_of_lookup in Hg as [i Hi].
    rewrite set_rank_rank, (renumber_lookup _ i) by done. by case_bool_decide.
Qed.

Lemma nextGroupRank_max siblings g r :
  g ∈ siblings → g_sortRank g = Some r → (r < nextGroupRank siblings)%Z.
Proof.
  intros Hg Hr. unfold nextGroupRank.
  set (step := λ (max : option Z) (s : GroupRecord), _).
  assert (Hmono : ∀ l m, ∀ v, m = Some v → ∃ v', foldl step m l = Some v' ∧ (v ≤ v')%Z).
  { induction l as [|x l IH]; simpl; intros m v ->; [eexists; split; [done|lia]|].
    destruct (IH (step (Some v) x)
      (match g_sortRank x with Some r => if (v <? r)%Z then r else v | None => v end))
      as (v' & -> & Hv).
    - unfold step. destruct (g_sortRank x); [|done]. by case_match.
    - eexists; split; [done|]. destruct (g_sortRank x); [|done].
      destruct (Z.ltb_spec v z); lia. }
  apply list_elem_of_split in Hg as (l1 & l2 & ->).
  rewrite foldl_app. simpl. set (m := foldl step None l1).
  assert (Hs : ∃ v, step m g = Some v ∧ (r ≤ v)%Z).
  { unfold step. rewrite Hr. destruct m as [v|]; [|eexists; split; [done|lia]].
    destruct (Z.ltb_spec v r); eexists; (split; [done|lia]). }
  destruct Hs as (v & Ev & Hv). destruct (Hmono l2 _ _ Ev) as (v' & -> & ?).
  unfold GROUP_RANK_STEP. lia.
Qed.

(** A group created with [nextGroupRank] is shown after every ranked sibling
    and before every unranked one, whatever the order of the list. *)
Theorem nextGroupRank_last siblings new :
  g_sortRank new = Some (nextGroupRank siblings) →
  ∀ g, g ∈ siblings →
  match g_sortRank g with Some _ => before_eq g new | None => before_eq new g end.
Proof.
  intros Hn g Hg. destruct (g_sortRank g) as [r|] eqn:E.
  - eapply before_ranks; eauto. by eapply nextGroupRank_max.
  - by eapply before_unranked.
Qed.
End ordering_facts.

(** ** Witnesses *)

Section witnesses.
#[local] Existing Instance unit_collator.

Definition demo_group (id path : string) (rank : option Z) : GroupRecord :=
  {| g_id := js id; g_name := js path; g_path := js path; g_parentPath := None;
     g_sortRank := rank; g_createdAt := js "t0"; g_updatedAt := js "t0" |}.

(** Two ranked groups one apart and an unranked one: dropping the last between
    the first two renumbers. *)
Definition demo_siblings : list GroupRecord :=
  [demo_group "a" "A" (Some 1); demo_group "b" "B" (Some 2); demo_group "c" "C" None]%Z.

Example planGroupReorder_demo :
  planGroupReorder demo_siblings (js "c") 1 =
    [(js "a", 1024); (js "c", 2048); (js "b", 3072)]%Z.
Proof. vm_compute. reflexivity. Qed.


Lemma seedGroupRanks_keeps_order_witness :
  g_id <$> sortGroupSiblings (setSortRanks (seedGroupRanks demo_siblings) [] demo_siblings)
    = [js "a"; js "b"; js "c"].
Proof.
  apply (seedGroupRanks_keeps_order demo_siblings []).
  by apply (bool_decide_unpack (NoDup (g_id <$> demo_siblings))).
Defined.

Lemma nextGroupRank_last_witness :
  before_eq (demo_group "b" "B" (Some 2%Z)) (demo_group "d" "D" (Some 1026%Z)).
Proof.
  apply (nextGroupRank_last demo_siblings (demo_group "d" "D" (Some 1026%Z)) eq_refl
    (demo_group "b" "B" (Some 2%Z))).
  apply (bool_decide_unpack (demo_group "b" "B" (Some 2%Z) ∈ demo_siblings)). vm_compute. exact I.
Defined.
End witnesses.
