(* ===== verification/GroupPaths.v ===== *)
(** * Group paths (packages/shared-core/src/group-paths.ts)

    A group is a path of names joined by slashes.  The operations work on the
    strings; the theorems say what they do to the list of segments, which is what
    the rest of the program (group mutations, the sidebar) relies on. *)

From S2P Require Import Prelude Collections Models GroupOrdering.

Definition slash : N := 47.

(** The non-empty trimmed segments of a path, and the path of some segments. *)
Definition clean_segments (groupPath : option jsstring) : list jsstring :=
  filter (λ seg, truthy seg = true) (js_trim <$> js_split slash (default [] groupPath)).

Definition normalizeGroupPath (groupPath : option jsstring) : option jsstring :=
  let normalized := js_join [slash] (clean_segments groupPath) in
  if decide (0 < length normalized) then Some normalized else None.

Definition getParentGroupPath (groupPath : option jsstring) : option jsstring :=
  match normalizeGroupPath groupPath with
  | None => None
  | Some normalized =>
      if negb (includes_unit normalized slash) then None
      else Some (take (default 0 (lastIndexOf slash normalized)) normalized)
  end.

Definition getGroupLabel (groupPath : jsstring) : jsstring :=
  List.last (js_split slash groupPath) [].

Definition isGroupWithinPath (groupPath currentGroupPath : option jsstring) : bool :=
  match opt_truthy currentGroupPath with
  | None => true
  | Some current =>
      match opt_truthy groupPath with
      | None => false
      | Some path => bool_decide (path = current) || startsWith path (current ++ [slash])
      end
  end.

Definition isDirectGroupChild (groupPath : jsstring) (currentGroupPath : option jsstring) : bool :=
  bool_decide (getParentGroupPath (Some groupPath) = currentGroupPath).

Definition isDirectHostChild (groupPath currentGroupPath : option jsstring) : bool :=
  bool_decide (normalizeGroupPath groupPath = currentGroupPath).

Definition filterHostsInGroupTree (hosts : list HostRecord) (currentGroupPath : option jsstring)
    : list HostRecord :=
  List.filter (λ host, isGroupWithinPath (normalizeGroupPath (groupName host)) currentGroupPath) hosts.

Definition appendPathWithAncestors (targetPath : option jsstring) (paths : list jsstring) : list jsstring :=
  match normalizeGroupPath targetPath with
  | None => paths
  | Some normalized =>
      let segments := js_split slash normalized in
      sadd_all ((λ index, js_join [slash] (take (S index) segments)) <$> seq 0 (length segments)) paths
  end.

(** [childrenByParent]: the bucket of each parent, roots under the empty string. *)
Definition parent_key (path : jsstring) : jsstring := default [] (getParentGroupPath (Some path)).

Definition add_child (m : list (jsstring * list jsstring)) (path : jsstring)
    : list (jsstring * list jsstring) :=
  let parent := parent_key path in
  match mget parent m with
  | Some bucket => mset parent (bucket ++ [path]) m
  | None => mset parent [path] m
  end.

Section order.
Context `{Collator}.

Definition sibling_at (recordByPath : list (jsstring * GroupRecord)) (path : jsstring) : Sibling :=
  match mget path recordByPath with
  | Some record => sibling_of record
  | None => sibling_of_path path
  end.

Definition compare_paths (recordByPath : list (jsstring * GroupRecord)) (left right : jsstring) : Z :=
  compareGroupSiblings (sibling_at recordByPath left) (sibling_at recordByPath right).

(** The recursive [emit]; the fuel bounds the depth of the tree. *)
Fixpoint emit (fuel : nat) (recordByPath : list (jsstring * GroupRecord))
    (childrenByParent : list (jsstring * list jsstring)) (parent : jsstring) : list jsstring :=
  match fuel with
  | O => []
  | S fuel =>
      match mget parent childrenByParent with
      | None => []
      | Some children =>
          js_sort (compare_paths recordByPath) children
            ≫= λ path, path :: emit fuel recordByPath childrenByParent path
      end
  end.

Definition recordByPath (groups : list GroupRecord) : list (jsstring * GroupRecord) :=
  mof ((λ group, (g_path group, group)) <$> groups).

Definition orderGroupPaths (allPaths : list jsstring) (groups : list GroupRecord) : list jsstring :=
  emit (S (foldr (λ p n, Nat.max (length p) n) 0 allPaths))
    (recordByPath groups) (foldl add_child [] allPaths) [].

Definition all_group_paths (groups : list GroupRecord) (hosts : list HostRecord)
    (assets : list (option jsstring)) : list jsstring :=
  foldl (λ paths p, appendPathWithAncestors p paths) []
    ((Some ∘ g_path <$> groups) ++ (groupName <$> hosts) ++ assets).

Definition collectGroupPaths (groups : list GroupRecord) (hosts : list HostRecord)
    (assets : list (option jsstring)) : list jsstring :=
  orderGroupPaths (all_group_paths groups hosts assets) groups.

Definition countHostsInGroupTree (hosts : list HostRecord) (groupPath : jsstring) : nat :=
  length (List.filter (λ host,
    match opt_truthy (normalizeGroupPath (groupName host)) with
    | Some p => isGroupWithinPath (Some p) (Some groupPath)
    | None => false
    end) hosts).

Record GroupCardView := { gc_path : jsstring; gc_name : jsstring; gc_hostCount : nat }.

Definition buildVisibleGroups (groups : list GroupRecord) (hosts : list HostRecord)
    (currentGroupPath : option jsstring) : list GroupCardView :=
  (λ groupPath,
    {| gc_path := groupPath;
       gc_name := match mget groupPath (recordByPath groups) with
                  | Some g => g_name g
                  | None => getGroupLabel groupPath
                  end;
       gc_hostCount := countHostsInGroupTree hosts groupPath |})
  <$> List.filter (λ groupPath, isDirectGroupChild groupPath currentGroupPath)
        (collectGroupPaths groups hosts []).

Definition buildGroupOptions (groups : list GroupRecord) (hosts : list HostRecord)
    (extras : list (option jsstring)) : list (option jsstring * jsstring) :=
  let paths := foldl (λ paths extra,
      match normalizeGroupPath extra with
      | Some normalized => sadd normalized paths
      | None => paths
      end) (sof (collectGroupPaths groups hosts [])) extras in
  (None, js "Ungrouped") :: ((λ path, (Some path, path)) <$> js_sort localeCompare paths).
End order.

Definition stripRemovedGroupSegment (groupPath : option jsstring) (removedGroupPath : jsstring)
    : option jsstring :=
  let normalizedGroupPath := normalizeGroupPath groupPath in
  let normalizedRemovedPath := normalizeGroupPath (Some removedGroupPath) in
  match normalizedGroupPath, normalizedRemovedPath with
  | Some path, Some removed =>
      if negb (isGroupWithinPath (Some path) (Some removed)) then normalizedGroupPath
      else
        let parentPath := getParentGroupPath (Some removed) in
        if decide (path = removed) then parentPath
        else
          let suffix := drop (length removed + 1) path in
          normalizeGroupPath (Some match opt_truthy parentPath with
                                   | Some p => p ++ [slash] ++ suffix
                                   | None => suffix
                                   end)
  | _, _ => normalizedGroupPath
  end.

Definition rebaseGroupPath (sourcePath : option jsstring) (fromPath : jsstring)
    (toPath : option jsstring) : option jsstring :=
  let normalizedSourcePath := normalizeGroupPath sourcePath in
  let normalizedFromPath := normalizeGroupPath (Some fromPath) in
  let normalizedToPath := normalizeGroupPath toPath in
  match normalizedSourcePath, normalizedFromPath with
  | Some source, Some from =>
      if negb (isGroupWithinPath (Some source) (Some from)) then normalizedSourcePath
      else if decide (source = from) then normalizedToPath
      else
        let suffix := drop (length from + 1) source in
        normalizeGroupPath (Some match opt_truthy normalizedToPath with
                                 | Some p => p ++ [slash] ++ suffix
                                 | None => suffix
                                 end)
  | _, _ => normalizedSourcePath
  end.

Definition getHostTagsToggleLabel (isExpanded : bool) (tagCount : N) : jsstring :=
  if isExpanded then js "Hide tags" else js "Tags (" ++ show_N tagCount ++ js ")".

Inductive DeleteDialogVariant := simple | with_descendants.
Definition getGroupDeleteDialogVariant (childGroupCount hostCount : nat) : DeleteDialogVariant :=
  if (0 <? childGroupCount)%nat || (0 <? hostCount)%nat then with_descendants else simple.

(** ** Segments *)

(** A segment of a normal path, the path of a list of segments, and back. *)
Definition seg_ok (seg : jsstring) : Prop := seg ≠ [] ∧ slash ∉ seg ∧ js_trim seg = seg.
Definition path_str (l : list jsstring) : jsstring := js_join [slash] l.
Definition path_opt (l : list jsstring) : option jsstring :=
  match l with [] => None | _ => Some (path_str l) end.

Lemma clean_segments_ok g : Forall seg_ok (clean_segments g).
Proof.
  unfold clean_segments. apply Forall_forall. intros seg [Ht Hs]%list_elem_of_filter.
  apply list_elem_of_fmap in Hs as (s & -> & Hs). apply truthy_spec in Ht.
  pose proof (js_split_segments_no_sep slash (default [] g)) as Hn.
  rewrite Forall_forall in Hn. split_and!; [done| |apply js_trim_idemp].
  intros Hc%js_trim_subset. by apply (Hn s).
Qed.

Lemma seg_ok_no_slash l : Forall seg_ok l → Forall (λ seg, slash ∉ seg) l.
Proof. intros Hl. eapply Forall_impl; [exact Hl|]. by intros ? (_ & ? & _). Qed.

Lemma path_str_nonempty l : l ≠ [] → Forall seg_ok l → path_str l ≠ [].
Proof.
  destruct l as [|x l]; [done|]. intros _ [[Hx _] _]%Forall_cons.
  unfold path_str. destruct l; [done|]. rewrite js_join_cons by done.
  by destruct x.
Qed.

Lemma split_path_str l : l ≠ [] → Forall seg_ok l → js_split slash (path_str l) = l.
Proof. intros ? ?%seg_ok_no_slash. by apply js_split_join. Qed.

Lemma path_str_inj l k : Forall seg_ok l → Forall seg_ok k → path_str l = path_str k → l = k.
Proof.
  intros Hl Hk E. destruct l as [|x l], k as [|y k]; [done|..].
  - symmetry in E. by apply path_str_nonempty in E.
  - by apply path_str_nonempty in E.
  - rewrite <- (split_path_str (x :: l)), <- (split_path_str (y :: k)) by done. by rewrite E.
Qed.

Lemma path_opt_Some l : l ≠ [] → path_opt l = Some (path_str l).
Proof. by destruct l. Qed.

Lemma normalize_path_opt g : normalizeGroupPath g = path_opt (clean_segments g).
Proof.
  unfold normalizeGroupPath. pose proof (clean_segments_ok g) as Hok.
  destruct (clean_segments g) as [|x l] eqn:E; [done|].
  rewrite decide_True; [done|]. pose proof (path_str_nonempty (x :: l)) as Hne.
  unfold path_str in Hne. destruct (js_join [slash] (x :: l)); [by destruct Hne|simpl; lia].
Qed.

Lemma clean_segments_path l : Forall seg_ok l → clean_segments (path_opt l) = l.
Proof.
  intros Hl. destruct l as [|x l]; [done|]. unfold clean_segments, path_opt, default, id.
  rewrite split_path_str by done.
  assert (js_trim <$> x :: l = x :: l) as ->.
  { rewrite <- (list_fmap_id (x :: l)) at 2. apply list_fmap_ext.
    intros i s Hs. rewrite Forall_lookup in Hl. by apply Hl in Hs as (_ & _ & ?). }
  induction Hl as [|s k Hs Hk IH]; [done|]. rewrite filter_cons_True; [by rewrite IH|].
  apply truthy_spec. apply Hs.
Qed.

Lemma clean_segments_str l : Forall seg_ok l → clean_segments (Some (path_str l)) = l.
Proof.
  intros Hl. destruct l as [|x l]; [done|].
  rewrite <- path_opt_Some by done. by apply clean_segments_path.
Qed.

Lemma normalize_str l : Forall seg_ok l → normalizeGroupPath (Some (path_str l)) = path_opt l.
Proof. intros Hl. by rewrite normalize_path_opt, clean_segments_str. Qed.

Lemma normalize_opt l : Forall seg_ok l → normalizeGroupPath (path_opt l) = path_opt l.
Proof. intros Hl. by rewrite normalize_path_opt, clean_segments_path. Qed.

Lemma opt_truthy_path_opt l : Forall seg_ok l → opt_truthy (path_opt l) = path_opt l.
Proof.
  intros Hl. destruct l as [|x l]; [done|]. unfold path_opt.
  apply opt_truthy_Some. split; [done|]. by apply path_str_nonempty.
Qed.

Lemma path_opt_inj l k : Forall seg_ok l → Forall seg_ok k → path_opt l = path_opt k → l = k.
Proof.
  intros Hl Hk E. destruct l, k; try done. unfold path_opt in E. simplify_eq.
  by apply path_str_inj.
Qed.

Lemma path_str_app l k : l ≠ [] → k ≠ [] →
  path_str (l ++ k) = path_str l ++ slash :: path_str k.
Proof. apply js_join_app. Qed.

(** Prefix of paths, in segments. *)
Lemma path_prefix l k : l ≠ [] → k ≠ [] → Forall seg_ok l → Forall seg_ok k →
  (path_str l = path_str k ∨ (path_str k ++ [slash]) `prefix_of` path_str l) ↔ k `prefix_of` l.
Proof.
  intros Hl Hk Hlo Hko. split.
  - intros [->%path_str_inj|[r Hr]]; [done..|].
    rewrite <- (assoc_L (++)) in Hr. simpl in Hr.
    apply (f_equal (js_split slash)) in Hr.
    rewrite js_split_app, !split_path_str in Hr by done. rewrite Hr. by apply prefix_app_r.
  - intros [r ->]. destruct (decide (r = [])) as [->|Hr]; [left; by rewrite app_nil_r|right].
    rewrite path_str_app by done. exists (path_str r). by rewrite <- (assoc_L (++)).
Qed.

Lemma within_prefix l k : Forall seg_ok l → Forall seg_ok k →
  isGroupWithinPath (path_opt l) (path_opt k) = bool_decide (k `prefix_of` l).
Proof.
  intros Hl Hk. unfold isGroupWithinPath. rewrite !opt_truthy_path_opt by done.
  destruct k as [|y k]; [by rewrite bool_decide_true by apply prefix_nil|].
  destruct l as [|x l]; unfold path_opt.
  { rewrite bool_decide_false; [done|]. intros [r Hr]. done. }
  apply eq_bool_prop_intro. rewrite orb_True. unfold startsWith. rewrite !bool_decide_spec.
  by apply path_prefix.
Qed.

Lemma parent_path_str k x : Forall seg_ok (k ++ [x]) →
  getParentGroupPath (Some (path_str (k ++ [x]))) = path_opt k.
Proof.
  intros Hl. unfold getParentGroupPath. rewrite normalize_str by done.
  rewrite path_opt_Some by by destruct k.
  apply Forall_app in Hl as [Hk [(_ & Hx & _) _]%Forall_cons].
  unfold includes_unit. destruct (decide (k = [])) as [->|Hne].
  - unfold path_str. simpl. by rewrite bool_decide_false.
  - rewrite path_str_app by done. rewrite bool_decide_true by set_solver.
    change (path_str [x]) with x. rewrite lastIndexOf_app by done. simpl.
    by rewrite take_app_length, path_opt_Some.
Qed.

Lemma getParentGroupPath_normal g : getParentGroupPath (normalizeGroupPath g) = getParentGroupPath g.
Proof.
  unfold getParentGroupPath. rewrite !normalize_path_opt.
  by rewrite clean_segments_path by apply clean_segments_ok.
Qed.

Lemma parent_removelast g :
  getParentGroupPath g = path_opt (removelast (clean_segments g)).
Proof.
  rewrite <- getParentGroupPath_normal, normalize_path_opt.
  pose proof (clean_segments_ok g) as Hok. revert Hok.
  induction (clean_segments g) as [|x l _] using rev_ind; [done|]. intros Hok.
  rewrite removelast_last, path_opt_Some by by destruct l. by apply parent_path_str.
Qed.

Lemma parent_str l : Forall seg_ok l → getParentGroupPath (Some (path_str l)) = path_opt (removelast l).
Proof. intros Hl. by rewrite parent_removelast, clean_segments_str. Qed.

Lemma label_str l : l ≠ [] → Forall seg_ok l → getGroupLabel (path_str l) = List.last l [].
Proof. intros ??. unfold getGroupLabel. by rewrite split_path_str. Qed.

(** What follows a proper prefix of a path. *)
Lemma drop_path_prefix f r : f ≠ [] → r ≠ [] →
  drop (length (path_str f) + 1) (path_str (f ++ r)) = path_str r.
Proof.
  intros Hf Hr. rewrite path_str_app by done. rewrite drop_app_ge by lia.
  by replace (length (path_str f) + 1 - length (path_str f)) with 1 by lia.
Qed.

Lemma rejoin_path t r : Forall seg_ok t → Forall seg_ok r → r ≠ [] →
  normalizeGroupPath (Some match opt_truthy (path_opt t) with
    | Some p => p ++ [slash] ++ path_str r | None => path_str r end) = path_opt (t ++ r).
Proof.
  intros Ht Hr Hne. rewrite opt_truthy_path_opt by done.
  destruct t as [|x t]; [by apply normalize_str|]. unfold path_opt at 1.
  change ([slash] ++ path_str r) with (slash :: path_str r).
  rewrite <- path_str_app by done. apply normalize_str. by apply Forall_app.
Qed.

(** [rebaseGroupPath] on segments. *)
Lemma rebase_segments s f t : Forall seg_ok s → Forall seg_ok f → Forall seg_ok t → f ≠ [] →
  rebaseGroupPath (path_opt s) (path_str f) (path_opt t)
  = path_opt (if decide (f `prefix_of` s) then t ++ drop (length f) s else s).
Proof.
  intros Hs Hf Ht Hne. unfold rebaseGroupPath.
  rewrite (normalize_opt s), (normalize_opt t), (normalize_str f) by done.
  destruct s as [|x s].
  { rewrite decide_False; [done|]. intros [r Hr]. by destruct f. }
  remember (x :: s) as l eqn:El. assert (Hl : l ≠ []) by by subst. clear El.
  rewrite !(path_opt_Some l), (path_opt_Some f) by done.
  rewrite <- (path_opt_Some l), <- (path_opt_Some f), within_prefix by done.
  destruct (decide (f `prefix_of` l)) as [Hp|Hp].
  - rewrite bool_decide_true by done. simpl. destruct Hp as [r ->].
    rewrite drop_app_length. apply Forall_app in Hs as [_ Hr].
    destruct (decide (r = [])) as [->|Hrne].
    + rewrite !app_nil_r. by rewrite decide_True.
    + assert (path_str (f ++ r) ≠ path_str f).
      { intros E%path_str_inj; [|by apply Forall_app|done].
        apply Hrne, (app_inv_head f). by rewrite app_nil_r. }
      rewrite decide_False, drop_path_prefix by done. by apply rejoin_path.
  - by rewrite bool_decide_false.
Qed.

Lemma rebase_normal s f t :
  rebaseGroupPath s f t
  = rebaseGroupPath (path_opt (clean_segments s)) (path_str (clean_segments (Some f)))
      (path_opt (clean_segments t)).
Proof.
  unfold rebaseGroupPath.
  rewrite (normalize_opt (clean_segments s)), (normalize_opt (clean_segments t)),
    (normalize_str (clean_segments (Some f))) by apply clean_segments_ok.
  by rewrite !normalize_path_opt.
Qed.

Lemma strip_as_rebase g r : clean_segments (Some r) ≠ [] →
  stripRemovedGroupSegment g r = rebaseGroupPath g r (getParentGroupPath (Some r)).
Proof.
  intros Hr. unfold stripRemovedGroupSegment, rebaseGroupPath.
  rewrite (normalize_path_opt (Some r)), path_opt_Some by done.
  assert (Hp : getParentGroupPath (Some (path_str (clean_segments (Some r)))) = getParentGroupPath (Some r)).
  { rewrite <- path_opt_Some, <- normalize_path_opt by done. apply getParentGroupPath_normal. }
  rewrite Hp. assert (Hn : normalizeGroupPath (getParentGroupPath (Some r)) = getParentGroupPath (Some r)).
  { rewrite parent_removelast. apply normalize_opt.
    pose proof (clean_segments_ok (Some r)) as Hok.
    induction (clean_segments (Some r)) as [|x l _] using rev_ind; [done|].
    rewrite removelast_last. by apply Forall_app in Hok as [? _]. }
  by rewrite Hn.
Qed.

(** ** The tree order *)

Definition canonical (p : jsstring) : Prop := ∃ l, l ≠ [] ∧ Forall seg_ok l ∧ p = path_str l.
Definition psegs (p : jsstring) : list jsstring := clean_segments (Some p).

Lemma psegs_ok p : Forall seg_ok (psegs p).
Proof. apply clean_segments_ok. Qed.
Lemma psegs_canonical p : canonical p → psegs p ≠ [] ∧ path_str (psegs p) = p.
Proof. intros (l & Hne & Hl & ->). unfold psegs. by rewrite clean_segments_str. Qed.
Lemma psegs_str l : Forall seg_ok l → psegs (path_str l) = l.
Proof. apply clean_segments_str. Qed.
Lemma psegs_inj p q : canonical p → canonical q → psegs p = psegs q → p = q.
Proof.
  intros [_ Hp]%psegs_canonical [_ Hq]%psegs_canonical E. by rewrite <- Hp, <- Hq, E.
Qed.

Lemma parent_key_segs p : parent_key p = path_str (removelast (psegs p)).
Proof.
  unfold parent_key. rewrite parent_removelast. unfold psegs.
  by destruct (removelast (clean_segments (Some p))).
Qed.
Lemma removelast_ok l : Forall seg_ok l → Forall seg_ok (removelast l).
Proof.
  induction l as [|x l _] using rev_ind; [done|]. rewrite removelast_last.
  by intros [? _]%Forall_app.
Qed.
Lemma psegs_parent_key p : psegs (parent_key p) = removelast (psegs p).
Proof. rewrite parent_key_segs. apply psegs_str, removelast_ok, psegs_ok. Qed.

Lemma children_get paths m q :
  mget q (foldl add_child m paths)
  = match mget q m, filter (λ p, parent_key p = q) paths with
    | None, [] => None
    | o, l => Some (default [] o ++ l)
    end.
Proof.
  revert m. induction paths as [|p paths IH]; intros m.
  { simpl. destruct (mget q m) as [b|]; simpl; [|done]. by rewrite app_nil_r. }
  cbn [foldl]. rewrite IH, filter_cons. clear IH.
  unfold add_child. set (k := parent_key p).
  destruct (decide (k = q)) as [<-|Hne].
  - destruct (mget k m) as [b|]; rewrite mget_mset_eq; simpl;
      [by rewrite <- (assoc_L (++))|done].
  - by destruct (mget k m); rewrite mget_mset_ne by done.
Qed.

(** One bucket per parent, in order of first sight. *)
Lemma children_spec paths q :
  mget q (foldl add_child [] paths)
  = match filter (λ p, parent_key p = q) paths with [] => None | l => Some l end.
Proof. rewrite children_get. simpl. by destruct (filter _ paths). Qed.

Section tree.
Context `{Collator} (rec : list (jsstring * GroupRecord)) (paths : list jsstring).
Hypothesis paths_canonical : Forall canonical paths.
Hypothesis paths_NoDup : NoDup paths.
(** With a path, every path above it. *)
Hypothesis paths_closed : ∀ l k, l ≠ [] → path_str (l ++ k) ∈ paths →
  Forall seg_ok (l ++ k) → path_str l ∈ paths.

Lemma paths_canonical_1 p : p ∈ paths → psegs p ≠ [] ∧ path_str (psegs p) = p.
Proof. intros Hp. apply psegs_canonical. by eapply Forall_forall in Hp. Qed.

Let children := foldl add_child [] paths.

(** A path under [k], at most [n] levels down. *)
Definition below (n : nat) (k : list jsstring) (q : jsstring) : Prop :=
  q ∈ paths ∧ ∃ x r, psegs q = k ++ x :: r ∧ length r < n.

Lemma emit_unfold n parent :
  emit (S n) rec children parent
  = js_sort (compare_paths rec) (filter (λ p, parent_key p = parent) paths)
      ≫= λ path, path :: emit n rec children path.
Proof. simpl. unfold children. rewrite children_spec. by destruct (filter _ paths). Qed.

Lemma elem_bucket k c : Forall seg_ok k →
  c ∈ js_sort (compare_paths rec) (filter (λ p, parent_key p = path_str k) paths)
  ↔ c ∈ paths ∧ ∃ x, psegs c = k ++ [x].
Proof.
  intros Hk. rewrite elem_js_sort, list_elem_of_filter, parent_key_segs.
  split.
  - intros [E Hc]. split; [done|]. apply path_str_inj in E; [|apply removelast_ok, psegs_ok|done].
    destruct (paths_canonical_1 c Hc) as [Hne _].
    exists (List.last (psegs c) []). rewrite <- E. by apply app_removelast_last.
  - intros [Hc [x E]]. by rewrite E, removelast_last.
Qed.

Lemma emit_elem n k q : Forall seg_ok k →
  q ∈ emit n rec children (path_str k) ↔ below n k q.
Proof.
  revert k q. induction n as [|n IH]; intros k q Hk.
  { simpl. split; [set_solver|]. intros (_ & ? & ? & _ & ?). lia. }
  rewrite emit_unfold, list_elem_of_bind. split.
  - intros (c & Hq & [Hc [x Ex]]%(elem_bucket k c Hk)).
    assert (Hcok : Forall seg_ok (k ++ [x])) by (rewrite <- Ex; apply psegs_ok).
    assert (Hcs : c = path_str (k ++ [x])).
    { rewrite <- Ex. by destruct (paths_canonical_1 c Hc) as [_ ->]. }
    apply elem_of_cons in Hq as [->|Hq].
    + split; [done|]. exists x, []. simpl. split; [done|lia].
    + rewrite Hcs in Hq. apply IH in Hq as (Hq & y & r & Ey & Hr); [|done].
      split; [done|]. exists x, (y :: r). rewrite Ey, <- (assoc_L (++)). simpl.
      split; [done|lia].
  - intros (Hq & x & r & Eq & Hr).
    pose proof (psegs_ok q) as Hqok. rewrite Eq in Hqok.
    assert (Hxok : Forall seg_ok (k ++ [x])).
    { apply Forall_app in Hqok as [? [? _]%Forall_cons]. apply Forall_app. auto. }
    destruct (paths_canonical_1 q Hq) as [_ Eqs].
    rewrite Eq in Eqs.
    assert (Hc : path_str (k ++ [x]) ∈ paths).
    { apply (paths_closed _ r); [by destruct k|..]; rewrite <- (assoc_L (++)); simpl;
        [by rewrite Eqs|done]. }
    exists (path_str (k ++ [x])). split.
    + apply elem_of_cons. destruct r as [|y r]; [by left|right]. apply IH; [done|].
      split; [done|]. exists y, r. rewrite Eq, <- (assoc_L (++)). simpl in *.
      split; [done|lia].
    + apply elem_bucket; [done|]. split; [done|]. exists x. by apply psegs_str.
Qed.

#[export] Instance compare_paths_comparator : Comparator (compare_paths rec).
Proof.
  split; unfold compare_paths; intros.
  - apply (cmp_antisym (cmp:=compareGroupSiblings)).
  - by eapply (cmp_trans (cmp:=compareGroupSiblings)).
Qed.

(** What the sidebar shows: a path, then what is under it; siblings where they
    part in the order of [compareGroupSiblings]. *)
Definition tree_before (a b : jsstring) : Prop :=
  psegs a `prefix_of` psegs b
  ∨ ∃ k x y r s, psegs a = k ++ x :: r ∧ psegs b = k ++ y :: s ∧ x ≠ y
      ∧ (compare_paths rec (path_str (k ++ [x])) (path_str (k ++ [y])) ≤ 0)%Z.

Lemma bucket_NoDup q : NoDup (js_sort (compare_paths rec) (filter (λ p, parent_key p = q) paths)).
Proof. rewrite js_sort_perm. by apply NoDup_filter. Qed.

Lemma bucket_str k c x : c ∈ paths → psegs c = k ++ [x] → c = path_str (k ++ [x]).
Proof. intros Hc <-. by destruct (paths_canonical_1 c Hc) as [_ ->]. Qed.

(** What one child of the bucket contributes. *)
Lemma child_elem n k c x a : Forall seg_ok k → c ∈ paths → psegs c = k ++ [x] →
  a ∈ c :: emit n rec children c → a ∈ paths ∧ ∃ r, psegs a = k ++ x :: r.
Proof.
  intros Hk Hc Ex [->|Ha]%elem_of_cons; [split; [done|by exists []]|].
  rewrite (bucket_str k c x Hc Ex) in Ha.
  apply emit_elem in Ha as (Ha & y & r & E & _); [|rewrite <- Ex; apply psegs_ok].
  split; [done|]. exists (y :: r). by rewrite E, <- (assoc_L (++)).
Qed.

Lemma not_in_emit n k : Forall seg_ok k → path_str k ∉ emit n rec children (path_str k).
Proof.
  intros Hk (_ & y & r & E & _)%emit_elem; [|done]. rewrite psegs_str in E by done.
  apply (f_equal length) in E. rewrite length_app in E. simpl in E. lia.
Qed.

Lemma emit_sorted n k : Forall seg_ok k →
  StronglySorted tree_before (emit n rec children (path_str k))
  ∧ NoDup (emit n rec children (path_str k)).
Proof.
  revert k. induction n as [|n IH]; intros k Hk; [split; constructor|].
  rewrite emit_unfold. set (bucket := js_sort _ _).
  assert (Hchild : ∀ c, c ∈ bucket → ∃ x, c ∈ paths ∧ psegs c = k ++ [x]).
  { intros c [Hc [x E]]%elem_bucket; [eauto|done]. }
  assert (Hsub : ∀ c, c ∈ bucket → StronglySorted tree_before (c :: emit n rec children c)
      ∧ NoDup (c :: emit n rec children c)).
  { intros c (x & Hc & E)%Hchild. assert (Hok : Forall seg_ok (k ++ [x])) by (rewrite <- E; apply psegs_ok).
    rewrite (bucket_str k c x Hc E). destruct (IH _ Hok) as [Hs Hnd].
    split; constructor; [done| |by apply not_in_emit|done].
    apply Forall_forall. intros q (_ & y & r & Ey & _)%emit_elem; [|done].
    left. rewrite Ey, psegs_str by done. by apply prefix_app_r. }
  split.
  - apply StronglySorted_bind; [by intros c Hc; apply Hsub|].
    eapply StronglySorted_impl; [|apply StronglySorted_distinct;
      [apply js_sort_sorted, _|apply bucket_NoDup]]. simpl.
    intros c1 c2 (Hcmp & Hne & (x & Hc1 & E1)%Hchild & (y & Hc2 & E2)%Hchild) a b Ha Hb.
    destruct (child_elem n k c1 x a) as (_ & r & Er); [done..|].
    destruct (child_elem n k c2 y b) as (_ & s & Es); [done..|].
    right. exists k, x, y, r, s. rewrite (bucket_str k c1 x Hc1 E1), (bucket_str k c2 y Hc2 E2) in *.
    split_and!; [done..| |done]. by intros ->.
  - apply NoDup_bind; [|by intros c Hc; apply Hsub|apply bucket_NoDup].
    intros c1 c2 a (x & Hc1 & E1)%Hchild (y & Hc2 & E2)%Hchild Ha1 Ha2.
    destruct (child_elem n k c1 x a) as (_ & r & Er); [done..|].
    destruct (child_elem n k c2 y a) as (_ & s & Es); [done..|].
    rewrite Er in Es. simplify_list_eq.
    by rewrite (bucket_str k c1 y Hc1 E1), (bucket_str k c2 y Hc2 E2).
Qed.
End tree.

(** ** The collected paths *)

Lemma elem_append t paths p :
  p ∈ appendPathWithAncestors t paths
  ↔ p ∈ paths ∨ ∃ l r, l ≠ [] ∧ clean_segments t = l ++ r ∧ p = path_str l.
Proof.
  unfold appendPathWithAncestors. rewrite normalize_path_opt.
  pose proof (clean_segments_ok t) as Hok. remember (clean_segments t) as s eqn:Es. clear Es.
  destruct s as [|x s].
  { simpl. split; [by left|]. intros [?|(l & r & Hl & E & _)]; [done|].
    symmetry in E. by apply app_nil in E as [-> _]. }
  rewrite path_opt_Some by done. rewrite split_path_str by done.
  rewrite elem_sadd_all, list_elem_of_fmap. split.
  - intros [(i & -> & Hi%elem_of_seq)|?]; [right|by left].
    exists (take (S i) (x :: s)), (drop (S i) (x :: s)). by rewrite take_drop.
  - intros [?|(l & r & Hl & E & ->)]; [by right|left]. exists (pred (length l)).
    rewrite E. destruct l as [|y l]; [done|]. split.
    + change (S (pred (length (y :: l)))) with (length (y :: l)). by rewrite take_app_length.
    + apply elem_of_seq. rewrite length_app. simpl. lia.
Qed.

Lemma append_NoDup t paths : NoDup paths → NoDup (appendPathWithAncestors t paths).
Proof. unfold appendPathWithAncestors. intros. case_match; [by apply sadd_all_NoDup|done]. Qed.

Lemma elem_append_all ts paths p :
  p ∈ foldl (λ paths p, appendPathWithAncestors p paths) paths ts
  ↔ p ∈ paths ∨ ∃ t l r, t ∈ ts ∧ l ≠ [] ∧ clean_segments t = l ++ r ∧ p = path_str l.
Proof.
  revert paths. induction ts as [|t ts IH]; intros paths; cbn [foldl].
  - split; [by left|]. intros [?|(?&?&?&?%elem_of_nil&_)]; done.
  - rewrite IH, elem_append. setoid_rewrite elem_of_cons. naive_solver.
Qed.

Definition path_sources (groups : list GroupRecord) (hosts : list HostRecord)
    (assets : list (option jsstring)) : list (option jsstring) :=
  (Some ∘ g_path <$> groups) ++ (groupName <$> hosts) ++ assets.

Lemma elem_all_group_paths groups hosts assets p :
  p ∈ all_group_paths groups hosts assets
  ↔ ∃ t l r, t ∈ path_sources groups hosts assets ∧ l ≠ [] ∧ clean_segments t = l ++ r
      ∧ p = path_str l.
Proof.
  unfold all_group_paths. rewrite elem_append_all. fold (path_sources groups hosts assets).
  split; [|by right]. by intros [?%elem_of_nil|?].
Qed.

Lemma all_group_paths_NoDup groups hosts assets : NoDup (all_group_paths groups hosts assets).
Proof.
  unfold all_group_paths. generalize (NoDup_nil_2 (A:=jsstring)). generalize (@nil jsstring).
  induction (_ ++ _) as [|t ts IH]; intros paths Hp; cbn [foldl]; [done|].
  by apply IH, append_NoDup.
Qed.

Lemma all_group_paths_canonical groups hosts assets :
  Forall canonical (all_group_paths groups hosts assets).
Proof.
  apply Forall_forall. intros p (t & l & r & _ & Hl & E & ->)%elem_all_group_paths.
  exists l. split_and!; [done| |done].
  pose proof (clean_segments_ok t) as Hok. rewrite E in Hok. by apply Forall_app in Hok as [? _].
Qed.

Lemma all_group_paths_closed groups hosts assets l k :
  l ≠ [] → path_str (l ++ k) ∈ all_group_paths groups hosts assets →
  Forall seg_ok (l ++ k) → path_str l ∈ all_group_paths groups hosts assets.
Proof.
  rewrite !elem_all_group_paths. intros Hl (t & l' & r & Ht & Hl' & E & Ep) Hok.
  exists t, l, (k ++ r). split_and!; [done..| |done].
  pose proof (clean_segments_ok t) as Hok'. rewrite E in Hok'. apply Forall_app in Hok' as [? _].
  apply path_str_inj in Ep; [|done..]. by rewrite E, <- Ep, (assoc_L (++)).
Qed.

Lemma path_str_depth l : Forall seg_ok l → length l ≤ length (path_str l).
Proof.
  induction 1 as [|x l [Hx _] Hl IH]; [done|].
  destruct x as [|c x]; [done|]. destruct l as [|y l]; [simpl; lia|].
  unfold path_str in *. rewrite js_join_cons by done. rewrite !length_app. simpl in *. lia.
Qed.

Lemma max_length_spec (p : jsstring) (ps : list jsstring) :
  p ∈ ps → length p ≤ foldr (λ (p : jsstring) n, Nat.max (length p) n) 0 ps.
Proof. induction 1; simpl; lia. Qed.

Section collected.
Context `{Collator} (groups : list GroupRecord) (hosts : list HostRecord)
  (assets : list (option jsstring)).
Let P := all_group_paths groups hosts assets.

Lemma collect_emit :
  collectGroupPaths groups hosts assets
  = emit (S (foldr (λ (p : jsstring) n, Nat.max (length p) n) 0 P)) (recordByPath groups)
      (foldl add_child [] P) (path_str []).
Proof. reflexivity. Qed.

(** The fuel of [emit] never runs out. *)
Lemma elem_collect p : p ∈ collectGroupPaths groups hosts assets ↔ p ∈ P.
Proof.
  pose proof (all_group_paths_canonical groups hosts assets) as Hcan.
  rewrite collect_emit. unfold P. rewrite (emit_elem _ _ Hcan (all_group_paths_NoDup groups hosts assets) (all_group_paths_closed groups hosts assets)) by constructor.
  unfold below. split; [by intros [? _]|]. intros Hp. split; [done|].
  eapply Forall_forall in Hcan; [|exact Hp].
  apply psegs_canonical in Hcan as [Hne Hs].
  pose proof (path_str_depth _ (psegs_ok p)) as Hd. rewrite Hs in Hd.
  pose proof (max_length_spec p P Hp). unfold P in *.
  destruct (psegs p) as [|x r]; [done|]. exists x, r. simpl in *. split; [done|lia].
Qed.

Lemma collect_sorted :
  StronglySorted (tree_before (recordByPath groups)) (collectGroupPaths groups hosts assets)
  ∧ NoDup (collectGroupPaths groups hosts assets).
Proof.
  rewrite collect_emit. apply emit_sorted; [apply all_group_paths_canonical|apply all_group_paths_NoDup|
    apply all_group_paths_closed|constructor].
Qed.
End collected.

(** ** The theorems *)

(** A normalized path is what the rest of the program assumes: non-empty, made
    of non-empty trimmed segments without slashes; normalizing it again changes
    nothing, and the paths normalization leaves alone are exactly these. *)
Theorem normalizeGroupPath_normal g :
  match normalizeGroupPath g with
  | Some p => canonical p ∧ normalizeGroupPath (Some p) = Some p
  | None => clean_segments g = []
  end
  ∧ ∀ p, normalizeGroupPath (Some p) = Some p ↔ canonical p.
Proof.
  split.
  - rewrite normalize_path_opt. pose proof (clean_segments_ok g) as Hok.
    destruct (clean_segments g) as [|x l] eqn:E; [done|].
    rewrite path_opt_Some by done. split; [by exists (x :: l)|]. by rewrite normalize_str.
  - intros p. split.
    + intros E. rewrite normalize_path_opt in E. exists (clean_segments (Some p)).
      split_and!; [intros Hc; by rewrite Hc in E|apply clean_segments_ok|].
      destruct (clean_segments (Some p)) as [|x l]; [done|].
      rewrite path_opt_Some in E by done. by simplify_eq.
    + intros (l & Hl & Hok & ->). rewrite normalize_str by done. by apply path_opt_Some.
Qed.

(** [isGroupWithinPath], a test on strings, decides the prefix order of
    segments on normalized paths: no sibling whose name merely starts with the
    same letters is ever taken for a descendant. *)
Theorem isGroupWithinPath_segments g c :
  isGroupWithinPath (normalizeGroupPath g) (normalizeGroupPath c) = true
  ↔ clean_segments c `prefix_of` clean_segments g.
Proof.
  rewrite !normalize_path_opt, within_prefix by apply clean_segments_ok.
  apply bool_decide_eq_true.
Qed.

(** Moving a path from one ancestor to another replaces exactly that ancestor's
    segments and keeps the rest; a path not under it is only normalized; and
    removing a group from a path is moving it to the removed group's parent. *)
Theorem rebaseGroupPath_segments s f t :
  clean_segments (Some f) ≠ [] →
  clean_segments (rebaseGroupPath s f t)
  = (if decide (clean_segments (Some f) `prefix_of` clean_segments s)
     then clean_segments t ++ drop (length (clean_segments (Some f))) (clean_segments s)
     else clean_segments s)
  ∧ clean_segments (stripRemovedGroupSegment s f)
  = (if decide (clean_segments (Some f) `prefix_of` clean_segments s)
     then removelast (clean_segments (Some f))
          ++ drop (length (clean_segments (Some f))) (clean_segments s)
     else clean_segments s).
Proof.
  intros Hf. rewrite strip_as_rebase by done.
  assert (Hgen : ∀ t, clean_segments (rebaseGroupPath s f t)
    = if decide (clean_segments (Some f) `prefix_of` clean_segments s)
      then clean_segments t ++ drop (length (clean_segments (Some f))) (clean_segments s)
      else clean_segments s).
  { intros t'. rewrite rebase_normal, rebase_segments by (done || apply clean_segments_ok).
    case_decide; apply clean_segments_path; [apply Forall_app; split; [|apply Forall_drop]|];
      apply clean_segments_ok. }
  rewrite !Hgen. split; [done|]. rewrite parent_removelast, clean_segments_path; [done|].
  apply removelast_ok, clean_segments_ok.
Qed.

(** The sidebar's group list: every group record, host and asset contributes its
    path and every path above it, and nothing else; each path appears once; and
    the list is the tree in preorder: a path before what is under it, and where
    two paths part, in the manual order of the siblings they part at. *)
Theorem collectGroupPaths_tree `{Collator} groups hosts assets :
  (∀ p, p ∈ collectGroupPaths groups hosts assets ↔
     ∃ t l r, t ∈ path_sources groups hosts assets ∧ l ≠ []
       ∧ clean_segments t = l ++ r ∧ p = path_str l)
  ∧ NoDup (collectGroupPaths groups hosts assets)
  ∧ StronglySorted (tree_before (recordByPath groups)) (collectGroupPaths groups hosts assets).
Proof.
  split_and!; [|apply collect_sorted..].
  intros p. by rewrite elem_collect, elem_all_group_paths.
Qed.

(** ** What a level of the sidebar shows *)

Definition strictly_under (k l : list jsstring) : Prop := ∃ x r, l = k ++ x :: r.

Lemma isDirectGroupChild_segs p k : canonical p → Forall seg_ok k →
  isDirectGroupChild p (path_opt k) = true ↔ ∃ x, psegs p = k ++ [x].
Proof.
  intros Hp Hk. unfold isDirectGroupChild. rewrite parent_removelast. fold (psegs p).
  apply psegs_canonical in Hp as [Hne _]. rewrite bool_decide_eq_true. split.
  - intros E%path_opt_inj; [|apply removelast_ok, psegs_ok|done].
    exists (List.last (psegs p) []). rewrite <- E. by apply app_removelast_last.
  - intros [x ->]. by rewrite removelast_last.
Qed.

Definition host_segs (h : HostRecord) : list jsstring := clean_segments (groupName h).

Definition counts_host (p : jsstring) (h : HostRecord) : bool :=
  match opt_truthy (normalizeGroupPath (groupName h)) with
  | Some q => isGroupWithinPath (Some q) (Some p)
  | None => false
  end.

Lemma counts_host_spec p h : canonical p →
  counts_host p h = bool_decide (psegs p `prefix_of` host_segs h).
Proof.
  intros [Hne E]%psegs_canonical. unfold counts_host.
  rewrite normalize_path_opt, opt_truthy_path_opt by apply clean_segments_ok.
  fold (host_segs h). destruct (host_segs h) as [|x l] eqn:El.
  { simpl. rewrite bool_decide_false; [done|]. intros [r Hr].
    destruct (psegs p); [done|discriminate Hr]. }
  rewrite path_opt_Some by done. rewrite <- path_opt_Some by done.
  rewrite <- E at 1. rewrite <- (path_opt_Some (psegs p)) by done.
  apply within_prefix; [rewrite <- El; apply clean_segments_ok|apply psegs_ok].
Qed.

Lemma sum_list_plus {A} (f g : A → nat) l :
  sum_list ((λ x, f x + g x) <$> l) = sum_list (f <$> l) + sum_list (g <$> l).
Proof. induction l as [|x l IH]; [done|]. rewrite !fmap_cons. simpl. rewrite IH. lia. Qed.

Lemma sum_list_zero {A} (P : A → bool) l :
  (∀ x, x ∈ l → P x = false) → sum_list ((λ x, if P x then 1 else 0) <$> l) = 0.
Proof.
  induction l as [|x l IH]; intros Hl; [done|]. rewrite fmap_cons. simpl.
  rewrite Hl by set_solver. rewrite IH; [done|]. intros. apply Hl. set_solver.
Qed.

Lemma sum_list_indicator {A} `{EqDecision A} (P : A → bool) (x0 : A) l :
  NoDup l → x0 ∈ l → (∀ x, x ∈ l → P x = bool_decide (x = x0)) →
  sum_list ((λ x, if P x then 1 else 0) <$> l) = 1.
Proof.
  intros Hnd Hx HP. apply list_elem_of_split in Hx as (l1 & l2 & ->).
  apply NoDup_app in Hnd as (_ & Hd & [Hn _]%NoDup_cons).
  rewrite fmap_app, sum_list_with_app, fmap_cons. simpl.
  rewrite (HP x0), bool_decide_true by set_solver.
  rewrite !sum_list_zero; [done|..]; intros x Hx; rewrite HP by set_solver; apply bool_decide_false; intros ->.
  - done.
  - by apply (Hd x0); [|set_solver].
Qed.

Lemma not_prefix_snoc {A} (k : list A) x : ¬ k ++ [x] `prefix_of` k.
Proof. intros Hp%prefix_length. rewrite length_app in Hp. simpl in Hp. lia. Qed.
Lemma app_cons_ne {A} (k : list A) x r : k ++ x :: r ≠ k.
Proof. intros E%(f_equal length). rewrite length_app in E. simpl in E. lia. Qed.

Lemma seg_ok_snoc k x r : Forall seg_ok (k ++ x :: r) → Forall seg_ok (k ++ [x]).
Proof.
  intros [? [? _]%Forall_cons]%Forall_app. apply Forall_app. auto.
Qed.

(** A host under [k] is directly in [k] or under exactly one of the children [L]. *)
Lemma host_indicator k (L : list jsstring) h : Forall seg_ok k → Forall canonical L → NoDup L →
  (∀ p, p ∈ L → ∃ x, psegs p = k ++ [x]) →
  (∀ x r, host_segs h = k ++ x :: r → path_str (k ++ [x]) ∈ L) →
  sum_list ((λ p, if counts_host p h then 1 else 0) <$> L)
    + (if isDirectHostChild (groupName h) (path_opt k) then 1 else 0)
  = if isGroupWithinPath (normalizeGroupPath (groupName h)) (path_opt k) then 1 else 0.
Proof.
  intros Hk HL Hnd Hch Hcov.
  assert (Hok : Forall seg_ok (host_segs h)) by apply clean_segments_ok.
  assert (Hin : isGroupWithinPath (normalizeGroupPath (groupName h)) (path_opt k)
    = bool_decide (k `prefix_of` host_segs h)).
  { rewrite normalize_path_opt. by apply within_prefix. }
  assert (Hdir : isDirectHostChild (groupName h) (path_opt k) = bool_decide (host_segs h = k)).
  { unfold isDirectHostChild. rewrite normalize_path_opt. apply bool_decide_ext.
    split; [by apply path_opt_inj|by intros <-]. }
  rewrite Hin, Hdir. clear Hin Hdir.
  assert (Hcnt : ∀ p, p ∈ L → ∃ x, psegs p = k ++ [x] ∧ p = path_str (k ++ [x])
    ∧ counts_host p h = bool_decide (k ++ [x] `prefix_of` host_segs h)).
  { intros p Hp. destruct (Hch p Hp) as [x Ex]. exists x.
    assert (Hc : canonical p) by by eapply Forall_forall in HL.
    split_and!; [done| |rewrite <- Ex; by apply counts_host_spec].
    rewrite <- Ex. by apply psegs_canonical in Hc as [_ ->]. }
  destruct (decide (k `prefix_of` host_segs h)) as [[[|x r] E]|Hno].
  - rewrite app_nil_r in E. rewrite !bool_decide_true by (done || by rewrite E).
    rewrite sum_list_zero; [done|]. intros p (x & _ & _ & ->)%Hcnt.
    rewrite bool_decide_false; [done|]. rewrite E. apply not_prefix_snoc.
  - rewrite (bool_decide_true (_ `prefix_of` _)), bool_decide_false by
      (rewrite E; (by apply prefix_app_r) || apply app_cons_ne).
    rewrite (sum_list_indicator _ (path_str (k ++ [x]))); [done..|by eapply Hcov|].
    intros p (y & Ey & -> & ->)%Hcnt. apply bool_decide_ext.
    assert (Hxok : Forall seg_ok (k ++ [x])) by by apply (seg_ok_snoc k x r); rewrite <- E.
    assert (Hyok : Forall seg_ok (k ++ [y])) by (rewrite <- Ey; apply psegs_ok).
    rewrite E. split.
    + intros [r' Er]. rewrite <- (assoc_L (++)) in Er. simplify_list_eq. done.
    + intros E'%path_str_inj; [|done..]. simplify_list_eq.
      exists r. by rewrite <- (assoc_L (++)).
  - rewrite !bool_decide_false by (done || by intros <-).
    rewrite sum_list_zero; [done|]. intros p (x & _ & _ & ->)%Hcnt.
    rewrite bool_decide_false; [done|]. intros Hp. apply Hno.
    etrans; [by apply prefix_app_r|done].
Qed.

(** Splitting the hosts of a subtree over the visible children [L]. *)
Lemma split_hosts k (L : list jsstring) hosts : Forall seg_ok k → Forall canonical L → NoDup L →
  (∀ p, p ∈ L → ∃ x, psegs p = k ++ [x]) →
  (∀ h x r, h ∈ hosts → host_segs h = k ++ x :: r → path_str (k ++ [x]) ∈ L) →
  length (filterHostsInGroupTree hosts (path_opt k))
  = length (List.filter (λ h, isDirectHostChild (groupName h) (path_opt k)) hosts)
    + sum_list ((λ p, length (List.filter (counts_host p) hosts)) <$> L).
Proof.
  intros Hk HL Hnd Hch. induction hosts as [|h hosts IH]; intros Hcov.
  { simpl. clear. induction L; simpl; auto. }
  assert (Hstep : sum_list ((λ p, length (List.filter (counts_host p) (h :: hosts))) <$> L)
    = sum_list ((λ p, if counts_host p h then 1 else 0) <$> L)
      + sum_list ((λ p, length (List.filter (counts_host p) hosts)) <$> L)).
  { rewrite <- sum_list_plus. f_equal. apply list_fmap_ext. intros i p _. simpl.
    by destruct (counts_host p h). }
  rewrite Hstep. pose proof (host_indicator k L h Hk HL Hnd Hch) as Hind.
  unfold filterHostsInGroupTree in *. simpl.
  specialize (IH (λ h' x r Hh', Hcov h' x r ltac:(by right))).
  specialize (Hind (λ x r, Hcov h x r ltac:(by left))).
  destruct (isGroupWithinPath _ _), (isDirectHostChild _ _); simpl in *; lia.
Qed.

(** The counts of a sidebar level add up: the hosts in the subtree of the
    current group are those directly in it together with the [hostCount]s of the
    groups shown under it, no host lost or counted twice. *)
Theorem buildVisibleGroups_counts `{Collator} groups hosts g :
  length (filterHostsInGroupTree hosts (normalizeGroupPath g))
  = length (List.filter (λ h, isDirectHostChild (groupName h) (normalizeGroupPath g)) hosts)
    + sum_list (gc_hostCount <$> buildVisibleGroups groups hosts (normalizeGroupPath g)).
Proof.
  set (L := List.filter (λ p, isDirectGroupChild p (normalizeGroupPath g))
              (collectGroupPaths groups hosts [])).
  assert (HL : ∀ p, p ∈ L ↔ p ∈ collectGroupPaths groups hosts []
                      ∧ isDirectGroupChild p (normalizeGroupPath g) = true).
  { intros p. unfold L. rewrite !list_elem_of_In, filter_In. done. }
  assert (Hcan : ∀ p, p ∈ L → canonical p).
  { intros p [Hp _]%HL. rewrite elem_collect in Hp.
    pose proof (all_group_paths_canonical groups hosts []). by eapply Forall_forall in Hp. }
  assert (Hcounts : gc_hostCount <$> buildVisibleGroups groups hosts (normalizeGroupPath g)
    = (λ p, length (List.filter (counts_host p) hosts)) <$> L).
  { unfold buildVisibleGroups. by rewrite <- list_fmap_compose. }
  rewrite Hcounts. rewrite normalize_path_opt in *.
  apply split_hosts; [apply clean_segments_ok|by apply Forall_forall| | |].
  - apply NoDup_ListNoDup, List.NoDup_filter, NoDup_ListNoDup, collect_sorted.
  - intros p Hp. pose proof (Hcan p Hp). apply HL in Hp as [_ Hp].
    by apply isDirectGroupChild_segs in Hp; [|done|apply clean_segments_ok].
  - intros h x r Hh E.
    assert (Hok : Forall seg_ok (clean_segments g ++ [x])).
    { apply (seg_ok_snoc _ _ r). rewrite <- E. apply clean_segments_ok. }
    apply HL. split.
    + rewrite elem_collect, elem_all_group_paths.
      exists (groupName h), (clean_segments g ++ [x]), r. split_and!; [ | | |done].
      * unfold path_sources. rewrite !elem_of_app. right. left. by apply list_elem_of_fmap_2.
      * by destruct (clean_segments g).
      * by rewrite <- (assoc_L (++)).
    + apply isDirectGroupChild_segs; [by exists (clean_segments g ++ [x]); split_and!; [destruct (clean_segments g)|..]|
        apply clean_segments_ok|]. exists x. by apply psegs_str.
Qed.

(** ** Witnesses *)

Lemma rebaseGroupPath_segments_witness :
  clean_segments (rebaseGroupPath (Some (js " prod / api//eu ")) (js "prod/api") (Some (js "old")))
    = [js "old"; js "eu"].
Proof.
  rewrite (proj1 (rebaseGroupPath_segments (Some (js " prod / api//eu ")) (js "prod/api")
    (Some (js "old")) ltac:(vm_compute; discriminate))).
  vm_compute. reflexivity.
Defined.

Section examples.
#[local] Existing Instance unit_collator.

Example collect_example :
  collectGroupPaths
    [demo_group "1" "b/x" None; demo_group "2" "a" (Some 2048%Z); demo_group "3" "b" (Some 1024%Z)]
    [] [Some (js "a/y")]
  = [js "b"; js "b/x"; js "a"; js "a/y"].
Proof. vm_compute. reflexivity. Qed.

Example label_example : getHostTagsToggleLabel false 12 = js "Tags (12)".
Proof. vm_compute. reflexivity. Qed.
End examples.
