(* ===== verification/GroupMutations.v ===== *)
(** * Group mutations (packages/shared-core/src/group-mutations.ts)

    Creating, renaming, moving and removing groups: pure functions from the
    arrays of groups and hosts to the next arrays, or to the error thrown. *)

From S2P Require Import Prelude Collections Models GroupOrdering GroupPaths.

(** [JSON.stringify] on a string: quotes, backslashes and control characters
    escaped, a surrogate that is not part of a pair written as [\uXXXX]. *)
Definition hex_digit (n : N) : N := if (n <? 10)%N then (48 + n)%N else (87 + n)%N.
Definition json_u (c : N) : jsstring :=
  [92; 117; hex_digit (c / 4096 mod 16); hex_digit (c / 256 mod 16);
   hex_digit (c / 16 mod 16); hex_digit (c mod 16)]%N.
Definition is_high (c : N) : bool := ((55296 <=? c) && (c <=? 56319))%N.
Definition is_low (c : N) : bool := ((56320 <=? c) && (c <=? 57343))%N.

Definition json_unit (c : N) : jsstring :=
  (if c =? 34 then [92; 34] else if c =? 92 then [92; 92]
   else if c =? 8 then [92; 98] else if c =? 9 then [92; 116]
   else if c =? 10 then [92; 110] else if c =? 12 then [92; 102]
   else if c =? 13 then [92; 114] else if c <? 32 then json_u c else [c])%N.

Fixpoint json_units (s : jsstring) : jsstring :=
  match s with
  | [] => []
  | c :: s' =>
      if is_high c then
        match s' with
        | d :: s'' => if is_low d then c :: d :: json_units s'' else json_u c ++ json_units s'
        | [] => json_u c
        end
      else if is_low c then json_u c ++ json_units s'
      else json_unit c ++ json_units s'
  end.

Definition json_pair (a b : jsstring) : jsstring :=
  js "[" ++ [34%N] ++ json_units a ++ [34; 44; 34]%N ++ json_units b ++ [34%N] ++ js "]".

(** The hashing library: [bytesToHex(sha256(utf8ToBytes(s)))]. *)
Class Sha256Hex := sha256_hex : jsstring → jsstring.

Record GroupMutationOptions := {
  timestamp : jsstring;
  normalizeHost : option (HostRecord → HostRecord);
  pathAlsoOccupied : option bool;
}.

Record GroupPathMutation := {
  pm_groups : list GroupRecord; pm_hosts : list HostRecord; pm_nextPath : jsstring }.

Record GroupRemoval := {
  rm_groups : list GroupRecord; rm_hosts : list HostRecord;
  rm_removedGroupIds : list jsstring; rm_removedHostIds : list jsstring }.

(** [parent ? `${parent}/${name}` : name] *)
Definition join_under (parent : option jsstring) (name : jsstring) : jsstring :=
  match opt_truthy parent with Some p => p ++ [slash] ++ name | None => name end.

Record CreateInput := {
  in_id : jsstring; in_name : jsstring; in_parentPath : option jsstring; in_timestamp : jsstring }.

Definition createGroupIn (groups : list GroupRecord) (input : CreateInput)
    : result (list GroupRecord * GroupRecord) :=
  let cleanedName := js_trim (in_name input) in
  if negb (truthy cleanedName) then Throw "Group name is required" else
  let normalizedParentPath := normalizeGroupPath (in_parentPath input) in
  match normalizeGroupPath (Some (join_under normalizedParentPath cleanedName)) with
  | None => Throw "Group path is invalid"
  | Some nextPath =>
      if existsb (λ record, bool_decide (g_path record = nextPath)) groups
      then Throw "Group already exists"
      else
        let created := {| g_id := in_id input; g_name := cleanedName; g_path := nextPath;
                          g_parentPath := normalizedParentPath; g_sortRank := None;
                          g_createdAt := in_timestamp input; g_updatedAt := in_timestamp input |} in
        Ok (groups ++ [created], created)
  end.

(** [{ ...record, name, path, parentPath, updatedAt }] for a rebased path. *)
Definition with_path (record : GroupRecord) (rebasedPath ts : jsstring) : GroupRecord :=
  {| g_id := g_id record; g_name := getGroupLabel rebasedPath; g_path := rebasedPath;
     g_parentPath := getParentGroupPath (Some rebasedPath); g_sortRank := g_sortRank record;
     g_createdAt := g_createdAt record; g_updatedAt := ts |}.

Definition group_within (record : GroupRecord) (target : jsstring) : bool :=
  isGroupWithinPath (Some (g_path record)) (Some target).
Definition host_within (record : HostRecord) (target : jsstring) : bool :=
  isGroupWithinPath (normalizeGroupPath (groupName record)) (Some target).

(** The records outside the target, keyed by path. *)
Definition outside_by_path (groups : list GroupRecord) (target : jsstring) : list (jsstring * GroupRecord) :=
  foldl (λ m record, if negb (group_within record target)
                     then mset (g_path record) record m else m) [] groups.

Section mutations.
Context `{Collator, Sha256Hex}.

Definition implicit_group (hosts : list HostRecord) (path : jsstring) : option GroupRecord :=
  let candidates := List.filter (λ host,
    isGroupWithinPath (normalizeGroupPath (groupName host)) (Some path)) hosts in
  match js_sort (λ left right, localeCompare (host_id left) (host_id right)) candidates with
  | [] => None
  | anchor :: _ =>
      Some {| g_id := js "implicit-" ++ sha256_hex (json_pair (host_id anchor) path);
              g_name := getGroupLabel path; g_path := path;
              g_parentPath := getParentGroupPath (Some path); g_sortRank := None;
              g_createdAt := h_createdAt (h_base anchor); g_updatedAt := h_updatedAt (h_base anchor) |}
  end.

Definition materializeImplicitHostGroups (groups : list GroupRecord) (hosts : list HostRecord)
    (withinPath : option jsstring) : list GroupRecord :=
  let known := sof (g_path <$> groups) in
  groups ++ omap (λ path,
    if shas path known || negb (isGroupWithinPath (Some path) withinPath) then None
    else implicit_group hosts path) (collectGroupPaths groups hosts []).

(** The loop over [affectedGroups] of [mutateGroupPathIn]. *)
Fixpoint rebase_groups (affected : list GroupRecord) (target next ts : jsstring)
    (m : list (jsstring * GroupRecord)) : result (list (jsstring * GroupRecord)) :=
  match affected with
  | [] => Ok m
  | record :: rest =>
      match opt_truthy (rebaseGroupPath (Some (g_path record)) target (Some next)) with
      | None => Throw "Group path is invalid"
      | Some rebasedPath =>
          if mhas rebasedPath m then Throw "Group already exists"
          else rebase_groups rest target next ts (mset rebasedPath (with_path record rebasedPath ts) m)
      end
  end.

(** What happens to one host: untouched outside, regrouped and normalized inside. *)
Definition regroup_host (options : GroupMutationOptions) (target : jsstring)
    (f : option jsstring → option jsstring) (record : HostRecord) : HostRecord :=
  if negb (host_within record target) then record
  else default id (normalizeHost options)
         (host_with_group record (f (normalizeGroupPath (groupName record))) (timestamp options)).

Definition nothing_there (groups : list GroupRecord) (hosts : list HostRecord) (target : jsstring)
    (options : GroupMutationOptions) : bool :=
  bool_decide (List.filter (λ r, group_within r target) groups = [])
  && bool_decide (length (List.filter (λ r, host_within r target) hosts) = 0)
  && negb (default false (pathAlsoOccupied options)).

Definition mutateGroupPathIn (groups : list GroupRecord) (hosts : list HostRecord)
    (targetPath nextPath : jsstring) (options : GroupMutationOptions) : result GroupPathMutation :=
  let groups := materializeImplicitHostGroups groups hosts (Some targetPath) in
  let affectedGroups := List.filter (λ r, group_within r targetPath) groups in
  if nothing_there groups hosts targetPath options then Throw "Group not found" else
  let nextGroupsByPath := outside_by_path groups targetPath in
  if mhas nextPath nextGroupsByPath then Throw "Group already exists" else
  let! nextGroupsByPath :=
    rebase_groups affectedGroups targetPath nextPath (timestamp options) nextGroupsByPath in
  Ok {| pm_groups := mvalues nextGroupsByPath;
        pm_hosts := regroup_host options targetPath
                      (λ p, rebaseGroupPath p targetPath (Some nextPath)) <$> hosts;
        pm_nextPath := nextPath |}.

Definition renameGroupIn (groups : list GroupRecord) (hosts : list HostRecord)
    (targetPath name : jsstring) (options : GroupMutationOptions) : result GroupPathMutation :=
  match normalizeGroupPath (Some targetPath) with
  | None => Throw "Group path is invalid"
  | Some normalizedTargetPath =>
      let cleanedName := js_trim name in
      if negb (truthy cleanedName) then Throw "Group name is required" else
      let parentPath := getParentGroupPath (Some normalizedTargetPath) in
      match normalizeGroupPath (Some (join_under parentPath cleanedName)) with
      | None => Throw "Group path is invalid"
      | Some nextPath =>
          if decide (nextPath = normalizedTargetPath) then Throw "Group path is unchanged"
          else mutateGroupPathIn groups hosts normalizedTargetPath nextPath options
      end
  end.

Definition moveGroupIn (groups : list GroupRecord) (hosts : list HostRecord)
    (targetPath : jsstring) (targetParentPath : option jsstring) (options : GroupMutationOptions)
    : result GroupPathMutation :=
  match normalizeGroupPath (Some targetPath) with
  | None => Throw "Group path is invalid"
  | Some normalizedTargetPath =>
      let normalizedTargetParentPath := normalizeGroupPath targetParentPath in
      if match normalizedTargetParentPath with
         | Some p => isGroupWithinPath (Some p) (Some normalizedTargetPath)
         | None => false
         end
      then Throw "Group cannot be moved into itself or one of its descendants" else
      let label := getGroupLabel normalizedTargetPath in
      match normalizeGroupPath (Some (join_under normalizedTargetParentPath label)) with
      | None => Throw "Group path is invalid"
      | Some nextPath =>
          if decide (nextPath = normalizedTargetPath) then Throw "Group path is unchanged"
          else mutateGroupPathIn groups hosts normalizedTargetPath nextPath options
      end
  end.

(** The loop of the reparenting removal: the map of kept records, the removed ids. *)
Fixpoint reparent_groups (affected : list GroupRecord) (target ts : jsstring)
    (m : list (jsstring * GroupRecord)) (removed : list jsstring)
    : list (jsstring * GroupRecord) * list jsstring :=
  match affected with
  | [] => (m, removed)
  | record :: rest =>
      if decide (g_path record = target)
      then reparent_groups rest target ts m (removed ++ [g_id record])
      else match opt_truthy (stripRemovedGroupSegment (Some (g_path record)) target) with
           | None => reparent_groups rest target ts m (removed ++ [g_id record])
           | Some rebasedPath =>
               if mhas rebasedPath m
               then reparent_groups rest target ts m (removed ++ [g_id record])
               else reparent_groups rest target ts
                      (mset rebasedPath (with_path record rebasedPath ts) m) removed
           end
  end.

Definition removeGroupFrom (groups : list GroupRecord) (hosts : list HostRecord)
    (targetPath : jsstring) (mode : GroupRemoveMode) (options : GroupMutationOptions)
    : result GroupRemoval :=
  match normalizeGroupPath (Some targetPath) with
  | None => Throw "Group path is invalid"
  | Some target =>
      let affectedGroups := List.filter (λ r, group_within r target) groups in
      let affectedHosts := List.filter (λ r, host_within r target) hosts in
      if nothing_there groups hosts target options then Throw "Group not found" else
      match mode with
      | delete_subtree =>
          Ok {| rm_groups := List.filter (λ r, negb (group_within r target)) groups;
                rm_hosts := List.filter (λ r, negb (host_within r target)) hosts;
                rm_removedGroupIds := g_id <$> affectedGroups;
                rm_removedHostIds := host_id <$> affectedHosts |}
      | reparent_descendants =>
          let '(nextGroupsByPath, removedGroupIds) :=
            reparent_groups affectedGroups target (timestamp options)
              (outside_by_path groups target) [] in
          Ok {| rm_groups := mvalues nextGroupsByPath;
                rm_hosts := regroup_host options target
                              (λ p, stripRemovedGroupSegment p target) <$> hosts;
                rm_removedGroupIds := removedGroupIds;
                rm_removedHostIds := [] |}
      end
  end.
End mutations.

(** ** Well-formed group lists *)

(** Normal paths, no two records with the same one. *)
Definition groups_wf (groups : list GroupRecord) : Prop :=
  NoDup (g_path <$> groups) ∧ Forall (λ g, canonical (g_path g)) groups.

Lemma canonical_str l : l ≠ [] → Forall seg_ok l → canonical (path_str l).
Proof. intros. by exists l. Qed.
Lemma canonical_psegs p : canonical p → path_str (psegs p) = p.
Proof. by intros [_ ?]%psegs_canonical. Qed.
Lemma canonical_some p : canonical p → Some p = path_opt (psegs p).
Proof. intros [Hne E]%psegs_canonical. by rewrite path_opt_Some, E. Qed.
Lemma canonical_truthy p : canonical p → opt_truthy (Some p) = Some p.
Proof. intros Hp. rewrite canonical_some by done. apply opt_truthy_path_opt, psegs_ok. Qed.
Lemma normalize_canonical g p : normalizeGroupPath g = Some p → canonical p ∧ psegs p = clean_segments g.
Proof.
  rewrite normalize_path_opt. pose proof (clean_segments_ok g) as Hok.
  destruct (clean_segments g) as [|x l]; [done|]. rewrite path_opt_Some by done. intros [= <-].
  split; [by apply canonical_str|by apply psegs_str].
Qed.

Lemma group_within_segs r t : canonical (g_path r) → canonical t →
  group_within r t = bool_decide (psegs t `prefix_of` psegs (g_path r)).
Proof.
  intros Hr Ht. unfold group_within. rewrite (canonical_some (g_path r)), (canonical_some t) by done.
  apply within_prefix; apply psegs_ok.
Qed.
Lemma host_within_segs h t : canonical t →
  host_within h t = bool_decide (psegs t `prefix_of` host_segs h).
Proof.
  intros Ht. unfold host_within. rewrite (canonical_some t), normalize_path_opt by done.
  apply within_prefix; apply clean_segments_ok || apply psegs_ok.
Qed.

(** The path [p] gets when [t] becomes [n]. *)
Definition moved_path (t n p : jsstring) : jsstring :=
  path_str (psegs n ++ drop (length (psegs t)) (psegs p)).

Lemma moved_segs t n p :
  psegs (moved_path t n p) = psegs n ++ drop (length (psegs t)) (psegs p).
Proof. apply psegs_str, Forall_app. split; [|apply Forall_drop]; apply psegs_ok. Qed.
Lemma moved_canonical t n p : canonical n → canonical (moved_path t n p).
Proof.
  intros [Hn _]%psegs_canonical. apply canonical_str; [by destruct (psegs n)|].
  apply Forall_app. split; [|apply Forall_drop]; apply psegs_ok.
Qed.
Lemma moved_inj t n p q : canonical p → canonical q →
  psegs t `prefix_of` psegs p → psegs t `prefix_of` psegs q →
  moved_path t n p = moved_path t n q → p = q.
Proof.
  intros Hp Hq [r Er] [s Es] E%(f_equal psegs). rewrite !moved_segs, Er, Es, !drop_app_length in E.
  apply app_inv_head in E. apply psegs_inj; [done..|]. by rewrite Er, Es, E.
Qed.

Lemma rebase_moved t n p : canonical t → canonical n → canonical p →
  psegs t `prefix_of` psegs p →
  rebaseGroupPath (Some p) t (Some n) = Some (moved_path t n p).
Proof.
  intros Ht Hn Hp Hpre. pose proof (psegs_canonical t Ht) as [Htne Et].
  rewrite (canonical_some p), (canonical_some n) by done. rewrite <- Et at 1.
  rewrite rebase_segments, decide_True by (done || apply psegs_ok).
  apply psegs_canonical in Hn as [Hn _]. rewrite path_opt_Some by by destruct (psegs n).
  done.
Qed.

Lemma groups_wf_filter P groups : groups_wf groups → groups_wf (List.filter P groups).
Proof.
  intros [Hnd Hc]. split.
  - eapply sublist_NoDup; [exact Hnd|]. apply fmap_sublist, filter_sublist.
  - apply Forall_forall. intros g [Hg _]%filter_In_elem. by eapply Forall_forall in Hc.
Qed.

Lemma outside_by_path_spec groups t : NoDup (g_path <$> groups) →
  outside_by_path groups t
  = (λ r, (g_path r, r)) <$> List.filter (λ r, negb (group_within r t)) groups.
Proof.
  intros Hnd. unfold outside_by_path.
  assert (∀ gs m, NoDup (m.*1 ++ (g_path <$> gs)) →
    foldl (λ m record, if negb (group_within record t) then mset (g_path record) record m else m) m gs
    = m ++ ((λ r, (g_path r, r)) <$> List.filter (λ r, negb (group_within r t)) gs)) as H;
    [|by rewrite (H groups [])].
  induction gs as [|g gs IH]; intros m Hm; cbn [foldl]; [by rewrite app_nil_r|].
  rewrite fmap_cons in Hm. cbn [List.filter]. destruct (group_within g t); simpl.
  - apply IH. by apply NoDup_app_middle_2 in Hm.
  - rewrite mset_fresh, IH.
    + by rewrite <- (assoc_L (++)).
    + rewrite fmap_app. simpl. by rewrite <- (assoc_L (++)).
    + apply NoDup_app in Hm as (_ & Hd & _). intros Hk. apply (Hd _ Hk). by left.
Qed.

(** ** The steps of a path mutation *)

Section mutation_facts.
Context `{Collator, Sha256Hex}.

Lemma implicit_group_path hosts p g : implicit_group hosts p = Some g → g_path g = p.
Proof. unfold implicit_group. case_match; [done|]. by intros [= <-]. Qed.

Lemma omap_path_sublist (f : jsstring → option GroupRecord) l :
  (∀ p g, f p = Some g → g_path g = p) → g_path <$> omap f l `sublist_of` l.
Proof.
  intros Hf. induction l as [|p l IH]; [done|]. cbn. destruct (f p) as [g|] eqn:E.
  - rewrite fmap_cons, (Hf _ _ E). by constructor.
  - by constructor.
Qed.

Lemma materialize_wf groups hosts w :
  groups_wf groups → groups_wf (materializeImplicitHostGroups groups hosts w).
Proof.
  intros [Hnd Hc]. unfold materializeImplicitHostGroups. set (f := λ path, if _ || _ then _ else _).
  assert (Hf : ∀ p g, f p = Some g → g_path g = p ∧ p ∉ g_path <$> groups).
  { unfold f. intros p g. destruct (shas p _) eqn:Ek; [done|]. simpl. case_match; [done|].
    intros Hg. split; [by eapply implicit_group_path|]. apply bool_decide_eq_false in Ek.
    by rewrite elem_sof in Ek. }
  assert (Hsub := omap_path_sublist f (collectGroupPaths groups hosts []) (λ p g E, proj1 (Hf p g E))).
  split.
  - rewrite fmap_app. apply NoDup_app. split_and!; [done| |].
    + intros p Hp (g & -> & (q & Hq & E)%list_elem_of_omap)%list_elem_of_fmap.
      apply Hf in E as [<- ?]. done.
    + eapply sublist_NoDup; [|exact Hsub]. apply collect_sorted.
  - apply Forall_app. split; [done|]. apply Forall_forall. intros g Hg.
    apply (list_elem_of_fmap_2 g_path) in Hg.
    assert (Hin : g_path g ∈ collectGroupPaths groups hosts []) by by eapply sublist_elem_of.
    rewrite elem_collect in Hin. pose proof (all_group_paths_canonical groups hosts []).
    by eapply Forall_forall in Hin.
Qed.

Definition rebased (t n ts : jsstring) (r : GroupRecord) : GroupRecord :=
  with_path r (moved_path t n (g_path r)) ts.

(** The loop appends the rebased records, or finds an occupied path. *)
Lemma rebase_groups_spec t n ts aff m : canonical t → canonical n →
  Forall (λ r, canonical (g_path r) ∧ psegs t `prefix_of` psegs (g_path r)) aff →
  NoDup (g_path <$> aff) →
  rebase_groups aff t n ts m
  = if existsb (λ r, mhas (moved_path t n (g_path r)) m) aff
    then Throw "Group already exists"
    else Ok (m ++ ((λ r, (g_path (rebased t n ts r), rebased t n ts r)) <$> aff)).
Proof.
  intros Ht Hn. revert m. induction aff as [|r aff IH]; intros m; [by rewrite app_nil_r|].
  rewrite Forall_cons, fmap_cons. intros [[Hr Hpre] Haff] [Hnin Hnd]%NoDup_cons.
  cbn [rebase_groups existsb]. rewrite rebase_moved by done.
  assert (Hmc : canonical (moved_path t n (g_path r))) by by apply moved_canonical.
  rewrite canonical_truthy by done.
  destruct (mhas _ m) eqn:Em; simpl; [done|]. rewrite IH by done.
  assert (Hsame : existsb (λ r', mhas (moved_path t n (g_path r'))
      (mset (moved_path t n (g_path r)) (with_path r (moved_path t n (g_path r)) ts) m)) aff
    = existsb (λ r', mhas (moved_path t n (g_path r')) m) aff).
  { apply mhas_false in Em. rewrite mset_fresh by done. clear IH.
    induction Haff as [|r' aff [Hr' Hpre'] Haff IHaff]; [done|]. simpl.
    rewrite fmap_cons, not_elem_of_cons in Hnin. destruct Hnin as [Hne Hnin].
    rewrite fmap_cons, NoDup_cons in Hnd. rewrite IHaff by naive_solver. f_equal.
    apply bool_decide_ext. rewrite fmap_app. simpl. rewrite elem_of_app, list_elem_of_singleton.
    split; [|by left]. intros [?|E]; [done|]. exfalso. apply Hne. symmetry.
    by apply (moved_inj t n). }
  rewrite Hsame. clear Hsame. destruct (existsb _ aff); [done|]. f_equal. apply mhas_false in Em.
  rewrite mset_fresh by done. rewrite <- (assoc_L (++)). done.
Qed.

Lemma inside_segs G t : groups_wf G → canonical t →
  Forall (λ r, canonical (g_path r) ∧ psegs t `prefix_of` psegs (g_path r))
    (List.filter (λ r, group_within r t) G).
Proof.
  intros [_ Hc] Ht. apply Forall_forall. intros r [Hr Hw]%filter_In_elem.
  eapply Forall_forall in Hc; [|exact Hr]. rewrite group_within_segs in Hw by done.
  by apply bool_decide_eq_true in Hw.
Qed.

Lemma fst_pair_paths gs : ((λ r, (g_path r, r)) <$> gs).*1 = g_path <$> gs.
Proof. by rewrite <- list_fmap_compose. Qed.
Lemma snd_pair_paths gs : ((λ r, (g_path r, r)) <$> gs).*2 = gs.
Proof. rewrite <- list_fmap_compose. apply list_fmap_id. Qed.

Lemma moved_NoDup t n gs : canonical t → canonical n →
  Forall (λ r, canonical (g_path r) ∧ psegs t `prefix_of` psegs (g_path r)) gs →
  NoDup (g_path <$> gs) → NoDup ((λ r, moved_path t n (g_path r)) <$> gs).
Proof.
  intros Ht Hn Hgs. induction gs as [|g gs IH]; [by constructor|].
  apply Forall_cons in Hgs as [[Hg Hpre] Hgs]. rewrite !fmap_cons.
  intros [Hnin Hnd]%NoDup_cons. apply NoDup_cons. split; [|by apply IH].
  intros (r & E & Hr)%list_elem_of_fmap. apply Hnin. apply list_elem_of_fmap.
  exists r. split; [|done]. eapply Forall_forall in Hgs as [? ?]; [|exact Hr].
  by apply (moved_inj t n).
Qed.

(** The result of a path mutation is well-formed. *)
Lemma mutated_wf G t n ts : groups_wf G → canonical t → canonical n →
  existsb (λ r, bool_decide (moved_path t n (g_path r) ∈
      g_path <$> List.filter (λ r, negb (group_within r t)) G))
    (List.filter (λ r, group_within r t) G) = false →
  groups_wf (List.filter (λ r, negb (group_within r t)) G
             ++ (rebased t n ts <$> List.filter (λ r, group_within r t) G)).
Proof.
  intros Hwf Ht Hn Hno. pose proof (inside_segs G t Hwf Ht) as Hin.
  destruct (groups_wf_filter (λ r, negb (group_within r t)) G Hwf) as [Hnd1 Hc1].
  destruct (groups_wf_filter (λ r, group_within r t) G Hwf) as [Hnd2 Hc2]. split.
  - rewrite fmap_app. apply NoDup_app. split_and!; [done| |].
    + intros p Hp Hp2. rewrite <- list_fmap_compose in Hp2.
      apply list_elem_of_fmap in Hp2 as (r & -> & Hr).
      rewrite existsb_false in Hno. specialize (Hno r Hr).
      by apply bool_decide_eq_false in Hno.
    + rewrite <- list_fmap_compose. by apply moved_NoDup.
  - apply Forall_app. split; [done|]. apply Forall_fmap, Forall_forall. intros. by apply moved_canonical.
Qed.

(** The outcome of a path mutation, stated on the explicit groups [G]. *)
Definition mutation_spec (G : list GroupRecord) (hosts : list HostRecord) (t n : jsstring)
    (options : GroupMutationOptions) : result GroupPathMutation :=
  let inside := List.filter (λ r, group_within r t) G in
  let outside := List.filter (λ r, negb (group_within r t)) G in
  if nothing_there G hosts t options then Throw "Group not found"
  else if bool_decide (n ∈ g_path <$> outside)
       || existsb (λ r, bool_decide (moved_path t n (g_path r) ∈ g_path <$> outside)) inside
  then Throw "Group already exists"
  else Ok {| pm_groups := outside ++ (rebased t n (timestamp options) <$> inside);
             pm_hosts := regroup_host options t (λ p, rebaseGroupPath p t (Some n)) <$> hosts;
             pm_nextPath := n |}.

Lemma mutate_eq groups hosts t n options :
  groups_wf groups → canonical t → canonical n →
  mutateGroupPathIn groups hosts t n options
  = mutation_spec (materializeImplicitHostGroups groups hosts (Some t)) hosts t n options.
Proof.
  intros Hwf Ht Hn. unfold mutateGroupPathIn, mutation_spec.
  pose proof (materialize_wf groups hosts (Some t) Hwf) as HG.
  set (G := materializeImplicitHostGroups groups hosts (Some t)) in *.
  set (inside := List.filter (λ r, group_within r t) G).
  set (outside := List.filter (λ r, negb (group_within r t)) G).
  destruct (nothing_there G hosts t options); [done|].
  rewrite outside_by_path_spec by apply HG. fold outside.
  unfold mhas at 1. rewrite fst_pair_paths. destruct (bool_decide _); [done|]. simpl.
  rewrite rebase_groups_spec; [|done..|by apply inside_segs|by apply groups_wf_filter, HG].
  unfold mhas. rewrite fst_pair_paths. destruct (existsb _ inside); [done|]. simpl.
  unfold mvalues. rewrite fmap_app, snd_pair_paths, <- list_fmap_compose. done.
Qed.

Lemma mutation_spec_Ok G hosts t n options r :
  mutation_spec G hosts t n options = Ok r →
  let inside := List.filter (λ r, group_within r t) G in
  let outside := List.filter (λ r, negb (group_within r t)) G in
  nothing_there G hosts t options = false
  ∧ existsb (λ r, bool_decide (moved_path t n (g_path r) ∈ g_path <$> outside)) inside = false
  ∧ pm_groups r = outside ++ (rebased t n (timestamp options) <$> inside)
  ∧ pm_hosts r = regroup_host options t (λ p, rebaseGroupPath p t (Some n)) <$> hosts
  ∧ pm_nextPath r = n.
Proof.
  unfold mutation_spec. destruct (nothing_there _ _ _ _); [done|].
  destruct (bool_decide _); [done|]. simpl. destruct (existsb _ _) eqn:E; [done|].
  by intros [= <-].
Qed.


(** ** Undoing a mutation *)

(** [normalizeHost] leaves the group of a host as it is, up to normalization. *)
Definition keeps_group (options : GroupMutationOptions) : Prop :=
  ∀ h, host_segs (default id (normalizeHost options) h) = host_segs h.

Lemma regroup_segs options t n h : keeps_group options → canonical t → canonical n →
  host_segs (regroup_host options t (λ p, rebaseGroupPath p t (Some n)) h)
  = if decide (psegs t `prefix_of` host_segs h)
    then psegs n ++ drop (length (psegs t)) (host_segs h) else host_segs h.
Proof.
  intros Hk Ht Hn. unfold regroup_host. rewrite host_within_segs by done.
  destruct (decide _) as [Hp|Hp]; [rewrite bool_decide_true by done|by rewrite bool_decide_false].
  simpl. rewrite Hk. unfold host_segs at 1, groupName at 1. simpl.
  pose proof (psegs_canonical t Ht) as [Htne Et].
  rewrite normalize_path_opt, (canonical_some n) by done. rewrite <- Et at 1.
  rewrite rebase_segments by (done || apply psegs_ok || apply clean_segments_ok).
  fold (host_segs h). rewrite decide_True by done. apply clean_segments_path, Forall_app.
  split; [apply psegs_ok|apply Forall_drop, clean_segments_ok].
Qed.

Lemma implicit_group_some hosts p : canonical p →
  is_Some (implicit_group hosts p) ↔ ∃ h, h ∈ hosts ∧ psegs p `prefix_of` host_segs h.
Proof.
  intros Hp. unfold implicit_group.
  assert (Hiff : ∀ h, h ∈ js_sort (λ left right, localeCompare (host_id left) (host_id right))
      (List.filter (λ host, isGroupWithinPath (normalizeGroupPath (groupName host)) (Some p)) hosts)
    ↔ h ∈ hosts ∧ psegs p `prefix_of` host_segs h).
  { intros h. rewrite elem_js_sort, filter_In_elem. fold (host_within h p).
    by rewrite host_within_segs, bool_decide_eq_true by done. }
  destruct (js_sort _ _) as [|a l].
  - split; [by intros [? ?]|]. intros (h & Hh). by apply Hiff, elem_of_nil in Hh.
  - split; [|by eexists]. intros _. exists a. apply Hiff. by left.
Qed.

Lemma collect_host groups hosts h p : h ∈ hosts → canonical p →
  psegs p `prefix_of` host_segs h → p ∈ collectGroupPaths groups hosts [].
Proof.
  intros Hh [Hne E]%psegs_canonical [r Er]. rewrite elem_collect, elem_all_group_paths.
  exists (groupName h), (psegs p), r. split_and!; [|done..].
  unfold path_sources. rewrite !elem_of_app. right. left. by apply list_elem_of_fmap_2.
Qed.

Lemma materialize_covers groups hosts t h p : canonical t → h ∈ hosts → canonical p →
  psegs t `prefix_of` psegs p → psegs p `prefix_of` host_segs h →
  p ∈ g_path <$> materializeImplicitHostGroups groups hosts (Some t).
Proof.
  intros Ht Hh Hp Htp Hph. unfold materializeImplicitHostGroups.
  rewrite fmap_app, elem_of_app. destruct (decide (p ∈ g_path <$> groups)) as [?|Hn]; [by left|right].
  destruct (proj2 (implicit_group_some hosts p Hp)) as [g Hg]; [by exists h|].
  apply list_elem_of_fmap. exists g. split; [by symmetry; eapply implicit_group_path|].
  apply list_elem_of_omap. exists p. split; [by eapply collect_host|].
  unfold shas. rewrite (bool_decide_false (p ∈ _)) by by rewrite elem_sof.
  rewrite (canonical_some p), (canonical_some t), within_prefix by (done || apply psegs_ok).
  by rewrite bool_decide_true.
Qed.

Lemma materialize_elem groups hosts t g :
  g ∈ materializeImplicitHostGroups groups hosts (Some t) → g ∈ groups ∨ group_within g t = true.
Proof.
  unfold materializeImplicitHostGroups. rewrite elem_of_app. intros [?|Hg]; [by left|right].
  apply list_elem_of_omap in Hg as (p & _ & E). unfold group_within.
  destruct (shas _ _); [done|]. simpl in E. destruct (isGroupWithinPath _ _) eqn:Ew; [|done].
  simpl in E. apply implicit_group_path in E as ->. done.
Qed.

Lemma materialize_id groups hosts t : canonical t →
  (∀ h p, h ∈ hosts → canonical p → psegs t `prefix_of` psegs p →
     psegs p `prefix_of` host_segs h → p ∈ g_path <$> groups) →
  materializeImplicitHostGroups groups hosts (Some t) = groups.
Proof.
  intros Ht Hcov. unfold materializeImplicitHostGroups.
  set (f := λ path, if _ || _ then _ else _).
  assert (Hf : ∀ p, p ∈ collectGroupPaths groups hosts [] → f p = None).
  { intros p Hp. unfold f. rewrite elem_collect in Hp.
    assert (Hc : canonical p).
    { pose proof (all_group_paths_canonical groups hosts []). by eapply Forall_forall in Hp. }
    rewrite (canonical_some p), (canonical_some t), within_prefix by (done || apply psegs_ok).
    unfold shas. destruct (bool_decide (p ∈ _)) eqn:Ek; [done|].
    apply bool_decide_eq_false in Ek. rewrite elem_sof in Ek. simpl.
    case_bool_decide as Hpre; [|done]. simpl. destruct (implicit_group hosts p) eqn:Eg; [|done].
    exfalso. apply Ek. destruct (proj1 (implicit_group_some hosts p Hc)) as (h & Hh & Hph);
      [by eexists|]. by eapply Hcov. }
  assert (omap f (collectGroupPaths groups hosts []) = []) as ->; [|by rewrite app_nil_r].
  induction (collectGroupPaths groups hosts []) as [|p l IH]; [done|]. cbn.
  rewrite Hf by by left. apply IH. intros. apply Hf. by right.
Qed.

(** The filters of the way back are the two halves of the way out. *)
Lemma rebased_within t n ts r : canonical n → group_within (rebased t n ts r) n = true.
Proof.
  intros Hn. rewrite group_within_segs; [|by apply moved_canonical|done].
  apply bool_decide_eq_true. change (g_path (rebased t n ts r)) with (moved_path t n (g_path r)).
  rewrite moved_segs. by apply prefix_app_r.
Qed.

Lemma filter_back outside inside t n ts : canonical n →
  (∀ g, g ∈ outside → group_within g n = false) →
  List.filter (λ r, group_within r n) (outside ++ (rebased t n ts <$> inside)) = rebased t n ts <$> inside
  ∧ List.filter (λ r, negb (group_within r n)) (outside ++ (rebased t n ts <$> inside)) = outside.
Proof.
  intros Hn Ho. rewrite !List.filter_app. split.
  - rewrite filter_none, filter_all; [done| |done].
    intros ? (r & -> & _)%list_elem_of_fmap. by apply rebased_within.
  - rewrite filter_all, filter_none; [by rewrite app_nil_r| |].
    + intros ? (r & -> & _)%list_elem_of_fmap. by rewrite rebased_within.
    + intros g Hg. by rewrite Ho.
Qed.

Lemma moved_back t n p : canonical t → canonical p → psegs t `prefix_of` psegs p →
  moved_path n t (moved_path t n p) = p.
Proof.
  intros Ht Hp [r Er]. unfold moved_path at 1. rewrite moved_segs, drop_app_length, Er, drop_app_length.
  rewrite <- Er. by apply canonical_psegs.
Qed.

(** After a move the next path's subtree has all its records: materializing again
    adds nothing. *)
Lemma materialize_after groups hosts t n options :
  keeps_group options → canonical t → canonical n →
  (∀ h, h ∈ hosts → psegs n `prefix_of` host_segs h → psegs t `prefix_of` host_segs h) →
  let G := materializeImplicitHostGroups groups hosts (Some t) in
  let groups1 := List.filter (λ r, negb (group_within r t)) G
    ++ (rebased t n (timestamp options) <$> List.filter (λ r, group_within r t) G) in
  groups_wf G →
  materializeImplicitHostGroups groups1
    (regroup_host options t (λ p, rebaseGroupPath p t (Some n)) <$> hosts) (Some n) = groups1.
Proof.
  intros Hk Ht Hn Hfree G groups1 HG. apply materialize_id; [done|].
  intros h1 p (h & -> & Hh)%list_elem_of_fmap Hp [q Eq] Hph. rewrite regroup_segs in Hph by done.
  destruct (decide (psegs t `prefix_of` host_segs h)) as [[k Ek]|Hnt];
    [|by destruct Hnt; apply Hfree; [done|]; etrans; [exists q; exact Eq|]].
  rewrite Ek, drop_app_length, Eq in Hph. apply prefix_app_inv in Hph.
  assert (Hok : Forall seg_ok (psegs t ++ q)).
  { apply Forall_app. split; [apply psegs_ok|]. destruct Hph as [k' ->].
    pose proof (clean_segments_ok (groupName h)) as Hok. fold (host_segs h) in Hok.
    rewrite Ek in Hok. by apply Forall_app in Hok as [_ [? _]%Forall_app]. }
  set (p0 := path_str (psegs t ++ q)). assert (Ep0 : psegs p0 = psegs t ++ q) by by apply psegs_str.
  assert (Hp0c : canonical p0).
  { apply canonical_str; [|done]. apply psegs_canonical in Ht as [? _]. by destruct (psegs t). }
  assert (Hp0 : p0 ∈ g_path <$> G).
  { eapply materialize_covers; [done|exact Hh|done|rewrite Ep0; by apply prefix_app_r|].
    rewrite Ep0, Ek. by apply prefix_app. }
  apply list_elem_of_fmap in Hp0 as (g & Eg & Hg).
  unfold groups1. rewrite fmap_app, elem_of_app. right. apply list_elem_of_fmap.
  exists (rebased t n (timestamp options) g). split.
  - change (p = moved_path t n (g_path g)). rewrite <- Eg. unfold moved_path.
    rewrite Ep0, drop_app_length, <- Eq. by rewrite canonical_psegs.
  - apply list_elem_of_fmap_2, filter_In_elem. split; [done|].
    rewrite group_within_segs by (done || by rewrite <- Eg). rewrite <- Eg, Ep0.
    apply bool_decide_eq_true. by apply prefix_app_r.
Qed.

(** Something was there, so something is there after the move. *)
Lemma nothing_there_after G hosts t n options options' outside inside :
  keeps_group options → canonical t → canonical n →
  inside = List.filter (λ r, group_within r t) G →
  default false (pathAlsoOccupied options') = default false (pathAlsoOccupied options) →
  nothing_there G hosts t options = false →
  nothing_there (outside ++ (rebased t n (timestamp options) <$> inside))
    (regroup_host options t (λ p, rebaseGroupPath p t (Some n)) <$> hosts) n options' = false.
Proof.
  intros Hk Ht Hn -> Ho. unfold nothing_there. rewrite Ho, !andb_false_iff, !bool_decide_eq_false.
  intros [[HG|Hh]|?]; [left; left|left; right|by right].
  - destruct (List.filter (λ r, group_within r t) G) as [|g l]; [done|]. intros E.
    assert (Hin : rebased t n (timestamp options) g ∈ @nil GroupRecord); [|by apply elem_of_nil in Hin].
    rewrite <- E. apply filter_In_elem. split; [|by apply rebased_within].
    apply elem_of_app. right. by left.
  - destruct (List.filter (λ r, host_within r t) hosts) as [|h l] eqn:E; [done|].
    assert (Hin : h ∈ List.filter (λ r, host_within r t) hosts) by (rewrite E; by left).
    apply filter_In_elem in Hin as [Hin Hw].
    set (h1 := regroup_host options t (λ p, rebaseGroupPath p t (Some n)) h).
    assert (Hin1 : h1 ∈ List.filter (λ r, host_within r n)
      (regroup_host options t (λ p, rebaseGroupPath p t (Some n)) <$> hosts)).
    { apply filter_In_elem. split; [by apply list_elem_of_fmap_2|].
      rewrite host_within_segs in * by done. apply bool_decide_eq_true in Hw. apply bool_decide_eq_true.
      unfold h1. rewrite regroup_segs, decide_True by done. by apply prefix_app_r. }
    intros E1. destruct (List.filter (λ r, host_within r n) _); [by apply elem_of_nil in Hin1|done].
Qed.

(** Renaming and moving can be undone.  When a mutation from [t] to [n] succeeds
    and nothing but what moved is under [n] (no other group or host), mutating
    back from [n] to [t] succeeds, and gives every host its group again and the
    groups the paths they had (those only hosts named now have a record). *)
Theorem mutateGroupPathIn_undo groups hosts t n options options' r :
  groups_wf groups → canonical t → canonical n → keeps_group options → keeps_group options' →
  default false (pathAlsoOccupied options') = default false (pathAlsoOccupied options) →
  (∀ g, g ∈ groups → group_within g n = true → group_within g t = true) →
  (∀ h, h ∈ hosts → host_within h n = true → host_within h t = true) →
  mutateGroupPathIn groups hosts t n options = Ok r →
  ∃ r', mutateGroupPathIn (pm_groups r) (pm_hosts r) n t options' = Ok r'
    ∧ host_segs <$> pm_hosts r' = host_segs <$> hosts
    ∧ g_path <$> pm_groups r' ≡ₚ
        g_path <$> materializeImplicitHostGroups groups hosts (Some t).
Proof.
  intros Hwf Ht Hn Hk Hk' Hocc Hfg Hfh Hr. rewrite mutate_eq in Hr by done.
  pose proof (materialize_wf groups hosts (Some t) Hwf) as HG.
  apply mutation_spec_Ok in Hr as (Hsome & Hno & Eg & Eh & _).
  assert (Hwf1 : groups_wf (pm_groups r)) by (rewrite Eg; by apply mutated_wf).
  rewrite mutate_eq by done. rewrite Eg, Eh, materialize_after; [|done..| |done];
    [|intros h Hh; specialize (Hfh h Hh); rewrite !host_within_segs, !bool_decide_eq_true in Hfh by done; done].
  set (G := materializeImplicitHostGroups groups hosts (Some t)) in *.
  set (inside := List.filter (λ r, group_within r t) G) in *.
  set (outside := List.filter (λ r, negb (group_within r t)) G) in *.
  assert (Hout : ∀ g, g ∈ outside → group_within g n = false ∧ group_within g t = false).
  { intros g [Hg Hw%negb_true_iff]%filter_In_elem. split; [|done].
    apply not_true_is_false. intros Hgn. apply materialize_elem in Hg as [Hg|Hg]; [|congruence].
    rewrite (Hfg g Hg Hgn) in Hw. done. }
  destruct (filter_back outside inside t n (timestamp options) Hn) as [Ei Eo]; [by intros g Hg; apply Hout|].
  unfold mutation_spec. rewrite Ei, Eo, (nothing_there_after G) by done.
  assert (Hback : ∀ g, g ∈ inside → moved_path n t (moved_path t n (g_path g)) = g_path g).
  { intros g Hg. pose proof (inside_segs G t HG Ht) as Hin.
    eapply Forall_forall in Hin as [? ?]; [|exact Hg]. by apply moved_back. }
  rewrite bool_decide_false; [simpl|].
  2:{ intros (g & -> & Hg)%list_elem_of_fmap. apply Hout in Hg as [_ Hg].
      rewrite group_within_segs in Hg by done. by rewrite bool_decide_true in Hg. }
  assert (existsb (λ r0, bool_decide (moved_path n t (g_path r0) ∈ g_path <$> outside))
    (rebased t n (timestamp options) <$> inside) = false) as ->.
  { apply existsb_false. intros ? (g & -> & Hg)%list_elem_of_fmap. apply bool_decide_eq_false.
    change (g_path (rebased t n (timestamp options) g)) with (moved_path t n (g_path g)).
    rewrite Hback by done. intros (g' & E & Hg')%list_elem_of_fmap.
    apply Hout in Hg' as [_ Hg']. apply filter_In_elem in Hg as [_ Hg].
    unfold group_within in *. by rewrite <- E, Hg in Hg'. }
  eexists. split; [done|]. simpl. split.
  - rewrite <- list_fmap_compose, <- list_fmap_compose. apply list_fmap_ext. intros i h Hi. simpl.
    rewrite !regroup_segs by done. apply list_elem_of_lookup_2 in Hi. specialize (Hfh h Hi).
    rewrite !host_within_segs, !bool_decide_eq_true in Hfh by done.
    destruct (decide (psegs t `prefix_of` host_segs h)) as [[k Ek]|Hnt].
    + rewrite decide_True by by apply prefix_app_r. by rewrite Ek, !drop_app_length.
    + rewrite decide_False; [done|]. auto.
  - rewrite fmap_app, <- !list_fmap_compose. rewrite <- (filter_split (λ r, group_within r t) G).
    rewrite fmap_app. apply Permutation_app_head.
    erewrite list_fmap_ext; [reflexivity|]. intros i g Hi. simpl. apply Hback. by eapply list_elem_of_lookup_2.
Qed.

Lemma clean_segments_app_slash p s :
  clean_segments (Some (p ++ slash :: s)) = clean_segments (Some p) ++ clean_segments (Some s).
Proof. unfold clean_segments. simpl. by rewrite js_split_app, fmap_app, filter_app. Qed.

Lemma clean_join_under g name :
  clean_segments (Some (join_under (normalizeGroupPath g) name))
  = clean_segments g ++ clean_segments (Some name).
Proof.
  unfold join_under. rewrite normalize_path_opt, opt_truthy_path_opt by apply clean_segments_ok.
  pose proof (clean_segments_ok g) as Hok. destruct (clean_segments g) as [|x l]; [done|].
  rewrite path_opt_Some by done. change ([slash] ++ name) with (slash :: name).
  by rewrite clean_segments_app_slash, clean_segments_str.
Qed.

(** ** Removal *)

Lemma strip_segs p t : canonical t →
  stripRemovedGroupSegment p t
  = path_opt (if decide (psegs t `prefix_of` clean_segments p)
              then removelast (psegs t) ++ drop (length (psegs t)) (clean_segments p)
              else clean_segments p).
Proof.
  intros Ht. pose proof (psegs_canonical t Ht) as [Hne E].
  rewrite strip_as_rebase, rebase_normal, parent_removelast by done. fold (psegs t).
  rewrite clean_segments_path by apply removelast_ok, psegs_ok.
  apply rebase_segments; [apply clean_segments_ok|apply psegs_ok|apply removelast_ok, psegs_ok|done].
Qed.

Lemma stripped_ok p t : Forall seg_ok (if decide (psegs t `prefix_of` clean_segments p)
   then removelast (psegs t) ++ drop (length (psegs t)) (clean_segments p) else clean_segments p).
Proof.
  case_decide; [apply Forall_app; split|]; [apply removelast_ok, psegs_ok|apply Forall_drop|];
    apply clean_segments_ok.
Qed.

Lemma strip_canonical p t q : canonical t →
  opt_truthy (stripRemovedGroupSegment p t) = Some q → canonical q.
Proof.
  intros Ht. rewrite strip_segs by done. pose proof (stripped_ok p t) as Hok.
  rewrite opt_truthy_path_opt by done. set (l := if decide _ then _ else _) in *.
  destruct l as [|x l'] eqn:El; [done|]. rewrite path_opt_Some by done.
  intros [= <-]. by apply canonical_str.
Qed.

(** A map of records keyed by their own normal path. *)
Definition keyed (m : list (jsstring * GroupRecord)) : Prop :=
  Forall (λ kv, kv.1 = g_path kv.2 ∧ canonical kv.1) m ∧ NoDup m.*1.

Lemma keyed_wf m : keyed m → groups_wf (mvalues m).
Proof.
  intros [Hm Hnd]. unfold mvalues. assert (g_path <$> m.*2 = m.*1) as E.
  { rewrite <- list_fmap_compose. apply list_fmap_ext. intros i kv Hi.
    eapply Forall_lookup_1 in Hm as [? _]; done. }
  split; [by rewrite E|]. apply Forall_fmap. eapply Forall_impl; [exact Hm|].
  intros kv [E1 E2]. simpl. by rewrite <- E1.
Qed.

Lemma reparent_groups_spec aff t ts m rem m' rem' : canonical t → keyed m →
  reparent_groups aff t ts m rem = (m', rem') →
  keyed m' ∧ m `prefix_of` m'
  ∧ (g_id <$> m'.*2) ++ rem' ≡ₚ (g_id <$> m.*2) ++ rem ++ (g_id <$> aff).
Proof.
  intros Ht. revert m rem. induction aff as [|r aff IH]; intros m rem Hm; cbn [reparent_groups].
  { intros [= <- <-]. split_and!; [done..|]. by rewrite app_nil_r. }
  assert (Hskip : ∀ E : reparent_groups aff t ts m (rem ++ [g_id r]) = (m', rem'),
    keyed m' ∧ m `prefix_of` m'
    ∧ (g_id <$> m'.*2) ++ rem' ≡ₚ (g_id <$> m.*2) ++ rem ++ (g_id <$> r :: aff)).
  { intros E. apply IH in E as (? & ? & Hp); [|done]. split_and!; [done..|].
    rewrite Hp, fmap_cons. by rewrite <- (assoc_L (++) rem). }
  case_decide; [exact Hskip|].
  destruct (opt_truthy _) as [q|] eqn:Eq; [|exact Hskip].
  destruct (mhas q m) eqn:Em; [exact Hskip|]. apply strip_canonical in Eq; [|done].
  apply mhas_false in Em. rewrite mset_fresh by done. intros E.
  apply IH in E as (? & Hpre & Hp).
  - split_and!; [done|by etrans; [apply prefix_app_r|]|].
    rewrite Hp, !fmap_app. simpl. rewrite <- (assoc_L (++)). apply Permutation_app_head.
    change (g_id <$> r :: aff) with (g_id r :: (g_id <$> aff)). by rewrite <- Permutation_middle.
  - destruct Hm as [Hm Hnd]. split.
    + apply Forall_app. split; [done|]. by repeat constructor.
    + rewrite fmap_app. apply NoDup_app. split_and!; [done| |apply NoDup_singleton].
      simpl. set_solver.
Qed.

Definition keeps_id (options : GroupMutationOptions) : Prop :=
  ∀ h, host_id (default id (normalizeHost options) h) = host_id h.

Lemma regroup_id options t f h : keeps_id options → host_id (regroup_host options t f h) = host_id h.
Proof. intros Hk. unfold regroup_host. destruct (negb _); [done|]. by rewrite Hk. Qed.

Lemma regroup_strip_segs options t h : keeps_group options → canonical t →
  host_segs (regroup_host options t (λ p, stripRemovedGroupSegment p t) h)
  = if decide (psegs t `prefix_of` host_segs h)
    then removelast (psegs t) ++ drop (length (psegs t)) (host_segs h) else host_segs h.
Proof.
  intros Hk Ht. unfold regroup_host. rewrite host_within_segs by done.
  destruct (decide _) as [Hp|Hp]; [rewrite bool_decide_true by done|by rewrite bool_decide_false].
  simpl. rewrite Hk. unfold host_segs at 1, groupName at 1. simpl.
  rewrite strip_segs by done. rewrite clean_segments_path by apply stripped_ok.
  rewrite normalize_path_opt, clean_segments_path by apply clean_segments_ok.
  fold (host_segs h). by rewrite decide_True.
Qed.

(** Removing a group accounts for every record.  It fails exactly when the path
    is empty or nothing is there; otherwise the ids of the remaining groups and
    the removed ones are the ids there were, the same for hosts, the remaining
    paths are normal and distinct, and every group outside stays.  Deleting a
    subtree leaves nothing under it and changes nothing else; reparenting keeps
    every host and takes the removed segment out of exactly the paths under it. *)
Theorem removeGroupFrom_spec groups hosts targetPath mode options :
  groups_wf groups → keeps_group options → keeps_id options →
  match normalizeGroupPath (Some targetPath), removeGroupFrom groups hosts targetPath mode options with
  | None, res => res = Throw "Group path is invalid"
  | Some t, Throw msg => msg = "Group not found"%string ∧ nothing_there groups hosts t options = true
  | Some t, Ok r =>
      nothing_there groups hosts t options = false
      ∧ groups_wf (rm_groups r)
      ∧ (g_id <$> rm_groups r) ++ rm_removedGroupIds r ≡ₚ g_id <$> groups
      ∧ (host_id <$> rm_hosts r) ++ rm_removedHostIds r ≡ₚ host_id <$> hosts
      ∧ List.filter (λ g, negb (group_within g t)) groups ⊆ rm_groups r
      ∧ match mode with
        | delete_subtree =>
            rm_groups r = List.filter (λ g, negb (group_within g t)) groups
            ∧ rm_hosts r = List.filter (λ h, negb (host_within h t)) hosts
        | reparent_descendants =>
            rm_removedHostIds r = []
            ∧ host_segs <$> rm_hosts r
              = (λ h, if decide (psegs t `prefix_of` host_segs h)
                      then removelast (psegs t) ++ drop (length (psegs t)) (host_segs h)
                      else host_segs h) <$> hosts
        end
  end.
Proof.
  intros Hwf Hk Hid. unfold removeGroupFrom.
  destruct (normalizeGroupPath (Some targetPath)) as [t|] eqn:Et; [|done].
  apply normalize_canonical in Et as [Ht _].
  destruct (nothing_there groups hosts t options) eqn:En; [done|].
  assert (Hperm : ∀ {A} (P : A → bool) (f : A → jsstring) l,
    (f <$> List.filter (λ x, negb (P x)) l) ++ (f <$> List.filter P l) ≡ₚ f <$> l).
  { intros A P f l. by rewrite <- fmap_app, filter_split. }
  destruct mode.
  { simpl. split_and!; [done|by apply groups_wf_filter|apply Hperm|apply Hperm|done..]. }
  destruct (reparent_groups _ _ _ _ _) as [m rem] eqn:Er. simpl.
  rewrite outside_by_path_spec in Er by apply Hwf.
  apply reparent_groups_spec in Er as (Hm & [k ->] & Hp); [|done|].
  - split_and!; [done|by apply keyed_wf| | | |done|].
    + unfold mvalues. rewrite Hp, snd_pair_paths. apply Hperm.
    + rewrite app_nil_r, <- list_fmap_compose. erewrite list_fmap_ext; [reflexivity|].
      intros. by apply regroup_id.
    + unfold mvalues. rewrite fmap_app, snd_pair_paths. set_solver.
    + rewrite <- list_fmap_compose. apply list_fmap_ext. intros. by apply regroup_strip_segs.
  - pose proof (groups_wf_filter (λ r, negb (group_within r t)) groups Hwf) as [Hnd Hc].
    split; [|by rewrite fst_pair_paths]. apply Forall_fmap. eapply Forall_impl; [exact Hc|]. done.
Qed.

(** Creating a group fails exactly on a blank name, a name that is nothing but
    slashes at the root, or a path that is taken; otherwise the new record is
    appended at the parent's segments followed by the name's, and well-formedness
    is kept. *)
Theorem createGroupIn_spec groups input :
  groups_wf groups →
  let name := js_trim (in_name input) in
  let segs := clean_segments (in_parentPath input) ++ clean_segments (Some name) in
  match createGroupIn groups input with
  | Throw msg =>
      (name = [] ∧ msg = "Group name is required"%string)
      ∨ (name ≠ [] ∧ segs = [] ∧ msg = "Group path is invalid"%string)
      ∨ (name ≠ [] ∧ path_str segs ∈ g_path <$> groups ∧ msg = "Group already exists"%string)
  | Ok (groups', created) =>
      name ≠ [] ∧ segs ≠ [] ∧ path_str segs ∉ g_path <$> groups
      ∧ groups' = groups ++ [created] ∧ groups_wf groups'
      ∧ psegs (g_path created) = segs ∧ g_id created = in_id input
  end.
Proof.
  intros [Hnd Hc] name segs. unfold createGroupIn. fold name.
  destruct (truthy name) eqn:En; simpl.
  2:{ left. split; [|done]. apply dec_stable. by intros ?%truthy_spec; congruence. }
  apply truthy_spec in En.
  assert (Esegs : clean_segments (Some (join_under (normalizeGroupPath (in_parentPath input)) name)) = segs).
  { apply clean_join_under. }
  rewrite normalize_path_opt, Esegs.
  assert (Hok : Forall seg_ok segs) by (apply Forall_app; split; apply clean_segments_ok).
  destruct (decide (segs = [])) as [E|Hne]; [rewrite E; right; left; done|].
  rewrite path_opt_Some by done. destruct (existsb _ groups) eqn:Ex.
  { right. right. split_and!; [done| |done]. apply existsb_spec in Ex as (g & Hg & E%bool_decide_eq_true).
    rewrite <- E. by apply list_elem_of_fmap_2. }
  assert (Hfresh : path_str segs ∉ g_path <$> groups).
  { intros (g & E & Hg)%list_elem_of_fmap. rewrite existsb_false in Ex. specialize (Ex g Hg).
    by apply bool_decide_eq_false in Ex. }
  split_and!; [done..| | |done]; simpl.
  - split.
    + rewrite fmap_app. apply NoDup_app. split_and!; [done| |apply NoDup_singleton].
      simpl. set_solver.
    + apply Forall_app. split; [done|]. constructor; [by apply canonical_str|done].
  - by apply psegs_str.
Qed.

Lemma pm_nextPath_mutate groups hosts t n options r :
  mutateGroupPathIn groups hosts t n options = Ok r → pm_nextPath r = n.
Proof.
  unfold mutateGroupPathIn. destruct (nothing_there _ _ _ _); [done|].
  destruct (mhas _ _); [done|]. destruct (rebase_groups _ _ _ _ _); [|done]. by intros [= <-].
Qed.

(** Where renaming and moving put a group: renaming keeps the parent's segments
    and replaces the last by the new name's, moving keeps the last segment and
    replaces the parent's; the new path is normal and differs from the old one;
    and a group is never moved into itself or a descendant, whatever the inputs. *)
Theorem rename_and_move_paths groups hosts path name parent options :
  clean_segments (Some path) ≠ [] →
  (∀ r, renameGroupIn groups hosts path name options = Ok r →
     psegs (pm_nextPath r)
       = removelast (clean_segments (Some path)) ++ clean_segments (Some (js_trim name))
     ∧ canonical (pm_nextPath r) ∧ psegs (pm_nextPath r) ≠ clean_segments (Some path))
  ∧ (∀ r, moveGroupIn groups hosts path parent options = Ok r →
     psegs (pm_nextPath r)
       = clean_segments parent ++ [List.last (clean_segments (Some path)) []]
     ∧ canonical (pm_nextPath r) ∧ psegs (pm_nextPath r) ≠ clean_segments (Some path))
  ∧ (clean_segments (Some path) `prefix_of` clean_segments parent →
     moveGroupIn groups hosts path parent options
     = Throw "Group cannot be moved into itself or one of its descendants").
Proof.
  intros Hne. pose proof (clean_segments_ok (Some path)) as Hok.
  assert (Et : normalizeGroupPath (Some path) = Some (path_str (clean_segments (Some path)))).
  { by rewrite normalize_path_opt, path_opt_Some. }
  unfold renameGroupIn, moveGroupIn. rewrite Et. set (t := path_str (clean_segments (Some path))).
  assert (Hts : psegs t = clean_segments (Some path)) by by apply psegs_str.
  assert (Hdiff : ∀ n, canonical n → n ≠ t → psegs n ≠ clean_segments (Some path)).
  { intros n Hn Hnt E. apply Hnt. apply psegs_inj; [done|by apply canonical_str|congruence]. }
  split_and!.
  - intros r. destruct (truthy _); simpl; [|done].
    destruct (normalizeGroupPath (Some (join_under _ _))) as [n|] eqn:En; [|done].
    apply normalize_canonical in En as [Hn En]. case_decide; [done|]. intros Hr.
    apply pm_nextPath_mutate in Hr as ->. split_and!; [|done|by apply Hdiff].
    rewrite En, parent_removelast. fold (psegs t). rewrite Hts.
    rewrite <- normalize_opt by by apply removelast_ok.
    rewrite clean_join_under, clean_segments_path by by apply removelast_ok. done.
  - intros r. destruct (match normalizeGroupPath parent with Some _ => _ | None => _ end); [done|].
    destruct (normalizeGroupPath (Some (join_under _ _))) as [n|] eqn:En; [|done].
    apply normalize_canonical in En as [Hn En]. case_decide; [done|]. intros Hr.
    apply pm_nextPath_mutate in Hr as ->. split_and!; [|done|by apply Hdiff].
    rewrite En, clean_join_under. unfold t. rewrite label_str by done. f_equal.
    pose proof Hok as Hok'. rewrite (app_removelast_last [] Hne) in Hok'.
    apply Forall_app in Hok' as [_ Hl]. apply (clean_segments_str [_] Hl).
  - intros Hpre. assert (Hp : clean_segments parent ≠ []).
    { intros E. rewrite E in Hpre. by apply prefix_nil_inv in Hpre. }
    rewrite normalize_path_opt, path_opt_Some by done. rewrite <- path_opt_Some by done.
    unfold t. rewrite <- path_opt_Some, within_prefix by (done || apply clean_segments_ok).
    by rewrite bool_decide_true.
Qed.
End mutation_facts.

(** ** Witnesses *)

Section witnesses.
#[local] Existing Instance unit_collator.
#[local] Instance demo_sha : Sha256Hex := λ s, s.

Definition demo_host (id : string) (group : option jsstring) : HostRecord :=
  {| h_base := {| h_id := js id; h_label := js id; h_groupName := group; h_tags := None;
                  h_terminalThemeId := None; h_favorite := None; h_detectedOs := None;
                  h_createdAt := js "t0"; h_updatedAt := js "t0" |};
     h_details := HVnc {| vnc_hostname := js "h"; vnc_port := 5900; vnc_secretRef := None;
                          vnc_shared := None; vnc_viewOnly := None; vnc_tailnetId := None;
                          vnc_sshTunnelHostId := None; vnc_imageQuality := None |} |}.

Definition demo_options : GroupMutationOptions :=
  {| timestamp := js "t1"; normalizeHost := None; pathAlsoOccupied := None |}.
Definition demo_groups : list GroupRecord :=
  [demo_group "1" "prod" None; demo_group "2" "prod/api" None; demo_group "3" "dev" None].
Definition demo_hosts : list HostRecord :=
  [demo_host "h1" (Some (js "prod/api")); demo_host "h2" (Some (js "prod/db")); demo_host "h3" None].

Lemma canonical_demo (p : jsstring) : normalizeGroupPath (Some p) = Some p → canonical p.
Proof. intros E. by apply normalize_canonical in E as [? _]. Qed.
Lemma canonical_prod : canonical (js "prod").
Proof. apply canonical_demo. vm_compute. reflexivity. Qed.
Lemma canonical_live : canonical (js "live").
Proof. apply canonical_demo. vm_compute. reflexivity. Qed.
Lemma demo_groups_wf : groups_wf demo_groups.
Proof.
  split.
  - apply (bool_decide_unpack (NoDup (g_path <$> demo_groups))). vm_compute. exact I.
  - repeat constructor; apply canonical_demo; vm_compute; reflexivity.
Qed.


Lemma demo_free_groups : forallb (λ g, negb (group_within g (js "live"))) demo_groups = true.
Proof. vm_compute. reflexivity. Qed.
Lemma demo_free_hosts : forallb (λ h, negb (host_within h (js "live"))) demo_hosts = true.
Proof. vm_compute. reflexivity. Qed.

Lemma mutateGroupPathIn_undo_witness :
  ∃ r r', mutateGroupPathIn demo_groups demo_hosts (js "prod") (js "live") demo_options = Ok r
    ∧ mutateGroupPathIn (pm_groups r) (pm_hosts r) (js "live") (js "prod") demo_options = Ok r'
    ∧ host_segs <$> pm_hosts r' = host_segs <$> demo_hosts.
Proof.
  destruct (mutateGroupPathIn demo_groups demo_hosts (js "prod") (js "live") demo_options)
    as [r|msg] eqn:E; [|vm_compute in E; discriminate E].
  destruct (mutateGroupPathIn_undo demo_groups demo_hosts (js "prod") (js "live")
    demo_options demo_options r demo_groups_wf canonical_prod canonical_live
    (λ h, eq_refl) (λ h, eq_refl) eq_refl) as (r' & Hr' & Hh & _).
  - intros g Hg Hw. pose proof (proj1 (forallb_spec _ _) demo_free_groups g Hg) as Hn.
    simpl in Hn. rewrite Hw in Hn. discriminate Hn.
  - intros h Hh Hw. pose proof (proj1 (forallb_spec _ _) demo_free_hosts h Hh) as Hn.
    simpl in Hn. rewrite Hw in Hn. discriminate Hn.
  - exact E.
  - exists r, r'. exact (conj eq_refl (conj Hr' Hh)).
Defined.

Lemma removeGroupFrom_spec_witness :
  match removeGroupFrom demo_groups demo_hosts (js "prod") reparent_descendants demo_options with
  | Ok r => groups_wf (rm_groups r) ∧ rm_removedGroupIds r = [js "1"]
  | Throw _ => False
  end.
Proof.
  pose proof (removeGroupFrom_spec demo_groups demo_hosts (js "prod") reparent_descendants demo_options
    demo_groups_wf (λ h, eq_refl) (λ h, eq_refl)) as H.
  destruct (removeGroupFrom _ _ _ _ _) as [r|msg] eqn:E; [|vm_compute in E; discriminate E].
  split; [|vm_compute in E; injection E as <-; reflexivity].
  change (normalizeGroupPath (Some (js "prod"))) with (Some (js "prod")) in H.
  destruct H as (_ & H & _). exact H.
Defined.

Definition demo_input : CreateInput :=
  {| in_id := js "9"; in_name := js " web "; in_parentPath := Some (js "/prod/"); in_timestamp := js "t" |}.

Lemma createGroupIn_spec_witness :
  match createGroupIn demo_groups demo_input with
  | Ok (groups', created) => groups_wf groups' ∧ g_path created = js "prod/web"
  | Throw _ => False
  end.
Proof.
  pose proof (createGroupIn_spec demo_groups demo_input demo_groups_wf) as H.
  destruct (createGroupIn demo_groups demo_input) as [[gs c]|msg] eqn:E; [|vm_compute in E; discriminate E].
  split; [apply H|]. vm_compute in E. injection E as _ <-. reflexivity.
Defined.

Lemma rename_and_move_paths_witness :
  moveGroupIn demo_groups demo_hosts (js "prod") (Some (js "prod/api")) demo_options
  = Throw "Group cannot be moved into itself or one of its descendants".
Proof.
  apply (rename_and_move_paths demo_groups demo_hosts (js "prod") (js "x") (Some (js "prod/api")) demo_options).
  - vm_compute. discriminate.
  - exists [js "api"]. reflexivity.
Defined.
End witnesses.
