(* ===== verification/SavedWorkspace.v ===== *)
(** * Saved workspaces (packages/shared-core/src/models.ts, apps/desktop/src/main/database.ts)

    The record of a saved layout, the validation of what comes from disk or from
    sync ([unknown] in the source, a JSON value here), and the repository that
    stores the records. *)

From S2P Require Import Prelude Collections JsNumber Json Models GroupOrdering GroupPaths.

(** ** The records *)

Inductive Axis := horizontal | vertical.
#[export] Instance Axis_eq_dec : EqDecision Axis.
Proof. solve_decision. Defined.

Inductive SavedWorkspaceLeafTarget :=
| target_host (hostId label : jsstring)
| target_local (label : jsstring).

Inductive SavedWorkspaceNode :=
| saved_leaf (id : jsstring) (target : SavedWorkspaceLeafTarget)
| saved_split (id : jsstring) (axis : Axis) (ratio : number) (first second : SavedWorkspaceNode).

Record SavedWorkspaceRecord := {
  sw_id : jsstring;
  sw_name : jsstring;
  sw_root : SavedWorkspaceNode;
  sw_favorite : bool;
  sw_groupName : option jsstring;
  sw_lastOpenedAt : option jsstring;
  sw_createdAt : jsstring;
  sw_updatedAt : jsstring;
}.

Record SavedWorkspaceDraft := {
  draft_name : jsstring; draft_root : SavedWorkspaceNode;
  draft_favorite : option bool; draft_groupName : option jsstring }.

Definition MAX_SAVED_WORKSPACE_DEPTH : nat := 24.
Definition MAX_SAVED_WORKSPACE_PANES : nat := 64.

(** [walk]: the answer and [paneCount] after it; [&&] stops at the first failure. *)
Fixpoint walk (input : SavedWorkspaceNode) (depth paneCount : nat) : bool * nat :=
  if (MAX_SAVED_WORKSPACE_DEPTH <? depth)%nat then (false, paneCount)
  else match input with
  | saved_leaf _ _ => ((S paneCount <=? MAX_SAVED_WORKSPACE_PANES)%nat, S paneCount)
  | saved_split _ _ _ first second =>
      let '(ok, paneCount) := walk first (S depth) paneCount in
      if ok then walk second (S depth) paneCount else (false, paneCount)
  end.

Definition isSavedWorkspaceNodeWithinLimits (node : SavedWorkspaceNode) : bool :=
  (walk node 0 0).1.

(** ** Validation *)

Definition normalizeTarget (target : list (jsstring * JValue)) : option SavedWorkspaceLeafTarget :=
  if is_str (field "kind" target) "host" then
    match nonblank (field "hostId" target), nonblank (field "label" target) with
    | Some hostId, Some label => Some (target_host (js_trim hostId) (js_trim label))
    | _, _ => None
    end
  else if is_str (field "kind" target) "local" then
    Some (target_local match nonblank (field "label" target) with
                       | Some label => js_trim label
                       | None => js "Local Terminal"
                       end)
  else None.

Definition ratio_lo : number := num_frac 1 10.
Definition ratio_hi : number := num_frac 9 10.

Definition normalizeRatio (v : JValue) : number :=
  match v with
  | JNum x => if isFinite x then clamp ratio_lo ratio_hi x else num_frac 1 2
  | _ => num_frac 1 2
  end.

Definition normalizeAxis (v : JValue) : option Axis :=
  if is_str v "horizontal" then Some horizontal
  else if is_str v "vertical" then Some vertical else None.

(** [paneCount] and [nodeIds], the variables [normalizeNode] closes over. *)
Record NormState := { paneCount : nat; nodeIds : list jsstring }.

(** [normalizeNode(input, depth)]; the recursion is on the levels still allowed,
    [MAX_SAVED_WORKSPACE_DEPTH + 1 - depth], so no levels left is [depth] too big. *)
Fixpoint normalizeNode (levels : nat) (input : JValue) (st : NormState)
    : option SavedWorkspaceNode * NormState :=
  match levels, as_object input with
  | S levels, Some node =>
      match nonblank (field "id" node) with
      | None => (None, st)
      | Some id =>
          if bool_decide (id ∈ nodeIds st) then (None, st) else
          let st := {| paneCount := paneCount st; nodeIds := nodeIds st ++ [id] |} in
          if is_str (field "kind" node) "leaf" then
            let st := {| paneCount := S (paneCount st); nodeIds := nodeIds st |} in
            if (MAX_SAVED_WORKSPACE_PANES <? paneCount st)%nat then (None, st) else
            match as_object (field "target" node) with
            | None => (None, st)
            | Some target => (saved_leaf id <$> normalizeTarget target, st)
            end
          else if negb (is_str (field "kind" node) "split") then (None, st) else
          match normalizeAxis (field "axis" node) with
          | None => (None, st)
          | Some axis =>
              let '(first, st) := normalizeNode levels (field "first" node) st in
              let '(second, st) := normalizeNode levels (field "second" node) st in
              match first, second with
              | Some first, Some second =>
                  (Some (saved_split id axis (normalizeRatio (field "ratio" node)) first second), st)
              | _, _ => (None, st)
              end
          end
      end
  | _, _ => (None, st)
  end.

Definition is_num_one (v : JValue) : bool :=
  match v with JNum x => bool_decide (x = num_of_Z 1) | _ => false end.
Definition is_true (v : JValue) : bool := match v with JBool b => b | _ => false end.

Definition normalizeSavedWorkspaceRecord (value : JValue) : option SavedWorkspaceRecord :=
  match as_object value with
  | None => None
  | Some record =>
      if negb (is_num_one (field "version" record)) then None else
      match nonblank (field "id" record), nonblank (field "name" record),
            as_string (field "createdAt" record), as_string (field "updatedAt" record) with
      | Some id, Some name, Some createdAt, Some updatedAt =>
          let '(root, st) := normalizeNode (S MAX_SAVED_WORKSPACE_DEPTH) (field "root" record)
                               {| paneCount := 0; nodeIds := [] |} in
          match root with
          | None => None
          | Some root =>
              if (paneCount st <? 2)%nat then None else
              Some {| sw_id := js_trim id; sw_name := js_trim name; sw_root := root;
                      sw_favorite := is_true (field "favorite" record);
                      sw_groupName := match field "groupName" record with
                                      | JStr g => normalizeGroupPath (Some g)
                                      | _ => None
                                      end;
                      sw_lastOpenedAt := as_string (field "lastOpenedAt" record);
                      sw_createdAt := createdAt; sw_updatedAt := updatedAt |}
          end
      | _, _, _, _ => None
      end
  end.

(** A typed record or node where the source passes it as [unknown]. *)
Definition json_opt (o : option jsstring) : JValue :=
  match o with Some s => JStr s | None => JNull end.
Definition json_target (t : SavedWorkspaceLeafTarget) : JValue :=
  JObj match t with
  | target_host hostId label =>
      [(js "kind", JStr (js "host")); (js "hostId", JStr hostId); (js "label", JStr label)]
  | target_local label => [(js "kind", JStr (js "local")); (js "label", JStr label)]
  end.
Fixpoint json_node (n : SavedWorkspaceNode) : JValue :=
  JObj match n with
  | saved_leaf id target =>
      [(js "id", JStr id); (js "kind", JStr (js "leaf")); (js "target", json_target target)]
  | saved_split id axis ratio first second =>
      [(js "id", JStr id); (js "kind", JStr (js "split"));
       (js "axis", JStr match axis with horizontal => js "horizontal" | vertical => js "vertical" end);
       (js "ratio", JNum ratio); (js "first", json_node first); (js "second", json_node second)]
  end.
Definition json_record (r : SavedWorkspaceRecord) : JValue :=
  JObj [(js "version", JNum (num_of_Z 1)); (js "id", JStr (sw_id r)); (js "name", JStr (sw_name r));
        (js "root", json_node (sw_root r)); (js "favorite", JBool (sw_favorite r));
        (js "groupName", json_opt (sw_groupName r));
        (js "lastOpenedAt", json_opt (sw_lastOpenedAt r));
        (js "createdAt", JStr (sw_createdAt r)); (js "updatedAt", JStr (sw_updatedAt r))].

(** ** What a valid record is *)

Fixpoint depth (n : SavedWorkspaceNode) : nat :=
  match n with saved_leaf _ _ => 0 | saved_split _ _ _ a b => S (Nat.max (depth a) (depth b)) end.
Fixpoint panes (n : SavedWorkspaceNode) : nat :=
  match n with saved_leaf _ _ => 1 | saved_split _ _ _ a b => panes a + panes b end.
Fixpoint node_ids (n : SavedWorkspaceNode) : list jsstring :=
  match n with
  | saved_leaf id _ => [id]
  | saved_split id _ _ a b => id :: node_ids a ++ node_ids b
  end.

Definition target_ok (t : SavedWorkspaceLeafTarget) : Prop :=
  match t with
  | target_host hostId label => trimmed hostId ∧ trimmed label
  | target_local label => trimmed label
  end.
Definition ratio_ok (x : number) : Prop :=
  num_le ratio_lo x = true ∧ num_le x ratio_hi = true ∧ isNaN x = false.
Fixpoint node_ok (n : SavedWorkspaceNode) : Prop :=
  match n with
  | saved_leaf id t => js_trim id ≠ [] ∧ target_ok t
  | saved_split id _ ratio a b => js_trim id ≠ [] ∧ ratio_ok ratio ∧ node_ok a ∧ node_ok b
  end.

Record record_ok (r : SavedWorkspaceRecord) : Prop := {
  ok_id : trimmed (sw_id r);
  ok_name : trimmed (sw_name r);
  ok_node : node_ok (sw_root r);
  ok_depth : depth (sw_root r) ≤ MAX_SAVED_WORKSPACE_DEPTH;
  ok_panes : 2 ≤ panes (sw_root r) ≤ MAX_SAVED_WORKSPACE_PANES;
  ok_ids : NoDup (node_ids (sw_root r));
  ok_group : normalizeGroupPath (sw_groupName r) = sw_groupName r;
}.

(** ** Soundness of the validation *)

Lemma nonblank_spec v s : nonblank v = Some s ↔ v = JStr s ∧ js_trim s ≠ [].
Proof.
  destruct v; simpl; try naive_solver. destruct (truthy (js_trim s0)) eqn:E.
  - apply truthy_spec in E. naive_solver.
  - split; [done|]. intros [[= ->] Hs]. apply truthy_spec in Hs. congruence.
Qed.

Lemma nonblank_trimmed v s : nonblank v = Some s → trimmed (js_trim s).
Proof. intros [_ ?]%nonblank_spec. split; [done|apply js_trim_idemp]. Qed.

Lemma normalizeTarget_ok fields t : normalizeTarget fields = Some t → target_ok t.
Proof.
  unfold normalizeTarget. destruct (is_str _ "host").
  - destruct (nonblank (field "hostId" fields)) as [h|] eqn:Eh; [|done].
    destruct (nonblank (field "label" fields)) as [l|] eqn:El; [|done].
    intros [= <-]. split; by eapply nonblank_trimmed.
  - destruct (is_str _ "local"); [|done]. intros [= <-]. simpl.
    destruct (nonblank _) eqn:El; [by eapply nonblank_trimmed|].
    split; vm_compute; [discriminate|reflexivity].
Qed.

Lemma normalizeRatio_ok v : ratio_ok (normalizeRatio v).
Proof.
  assert (ratio_ok (num_frac 1 2)) by (split_and!; vm_compute; reflexivity).
  destruct v as [| | |x| | |]; simpl; try done. destruct (isFinite x) eqn:E; [|done].
  apply clamp_range; [vm_compute; reflexivity..|by destruct x|vm_compute; reflexivity].
Qed.

Lemma normalizeNode_sound levels v st node st' :
  normalizeNode levels v st = (Some node, st') →
  node_ok node ∧ depth node < levels
  ∧ paneCount st' = paneCount st + panes node ∧ paneCount st' ≤ MAX_SAVED_WORKSPACE_PANES
  ∧ nodeIds st' = nodeIds st ++ node_ids node
  ∧ (NoDup (nodeIds st) → NoDup (nodeIds st')).
Proof.
  revert v st node st'. induction levels as [|levels IH]; intros v st node st'; [done|].
  cbn [normalizeNode]. destruct (as_object v) as [fields|]; [|done].
  destruct (nonblank _) as [id|] eqn:Eid; [|done]. apply nonblank_spec in Eid as [_ Hid].
  case_bool_decide as Hnew; [done|]. set (st1 := {| paneCount := paneCount st; nodeIds := nodeIds st ++ [id] |}).
  assert (Hst1 : NoDup (nodeIds st) → NoDup (nodeIds st1)).
  { intros Hnd. simpl. apply NoDup_app. split_and!; [done|set_solver|apply NoDup_singleton]. }
  destruct (is_str _ "leaf").
  - cbn [paneCount]. case_match eqn:Hlt; [done|]. apply Nat.ltb_ge in Hlt. simpl in Hlt.
    destruct (as_object _) as [tf|]; [|done].
    destruct (normalizeTarget tf) as [t|] eqn:Et; [|done]. intros [= <- <-]. simpl.
    split_and!; [done|by eapply normalizeTarget_ok|lia|lia|done|done|done].
  - destruct (negb _); [done|]. destruct (normalizeAxis _) as [axis|]; [|done].
    destruct (normalizeNode levels (field "first" fields) st1) as [[a|] st2] eqn:Ea;
      destruct (normalizeNode levels (field "second" fields) st2) as [[b|] st3] eqn:Eb; try done.
    intros [= <- <-]. apply IH in Ea as (Ha & Hda & Hpa & _ & Hia & Hna).
    apply IH in Eb as (Hb & Hdb & Hpb & Hlb & Hib & Hnb). simpl.
    split_and!; [done|apply normalizeRatio_ok|done..|lia|rewrite Hpb, Hpa; simpl; lia|done| |auto].
    rewrite Hib, Hia. simpl. by rewrite <- !(assoc_L (++)).
Qed.

Lemma walk_spec node d pc : pc ≤ MAX_SAVED_WORKSPACE_PANES →
  (walk node d pc).1 = bool_decide (d + depth node ≤ MAX_SAVED_WORKSPACE_DEPTH)
                       && bool_decide (pc + panes node ≤ MAX_SAVED_WORKSPACE_PANES)
  ∧ ((walk node d pc).1 = true → (walk node d pc).2 = pc + panes node).
Proof.
  revert d pc. induction node as [id t|id axis ratio a IHa b IHb]; intros d pc Hpc; cbn [walk depth panes].
  - destruct (Nat.ltb_spec MAX_SAVED_WORKSPACE_DEPTH d).
    { rewrite bool_decide_false by lia. done. }
    rewrite (bool_decide_true (d + 0 ≤ _)) by lia. cbn [fst snd andb]. split; [|lia].
    destruct (Nat.leb_spec (S pc) MAX_SAVED_WORKSPACE_PANES);
      [rewrite bool_decide_true by lia|rewrite bool_decide_false by lia]; done.
  - destruct (Nat.ltb_spec MAX_SAVED_WORKSPACE_DEPTH d).
    { rewrite bool_decide_false by lia. done. }
    destruct (IHa (S d) pc Hpc) as [Ea Ea2]. destruct (walk a (S d) pc) as [[] pc'] eqn:Ew; simpl in *.
    + rewrite (Ea2 eq_refl). symmetry in Ea. apply andb_true_iff in Ea as [Hd Hp].
      apply bool_decide_eq_true in Hd, Hp. destruct (IHb (S d) (pc + panes a) Hp) as [Eb Eb2].
      split; [|intros E; rewrite Eb2 by done; lia].
      rewrite Eb. f_equal; apply bool_decide_ext; lia.
    + split; [|done]. symmetry in Ea |- *. apply andb_false_iff.
      apply andb_false_iff in Ea as [Ea|Ea]; apply bool_decide_eq_false in Ea; [left|right];
        apply bool_decide_eq_false; [lia|]. assert (0 < panes b) by (clear; induction b; simpl; lia). lia.
Qed.

Lemma within_limits_spec node :
  isSavedWorkspaceNodeWithinLimits node = true
  ↔ depth node ≤ MAX_SAVED_WORKSPACE_DEPTH ∧ panes node ≤ MAX_SAVED_WORKSPACE_PANES.
Proof.
  unfold isSavedWorkspaceNodeWithinLimits. destruct (walk_spec node 0 0) as [-> _]; [unfold MAX_SAVED_WORKSPACE_PANES; lia|].
  by rewrite andb_true_iff, !bool_decide_eq_true.
Qed.

Lemma normalize_group_idem g : normalizeGroupPath (normalizeGroupPath g) = normalizeGroupPath g.
Proof. rewrite !normalize_path_opt. by rewrite clean_segments_path by apply clean_segments_ok. Qed.

Lemma normalize_sound v r : normalizeSavedWorkspaceRecord v = Some r → record_ok r.
Proof.
  unfold normalizeSavedWorkspaceRecord. destruct (as_object v) as [record|]; [|done].
  destruct (negb _); [done|]. destruct (nonblank (field "id" record)) as [id|] eqn:Eid; [|done].
  destruct (nonblank (field "name" record)) as [name|] eqn:En; [|done].
  destruct (as_string _); [|done]. destruct (as_string _); [|done].
  destruct (normalizeNode _ _ _) as [[root|] st] eqn:Er; [|done].
  destruct (Nat.ltb_spec (paneCount st) 2) as [|Hp]; [done|]. intros [= <-].
  apply normalizeNode_sound in Er as (Hok & Hd & Hpc & Hle & Hi & Hnd). simpl in *.
  split; simpl.
  - by eapply nonblank_trimmed.
  - by eapply nonblank_trimmed.
  - done.
  - lia.
  - lia.
  - rewrite <- Hi. apply Hnd. constructor.
  - destruct (field "groupName" record); try done. apply normalize_group_idem.
Qed.

(** ** Completeness: what is valid is read back unchanged *)

(** Reading a literal field of a literal object. *)
Ltac read_fields :=
  unfold field; repeat (rewrite mget_here || rewrite mget_skip by (vm_compute; reflexivity));
  cbn [default id].

Lemma nonblank_str s : js_trim s ≠ [] → nonblank (JStr s) = Some s.
Proof. intros. by apply nonblank_spec. Qed.
Lemma nonblank_json_trimmed s : trimmed s → nonblank (JStr s) = Some s.
Proof. intros [Hs Ht]. apply nonblank_str. by rewrite Ht. Qed.

Lemma normalizeTarget_json t fields : target_ok t → json_target t = JObj fields →
  normalizeTarget fields = Some t.
Proof.
  destruct t as [h l|l]; simpl.
  - intros [Hh Hl] [= <-]. unfold normalizeTarget. read_fields.
    change (is_str (JStr (js "host")) "host") with true. cbn [negb].
    rewrite !nonblank_json_trimmed by done. destruct Hh as [_ ->], Hl as [_ ->]. done.
  - intros Hl [= <-]. unfold normalizeTarget. read_fields.
    change (is_str (JStr (js "local")) "host") with false.
    change (is_str (JStr (js "local")) "local") with true. cbn iota.
    rewrite nonblank_json_trimmed by done. by destruct Hl as [_ ->].
Qed.

Lemma normalizeRatio_id x : ratio_ok x → normalizeRatio (JNum x) = x.
Proof.
  intros (H1 & H2 & H3). simpl. destruct (isFinite x) eqn:E.
  - by apply clamp_id; [vm_compute; reflexivity..| | |].
  - destruct x as [| [] | | ]; try done; vm_compute in H1, H2; done.
Qed.

Lemma normalizeNode_json node levels st :
  node_ok node → depth node < levels →
  paneCount st + panes node ≤ MAX_SAVED_WORKSPACE_PANES →
  NoDup (nodeIds st ++ node_ids node) →
  normalizeNode levels (json_node node) st
  = (Some node, {| paneCount := paneCount st + panes node; nodeIds := nodeIds st ++ node_ids node |}).
Proof.
  revert levels st. induction node as [id t|id axis ratio a IHa b IHb];
    intros [|levels] st Hok Hd Hp Hnd; simpl in Hd; try lia;
    cbn [json_node normalizeNode as_object node_ids panes] in *; read_fields.
  - destruct Hok as [Hid Ht]. rewrite nonblank_str by done.
    rewrite bool_decide_false by (apply NoDup_app in Hnd as (_ & Hn & _); set_solver).
    change (is_str (JStr (js "leaf")) "leaf") with true. cbn iota. cbn [paneCount nodeIds].
    rewrite (proj2 (Nat.ltb_ge _ _)) by lia.
    destruct (as_object (json_target t)) as [fields|] eqn:E; [|discriminate E].
    assert (Ej : json_target t = JObj fields) by (injection E as <-; reflexivity).
    rewrite (normalizeTarget_json t fields) by done.
    simpl. by rewrite Nat.add_1_r.
  - destruct Hok as (Hid & Hr & Ha & Hb). rewrite nonblank_str by done.
    rewrite bool_decide_false by (apply NoDup_app in Hnd as (_ & Hn & _); set_solver).
    change (is_str (JStr (js "split")) "leaf") with false.
    change (is_str (JStr (js "split")) "split") with true. cbn iota. cbn [negb].
    assert (normalizeAxis (JStr match axis with horizontal => js "horizontal"
      | vertical => js "vertical" end) = Some axis) as -> by by destruct axis.
    rewrite cons_middle, !(assoc_L (++)) in Hnd.
    rewrite IHa; [|done|lia|simpl; lia|simpl; by apply NoDup_app in Hnd as [? _]].
    rewrite IHb; [|done|lia|simpl; lia|simpl; by rewrite <- (assoc_L (++)) in Hnd |- *].
    rewrite normalizeRatio_id by done. cbn [paneCount nodeIds].
    by rewrite <- Nat.add_assoc, <- !(assoc_L (++)).
Qed.

Lemma normalize_complete r : record_ok r → normalizeSavedWorkspaceRecord (json_record r) = Some r.
Proof.
  intros [Hid Hn Hok Hd Hp Hnd Hg]. unfold normalizeSavedWorkspaceRecord, json_record.
  cbn [as_object]. read_fields.
  change (is_num_one (JNum (num_of_Z 1))) with true. cbn [negb as_string].
  rewrite !nonblank_json_trimmed by done.
  rewrite (normalizeNode_json (sw_root r) (S MAX_SAVED_WORKSPACE_DEPTH)
    {| paneCount := 0; nodeIds := [] |} Hok) by (simpl; lia || done).
  cbn [paneCount]. rewrite (proj2 (Nat.ltb_ge _ _)) by (simpl; lia).
  destruct Hid as [_ ->], Hn as [_ ->]. destruct r; simpl in *. repeat f_equal.
  - destruct sw_groupName0; simpl; done.
  - by destruct sw_lastOpenedAt0.
Qed.

(** C38: Whatever comes from disk or sync, a record that passes validation is a
    saved workspace the program can render: 2 to 64 panes, at most 24 splits deep,
    no two nodes with one id, no blank name or label, every ratio between 0.1 and
    0.9, a normal group path; so the limit check of the save dialog accepts it. *)
Theorem normalizeSavedWorkspaceRecord_sound v r :
  normalizeSavedWorkspaceRecord v = Some r →
  record_ok r ∧ isSavedWorkspaceNodeWithinLimits (sw_root r) = true.
Proof.
  intros Hr%normalize_sound. split; [done|]. apply within_limits_spec.
  destruct Hr. lia.
Qed.

(** Validation loses nothing: a valid record is read back from its JSON exactly,
    so validating twice, or storing and loading, never changes it; and the valid
    records are exactly the ones that survive. *)
Theorem normalizeSavedWorkspaceRecord_roundtrip r :
  normalizeSavedWorkspaceRecord (json_record r) = Some r ↔ record_ok r.
Proof. split; [apply normalize_sound|apply normalize_complete]. Qed.

(** ** The repository

    [SavedWorkspaceRepository] keeps the records in the stored state.  [nowIso()]
    and [randomUUID()] are arguments. *)

Section repository.
Context `{Collator, DateParse}.
Implicit Types (ws : list SavedWorkspaceRecord).

(** [Date.parse(s ?? '') || 0] *)
Definition opened_at (r : SavedWorkspaceRecord) : Z :=
  default 0%Z (date_parse (default [] (sw_lastOpenedAt r))).
Definition favorite_rank (r : SavedWorkspaceRecord) : Z := if sw_favorite r then 1 else 0.

Definition compareSavedWorkspaces : SavedWorkspaceRecord → SavedWorkspaceRecord → Z :=
  cmp_or (λ left right, favorite_rank right - favorite_rank left)%Z
    (cmp_or (λ left right, opened_at right - opened_at left)%Z
      (cmp_or (λ left right, localeCompare (sw_name left) (sw_name right))
         (λ left right, localeCompare (sw_id left) (sw_id right)))).

Definition ws_list ws : list SavedWorkspaceRecord := js_sort compareSavedWorkspaces ws.
Definition ws_getById ws (id : jsstring) : option SavedWorkspaceRecord :=
  List.find (λ record, bool_decide (sw_id record = id)) ws.

Definition ws_create ws (uuid timestamp : jsstring) (draft : SavedWorkspaceDraft)
    : result (SavedWorkspaceRecord * list SavedWorkspaceRecord) :=
  match normalizeSavedWorkspaceRecord (json_record
    {| sw_id := uuid; sw_name := draft_name draft; sw_root := draft_root draft;
       sw_favorite := default false (draft_favorite draft);
       sw_groupName := normalizeGroupPath (draft_groupName draft); sw_lastOpenedAt := None;
       sw_createdAt := timestamp; sw_updatedAt := timestamp |}) with
  | None => Throw "Invalid saved workspace"
  | Some record => Ok (record, ws ++ [record])
  end.

(** [savedWorkspaces.map((entry) => entry.id === id ? record : entry)] *)
Definition ws_replace ws (id : jsstring) (record : SavedWorkspaceRecord) : list SavedWorkspaceRecord :=
  (λ entry, if decide (sw_id entry = id) then record else entry) <$> ws.

Definition ws_rename ws (id name timestamp : jsstring)
    : result (SavedWorkspaceRecord * list SavedWorkspaceRecord) :=
  match ws_getById ws id with
  | None => Throw "Saved workspace not found"
  | Some current =>
      let nextName := js_trim name in
      if negb (truthy nextName) then Throw "Workspace name is required" else
      let record := {| sw_id := sw_id current; sw_name := nextName; sw_root := sw_root current;
                       sw_favorite := sw_favorite current; sw_groupName := sw_groupName current;
                       sw_lastOpenedAt := sw_lastOpenedAt current;
                       sw_createdAt := sw_createdAt current; sw_updatedAt := timestamp |} in
      Ok (record, ws_replace ws id record)
  end.

Definition ws_setFavorite ws (id : jsstring) (favorite : bool) (timestamp : jsstring)
    : result (SavedWorkspaceRecord * list SavedWorkspaceRecord) :=
  match ws_getById ws id with
  | None => Throw "Saved workspace not found"
  | Some current =>
      let record := {| sw_id := sw_id current; sw_name := sw_name current; sw_root := sw_root current;
                       sw_favorite := favorite; sw_groupName := sw_groupName current;
                       sw_lastOpenedAt := sw_lastOpenedAt current;
                       sw_createdAt := sw_createdAt current; sw_updatedAt := timestamp |} in
      Ok (record, ws_replace ws id record)
  end.

Definition with_group (r : SavedWorkspaceRecord) (g : option jsstring) (ts : jsstring) : SavedWorkspaceRecord :=
  {| sw_id := sw_id r; sw_name := sw_name r; sw_root := sw_root r; sw_favorite := sw_favorite r;
     sw_groupName := g; sw_lastOpenedAt := sw_lastOpenedAt r;
     sw_createdAt := sw_createdAt r; sw_updatedAt := ts |}.

Definition ws_moveToGroup ws (id : jsstring) (groupName : option jsstring) (timestamp : jsstring)
    : result (SavedWorkspaceRecord * list SavedWorkspaceRecord) :=
  match ws_getById ws id with
  | None => Throw "Saved workspace not found"
  | Some current =>
      let record := with_group current (normalizeGroupPath groupName) timestamp in
      Ok (record, ws_replace ws id record)
  end.

Definition ws_touchOpened ws (id timestamp : jsstring)
    : result (SavedWorkspaceRecord * list SavedWorkspaceRecord) :=
  match ws_getById ws id with
  | None => Throw "Saved workspace not found"
  | Some current =>
      let record := {| sw_id := sw_id current; sw_name := sw_name current; sw_root := sw_root current;
                       sw_favorite := sw_favorite current; sw_groupName := sw_groupName current;
                       sw_lastOpenedAt := Some timestamp;
                       sw_createdAt := sw_createdAt current; sw_updatedAt := sw_updatedAt current |} in
      Ok (record, ws_replace ws id record)
  end.

Definition ws_remove ws (id : jsstring) : list SavedWorkspaceRecord :=
  List.filter (λ entry, negb (bool_decide (sw_id entry = id))) ws.

Definition ws_replaceAll (records : list JValue) : list SavedWorkspaceRecord :=
  js_sort compareSavedWorkspaces (omap normalizeSavedWorkspaceRecord records).

(** The repository as a state machine: an operation, and the state after it; a
    throwing operation leaves the state alone. *)
Inductive RepoOp :=
| OpCreate (uuid ts : jsstring) (draft : SavedWorkspaceDraft)
| OpRename (id name ts : jsstring)
| OpSetFavorite (id : jsstring) (favorite : bool) (ts : jsstring)
| OpMoveToGroup (id : jsstring) (groupName : option jsstring) (ts : jsstring)
| OpTouchOpened (id ts : jsstring)
| OpRemove (id : jsstring)
| OpReplaceAll (records : list JValue).

Definition after {A} (ws : list A) (r : result (A * list A)) : list A :=
  match r with Ok (_, ws') => ws' | Throw _ => ws end.

Definition repo_step ws (op : RepoOp) : list SavedWorkspaceRecord :=
  match op with
  | OpCreate uuid ts draft => after ws (ws_create ws uuid ts draft)
  | OpRename id name ts => after ws (ws_rename ws id name ts)
  | OpSetFavorite id favorite ts => after ws (ws_setFavorite ws id favorite ts)
  | OpMoveToGroup id g ts => after ws (ws_moveToGroup ws id g ts)
  | OpTouchOpened id ts => after ws (ws_touchOpened ws id ts)
  | OpRemove id => ws_remove ws id
  | OpReplaceAll records => ws_replaceAll records
  end.
End repository.

Section repository_facts.
Context `{Collator, DateParse}.
Implicit Types (ws : list SavedWorkspaceRecord).

#[export] Instance compareSavedWorkspaces_comparator : Comparator compareSavedWorkspaces.
Proof. unfold compareSavedWorkspaces. apply _. Qed.

Lemma ws_getById_Some ws id r : ws_getById ws id = Some r → r ∈ ws ∧ sw_id r = id.
Proof. intros [Hr Hid%bool_decide_eq_true]%find_Some_1. done. Qed.

Lemma ws_replace_ok ws id record :
  Forall record_ok ws → record_ok record → Forall record_ok (ws_replace ws id record).
Proof.
  intros Hws Hr. apply Forall_fmap. eapply Forall_impl; [exact Hws|].
  intros r ?. simpl. by case_decide.
Qed.

(** The edits that replace the record they found. *)
Lemma edit_ok ws id (f : SavedWorkspaceRecord → SavedWorkspaceRecord) r :
  Forall record_ok ws → ws_getById ws id = Some r →
  (record_ok r → record_ok (f r)) → Forall record_ok (ws_replace ws id (f r)).
Proof.
  intros Hws [Hr _]%ws_getById_Some Hf. apply ws_replace_ok; [done|].
  apply Hf. by eapply Forall_forall in Hws.
Qed.

Lemma repo_step_ok ws op : Forall record_ok ws → Forall record_ok (repo_step ws op).
Proof.
  intros Hws. destruct op as [u ts d|id name ts|id fav ts|id g ts|id ts|id|records]; simpl.
  - unfold ws_create. destruct (normalizeSavedWorkspaceRecord _) as [r|] eqn:E; [|done]. simpl.
    apply Forall_app. split; [done|]. constructor; [by eapply normalize_sound|constructor].
  - unfold ws_rename. destruct (ws_getById ws id) as [r|] eqn:E; [|done].
    destruct (truthy (js_trim name)) eqn:En; [|done]. apply truthy_spec in En. simpl.
    eapply (edit_ok ws id (λ r, {| sw_id := _ |})); [done..|]. intros [? ? ? ? ? ? ?]. split; simpl; try done.
    split; [done|apply js_trim_idemp].
  - unfold ws_setFavorite. destruct (ws_getById ws id) as [r|] eqn:E; [|done]. simpl.
    eapply (edit_ok ws id (λ r, {| sw_id := _ |})); [done..|]. by intros [].
  - unfold ws_moveToGroup. destruct (ws_getById ws id) as [r|] eqn:E; [|done]. simpl.
    eapply (edit_ok ws id (λ r, with_group r _ _)); [done..|]. intros []. split; simpl; try done.
    apply normalize_group_idem.
  - unfold ws_touchOpened. destruct (ws_getById ws id) as [r|] eqn:E; [|done]. simpl.
    eapply (edit_ok ws id (λ r, {| sw_id := _ |})); [done..|]. by intros [].
  - apply Forall_forall. intros r Hr. unfold ws_remove in Hr. rewrite list_elem_of_In, filter_In in Hr.
    rewrite <- list_elem_of_In in Hr. destruct Hr as [Hr _]. by eapply Forall_forall in Hws.
  - unfold ws_replaceAll. rewrite js_sort_perm. apply Forall_forall.
    intros r (v & _ & E)%list_elem_of_omap. by eapply normalize_sound.
Qed.

(** Whatever operations the repository is asked for, in any order and with any
    input (drafts, blank names, unknown ids, records from a sync), every record it
    holds is a valid saved workspace. *)
Theorem repository_invariant ops :
  Forall record_ok (foldl repo_step [] ops).
Proof.
  assert (∀ ws, Forall record_ok ws → Forall record_ok (foldl repo_step ws ops)) as H'; [|by apply H'].
  induction ops as [|op ops IH]; intros ws Hws; simpl; [done|].
  by apply IH, repo_step_ok.
Qed.

Definition edits (op : RepoOp) : option jsstring :=
  match op with
  | OpRename id _ _ | OpSetFavorite id _ _ | OpMoveToGroup id _ _ | OpTouchOpened id _ => Some id
  | _ => None
  end.

Lemma ws_replace_edit ws id r record : ws_getById ws id = Some r → sw_id record = sw_id r →
  sw_id <$> ws_replace ws id record = sw_id <$> ws
  ∧ List.filter (λ e, negb (bool_decide (sw_id e = id))) (ws_replace ws id record)
    = List.filter (λ e, negb (bool_decide (sw_id e = id))) ws.
Proof.
  intros [_ Hid]%ws_getById_Some Hrec. subst id. clear -Hrec. unfold ws_replace.
  induction ws as [|e ws [IH1 IH2]]; [done|]. rewrite !fmap_cons. cbn [List.filter].
  rewrite IH1, IH2. case_decide as He; [|done]. split; [congruence|].
  by rewrite !bool_decide_true by congruence.
Qed.

(** An edit of one saved workspace touches no other record, adds and removes
    none and keeps the order; and opening a workspace, which only records when it
    was used on this device, never advances the modification time that decides
    last-writer-wins in a sync. *)
Theorem repository_edits_locally ws op id :
  edits op = Some id →
  sw_id <$> repo_step ws op = sw_id <$> ws
  ∧ List.filter (λ e, negb (bool_decide (sw_id e = id))) (repo_step ws op)
    = List.filter (λ e, negb (bool_decide (sw_id e = id))) ws
  ∧ (∀ ts, NoDup (sw_id <$> ws) → op = OpTouchOpened id ts →
       sw_updatedAt <$> repo_step ws op = sw_updatedAt <$> ws).
Proof.
  intros Hed.
  assert (Htouch : ∀ ts, NoDup (sw_id <$> ws) →
    sw_updatedAt <$> repo_step ws (OpTouchOpened id ts) = sw_updatedAt <$> ws).
  { intros ts Hnd. simpl. unfold ws_touchOpened. destruct (ws_getById ws id) as [r|] eqn:E; [|done].
    simpl. unfold ws_replace. rewrite <- list_fmap_compose. apply list_fmap_ext.
    intros i e He. simpl. case_decide as Hid; [|done]. simpl.
    apply ws_getById_Some in E as [[j Hj]%list_elem_of_lookup Hr]. f_equal.
    assert (i = j) as ->; [|congruence].
    apply (NoDup_lookup _ _ _ id Hnd); rewrite list_lookup_fmap; [rewrite He|rewrite Hj]; simpl; congruence. }
  destruct op as [u ts d|i name ts|i fav ts|i g ts|i ts|i|records]; simpl in Hed; try discriminate Hed;
    injection Hed as ->.
  4: split_and!; [..|intros ? ? [= <-]; by apply Htouch]; simpl; unfold ws_touchOpened.
  1-3: split_and!; [..|discriminate]; simpl;
    unfold ws_rename, ws_setFavorite, ws_moveToGroup.
  all: destruct (ws_getById ws id) as [r|] eqn:E; simpl; try done.
  1-2: destruct (truthy (js_trim name)); simpl; try done.
  all: by eapply ws_replace_edit.
Qed.
End repository_facts.
