(* ===== verification/HostStore.v ===== *)
(** * Stored hosts (apps/desktop/src/main/database.ts)

    How a host record is normalized before it is stored, and the order of the
    host list. *)

From S2P Require Import Prelude Collections Models GroupOrdering GroupPaths GroupMutations.

(** [s.toLocaleLowerCase()], the platform's. *)
Class LocaleLower := toLocaleLowerCase : jsstring → jsstring.

(** [s?.trim() || null] *)
Definition trim_or_null (s : option jsstring) : option jsstring := opt_truthy (js_trim <$> s).

Section tags.
Context `{LocaleLower}.

(** The loop of [normalizeTags]: [seen] and [normalized] so far. *)
Fixpoint tags_loop (tags : list jsstring) (seen normalized : list jsstring) : list jsstring :=
  match tags with
  | [] => normalized
  | value :: tags =>
      let tag := js_trim value in
      if negb (truthy tag) then tags_loop tags seen normalized else
      let key := toLocaleLowerCase tag in
      if shas key seen then tags_loop tags seen normalized
      else tags_loop tags (sadd key seen) (normalized ++ [tag])
  end.
Definition normalizeTags (tags : option (list jsstring)) : list jsstring :=
  match tags with None => [] | Some tags => tags_loop tags [] [] end.
End tags.

Definition MAX_HOST_STARTUP_COMMAND_LENGTH : N := 32768.
Definition MAX_HOST_ENV_VARS : nat := 100.

Definition normalizeHostStartupCommand (value : option HostStartupCommand) : option HostStartupCommand :=
  match value with
  | Some (StartupCommand command) =>
      if truthy (js_trim command) && (N.of_nat (length command) <=? MAX_HOST_STARTUP_COMMAND_LENGTH)%N
      then Some (StartupCommand command) else None
  | Some (StartupSnippet snippetId) =>
      let snippetId := js_trim snippetId in
      if truthy snippetId then Some (StartupSnippet snippetId) else None
  | None => None
  end.

(** [/^[A-Za-z_][A-Za-z0-9_]*$/] *)
Definition is_alpha_ (c : N) : bool :=
  ((65 <=? c) && (c <=? 90) || (97 <=? c) && (c <=? 122) || (c =? 95))%N.
Definition is_digit (c : N) : bool := ((48 <=? c) && (c <=? 57))%N.
Definition envNamePattern (s : jsstring) : bool :=
  match s with c :: s => is_alpha_ c && forallb (λ c, is_alpha_ c || is_digit c) s | [] => false end.
(** [value.replace(/[\r\n]+/g, '')] *)
Definition drop_newlines (s : jsstring) : jsstring :=
  List.filter (λ c, negb ((c =? 13) || (c =? 10))%N) s.

Fixpoint env_loop (entries result : list HostEnvVar) : list HostEnvVar :=
  match entries with
  | [] => result
  | entry :: entries =>
      let key := js_trim (env_key entry) in
      if negb (envNamePattern key) then env_loop entries result else
      let result := result ++ [{| env_key := key; env_value := drop_newlines (env_value entry) |}] in
      if (MAX_HOST_ENV_VARS <=? length result)%nat then result else env_loop entries result
  end.
Definition normalizeHostEnvVars (value : option (list HostEnvVar)) : list HostEnvVar :=
  match value with None => [] | Some entries => env_loop entries [] end.

Definition metadata_statuses : list jsstring := [js "loading"; js "ready"; js "error"; js "idle"].
Definition normalizeAwsSshMetadataStatus (status username : option jsstring) (port : option Z) : jsstring :=
  match status with
  | Some s =>
      if bool_decide (s ∈ metadata_statuses) then s
      else match trim_or_null username, port with
           | Some _, _ => js "ready"
           | None, Some p => if decide (p = 0%Z) then js "idle" else js "ready"
           | None, None => js "idle"
           end
  | None =>
      match trim_or_null username, port with
      | Some _, _ => js "ready"
      | None, Some p => if decide (p = 0%Z) then js "idle" else js "ready"
      | None, None => js "idle"
      end
  end.
Definition normalizeAwsSshMetadataError (error : option jsstring) : option jsstring := trim_or_null error.

Definition only_true (b : option bool) : option bool :=
  match b with Some true => Some true | _ => None end.

Section normalize.
Context `{LocaleLower}.

(** The fields every kind normalizes the same way. *)
Definition normalize_base (b : HostBaseRecord) : HostBaseRecord :=
  {| h_id := h_id b; h_label := h_label b; h_groupName := normalizeGroupPath (h_groupName b);
     h_tags := Some (normalizeTags (h_tags b)); h_terminalThemeId := h_terminalThemeId b;
     h_favorite := only_true (h_favorite b); h_detectedOs := h_detectedOs b;
     h_createdAt := h_createdAt b; h_updatedAt := h_updatedAt b |}.

Definition normalize_details (d : HostDetails) : HostDetails :=
  match d with
  | HRdp r => HRdp r
  | HVnc r => HVnc r
  | HAwsEcs r => HAwsEcs r
  | HAwsEc2 r => HAwsEc2
      {| ec2_awsProfileId := ec2_awsProfileId r; ec2_awsProfileName := ec2_awsProfileName r;
         ec2_awsRegion := ec2_awsRegion r; ec2_awsInstanceId := ec2_awsInstanceId r;
         ec2_awsAvailabilityZone := ec2_awsAvailabilityZone r;
         ec2_awsInstanceName := ec2_awsInstanceName r; ec2_awsPlatform := ec2_awsPlatform r;
         ec2_awsPrivateIp := ec2_awsPrivateIp r; ec2_awsState := ec2_awsState r;
         ec2_awsSshUsername := ec2_awsSshUsername r; ec2_awsSshPort := ec2_awsSshPort r;
         ec2_awsSshMetadataStatus := Some (normalizeAwsSshMetadataStatus
           (ec2_awsSshMetadataStatus r) (ec2_awsSshUsername r) (ec2_awsSshPort r));
         ec2_awsSshMetadataError := normalizeAwsSshMetadataError (ec2_awsSshMetadataError r);
         ec2_awsSsmServerProxyEnabled := ec2_awsSsmServerProxyEnabled r;
         ec2_agentForwarding := only_true (ec2_agentForwarding r);
         ec2_startupCommand := normalizeHostStartupCommand (ec2_startupCommand r) |}
  | HSsh r => HSsh
      {| ssh_tailnetId := ssh_tailnetId r; ssh_hostname := ssh_hostname r; ssh_port := ssh_port r;
         ssh_username := ssh_username r; ssh_authType := ssh_authType r;
         ssh_privateKeyPath := ssh_privateKeyPath r; ssh_certificatePath := ssh_certificatePath r;
         ssh_secretRef := ssh_secretRef r; ssh_jumpHostId := ssh_jumpHostId r;
         ssh_jumpHostIds := ssh_jumpHostIds r;
         ssh_startupCommand := normalizeHostStartupCommand (ssh_startupCommand r);
         ssh_useMosh := ssh_useMosh r; ssh_agentForwarding := only_true (ssh_agentForwarding r);
         ssh_env := Some (normalizeHostEnvVars (ssh_env r)) |}
  | HWarpgate r => HWarpgate
      {| wg_warpgateBaseUrl := wg_warpgateBaseUrl r; wg_warpgateSshHost := wg_warpgateSshHost r;
         wg_warpgateSshPort := wg_warpgateSshPort r; wg_warpgateTargetId := wg_warpgateTargetId r;
         wg_warpgateTargetName := wg_warpgateTargetName r; wg_warpgateUsername := wg_warpgateUsername r;
         wg_startupCommand := normalizeHostStartupCommand (wg_startupCommand r) |}
  | HSerial r => HSerial
      {| ser_transport := ser_transport r; ser_devicePath := trim_or_null (ser_devicePath r);
         ser_host := trim_or_null (ser_host r); ser_port := ser_port r;
         ser_baudRate := ser_baudRate r; ser_dataBits := ser_dataBits r; ser_parity := ser_parity r;
         ser_stopBits := ser_stopBits r; ser_flowControl := ser_flowControl r;
         ser_transmitLineEnding := ser_transmitLineEnding r; ser_localEcho := ser_localEcho r;
         ser_localLineEditing := ser_localLineEditing r |}
  end.

(** On a record of a known kind; what comes after in the source repairs records of
    an older format, which [HostRecord] does not contain. *)
Definition normalizeIncomingHostRecord (record : HostRecord) : HostRecord :=
  {| h_base := normalize_base (h_base record); h_details := normalize_details (h_details record) |}.
End normalize.

(** ** The order of the host list *)

Definition host_kind (h : HostRecord) : jsstring :=
  match h_details h with
  | HSsh _ => js "ssh" | HAwsEc2 _ => js "aws-ec2" | HAwsEcs _ => js "aws-ecs"
  | HWarpgate _ => js "warpgate-ssh" | HSerial _ => js "serial" | HRdp _ => js "rdp" | HVnc _ => js "vnc"
  end.

Section compare.
Context `{Collator}.

(** [c !== 0 ? c : rest] *)
Definition or_else (c rest : Z) : Z := if decide (c = 0%Z) then rest else c.

Definition compareHosts (left right : HostRecord) : Z :=
  or_else (localeCompare (default [] (groupName left)) (default [] (groupName right)))
  (or_else (localeCompare (h_label (h_base left)) (h_label (h_base right)))
  match h_details left, h_details right with
  | HSsh l, HSsh r => localeCompare (ssh_hostname l) (ssh_hostname r)
  | HAwsEc2 l, HAwsEc2 r =>
      or_else (localeCompare (ec2_awsRegion l) (ec2_awsRegion r))
        (localeCompare (ec2_awsInstanceId l) (ec2_awsInstanceId r))
  | HAwsEcs l, HAwsEcs r =>
      or_else (localeCompare (ecs_awsRegion l) (ecs_awsRegion r))
        (localeCompare (ecs_awsEcsClusterName l) (ecs_awsEcsClusterName r))
  | HWarpgate l, HWarpgate r =>
      or_else (localeCompare (wg_warpgateSshHost l) (wg_warpgateSshHost r))
        (localeCompare (wg_warpgateTargetName l) (wg_warpgateTargetName r))
  | HSerial l, HSerial r =>
      match ser_transport l, ser_transport r with
      | local, local => localeCompare (default [] (ser_devicePath l)) (default [] (ser_devicePath r))
      | _, _ => or_else (localeCompare (default [] (ser_host l)) (default [] (ser_host r)))
                  (default 0 (ser_port l) - default 0 (ser_port r))%Z
      end
  | HRdp _, HRdp _ | HVnc _, HVnc _ => 0%Z
  | _, _ => localeCompare (host_kind left) (host_kind right)
  end).
End compare.

(** ** Normalization is idempotent *)

Section normalize_facts.
Context `{LocaleLower}.

Definition tag_list_ok (l : list jsstring) : Prop :=
  Forall (λ t, t ≠ [] ∧ js_trim t = t) l ∧ NoDup (toLocaleLowerCase <$> l).

Lemma tags_loop_ok tags norm : tag_list_ok norm →
  tag_list_ok (tags_loop tags (toLocaleLowerCase <$> norm) norm).
Proof.
  revert norm. induction tags as [|v tags IH]; intros norm Hn; cbn [tags_loop]; [done|].
  destruct (truthy (js_trim v)) eqn:Et; simpl; [|by apply IH]. apply truthy_spec in Et.
  unfold shas. case_bool_decide as Hk; [by apply IH|].
  unfold sadd. rewrite decide_False by done.
  replace ((toLocaleLowerCase <$> norm) ++ [toLocaleLowerCase (js_trim v)])
    with (toLocaleLowerCase <$> norm ++ [js_trim v]) by by rewrite fmap_app.
  apply IH. destruct Hn as [Hf Hnd]. split.
  - apply Forall_app. split; [done|]. repeat constructor; [done|apply js_trim_idemp].
  - rewrite fmap_app. apply NoDup_app. split_and!; [done|set_solver|apply NoDup_singleton].
Qed.

Lemma tags_loop_id tags norm : tag_list_ok (norm ++ tags) →
  tags_loop tags (toLocaleLowerCase <$> norm) norm = norm ++ tags.
Proof.
  revert norm. induction tags as [|v tags IH]; intros norm [Hf Hnd]; cbn [tags_loop]; [by rewrite app_nil_r|].
  pose proof Hf as Hf'. apply Forall_app in Hf' as [_ [[Hv Ht] _]%Forall_cons]. rewrite Ht.
  rewrite (proj2 (truthy_spec v)) by done. simpl.
  assert (Hk : toLocaleLowerCase v ∉ toLocaleLowerCase <$> norm).
  { rewrite fmap_app, fmap_cons in Hnd. apply NoDup_app in Hnd as (_ & Hd & _). set_solver. }
  unfold shas, sadd. rewrite bool_decide_false, decide_False by done.
  replace ((toLocaleLowerCase <$> norm) ++ [toLocaleLowerCase v])
    with (toLocaleLowerCase <$> norm ++ [v]) by by rewrite fmap_app.
  rewrite IH; rewrite <- (assoc_L (++)); done.
Qed.

Lemma normalizeTags_idem tags :
  normalizeTags (Some (normalizeTags tags)) = normalizeTags tags.
Proof.
  assert (Hok : tag_list_ok (normalizeTags tags)).
  { destruct tags as [l|]; [|by split; constructor]. apply (tags_loop_ok l []). by split; constructor. }
  simpl. apply (tags_loop_id _ []). done.
Qed.
End normalize_facts.

Lemma trim_or_null_idem s : trim_or_null (trim_or_null s) = trim_or_null s.
Proof.
  destruct s as [s|]; [|done]. unfold trim_or_null. simpl.
  destruct (js_trim s) as [|c t] eqn:E; [done|]. simpl. rewrite <- E, js_trim_idemp, E. done.
Qed.

Lemma normalizeHostStartupCommand_idem v :
  normalizeHostStartupCommand (normalizeHostStartupCommand v) = normalizeHostStartupCommand v.
Proof.
  destruct v as [[c|s]|]; simpl; [| |done].
  - destruct (truthy (js_trim c) && _) eqn:E; simpl; [by rewrite E|done].
  - destruct (truthy (js_trim s)) eqn:E; simpl; [|done]. by rewrite js_trim_idemp, E.
Qed.

Definition env_ok (e : HostEnvVar) : Prop :=
  js_trim (env_key e) = env_key e ∧ envNamePattern (env_key e) = true
  ∧ drop_newlines (env_value e) = env_value e.

Lemma drop_newlines_idem s : drop_newlines (drop_newlines s) = drop_newlines s.
Proof.
  unfold drop_newlines. apply filter_all. intros c Hc. by apply filter_In_elem in Hc as [_ Hc].
Qed.

Lemma env_loop_ok entries result : Forall env_ok result → length result < MAX_HOST_ENV_VARS →
  Forall env_ok (env_loop entries result) ∧ length (env_loop entries result) ≤ MAX_HOST_ENV_VARS.
Proof.
  revert result. induction entries as [|e entries IH]; intros result Hr Hl; cbn [env_loop];
    [split; [done|lia]|].
  destruct (envNamePattern (js_trim (env_key e))) eqn:E; cbn [negb]; [|by apply IH].
  set (result' := result ++ _).
  assert (Hr' : Forall env_ok result').
  { apply Forall_app. split; [done|]. repeat constructor; simpl;
      [apply js_trim_idemp|done|apply drop_newlines_idem]. }
  assert (Hl' : length result' = S (length result)).
  { unfold result'. rewrite length_app. simpl. lia. }
  destruct (Nat.leb_spec MAX_HOST_ENV_VARS (length result')); [split; [done|lia]|by apply IH].
Qed.

Lemma env_loop_id entries result : Forall env_ok entries →
  length result + length entries ≤ MAX_HOST_ENV_VARS → env_loop entries result = result ++ entries.
Proof.
  revert result. induction entries as [|e entries IH]; intros result He Hl; cbn [env_loop];
    [by rewrite app_nil_r|].
  apply Forall_cons in He as [(Ht & Hp & Hv) He]. rewrite Ht, Hp, Hv. cbn [negb].
  assert ({| env_key := env_key e; env_value := env_value e |} = e) as -> by by destruct e.
  simpl in Hl. destruct (Nat.leb_spec MAX_HOST_ENV_VARS (length (result ++ [e]))) as [Hfull|].
  - rewrite length_app in Hfull. simpl in Hfull.
    destruct entries; [done|simpl in Hl; lia].
  - rewrite IH; [by rewrite <- (assoc_L (++))|done|]. rewrite length_app. simpl. lia.
Qed.

Lemma normalizeHostEnvVars_idem v :
  normalizeHostEnvVars (Some (normalizeHostEnvVars v)) = normalizeHostEnvVars v.
Proof.
  assert (Hok : Forall env_ok (normalizeHostEnvVars v) ∧ length (normalizeHostEnvVars v) ≤ MAX_HOST_ENV_VARS).
  { destruct v as [l|]; [|split; [constructor|simpl; lia]].
    apply env_loop_ok; [constructor|unfold MAX_HOST_ENV_VARS; simpl; lia]. }
  destruct Hok as [H1 H2]. exact (env_loop_id _ [] H1 H2).
Qed.

Lemma normalizeAwsSshMetadataStatus_in s u p :
  normalizeAwsSshMetadataStatus s u p ∈ metadata_statuses.
Proof.
  unfold normalizeAwsSshMetadataStatus.
  destruct s as [s|]; [case_bool_decide; [done|]|]; destruct (trim_or_null u);
    try (destruct p as [p|]; try case_decide); unfold metadata_statuses; set_solver.
Qed.

Lemma only_true_idem b : only_true (only_true b) = only_true b.
Proof. by destruct b as [[]|]. Qed.

Section idempotent.
Context `{LocaleLower}.

Lemma normalize_group_idem' g : normalizeGroupPath (normalizeGroupPath g) = normalizeGroupPath g.
Proof. rewrite !normalize_path_opt. by rewrite clean_segments_path by apply clean_segments_ok. Qed.

(** Normalizing a stored host is idempotent, so passing a record through the
    store again (every group change does) never alters it; it keeps the identity
    and the group of the host, which is what group mutations rely on. *)
Theorem normalizeIncomingHostRecord_idempotent record :
  normalizeIncomingHostRecord (normalizeIncomingHostRecord record) = normalizeIncomingHostRecord record
  ∧ host_id (normalizeIncomingHostRecord record) = host_id record
  ∧ host_segs (normalizeIncomingHostRecord record) = host_segs record.
Proof.
  split_and!; [|done|].
  - unfold normalizeIncomingHostRecord. simpl. f_equal.
    + unfold normalize_base. simpl. f_equal; [apply normalize_group_idem'| |apply only_true_idem].
      f_equal. apply normalizeTags_idem.
    + destruct (h_details record) as [r|r|r|r|r|r|r]; simpl; f_equal; f_equal;
        try done; try apply normalizeHostStartupCommand_idem; try apply only_true_idem;
        try apply trim_or_null_idem.
      * f_equal. apply normalizeHostEnvVars_idem.
      * f_equal. unfold normalizeAwsSshMetadataStatus at 1.
        by rewrite bool_decide_true by apply normalizeAwsSshMetadataStatus_in.
  - unfold host_segs, groupName. simpl. rewrite normalize_path_opt.
    apply clean_segments_path, clean_segments_ok.
Qed.
End idempotent.

(** ** The host order is not an order *)

Section not_transitive.
#[local] Existing Instance unit_collator.

Definition serial_host (transport : SerialTransport) (device : option jsstring) : HostRecord :=
  {| h_base := h_base (demo_host "s" None);
     h_details := HSerial {| ser_transport := transport; ser_devicePath := device; ser_host := None;
       ser_port := None; ser_baudRate := 9600; ser_dataBits := 8; ser_parity := js "none";
       ser_stopBits := js "1"; ser_flowControl := js "none"; ser_transmitLineEnding := js "lf";
       ser_localEcho := false; ser_localLineEditing := false |} |}.

(** Two local serial hosts compare by device path, but each compares equal to a
    network serial host without an address: [compareHosts] is not a consistent
    comparator, so what [sort] does with such a list is up to the engine. *)
Lemma compareHosts_inconsistent : ¬ Comparator compareHosts.
Proof.
  intros Hc. pose proof (cmp_trans (cmp:=compareHosts)
    (serial_host local (Some (js "b"))) (serial_host raw_tcp None) (serial_host local (Some (js "a")))) as Ht.
  vm_compute in Ht. apply Ht; [discriminate..|reflexivity].
Qed.
End not_transitive.
