(* ===== verification/GroupRepository.v ===== *)
(** * The group repository (apps/desktop/src/main/database.ts, GroupRepository)

    The stored groups, hosts and saved workspaces, and the operations that change
    them together: the pure mutations of [GroupMutations] applied to the stored
    arrays, with the saved workspaces following the groups they belong to.
    [nowIso()] and the new id are arguments. *)

From S2P Require Import Prelude Collections JsNumber Models.
From S2P Require Import GroupOrdering GroupPaths GroupMutations SavedWorkspace HostStore.

Record StoredData := {
  d_groups : list GroupRecord;
  d_hosts : list HostRecord;
  d_savedWorkspaces : list SavedWorkspaceRecord;
}.

Definition workspace_within (w : SavedWorkspaceRecord) (target : jsstring) : bool :=
  isGroupWithinPath (normalizeGroupPath (sw_groupName w)) (Some target).

Definition hasSavedWorkspaceWithinGroup (ws : list SavedWorkspaceRecord)
    (normalizedTargetPath : option jsstring) : bool :=
  match normalizedTargetPath with
  | None => false
  | Some target => existsb (λ w, workspace_within w target) ws
  end.

(** [groupName === current ? workspace : { ...workspace, groupName, updatedAt }] *)
Definition regroup_workspace (f : option jsstring → option jsstring) (ts : jsstring)
    (w : SavedWorkspaceRecord) : SavedWorkspaceRecord :=
  let current := normalizeGroupPath (sw_groupName w) in
  let groupName := f current in
  if decide (groupName = current) then w else with_group w groupName ts.

Section repo.
Context `{Collator, DateParse, LocaleLower, Sha256Hex}.
Implicit Types (d : StoredData).

Definition group_list d : list GroupRecord :=
  js_sort (λ left right, localeCompare (g_path left) (g_path right)) (d_groups d).
Definition group_getByPath d (p : jsstring) : option GroupRecord :=
  List.find (λ record, bool_decide (g_path record = p)) (d_groups d).

Definition group_create d (id name : jsstring) (parentPath : option jsstring) (now : jsstring)
    : result (GroupRecord * StoredData) :=
  let! r := createGroupIn (d_groups d)
    {| in_id := id; in_name := name; in_parentPath := parentPath; in_timestamp := now |} in
  let created := r.2 in
  Ok (created, {| d_groups := d_groups d ++ [created]; d_hosts := d_hosts d;
                  d_savedWorkspaces := d_savedWorkspaces d |}).

Definition repo_options d (targetPath now : jsstring) : GroupMutationOptions :=
  {| timestamp := now; normalizeHost := Some normalizeIncomingHostRecord;
     pathAlsoOccupied := Some (hasSavedWorkspaceWithinGroup (d_savedWorkspaces d)
                                 (normalizeGroupPath (Some targetPath))) |}.

Definition applyPathMutation d (targetPath now : jsstring)
    (mutate : list GroupRecord → list HostRecord → GroupMutationOptions → result GroupPathMutation)
    : result (jsstring * StoredData) :=
  let! r := mutate (d_groups d) (d_hosts d) (repo_options d targetPath now) in
  Ok (pm_nextPath r,
      {| d_groups := pm_groups r; d_hosts := pm_hosts r;
         d_savedWorkspaces :=
           regroup_workspace (λ p, rebaseGroupPath p targetPath (Some (pm_nextPath r))) now
             <$> d_savedWorkspaces d |}).

Definition group_move d (targetPath : jsstring) (targetParentPath : option jsstring) (now : jsstring) :=
  applyPathMutation d targetPath now
    (λ groups hosts options, moveGroupIn groups hosts targetPath targetParentPath options).
Definition group_rename d (targetPath name now : jsstring) :=
  applyPathMutation d targetPath now
    (λ groups hosts options, renameGroupIn groups hosts targetPath name options).

Record RemovedIds := {
  removedGroupIds : list jsstring; removedHostIds : list jsstring; removedWorkspaceIds : list jsstring }.

Definition group_remove d (targetPath : jsstring) (mode : GroupRemoveMode) (now : jsstring)
    : result (RemovedIds * StoredData) :=
  let! r := removeGroupFrom (d_groups d) (d_hosts d) targetPath mode (repo_options d targetPath now) in
  let '(workspaceIds, workspaces) :=
    match normalizeGroupPath (Some targetPath), mode with
    | Some target, delete_subtree =>
        let ids := sw_id <$> List.filter (λ w, workspace_within w target) (d_savedWorkspaces d) in
        (ids, List.filter (λ w, negb (shas (sw_id w) (sof ids))) (d_savedWorkspaces d))
    | Some target, reparent_descendants =>
        ([], regroup_workspace (λ p, stripRemovedGroupSegment p target) now <$> d_savedWorkspaces d)
    | None, _ => ([], d_savedWorkspaces d)
    end in
  Ok ({| removedGroupIds := rm_removedGroupIds r; removedHostIds := rm_removedHostIds r;
         removedWorkspaceIds := workspaceIds |},
      {| d_groups := rm_groups r; d_hosts := rm_hosts r; d_savedWorkspaces := workspaces |}).

Definition group_setSortRanks d (assignments : list (jsstring * Z)) (now : jsstring) : StoredData :=
  {| d_groups := setSortRanks assignments now (d_groups d); d_hosts := d_hosts d;
     d_savedWorkspaces := d_savedWorkspaces d |}.

(** The operations, as steps on the stored data. *)
Inductive GroupOp :=
| GCreate (id name : jsstring) (parentPath : option jsstring) (now : jsstring)
| GMove (targetPath : jsstring) (targetParentPath : option jsstring) (now : jsstring)
| GRename (targetPath name now : jsstring)
| GRemove (targetPath : jsstring) (mode : GroupRemoveMode) (now : jsstring)
| GSetSortRanks (assignments : list (jsstring * Z)) (now : jsstring).

Definition after_op {A} d (r : result (A * StoredData)) : StoredData :=
  match r with Ok (_, d') => d' | Throw _ => d end.
Definition group_step d (op : GroupOp) : StoredData :=
  match op with
  | GCreate id name parentPath now => after_op d (group_create d id name parentPath now)
  | GMove t p now => after_op d (group_move d t p now)
  | GRename t name now => after_op d (group_rename d t name now)
  | GRemove t mode now => after_op d (group_remove d t mode now)
  | GSetSortRanks asg now => group_setSortRanks d asg now
  end.

(** ** The invariant of the stored data *)

Record data_ok d : Prop := {
  ok_groups : groups_wf (d_groups d);
  ok_workspaces : Forall record_ok (d_savedWorkspaces d);
}.

Definition ws_segs (w : SavedWorkspaceRecord) : list jsstring := clean_segments (sw_groupName w).

Lemma repo_keeps_group d t now : keeps_group (repo_options d t now).
Proof.
  intros h. unfold host_segs, groupName. simpl. rewrite normalize_path_opt.
  apply clean_segments_path, clean_segments_ok.
Qed.
Lemma repo_keeps_id d t now : keeps_id (repo_options d t now).
Proof. by intros h. Qed.

Lemma setSortRanks_wf asg ts gs : groups_wf gs → groups_wf (setSortRanks asg ts gs).
Proof.
  intros [Hnd Hc]. rewrite setSortRanks_map.
  assert (g_path <$> (set_rank (mof asg) ts <$> gs) = g_path <$> gs) as E.
  { rewrite <- list_fmap_compose. apply list_fmap_ext. intros. apply set_rank_path. }
  split; [by rewrite E|]. apply Forall_fmap. eapply Forall_impl; [exact Hc|].
  intros g. simpl. by rewrite set_rank_path.
Qed.

Lemma regroup_workspace_ok f ts w :
  (∀ g, normalizeGroupPath (f g) = f g) → record_ok w → record_ok (regroup_workspace f ts w).
Proof.
  intros Hf Hw. unfold regroup_workspace. case_decide; [done|].
  destruct Hw. split; simpl; done.
Qed.

Lemma rebase_normalized g t n : normalizeGroupPath (rebaseGroupPath g t n) = rebaseGroupPath g t n.
Proof.
  unfold rebaseGroupPath. repeat case_match; subst; apply normalize_group_idem' ||
    (match goal with H : normalizeGroupPath _ = Some _ |- _ => rewrite <- H; apply normalize_group_idem' end)
    || done.
Qed.

Lemma strip_normalized g t : normalizeGroupPath (stripRemovedGroupSegment g t) = stripRemovedGroupSegment g t.
Proof.
  destruct (decide (clean_segments (Some t) = [])) as [E|Hne].
  - unfold stripRemovedGroupSegment. rewrite (normalize_path_opt (Some t)), E. simpl.
    destruct (normalizeGroupPath g) eqn:Eg; rewrite <- Eg; apply normalize_group_idem'.
  - rewrite strip_as_rebase by done. apply rebase_normalized.
Qed.

Lemma clean_normalize g : clean_segments (normalizeGroupPath g) = clean_segments g.
Proof. rewrite normalize_path_opt. apply clean_segments_path, clean_segments_ok. Qed.

Lemma ws_regroup_segs f ts w : ws_segs (regroup_workspace f ts w) = clean_segments (f (normalizeGroupPath (sw_groupName w))).
Proof.
  unfold regroup_workspace. case_decide as E; [|done]. rewrite E. by rewrite clean_normalize.
Qed.

Lemma rebase_clean g f t : clean_segments (Some f) ≠ [] →
  clean_segments (rebaseGroupPath g f t)
  = if decide (clean_segments (Some f) `prefix_of` clean_segments g)
    then clean_segments t ++ drop (length (clean_segments (Some f))) (clean_segments g)
    else clean_segments g.
Proof.
  intros Hf. rewrite rebase_normal, rebase_segments by (done || apply clean_segments_ok).
  case_decide; apply clean_segments_path; [apply Forall_app; split; [|apply Forall_drop]|];
    apply clean_segments_ok.
Qed.

(** A rename or a move that succeeds is a path mutation between normal paths. *)
Definition is_path_op (op : GroupOp) : option (jsstring * jsstring) :=
  match op with GMove t _ now => Some (t, now) | GRename t _ now => Some (t, now) | _ => None end.

Lemma rename_Ok gs hs p name o r : renameGroupIn gs hs p name o = Ok r →
  ∃ t n, normalizeGroupPath (Some p) = Some t ∧ canonical n ∧ mutateGroupPathIn gs hs t n o = Ok r.
Proof.
  unfold renameGroupIn. destruct (normalizeGroupPath (Some p)) as [t|]; [|done].
  destruct (negb _); [done|]. destruct (normalizeGroupPath (Some (join_under _ _))) as [n|] eqn:En; [|done].
  case_decide; [done|]. apply normalize_canonical in En as [? _]. eauto.
Qed.
Lemma move_Ok gs hs p parent o r : moveGroupIn gs hs p parent o = Ok r →
  ∃ t n, normalizeGroupPath (Some p) = Some t ∧ canonical n ∧ mutateGroupPathIn gs hs t n o = Ok r.
Proof.
  unfold moveGroupIn. destruct (normalizeGroupPath (Some p)) as [t|]; [|done].
  destruct (match normalizeGroupPath parent with Some _ => _ | None => _ end); [done|].
  destruct (normalizeGroupPath (Some (join_under _ _))) as [n|] eqn:En; [|done].
  case_decide; [done|]. apply normalize_canonical in En as [? _]. eauto.
Qed.

Lemma applyPathMutation_Ok d p now f n d' :
  applyPathMutation d p now f = Ok (n, d') →
  ∃ r, f (d_groups d) (d_hosts d) (repo_options d p now) = Ok r ∧ n = pm_nextPath r
    ∧ d' = {| d_groups := pm_groups r; d_hosts := pm_hosts r;
              d_savedWorkspaces := regroup_workspace (λ q, rebaseGroupPath q p (Some (pm_nextPath r))) now
                <$> d_savedWorkspaces d |}.
Proof. unfold applyPathMutation. destruct (f _ _ _) as [r|]; [|done]. simpl. intros [= <- <-]. eauto. Qed.

(** What a successful rename or move did to the stored data. *)
Lemma path_op_Ok d op p now : is_path_op op = Some (p, now) → groups_wf (d_groups d) →
  group_step d op = d ∨
  ∃ t n r, normalizeGroupPath (Some p) = Some t ∧ canonical t ∧ canonical n
    ∧ mutateGroupPathIn (d_groups d) (d_hosts d) t n (repo_options d p now) = Ok r ∧ pm_nextPath r = n
    ∧ group_step d op = {| d_groups := pm_groups r; d_hosts := pm_hosts r;
         d_savedWorkspaces := regroup_workspace (λ q, rebaseGroupPath q p (Some n)) now
           <$> d_savedWorkspaces d |}.
Proof.
  intros Hop Hwf. destruct op as [|t parent ts|t name ts| |]; try done; injection Hop as -> ->; simpl;
    unfold group_move, group_rename.
  - destruct (applyPathMutation _ _ _ _) as [[n d']|] eqn:E; [right|by left].
    apply applyPathMutation_Ok in E as (r & (t & n' & Et & Hn & Hr)%move_Ok & -> & ->).
    pose proof (pm_nextPath_mutate _ _ _ _ _ _ Hr) as En. subst n'.
    exists t, (pm_nextPath r), r. apply normalize_canonical in Et as Hc. naive_solver.
  - destruct (applyPathMutation _ _ _ _) as [[n d']|] eqn:E; [right|by left].
    apply applyPathMutation_Ok in E as (r & (t & n' & Et & Hn & Hr)%rename_Ok & -> & ->).
    pose proof (pm_nextPath_mutate _ _ _ _ _ _ Hr) as En. subst n'.
    exists t, (pm_nextPath r), r. apply normalize_canonical in Et as Hc. naive_solver.
Qed.

Lemma mutate_wf gs hs t n o r : groups_wf gs → canonical t → canonical n →
  mutateGroupPathIn gs hs t n o = Ok r → groups_wf (pm_groups r).
Proof.
  intros Hwf Ht Hn Hr. rewrite mutate_eq in Hr by done.
  apply mutation_spec_Ok in Hr as (_ & Hno & -> & _). apply mutated_wf; [|done..]. by apply materialize_wf.
Qed.

Lemma create_wf gs input gs' created : groups_wf gs →
  createGroupIn gs input = Ok (gs', created) → gs' = gs ++ [created] ∧ groups_wf gs'.
Proof.
  intros [Hnd Hc]. unfold createGroupIn. destruct (negb _); [done|].
  destruct (normalizeGroupPath (Some _)) as [n|] eqn:En; [|done]. apply normalize_canonical in En as [Hn _].
  destruct (existsb _ gs) eqn:Ex; [done|]. intros [= <- <-]. split; [done|]. split.
  - rewrite fmap_app. apply NoDup_app. split_and!; [done| |apply NoDup_singleton]. simpl.
    intros q (g & -> & Hg)%list_elem_of_fmap Hq. rewrite existsb_false in Ex. specialize (Ex g Hg).
    apply bool_decide_eq_false in Ex. set_solver.
  - apply Forall_app. split; [done|]. by repeat constructor.
Qed.

Lemma remove_wf gs hs p mode o r : groups_wf gs →
  removeGroupFrom gs hs p mode o = Ok r → groups_wf (rm_groups r).
Proof.
  intros Hwf. unfold removeGroupFrom. destruct (normalizeGroupPath (Some p)) as [t|] eqn:Et; [|done].
  apply normalize_canonical in Et as [Ht _]. destruct (nothing_there _ _ _ _); [done|].
  destruct mode; [intros [= <-]; by apply groups_wf_filter|].
  destruct (reparent_groups _ _ _ _ _) as [m rem] eqn:Er. intros [= <-]. simpl.
  rewrite outside_by_path_spec in Er by apply Hwf.
  apply reparent_groups_spec in Er as (Hm & _); [by apply keyed_wf|done|].
  pose proof (groups_wf_filter (λ r, negb (group_within r t)) gs Hwf) as [Hnd Hc].
  split; [|by rewrite fst_pair_paths]. apply Forall_fmap. eapply Forall_impl; [exact Hc|]. done.
Qed.

Lemma group_step_ok d op : data_ok d → data_ok (group_step d op).
Proof.
  intros Hd. pose proof Hd as [Hg Hw].
  destruct (is_path_op op) as [[p now]|] eqn:Ep.
  { destruct (path_op_Ok d op p now Ep Hg) as [->|(t & n & r & Et & Ht & Hn & Hr & En & ->)]; [done|].
    split; simpl; [exact (mutate_wf _ _ _ _ _ _ Hg Ht Hn Hr)|]. apply Forall_fmap. eapply Forall_impl; [exact Hw|].
    intros w. apply regroup_workspace_ok. intros. apply rebase_normalized. }
  destruct op as [id name parent now| | |t mode now|asg now]; try done; simpl.
  - unfold group_create. destruct (createGroupIn _ _) as [[gs c]|] eqn:E; [|done]. simpl.
    apply create_wf in E as [-> E]; [|done]. done.
  - unfold group_remove. destruct (removeGroupFrom _ _ _ _ _) as [r|] eqn:Er; [|done]. simpl.
    apply remove_wf in Er; [|done].
    destruct (normalizeGroupPath (Some t)) as [t'|]; [destruct mode|]; simpl; split; simpl; try done.
    + apply Forall_forall. intros w [Hin _]%filter_In_elem. by eapply Forall_forall in Hw.
    + apply Forall_fmap. eapply Forall_impl; [exact Hw|].
      intros w. apply regroup_workspace_ok. intros. apply strip_normalized.
  - split; simpl; [by apply setSortRanks_wf|done].
Qed.

(** Whatever sequence of group operations is asked for, with any arguments and
    whichever of them fail, the stored group paths stay normal and distinct and
    the stored workspaces stay valid. *)
Theorem group_repository_invariant d ops : data_ok d → data_ok (foldl group_step d ops).
Proof.
  revert d. induction ops as [|op ops IH]; intros d Hd; simpl; [done|]. by apply IH, group_step_ok.
Qed.

(** What a segment list becomes when [t] becomes [n]. *)
Definition moved_list (t n l : list jsstring) : list jsstring :=
  if decide (t `prefix_of` l) then n ++ drop (length t) l else l.

(** Renaming or moving a group carries its hosts and its saved workspaces along
    together: either the stored data is untouched, or there is one new path such
    that every host and every workspace under the old path is now at the same
    place under the new one, every other keeps its group, and none is added,
    dropped or reordered. *)
Theorem path_operations_move_together d op p now :
  is_path_op op = Some (p, now) → groups_wf (d_groups d) →
  group_step d op = d ∨
  ∃ n, n ≠ [] ∧ Forall seg_ok n
    ∧ host_segs <$> d_hosts (group_step d op)
      = moved_list (clean_segments (Some p)) n ∘ host_segs <$> d_hosts d
    ∧ ws_segs <$> d_savedWorkspaces (group_step d op)
      = moved_list (clean_segments (Some p)) n ∘ ws_segs <$> d_savedWorkspaces d
    ∧ host_id <$> d_hosts (group_step d op) = host_id <$> d_hosts d
    ∧ sw_id <$> d_savedWorkspaces (group_step d op) = sw_id <$> d_savedWorkspaces d.
Proof.
  intros Hop Hwf. destruct (path_op_Ok d op p now Hop Hwf)
    as [?|(t & n & r & Et & Ht & Hn & Hr & _ & ->)]; [by left|right].
  pose proof (normalize_canonical _ _ Et) as [_ Ets].
  pose proof (psegs_canonical t Ht) as [Htne _]. rewrite Ets in Htne.
  rewrite mutate_eq in Hr by done. apply mutation_spec_Ok in Hr as (_ & _ & _ & Hh & _).
  exists (psegs n). simpl. rewrite Hh, <- !list_fmap_compose.
  split_and!; [by apply psegs_canonical in Hn as [? _]|apply psegs_ok| | | |]; apply list_fmap_ext; intros i x Hx; simpl.
  - rewrite regroup_segs by (done || apply repo_keeps_group). by rewrite Ets.
  - rewrite ws_regroup_segs, rebase_clean, clean_normalize by done. done.
  - apply regroup_id, repo_keeps_id.
  - unfold regroup_workspace. by case_decide.
Qed.

(** Deleting a group with its subtree is complete and exact: afterwards no group,
    host or saved workspace is under it, everything else is as it was, and the
    ids reported to the sync as removed are exactly the ids that are gone. *)
Theorem delete_subtree_cascades d p now ids d' t :
  NoDup (sw_id <$> d_savedWorkspaces d) → normalizeGroupPath (Some p) = Some t →
  group_remove d p delete_subtree now = Ok (ids, d') →
  d_groups d' = List.filter (λ g, negb (group_within g t)) (d_groups d)
  ∧ d_hosts d' = List.filter (λ h, negb (host_within h t)) (d_hosts d)
  ∧ d_savedWorkspaces d' = List.filter (λ w, negb (workspace_within w t)) (d_savedWorkspaces d)
  ∧ removedGroupIds ids = g_id <$> List.filter (λ g, group_within g t) (d_groups d)
  ∧ removedHostIds ids = host_id <$> List.filter (λ h, host_within h t) (d_hosts d)
  ∧ removedWorkspaceIds ids = sw_id <$> List.filter (λ w, workspace_within w t) (d_savedWorkspaces d).
Proof.
  intros Hnd Et. unfold group_remove, removeGroupFrom. rewrite Et.
  destruct (nothing_there _ _ _ _); [done|]. simpl. intros [= <- <-]. simpl.
  split_and!; try done. apply filter_ext_in. intros w Hw%list_elem_of_In. f_equal.
  unfold shas. destruct (workspace_within w t) eqn:E.
  - apply bool_decide_eq_true. rewrite elem_sof. apply list_elem_of_fmap_2.
    by apply filter_In_elem.
  - apply bool_decide_eq_false. rewrite elem_sof. intros (w' & Eid & [Hw' E']%filter_In_elem)%list_elem_of_fmap.
    assert (w = w') as <-; [|congruence].
    apply list_elem_of_lookup in Hw as [i Hi]. apply list_elem_of_lookup in Hw' as [j Hj].
    assert (i = j) as ->; [|congruence].
    apply (NoDup_lookup _ _ _ (sw_id w) Hnd); rewrite list_lookup_fmap; [by rewrite Hi|by rewrite Hj, Eid].
Qed.
End repo.

(** ** Witnesses *)

Section witnesses.
#[local] Existing Instance unit_collator.
#[local] Instance demo_sha_hex : Sha256Hex := λ s, s.
#[local] Instance demo_lower : LocaleLower := λ s, s.
#[local] Instance demo_date : DateParse := λ _, None.

Definition demo_node : SavedWorkspaceNode :=
  saved_split (js "s") horizontal (num_frac 1 2) (saved_leaf (js "a") (target_local (js "L")))
    (saved_leaf (js "b") (target_local (js "R"))).
Definition demo_workspace (id : string) (g : option jsstring) : SavedWorkspaceRecord :=
  {| sw_id := js id; sw_name := js id; sw_root := demo_node; sw_favorite := false; sw_groupName := g;
     sw_lastOpenedAt := None; sw_createdAt := js "t0"; sw_updatedAt := js "t0" |}.
Definition demo_data : StoredData :=
  {| d_groups := demo_groups; d_hosts := demo_hosts;
     d_savedWorkspaces := [demo_workspace "w1" (Some (js "prod/api")); demo_workspace "w2" None] |}.

Lemma demo_workspaces_ok : Forall record_ok (d_savedWorkspaces demo_data).
Proof.
  repeat constructor; simpl; try (vm_compute; first [discriminate|reflexivity|lia]);
    try (vm_compute; intros Hc; repeat (apply elem_of_cons in Hc as [Hc|Hc]; [discriminate Hc|]); by apply elem_of_nil in Hc).
Qed.
Lemma demo_data_ok : data_ok demo_data.
Proof. split; [exact demo_groups_wf|exact demo_workspaces_ok]. Qed.

Lemma group_repository_invariant_witness :
  data_ok (foldl group_step demo_data
    [GRename (js "prod") (js "live") (js "t1"); GRemove (js "live/api") reparent_descendants (js "t2")]).
Proof. apply group_repository_invariant. exact demo_data_ok. Defined.

Lemma path_operations_move_together_witness :
  ∃ n, ws_segs <$> d_savedWorkspaces (group_step demo_data (GRename (js "prod") (js "live") (js "t1")))
    = moved_list (clean_segments (Some (js "prod"))) n ∘ ws_segs <$> d_savedWorkspaces demo_data.
Proof.
  destruct (path_operations_move_together demo_data (GRename (js "prod") (js "live") (js "t1"))
    (js "prod") (js "t1") eq_refl demo_groups_wf) as [E|(n & _ & _ & _ & Hw & _)].
  - apply (f_equal (λ d, g_path <$> d_groups d)) in E. vm_compute in E. discriminate E.
  - exists n. exact Hw.
Defined.

Lemma delete_subtree_cascades_witness :
  ∃ ids d', group_remove demo_data (js "prod") delete_subtree (js "t1") = Ok (ids, d')
    ∧ removedWorkspaceIds ids = [js "w1"].
Proof.
  destruct (group_remove demo_data (js "prod") delete_subtree (js "t1")) as [[ids d']|msg] eqn:E;
    [|vm_compute in E; discriminate E].
  exists ids, d'. split; [reflexivity|].
  assert (Hnd : NoDup (sw_id <$> d_savedWorkspaces demo_data)).
  { apply (bool_decide_unpack (NoDup (sw_id <$> d_savedWorkspaces demo_data))). vm_compute. exact I. }
  destruct (delete_subtree_cascades demo_data (js "prod") (js "t1") ids d' (js "prod") Hnd
    eq_refl E) as (_ & _ & _ & _ & _ & Hw).
  rewrite Hw. vm_compute. reflexivity.
Defined.

Lemma normalizeSavedWorkspaceRecord_sound_witness :
  ∃ r, normalizeSavedWorkspaceRecord (json_record (demo_workspace " w " (Some (js " a //b")))) = Some r
    ∧ record_ok r.
Proof.
  destruct (normalizeSavedWorkspaceRecord (json_record (demo_workspace " w " (Some (js " a //b")))))
    as [r|] eqn:E; [|vm_compute in E; discriminate E].
  exists r. split; [reflexivity|]. apply (normalizeSavedWorkspaceRecord_sound _ _ E).
Defined.

Lemma repository_edits_locally_witness :
  sw_updatedAt <$> repo_step (d_savedWorkspaces demo_data) (OpTouchOpened (js "w1") (js "t9"))
  = [js "t0"; js "t0"].
Proof.
  destruct (repository_edits_locally (d_savedWorkspaces demo_data)
    (OpTouchOpened (js "w1") (js "t9")) (js "w1") eq_refl) as (_ & _ & Ht).
  rewrite (Ht (js "t9")); [reflexivity| |reflexivity].
  apply (bool_decide_unpack (NoDup (sw_id <$> d_savedWorkspaces demo_data))). vm_compute. exact I.
Defined.
End witnesses.
