(* ===== verification/WorkspaceLayout.v ===== *)
(** * Split layouts (apps/desktop/src/renderer/store/utils/workspaces.ts)

    The binary tree of panes of a workspace tab and the operations that drop,
    move, close and resize panes.  New nodes take their ids from
    [crypto.randomUUID()], threaded by the [fresh_m] monad. *)

From S2P Require Import Prelude Collections JsNumber SavedWorkspace.

Record WorkspaceLeafNode := {
  leaf_id : jsstring; leaf_sessionId : jsstring; leaf_cols : option N; leaf_rows : option N }.

Inductive WorkspaceLayoutNode :=
| LLeaf (leaf : WorkspaceLeafNode)
| LSplit (id : jsstring) (axis : Axis) (ratio : number) (first second : WorkspaceLayoutNode).

Inductive WorkspaceDropDirection := dir_left | dir_right | dir_top | dir_bottom.

Definition is_leaf (n : WorkspaceLayoutNode) : bool :=
  match n with LLeaf _ => true | LSplit _ _ _ _ _ => false end.

Fixpoint listWorkspaceSessionIds (node : WorkspaceLayoutNode) : list jsstring :=
  match node with
  | LLeaf leaf => [leaf_sessionId leaf]
  | LSplit _ _ _ first second => listWorkspaceSessionIds first ++ listWorkspaceSessionIds second
  end.

Definition countWorkspaceSessions (node : WorkspaceLayoutNode) : nat :=
  length (listWorkspaceSessionIds node).

Fixpoint findFirstWorkspaceSessionId (node : WorkspaceLayoutNode) : jsstring :=
  match node with
  | LLeaf leaf => leaf_sessionId leaf
  | LSplit _ _ _ first _ => findFirstWorkspaceSessionId first
  end.

Definition directionAxis (direction : WorkspaceDropDirection) : Axis :=
  match direction with dir_left | dir_right => horizontal | dir_top | dir_bottom => vertical end.
Definition prepends (direction : WorkspaceDropDirection) : bool :=
  match direction with dir_left | dir_top => true | dir_right | dir_bottom => false end.

Definition ratio_half : number := num_frac 1 2.
Definition split_lo : number := num_frac 1 5.
Definition split_hi : number := num_frac 4 5.

Section layout.
Context `{UuidSupply}.

Definition createWorkspaceLeaf (sessionId : jsstring) : fresh_m WorkspaceLayoutNode :=
  let@ id := randomUUID in
  fret (LLeaf {| leaf_id := id; leaf_sessionId := sessionId; leaf_cols := None; leaf_rows := None |}).

Definition createWorkspaceSplit (existingSessionId incomingSessionId : jsstring)
    (direction : WorkspaceDropDirection) : fresh_m WorkspaceLayoutNode :=
  let@ existingLeaf := createWorkspaceLeaf existingSessionId in
  let@ incomingLeaf := createWorkspaceLeaf incomingSessionId in
  let prependIncoming := prepends direction in
  let@ id := randomUUID in
  fret (LSplit id (directionAxis direction) ratio_half
    (if prependIncoming then incomingLeaf else existingLeaf)
    (if prependIncoming then existingLeaf else incomingLeaf)).

(** The layout and whether the session was inserted. *)
Fixpoint insertSessionIntoWorkspaceLayout (node : WorkspaceLayoutNode)
    (targetSessionId incomingSessionId : jsstring) (direction : WorkspaceDropDirection)
    : fresh_m (WorkspaceLayoutNode * bool) :=
  match node with
  | LLeaf leaf =>
      if decide (leaf_sessionId leaf ≠ targetSessionId) then fret (node, false) else
      let@ layout := createWorkspaceSplit targetSessionId incomingSessionId direction in
      fret (layout, true)
  | LSplit id axis ratio first second =>
      let@ nextFirst := insertSessionIntoWorkspaceLayout first targetSessionId incomingSessionId direction in
      if nextFirst.2 then fret (LSplit id axis ratio nextFirst.1 second, true) else
      let@ nextSecond := insertSessionIntoWorkspaceLayout second targetSessionId incomingSessionId direction in
      if nextSecond.2 then fret (LSplit id axis ratio first nextSecond.1, true)
      else fret (node, false)
  end.

Fixpoint removeSessionFromWorkspaceLayout (node : WorkspaceLayoutNode) (sessionId : jsstring)
    : option WorkspaceLayoutNode :=
  match node with
  | LLeaf leaf => if decide (leaf_sessionId leaf = sessionId) then None else Some node
  | LSplit id axis ratio first second =>
      match removeSessionFromWorkspaceLayout first sessionId,
            removeSessionFromWorkspaceLayout second sessionId with
      | None, None => None
      | None, Some nextSecond => Some nextSecond
      | Some nextFirst, None => Some nextFirst
      | Some nextFirst, Some nextSecond => Some (LSplit id axis ratio nextFirst nextSecond)
      end
  end.

Definition moveSessionWithinWorkspaceLayout (node : WorkspaceLayoutNode)
    (sessionId targetSessionId : jsstring) (direction : WorkspaceDropDirection)
    : fresh_m (WorkspaceLayoutNode * bool) :=
  if decide (sessionId = targetSessionId) then fret (node, false) else
  let sessionIds := listWorkspaceSessionIds node in
  if negb (bool_decide (sessionId ∈ sessionIds)) || negb (bool_decide (targetSessionId ∈ sessionIds))
  then fret (node, false) else
  match removeSessionFromWorkspaceLayout node sessionId with
  | None => fret (node, false)
  | Some reducedLayout =>
      let@ nextLayout :=
        insertSessionIntoWorkspaceLayout reducedLayout targetSessionId sessionId direction in
      if negb nextLayout.2 then fret (node, false) else fret (nextLayout.1, true)
  end.

Fixpoint updateWorkspaceSplitRatio (node : WorkspaceLayoutNode) (splitId : jsstring) (ratio : number)
    : WorkspaceLayoutNode :=
  match node with
  | LLeaf _ => node
  | LSplit id axis r first second =>
      let clampedRatio := clamp split_lo split_hi ratio in
      if decide (id = splitId) then LSplit id axis clampedRatio first second
      else LSplit id axis r (updateWorkspaceSplitRatio first splitId clampedRatio)
                            (updateWorkspaceSplitRatio second splitId clampedRatio)
  end.

Fixpoint replaceSessionIdInLayout (node : WorkspaceLayoutNode)
    (previousSessionId nextSessionId : jsstring) : WorkspaceLayoutNode :=
  match node with
  | LLeaf leaf =>
      if decide (leaf_sessionId leaf = previousSessionId)
      then LLeaf {| leaf_id := leaf_id leaf; leaf_sessionId := nextSessionId;
                    leaf_cols := leaf_cols leaf; leaf_rows := leaf_rows leaf |}
      else node
  | LSplit id axis ratio first second =>
      LSplit id axis ratio (replaceSessionIdInLayout first previousSessionId nextSessionId)
        (replaceSessionIdInLayout second previousSessionId nextSessionId)
  end.
End layout.

(** ** What the operations do to the panes *)

(** The new pane next to its target. *)
Definition dropped (target incoming : jsstring) (direction : WorkspaceDropDirection) : list jsstring :=
  if prepends direction then [incoming; target] else [target; incoming].

(** The list with the first [target] replaced by the pair. *)
Fixpoint drop_at (l : list jsstring) (target incoming : jsstring) (direction : WorkspaceDropDirection)
    : list jsstring :=
  match l with
  | [] => []
  | s :: l => if decide (s = target) then dropped target incoming direction ++ l
              else s :: drop_at l target incoming direction
  end.

Lemma drop_at_app l k t i d :
  drop_at (l ++ k) t i d = if decide (t ∈ l) then drop_at l t i d ++ k else l ++ drop_at k t i d.
Proof.
  induction l as [|s l IH]; [done|]. simpl. rewrite IH.
  destruct (decide (s = t)) as [->|Hne].
  - rewrite decide_True by set_solver. by rewrite <- (assoc_L (++)).
  - destruct (decide (t ∈ l)); [rewrite decide_True by set_solver|rewrite decide_False by set_solver]; done.
Qed.
Lemma drop_at_notin l t i d : t ∉ l → drop_at l t i d = l.
Proof.
  induction l as [|s l IH]; [done|]. intros Hn. simpl. rewrite decide_False by set_solver.
  rewrite IH by set_solver. done.
Qed.

Fixpoint layout_ids (node : WorkspaceLayoutNode) : list jsstring :=
  match node with
  | LLeaf leaf => [leaf_id leaf]
  | LSplit id _ _ first second => id :: layout_ids first ++ layout_ids second
  end.

(** The splits: id, axis, ratio. *)
Fixpoint layout_splits (node : WorkspaceLayoutNode) : list (jsstring * Axis * number) :=
  match node with
  | LLeaf _ => []
  | LSplit id axis ratio first second => (id, axis, ratio) :: layout_splits first ++ layout_splits second
  end.

Lemma layout_nonempty node : listWorkspaceSessionIds node ≠ [].
Proof. induction node; simpl; [done|]. by destruct (listWorkspaceSessionIds node1). Qed.

Lemma findFirst_head node : head (listWorkspaceSessionIds node) = Some (findFirstWorkspaceSessionId node).
Proof.
  induction node as [|id axis ratio a IHa b _]; [done|]. simpl.
  pose proof (layout_nonempty a). by destruct (listWorkspaceSessionIds a).
Qed.

Lemma remove_sessions node s :
  match removeSessionFromWorkspaceLayout node s with
  | None => List.filter (λ x, negb (bool_decide (x = s))) (listWorkspaceSessionIds node) = []
  | Some node' => listWorkspaceSessionIds node' =
      List.filter (λ x, negb (bool_decide (x = s))) (listWorkspaceSessionIds node)
  end.
Proof.
  induction node as [leaf|id axis ratio a IHa b IHb]; simpl.
  - case_decide as E; simpl; [by rewrite bool_decide_true|by rewrite bool_decide_false].
  - rewrite List.filter_app.
    destruct (removeSessionFromWorkspaceLayout a s), (removeSessionFromWorkspaceLayout b s);
      simpl; rewrite IHa, IHb; [done|by rewrite app_nil_r|done|done].
Qed.

Lemma remove_splits node s node' : removeSessionFromWorkspaceLayout node s = Some node' →
  layout_splits node' `sublist_of` layout_splits node.
Proof.
  revert node'. induction node as [leaf|id axis ratio a IHa b IHb]; simpl; intros node'.
  - case_decide; [done|]. by intros [= <-].
  - destruct (removeSessionFromWorkspaceLayout a s) as [a'|],
      (removeSessionFromWorkspaceLayout b s) as [b'|]; intros [= <-]; simpl.
    + constructor. apply sublist_app; auto.
    + apply sublist_cons, sublist_inserts_r; auto.
    + apply sublist_cons, sublist_inserts_l; auto.
Qed.

Section layout_facts.
Context `{UuidSupply}.

Lemma insert_sessions node t i d n :
  let '((node', inserted), n') := insertSessionIntoWorkspaceLayout node t i d n in
  inserted = bool_decide (t ∈ listWorkspaceSessionIds node)
  ∧ listWorkspaceSessionIds node' = drop_at (listWorkspaceSessionIds node) t i d
  ∧ (inserted = false → node' = node ∧ n' = n).
Proof.
  revert n. induction node as [leaf|id axis ratio a IHa b IHb]; intros n;
    cbn [insertSessionIntoWorkspaceLayout listWorkspaceSessionIds]; unfold fbind, fret.
  - destruct (decide (leaf_sessionId leaf ≠ t)) as [Hne|He].
    + rewrite bool_decide_false by set_solver. simpl. by rewrite decide_False.
    + apply dec_stable in He. subst t. unfold createWorkspaceSplit, createWorkspaceLeaf, fbind, fret, randomUUID.
      rewrite bool_decide_true by set_solver. simpl. rewrite decide_True by done.
      split_and!; [done| |done]. unfold dropped. by destruct d.
  - specialize (IHa n). destruct (insertSessionIntoWorkspaceLayout a t i d n) as [[a' ia] n1].
    destruct IHa as (Ea & Sa & Na). simpl. rewrite drop_at_app. destruct ia; simpl.
    + symmetry in Ea. apply bool_decide_eq_true in Ea. rewrite decide_True by done.
      rewrite bool_decide_true by set_solver. by rewrite Sa.
    + symmetry in Ea. apply bool_decide_eq_false in Ea. rewrite decide_False by done.
      destruct (Na eq_refl) as [-> ->]. specialize (IHb n).
      destruct (insertSessionIntoWorkspaceLayout b t i d n) as [[b' ib] n2].
      destruct IHb as (Eb & Sb & Nb). simpl. destruct ib; simpl.
      * symmetry in Eb. apply bool_decide_eq_true in Eb. rewrite bool_decide_true by set_solver.
        by rewrite Sb.
      * symmetry in Eb. apply bool_decide_eq_false in Eb. rewrite bool_decide_false by set_solver.
        destruct (Nb eq_refl) as [_ ->]. by rewrite drop_at_notin.
Qed.

(** Identifiers still to be handed out are new, and never handed out twice. *)
Definition supply_fresh (n : nat) (ids : list jsstring) : Prop :=
  (∀ i j, n ≤ i → n ≤ j → uuid i = uuid j → i = j) ∧ (∀ i, n ≤ i → uuid i ∉ ids).

Lemma supply_fresh_sub n ids ids' : (∀ x, x ∈ ids' → x ∈ ids) → supply_fresh n ids → supply_fresh n ids'.
Proof. intros Hs [Hi Hf]. split; [done|]. intros i Hn Hx. by apply (Hf i Hn), Hs. Qed.

Lemma supply_fresh_step n n' ids ids' : supply_fresh n ids → n ≤ n' →
  (∀ x, x ∈ ids' → x ∈ ids ∨ ∃ k, n ≤ k < n' ∧ x = uuid k) → supply_fresh n' ids'.
Proof.
  intros [Hi Hf] Hn Hs. split; [intros i j ??; apply Hi; lia|].
  intros i Hni Hx. destruct (Hs _ Hx) as [?|(k & Hk & E)]; [apply (Hf i); [lia|done]|].
  apply Hi in E; lia.
Qed.

Lemma insert_mono node t i d n : n ≤ (insertSessionIntoWorkspaceLayout node t i d n).2.
Proof.
  revert n. induction node as [leaf|id axis ratio a IHa b IHb]; intros n;
    cbn [insertSessionIntoWorkspaceLayout]; unfold fbind, fret.
  - destruct (decide _); [done|]. unfold createWorkspaceSplit, createWorkspaceLeaf, fbind, fret, randomUUID.
    simpl. lia.
  - specialize (IHa n). destruct (insertSessionIntoWorkspaceLayout a t i d n) as [[a' ia] n1]. simpl in *.
    destruct ia; simpl; [done|]. specialize (IHb n1).
    destruct (insertSessionIntoWorkspaceLayout b t i d n1) as [[b' ib] n2]. simpl in *.
    destruct ib; simpl; lia.
Qed.

Lemma move_mono node s t d n : n ≤ (moveSessionWithinWorkspaceLayout node s t d n).2.
Proof.
  unfold moveSessionWithinWorkspaceLayout, fbind, fret.
  destruct (decide (s = t)); [done|]. destruct (_ || _); [done|].
  destruct (removeSessionFromWorkspaceLayout node s) as [w|]; [|done].
  pose proof (insert_mono w t s d n).
  destruct (insertSessionIntoWorkspaceLayout w t s d n) as [[w' b] n']. by destruct b.
Qed.

Lemma insert_ids node t i d n :
  supply_fresh n (layout_ids node) → NoDup (layout_ids node) →
  let '((node', _), n') := insertSessionIntoWorkspaceLayout node t i d n in
  n ≤ n' ∧ NoDup (layout_ids node')
  ∧ (∀ x, x ∈ layout_ids node' → x ∈ layout_ids node ∨ ∃ k, n ≤ k < n' ∧ x = uuid k).
Proof.
  revert n. induction node as [leaf|id axis ratio a IHa b IHb]; intros n Hf Hnd;
    cbn [insertSessionIntoWorkspaceLayout layout_ids] in *; unfold fbind, fret.
  - destruct (decide _); [simpl; split_and!; [done..|auto]|].
    unfold createWorkspaceSplit, createWorkspaceLeaf, fbind, fret, randomUUID.
    destruct Hf as [Hinj Hf]. simpl.
    assert (Hne : ∀ i j, n ≤ i → n ≤ j → i ≠ j → uuid i ≠ uuid j) by (intros i' j' ?? Hij E; by apply Hij, Hinj).
    split_and!; [lia| |].
    + destruct (prepends d); simpl; repeat constructor;
        repeat (apply not_elem_of_cons; split); try apply not_elem_of_nil; apply Hne; lia.
    + intros x Hx. right. destruct (prepends d); simpl in Hx;
        repeat (apply elem_of_cons in Hx as [->|Hx]; [eexists; split; [|reflexivity]; lia|]);
        by apply elem_of_nil in Hx.
  - apply NoDup_cons in Hnd as [Hid Hnd]. apply NoDup_app in Hnd as (Ha & Hab & Hb).
    assert (Hfa : supply_fresh n (layout_ids a)) by (eapply supply_fresh_sub; [|exact Hf]; set_solver).
    assert (Hfb : supply_fresh n (layout_ids b)) by (eapply supply_fresh_sub; [|exact Hf]; set_solver).
    specialize (IHa n Hfa Ha). pose proof (insert_sessions a t i d n) as Sa.
    destruct (insertSessionIntoWorkspaceLayout a t i d n) as [[a' ia] n1].
    destruct IHa as (Hn1 & Ha' & Hsub), Sa as (_ & _ & Na). simpl. destruct ia; simpl.
    + split_and!; [done| |set_solver]. destruct Hf as [_ Hf]. apply NoDup_cons. split.
      * intros [Hx|Hx]%elem_of_app; [|set_solver].
        destruct (Hsub _ Hx) as [?|(k & Hk & ->)]; [set_solver|]. apply (Hf k); [lia|set_solver].
      * apply NoDup_app. split_and!; [done| |done]. intros x Hx Hxb.
        destruct (Hsub _ Hx) as [?|(k & Hk & ->)]; [set_solver|]. apply (Hf k); [lia|set_solver].
    + destruct (Na eq_refl) as [-> ->]. specialize (IHb n Hfb Hb).
      destruct (insertSessionIntoWorkspaceLayout b t i d n) as [[b' ib] n2].
      destruct IHb as (Hn2 & Hb' & Hsubb). simpl. destruct ib; simpl.
      * split_and!; [done| |set_solver]. destruct Hf as [_ Hf]. apply NoDup_cons. split.
        -- intros [Hx|Hx]%elem_of_app; [set_solver|].
           destruct (Hsubb _ Hx) as [?|(k & Hk & ->)]; [set_solver|]. apply (Hf k); [lia|set_solver].
        -- apply NoDup_app. split_and!; [done| |done]. intros x Hxa Hx.
           destruct (Hsubb _ Hx) as [?|(k & Hk & ->)]; [set_solver|]. apply (Hf k); [lia|set_solver].
      * split_and!; [done| |set_solver]. apply NoDup_cons. split; [done|]. by apply NoDup_app.
Qed.

Lemma drop_at_perm l t i d : t ∈ l → drop_at l t i d ≡ₚ i :: l.
Proof.
  induction l as [|s l IH]; intros Ht; [by apply elem_of_nil in Ht|]. simpl.
  destruct (decide (s = t)) as [->|Hne].
  - unfold dropped. destruct (prepends d); simpl; [done|apply Permutation_swap].
  - rewrite IH by set_solver. apply Permutation_swap.
Qed.

(** Dropping a session on a pane puts it right beside that pane, on the side of
    the drop, and disturbs no other pane; a drop on a session that is not in the
    layout changes nothing and uses no identifier; node ids stay distinct. *)
Theorem insertSessionIntoWorkspaceLayout_spec node target incoming direction n :
  let '((node', inserted), n') :=
    insertSessionIntoWorkspaceLayout node target incoming direction n in
  inserted = bool_decide (target ∈ listWorkspaceSessionIds node)
  ∧ listWorkspaceSessionIds node' = drop_at (listWorkspaceSessionIds node) target incoming direction
  ∧ (inserted = false → node' = node ∧ n' = n)
  ∧ (supply_fresh n (layout_ids node) → NoDup (layout_ids node) → NoDup (layout_ids node')).
Proof.
  pose proof (insert_sessions node target incoming direction n) as Hs.
  pose proof (insert_ids node target incoming direction n) as Hi.
  destruct (insertSessionIntoWorkspaceLayout node target incoming direction n) as [[node' ins] n'].
  destruct Hs as (H1 & H2 & H3). split_and!; [done..|]. intros Hf Hnd. by apply Hi.
Qed.

Lemma filter_ne_perm (l : list jsstring) s : NoDup l → s ∈ l →
  l ≡ₚ s :: List.filter (λ x, negb (bool_decide (x = s))) l.
Proof.
  induction l as [|x l IH]; intros Hnd Hs; [by apply elem_of_nil in Hs|].
  apply NoDup_cons in Hnd as [Hx Hnd]. simpl. destruct (decide (x = s)) as [->|Hne].
  - rewrite bool_decide_true by done. simpl. f_equiv. symmetry. apply eq_perm.
    apply filter_all. intros y Hy. apply negb_true_iff, bool_decide_eq_false. by intros ->.
  - rewrite bool_decide_false by done. simpl. rewrite IH at 1 by set_solver. apply Permutation_swap.
Qed.

Lemma move_sessions node s t d n :
  NoDup (listWorkspaceSessionIds node) →
  let '((node', moved), _) := moveSessionWithinWorkspaceLayout node s t d n in
  moved = bool_decide (s ≠ t ∧ s ∈ listWorkspaceSessionIds node ∧ t ∈ listWorkspaceSessionIds node)
  ∧ listWorkspaceSessionIds node' ≡ₚ listWorkspaceSessionIds node
  ∧ (if moved
     then listWorkspaceSessionIds node' =
            drop_at (List.filter (λ x, negb (bool_decide (x = s))) (listWorkspaceSessionIds node)) t s d
     else node' = node).
Proof.
  intros Hnd. unfold moveSessionWithinWorkspaceLayout, fbind, fret.
  case_decide as Hst; [simpl; by rewrite bool_decide_false by naive_solver|].
  destruct (decide (s ∈ listWorkspaceSessionIds node)) as [Hs|Hs];
    [rewrite (bool_decide_true (s ∈ _)) by done|by rewrite (bool_decide_false (s ∈ _)), (bool_decide_false (s ≠ t ∧ _)) by naive_solver].
  destruct (decide (t ∈ listWorkspaceSessionIds node)) as [Ht|Ht];
    [rewrite (bool_decide_true (t ∈ _)) by done|by rewrite orb_comm, (bool_decide_false (t ∈ _)), (bool_decide_false (s ≠ t ∧ _)) by naive_solver].
  rewrite bool_decide_true by done. simpl.
  assert (Htr : t ∈ List.filter (λ x, negb (bool_decide (x = s))) (listWorkspaceSessionIds node)).
  { apply filter_In_elem. split; [done|].
    by rewrite bool_decide_false by naive_solver. }
  pose proof (remove_sessions node s) as Hr.
  destruct (removeSessionFromWorkspaceLayout node s) as [node1|]; [|rewrite Hr in Htr; by apply elem_of_nil in Htr].
  pose proof (insert_sessions node1 t s d n) as Hi.
  destruct (insertSessionIntoWorkspaceLayout node1 t s d n) as [[node2 ins] n2].
  destruct Hi as (-> & Hl & _). rewrite Hr in *. rewrite bool_decide_true by done. simpl.
  split_and!; [done| |done]. rewrite Hl, drop_at_perm by done. symmetry. by apply filter_ne_perm.
Qed.

(** Moving a pane within its layout never loses or duplicates a session: it
    happens exactly when both panes are there and differ, and then the session is
    taken out of its place and put beside the target; otherwise the layout is
    untouched. *)
Theorem moveSessionWithinWorkspaceLayout_spec node s t d n :
  NoDup (listWorkspaceSessionIds node) →
  let '((node', moved), _) := moveSessionWithinWorkspaceLayout node s t d n in
  moved = bool_decide (s ≠ t ∧ s ∈ listWorkspaceSessionIds node ∧ t ∈ listWorkspaceSessionIds node)
  ∧ listWorkspaceSessionIds node' ≡ₚ listWorkspaceSessionIds node
  ∧ (if moved
     then listWorkspaceSessionIds node' =
            drop_at (List.filter (λ x, negb (bool_decide (x = s))) (listWorkspaceSessionIds node)) t s d
     else node' = node).
Proof. apply move_sessions. Qed.

Lemma clamp_split_idem x :
  clamp split_lo split_hi (clamp split_lo split_hi x) = clamp split_lo split_hi x.
Proof.
  destruct (isNaN x) eqn:E; [by destruct x|].
  destruct (clamp_range split_lo split_hi x) as (H1 & H2 & H3); [vm_compute; reflexivity..|done|vm_compute; reflexivity|].
  apply clamp_id; [vm_compute; reflexivity..| | |]; done.
Qed.

Definition set_ratio (splitId : jsstring) (ratio : number) (sp : jsstring * Axis * number) :=
  let '(id, axis, r) := sp in if decide (id = splitId) then (id, axis, ratio) else (id, axis, r).

Lemma splits_ids node x : x ∈ (layout_splits node).*1.*1 → x ∈ layout_ids node.
Proof.
  induction node as [leaf|id axis ratio a IHa b IHb]; simpl; [by intros ?%elem_of_nil|].
  rewrite !fmap_app. set_solver.
Qed.

Lemma set_ratio_other splitId r (l : list (jsstring * Axis * number)) :
  splitId ∉ l.*1.*1 → set_ratio splitId r <$> l = l.
Proof.
  induction l as [|[[i ax] r'] l IH]; [done|]. rewrite !fmap_cons. cbn [set_ratio fst].
  intros Hn. rewrite decide_False by set_solver. by rewrite IH by set_solver.
Qed.

Lemma update_splits node splitId ratio : NoDup (layout_ids node) →
  layout_splits (updateWorkspaceSplitRatio node splitId ratio)
  = set_ratio splitId (clamp split_lo split_hi ratio) <$> layout_splits node.
Proof.
  revert ratio. induction node as [leaf|id axis r a IHa b IHb]; intros ratio Hnd; [done|].
  cbn [updateWorkspaceSplitRatio layout_splits layout_ids] in *.
  apply NoDup_cons in Hnd as [Hid Hnd]. apply NoDup_app in Hnd as (Ha & _ & Hb).
  rewrite fmap_cons, fmap_app. simpl. case_decide as E; simpl.
  - subst. rewrite !set_ratio_other; [done|intros ?%splits_ids; set_solver..].
  - by rewrite IHa, IHb, clamp_split_idem by done.
Qed.

Lemma update_sessions node splitId ratio :
  listWorkspaceSessionIds (updateWorkspaceSplitRatio node splitId ratio) = listWorkspaceSessionIds node.
Proof.
  revert ratio. induction node as [leaf|id axis r a IHa b IHb]; intros ratio; [done|]. simpl.
  case_decide; simpl; [done|]. by rewrite IHa, IHb.
Qed.

(** Resizing a split sets the ratio of that split alone, to the requested number
    kept between 0.2 and 0.8, leaves every pane where it is, and is idempotent. *)
Theorem updateWorkspaceSplitRatio_spec node splitId ratio :
  NoDup (layout_ids node) →
  layout_splits (updateWorkspaceSplitRatio node splitId ratio)
    = set_ratio splitId (clamp split_lo split_hi ratio) <$> layout_splits node
  ∧ listWorkspaceSessionIds (updateWorkspaceSplitRatio node splitId ratio) = listWorkspaceSessionIds node
  ∧ (isNaN ratio = false →
      num_le split_lo (clamp split_lo split_hi ratio) = true
      ∧ num_le (clamp split_lo split_hi ratio) split_hi = true).
Proof.
  intros Hnd. split_and!; [by apply update_splits|apply update_sessions|].
  intros Hr. destruct (clamp_range split_lo split_hi ratio) as (H1 & H2 & _);
    [vm_compute; reflexivity..|done|vm_compute; reflexivity|done].
Qed.

Lemma replace_sessions node p n :
  listWorkspaceSessionIds (replaceSessionIdInLayout node p n)
  = (λ s, if decide (s = p) then n else s) <$> listWorkspaceSessionIds node.
Proof.
  induction node as [leaf|id axis r a IHa b IHb]; simpl; [by case_decide|].
  by rewrite fmap_app, IHa, IHb.
Qed.
Lemma replace_ids node p n : layout_ids (replaceSessionIdInLayout node p n) = layout_ids node.
Proof. induction node as [leaf|id axis r a IHa b IHb]; simpl; [by case_decide|]. by rewrite IHa, IHb. Qed.
End layout_facts.

(** ** Witnesses *)

Section witnesses.
#[local] Instance demo_uuid : UuidSupply := λ n, js "uuid-" ++ show_N (N.of_nat n).

Definition demo_leaf (s : string) : WorkspaceLayoutNode :=
  LLeaf {| leaf_id := js "leaf-" ++ js s; leaf_sessionId := js s; leaf_cols := None; leaf_rows := None |}.
Definition demo_layout : WorkspaceLayoutNode :=
  LSplit (js "s1") horizontal ratio_half (demo_leaf "a")
    (LSplit (js "s2") vertical ratio_half (demo_leaf "b") (demo_leaf "c")).

Lemma insertSessionIntoWorkspaceLayout_spec_witness :
  listWorkspaceSessionIds (insertSessionIntoWorkspaceLayout demo_layout (js "b") (js "x") dir_top 0).1.1
  = [js "a"; js "x"; js "b"; js "c"].
Proof.
  pose proof (insertSessionIntoWorkspaceLayout_spec demo_layout (js "b") (js "x") dir_top 0) as H.
  destruct (insertSessionIntoWorkspaceLayout demo_layout (js "b") (js "x") dir_top 0) as [[l i] n].
  destruct H as (_ & H & _). simpl. rewrite H. vm_compute. reflexivity.
Defined.

Lemma demo_sessions_NoDup : NoDup (listWorkspaceSessionIds demo_layout).
Proof.
  apply (bool_decide_unpack (NoDup (listWorkspaceSessionIds demo_layout))). vm_compute. exact I.
Qed.
Lemma demo_ids_NoDup : NoDup (layout_ids demo_layout).
Proof. apply (bool_decide_unpack (NoDup (layout_ids demo_layout))). vm_compute. exact I. Qed.

Lemma moveSessionWithinWorkspaceLayout_spec_witness :
  (moveSessionWithinWorkspaceLayout demo_layout (js "c") (js "a") dir_left 0).1.2 = true.
Proof.
  pose proof (moveSessionWithinWorkspaceLayout_spec demo_layout (js "c") (js "a") dir_left 0
    demo_sessions_NoDup) as H.
  destruct (moveSessionWithinWorkspaceLayout demo_layout (js "c") (js "a") dir_left 0) as [[l m] n].
  destruct H as (H & _). simpl. rewrite H. vm_compute. reflexivity.
Defined.

Lemma updateWorkspaceSplitRatio_spec_witness :
  layout_splits (updateWorkspaceSplitRatio demo_layout (js "s2") (num_of_Z 1))
  = [(js "s1", horizontal, ratio_half); (js "s2", vertical, split_hi)].
Proof.
  rewrite (proj1 (updateWorkspaceSplitRatio_spec demo_layout (js "s2") (num_of_Z 1) demo_ids_NoDup)).
  vm_compute. reflexivity.
Defined.
End witnesses.
