(* ===== verification/TmuxLayout.v ===== *)
(** * tmux layouts (apps/desktop/src/renderer/store/utils/workspaces.ts, parseTmuxLayout)

    The parser of the layout string tmux sends in control mode, which turns its
    n-way splits into the binary layout tree.  The source walks a string by
    position; here the parser consumes the rest of the string.  [toSessionId] is
    the caller's.  A [throw] inside the parser is [None], as the [catch] makes it. *)

From S2P Require Import Prelude Collections JsNumber SavedWorkspace WorkspaceLayout.

Record TmuxLayoutCell := { cell_node : WorkspaceLayoutNode; cell_width : N; cell_height : N }.

(** [/^(\d+)x(\d+),\d+,\d+/]: the two captures and what follows the match. *)
Definition dims (s : jsstring) : option (N * N * jsstring) :=
  match span_digits s with
  | ((_ :: _) as w, 120%N :: r) =>
      match span_digits r with
      | ((_ :: _) as h, 44%N :: r) =>
          match span_digits r with
          | (_ :: _, 44%N :: r) =>
              match span_digits r with
              | (_ :: _, r) => Some (digits_value w, digits_value h, r)
              | _ => None
              end
          | _ => None
          end
      | _ => None
      end
  | _ => None
  end.

(** A computation that may throw. *)
Definition try_m (A : Type) : Type := fresh_m (option A).
Definition try_bind {A B} (m : try_m A) (f : A → try_m B) : try_m B :=
  fbind m (λ o, match o with Some a => f a | None => fret None end).
Notation "'let?' x ':=' m 'in' k" := (try_bind m (λ x, k))
  (at level 10, x pattern, m at level 100, k at level 200) : result_scope.

Definition measure (axis : Axis) (cell : TmuxLayoutCell) : N :=
  match axis with horizontal => cell_width cell | vertical => cell_height cell end.

(** [total > 0 ? firstSize / total : 0.5] *)
Definition tmux_ratio (firstSize restSize : N) : number :=
  let total := (firstSize + restSize)%N in
  if (0 <? total)%N then num_frac (Z.of_N firstSize) (Z.of_N total) else ratio_half.

Definition rest_size (axis : Axis) (rest : list TmuxLayoutCell) : N :=
  foldl (λ sum cell, sum + measure axis cell)%N 0%N rest.

Section parser.
Context `{UuidSupply} (toSessionId : jsstring → jsstring).

(** [buildTmuxLayoutBinary([first, ...rest], axis)] *)
Fixpoint buildTmuxLayoutBinary (first : TmuxLayoutCell) (rest : list TmuxLayoutCell) (axis : Axis)
    : fresh_m WorkspaceLayoutNode :=
  match rest with
  | [] => fret (cell_node first)
  | second :: rest' =>
      let@ id := randomUUID in
      let@ tail := buildTmuxLayoutBinary second rest' axis in
      fret (LSplit id axis (tmux_ratio (measure axis first) (rest_size axis rest)) (cell_node first) tail)
  end.

Definition with_size (n : WorkspaceLayoutNode) (cols rows : N) : WorkspaceLayoutNode :=
  match n with
  | LLeaf l => LLeaf {| leaf_id := leaf_id l; leaf_sessionId := leaf_sessionId l;
                        leaf_cols := Some cols; leaf_rows := Some rows |}
  | LSplit _ _ _ _ _ => n
  end.

Definition finish_container (axis : Axis) (width height : N)
    (p : (TmuxLayoutCell * list TmuxLayoutCell) * jsstring) : try_m (TmuxLayoutCell * jsstring) :=
  let '((first, rest), r) := p in
  let@ node := buildTmuxLayoutBinary first rest axis in
  fret (Some ({| cell_node := node; cell_width := width; cell_height := height |}, r)).

Fixpoint parseTmuxLayoutCell (fuel : nat) (s : jsstring) : try_m (TmuxLayoutCell * jsstring) :=
  match fuel with
  | O => fret None
  | S fuel =>
      match dims s with
      | None | Some (_, _, []) => fret None
      | Some (width, height, next :: r) =>
          if (next =? 123)%N then
            let? children := parseTmuxLayoutChildren fuel r 125 in
            finish_container horizontal width height children
          else if (next =? 91)%N then
            let? children := parseTmuxLayoutChildren fuel r 93 in
            finish_container vertical width height children
          else if (next =? 44)%N then
            let '(pane, r) := span_digits r in
            if truthy pane then
              let@ leaf := createWorkspaceLeaf (toSessionId pane) in
              fret (Some ({| cell_node := with_size leaf width height;
                             cell_width := width; cell_height := height |}, r))
            else fret None
          else fret None
      end
  end
(** The loop of [parseTmuxLayoutContainer]: the children (never none) and the rest. *)
with parseTmuxLayoutChildren (fuel : nat) (s : jsstring) (close : N)
    : try_m ((TmuxLayoutCell * list TmuxLayoutCell) * jsstring) :=
  match fuel with
  | O => fret None
  | S fuel =>
      let? child := parseTmuxLayoutCell fuel s in
      match child.2 with
      | c :: r =>
          if (c =? 44)%N then
            let? more := parseTmuxLayoutChildren fuel r close in
            fret (Some ((child.1, more.1.1 :: more.1.2), more.2))
          else if (c =? close)%N then fret (Some ((child.1, []), r))
          else fret None
      | [] => fret None
      end
  end.

(** [/^[0-9a-f]+$/i] *)
Definition is_hex (c : N) : bool :=
  (digit c || ((97 <=? c) && (c <=? 102)) || ((65 <=? c) && (c <=? 70)))%N.

Definition strip_checksum (body : jsstring) : jsstring :=
  match indexOf 44 body with
  | Some (S i) =>
      let token := take (S i) body in
      if negb (includes_unit token 120) && forallb is_hex token then drop (S (S i)) body else body
  | _ => body
  end.

(** Enough fuel: two levels of the recursion consume at least one unit. *)
Definition tmux_fuel (body : jsstring) : nat := S (2 * length body).

Definition parseTmuxLayout (layout : jsstring) : fresh_m (option WorkspaceLayoutNode) :=
  let body := strip_checksum (js_trim layout) in
  let@ result := parseTmuxLayoutCell (tmux_fuel body) body in
  fret match result with
       | Some (cell, []) => Some (cell_node cell)
       | _ => None
       end.
End parser.

(** ** The layouts tmux prints *)

(** A pane, or a row or column of cells, with size and position. *)
Inductive TmuxTree :=
| TPane (w h x y pane : N)
| TBox (axis : Axis) (w h x y : N) (first : TmuxTree) (rest : list TmuxTree).

Definition tree_size (t : TmuxTree) : N * N :=
  match t with TPane w h _ _ _ => (w, h) | TBox _ w h _ _ _ _ => (w, h) end.

Definition print_dims (w h x y : N) : jsstring :=
  show_N w ++ 120%N :: show_N h ++ 44%N :: show_N x ++ 44%N :: show_N y.
Definition open_of (axis : Axis) : N := match axis with horizontal => 123%N | vertical => 91%N end.
Definition close_of (axis : Axis) : N := match axis with horizontal => 125%N | vertical => 93%N end.

Fixpoint print_tree (t : TmuxTree) : jsstring :=
  match t with
  | TPane w h x y pane => print_dims w h x y ++ 44%N :: show_N pane
  | TBox axis w h x y first rest =>
      print_dims w h x y ++ open_of axis :: print_tree first
      ++ (rest ≫= λ t, 44%N :: print_tree t) ++ [close_of axis]
  end.

(** A layout without its generated ids. *)
Fixpoint erase (n : WorkspaceLayoutNode) : WorkspaceLayoutNode :=
  match n with
  | LLeaf l => LLeaf {| leaf_id := []; leaf_sessionId := leaf_sessionId l;
                        leaf_cols := leaf_cols l; leaf_rows := leaf_rows l |}
  | LSplit _ axis ratio a b => LSplit [] axis ratio (erase a) (erase b)
  end.
Definition erase_cell (c : TmuxLayoutCell) : TmuxLayoutCell :=
  {| cell_node := erase (cell_node c); cell_width := cell_width c; cell_height := cell_height c |}.

(** The n-way split as nested binary ones, each with the share of its first cell. *)
Fixpoint nest (first : TmuxLayoutCell) (rest : list TmuxLayoutCell) (axis : Axis) : WorkspaceLayoutNode :=
  match rest with
  | [] => cell_node first
  | second :: rest' =>
      LSplit [] axis (tmux_ratio (measure axis first) (rest_size axis rest)) (cell_node first)
        (nest second rest' axis)
  end.

Section meaning.
Context (toSessionId : jsstring → jsstring).

Fixpoint tree_cell (t : TmuxTree) : TmuxLayoutCell :=
  match t with
  | TPane w h _ _ pane =>
      {| cell_node := LLeaf {| leaf_id := []; leaf_sessionId := toSessionId (show_N pane);
                               leaf_cols := Some w; leaf_rows := Some h |};
         cell_width := w; cell_height := h |}
  | TBox axis w h _ _ first rest =>
      {| cell_node := nest (tree_cell first) (tree_cell <$> rest) axis;
         cell_width := w; cell_height := h |}
  end.
End meaning.

Section tmux_tree_ind.
Variable P : TmuxTree → Prop.
Hypothesis Hpane : ∀ w h x y pane, P (TPane w h x y pane).
Hypothesis Hbox : ∀ axis w h x y first rest, P first → Forall P rest → P (TBox axis w h x y first rest).

Fixpoint tmux_tree_ind (t : TmuxTree) : P t :=
  match t with
  | TPane w h x y pane => Hpane w h x y pane
  | TBox axis w h x y first rest =>
      Hbox axis w h x y first rest (tmux_tree_ind first)
        ((fix go (l : list TmuxTree) : Forall P l :=
            match l with
            | [] => List.Forall_nil P
            | t :: l => List.Forall_cons P t l (tmux_tree_ind t) (go l)
            end) rest)
  end.
End tmux_tree_ind.

(** ** Reading back what was printed *)

Definition no_digit (r : jsstring) : Prop := match r with c :: _ => digit c = false | [] => True end.

Lemma span_show n r : no_digit r → span_digits (show_N n ++ r) = (show_N n, r).
Proof. intros Hr. apply span_digits_app; [apply show_N_spec|exact Hr]. Qed.

Lemma dims_print w h x y r : no_digit r → dims (print_dims w h x y ++ r) = Some (w, h, r).
Proof.
  intros Hr. unfold dims, print_dims.
  destruct (show_N_spec w) as (_ & Hw & Vw), (show_N_spec h) as (_ & Hh & Vh),
    (show_N_spec x) as (_ & Hx & _), (show_N_spec y) as (_ & Hy & _).
  repeat (rewrite <- (assoc_L (++)); cbn [app]).
  rewrite span_show by done. destruct (show_N w) as [|? ?]; [done|]. cbv iota.
  rewrite span_show by done. destruct (show_N h) as [|? ?]; [done|]. cbv iota.
  rewrite span_show by done. destruct (show_N x) as [|? ?]; [done|]. cbv iota.
  rewrite span_show by done. destruct (show_N y) as [|? ?]; [done|]. cbv iota.
  by rewrite Vw, Vh.
Qed.

Section roundtrip.
Context `{UuidSupply} (toSessionId : jsstring → jsstring).
Local Abbreviation parseCell := (parseTmuxLayoutCell toSessionId).
Local Abbreviation parseChildren := (parseTmuxLayoutChildren toSessionId).

Lemma rest_size_erase axis l : rest_size axis (erase_cell <$> l) = rest_size axis l.
Proof.
  unfold rest_size. generalize 0%N. induction l as [|c l IH]; intros m; [done|].
  rewrite fmap_cons. cbn [foldl]. rewrite IH. by destruct axis.
Qed.

Lemma build_erase first rest axis n :
  erase (buildTmuxLayoutBinary first rest axis n).1 = nest (erase_cell first) (erase_cell <$> rest) axis.
Proof.
  revert first n. induction rest as [|second rest IH]; intros first n; [done|].
  cbn [buildTmuxLayoutBinary]. unfold fbind, fret, randomUUID. cbv beta iota.
  specialize (IH second (S n)). destruct (buildTmuxLayoutBinary second rest axis (S n)) as [tail n'].
  cbn [fst erase] in *. rewrite fmap_cons. cbn [nest]. rewrite <- IH. f_equal.
  rewrite <- fmap_cons, rest_size_erase. by destruct axis.
Qed.

Lemma parseCell_S fuel s : parseCell (S fuel) s =
  match dims s with
  | None | Some (_, _, []) => fret None
  | Some (width, height, next :: r) =>
      if (next =? 123)%N then
        let? children := parseChildren fuel r 125%N in finish_container horizontal width height children
      else if (next =? 91)%N then
        let? children := parseChildren fuel r 93%N in finish_container vertical width height children
      else if (next =? 44)%N then
        let '(pane, r) := span_digits r in
        if truthy pane then
          let@ leaf := createWorkspaceLeaf (toSessionId pane) in
          fret (Some ({| cell_node := with_size leaf width height;
                         cell_width := width; cell_height := height |}, r))
        else fret None
      else fret None
  end.
Proof. reflexivity. Qed.

Lemma parseChildren_S fuel s close : parseChildren (S fuel) s close =
  (let? child := parseCell fuel s in
   match child.2 with
   | c :: r =>
       if (c =? 44)%N then
         let? more := parseChildren fuel r close in
         fret (Some ((child.1, more.1.1 :: more.1.2), more.2))
       else if (c =? close)%N then fret (Some ((child.1, []), r))
       else fret None
   | [] => fret None
   end).
Proof. reflexivity. Qed.

Definition reads (t : TmuxTree) : Prop := ∀ fuel r n, no_digit r →
  2 * length (print_tree t ++ r) < fuel →
  ∃ c n', parseCell fuel (print_tree t ++ r) n = (Some (c, r), n')
    ∧ erase_cell c = tree_cell toSessionId t.

Lemma show_N_length n : 0 < length (show_N n).
Proof. destruct (show_N_spec n) as (_ & ? & _). by destruct (show_N n); [|simpl; lia]. Qed.

Lemma print_dims_length w h x y : 7 ≤ length (print_dims w h x y).
Proof.
  unfold print_dims. repeat (rewrite length_app; simpl).
  pose proof (show_N_length w). pose proof (show_N_length h). pose proof (show_N_length x).
  pose proof (show_N_length y). lia.
Qed.

Lemma reads_children axis first rest fuel r n : reads first → Forall reads rest →
  2 * length (print_tree first ++ (rest ≫= λ t, 44%N :: print_tree t) ++ close_of axis :: r) + 1 < fuel →
  ∃ c cs n', parseChildren fuel (print_tree first ++ (rest ≫= λ t, 44%N :: print_tree t)
      ++ close_of axis :: r) (close_of axis) n = (Some ((c, cs), r), n')
    ∧ erase_cell c = tree_cell toSessionId first
    ∧ erase_cell <$> cs = tree_cell toSessionId <$> rest.
Proof.
  intros Hf Hrest. revert first fuel n Hf. induction Hrest as [|t rest Ht Hrest IH];
    intros first fuel n Hf Hlen; (destruct fuel as [|fuel]; [lia|]);
    rewrite parseChildren_S; unfold try_bind, fbind, fret.
  - cbn [mbind list_bind app] in *. destruct (Hf fuel (close_of axis :: r) n) as (c & n' & -> & Ec);
      [by destruct axis|simpl in *; lia|]. simpl.
    exists c, [], n'. by destruct axis.
  - rewrite bind_cons in *. cbn [app] in *. rewrite <- (assoc_L (++)) in *.
    destruct (Hf fuel (44%N :: print_tree t ++ (rest ≫= λ t, 44%N :: print_tree t)
      ++ close_of axis :: r) n) as (c & n' & -> & Ec); [done|lia|]. simpl.
    destruct (IH t fuel n' Ht) as (c' & cs & n'' & -> & Ec' & Ecs).
    { rewrite length_app in Hlen. simpl in Hlen. lia. }
    simpl. exists c, (c' :: cs), n''. split_and!; [done..|]. by rewrite !fmap_cons, Ec', Ecs.
Qed.

Lemma reads_all t : reads t.
Proof.
  induction t as [w h x y pane|axis w h x y first rest Hf Hrest] using tmux_tree_ind;
    intros fuel r n Hr Hlen; (destruct fuel as [|fuel]; [lia|]);
    rewrite parseCell_S; cbn [print_tree] in *; rewrite <- (assoc_L (++)) in *; cbn [app] in *.
  - rewrite dims_print by done. destruct (show_N_spec pane) as (_ & Hp & _). cbn [N.eqb Pos.eqb].
    rewrite span_show, (proj2 (truthy_spec _)) by done.
    unfold createWorkspaceLeaf, fbind, fret, randomUUID. eexists _, _. split; [reflexivity|]. done.
  - rewrite <- !(assoc_L (++)) in *. cbn [app] in *.
    rewrite dims_print by by destruct axis.
    pose proof (print_dims_length w h x y) as Hd. rewrite length_app in Hlen. simpl in Hlen.
    destruct (reads_children axis first rest fuel r n Hf Hrest) as (c & cs & n' & Ep & Ec & Ecs); [lia|].
    destruct axis; cbn [open_of close_of N.eqb Pos.eqb] in *; unfold try_bind, fbind, fret;
      rewrite Ep; cbn [finish_container]; unfold fbind, fret;
      match goal with |- context[buildTmuxLayoutBinary ?f ?l ?a ?k] =>
        pose proof (build_erase f l a k) as Eb; destruct (buildTmuxLayoutBinary f l a k) as [node n''] end;
      eexists _, _; (split; [reflexivity|]); unfold erase_cell; simpl in *; by rewrite Eb, Ec, Ecs.
Qed.

(** The characters of a printed layout. *)
Definition tmux_char (c : N) : bool :=
  digit c || existsb (N.eqb c) [44; 120; 123; 125; 91; 93]%N.

Lemma digits_tmux n : Forall (λ c, tmux_char c = true) (show_N n).
Proof.
  destruct (show_N_spec n) as [Hd _]. eapply Forall_impl; [exact Hd|].
  intros c Hc. unfold tmux_char. simpl in *. by rewrite Hc.
Qed.

Lemma print_dims_chars w h x y : Forall (λ c, tmux_char c = true) (print_dims w h x y).
Proof.
  unfold print_dims. repeat (apply Forall_app; split; [apply digits_tmux|]; constructor; [done|]).
  apply digits_tmux.
Qed.

Lemma print_chars t : Forall (λ c, tmux_char c = true) (print_tree t).
Proof.
  induction t as [w h x y pane|axis w h x y first rest Hf Hrest] using tmux_tree_ind; cbn [print_tree];
    (apply Forall_app; split; [apply print_dims_chars|]); constructor; [done|apply digits_tmux|by destruct axis|].
  apply Forall_app. split; [done|]. apply Forall_app. split; [|by destruct axis; repeat constructor].
  induction Hrest as [|t rest Ht Hrest IH]; [constructor|]. rewrite bind_cons. cbn [app].
  constructor; [done|]. apply Forall_app. by split.
Qed.

Lemma tmux_char_not_ws c : tmux_char c = true → is_ws c = false.
Proof.
  unfold tmux_char, digit, is_ws. rewrite orb_true_iff, andb_true_iff, !N.leb_le. intros [Hd|Hd].
  - repeat (rewrite ?orb_false_iff, ?andb_false_iff, ?N.leb_gt, ?N.eqb_neq). lia.
  - cbn [existsb] in Hd. repeat rewrite orb_true_iff in Hd.
    destruct Hd as [H'|[H'|[H'|[H'|[H'|[H'|H']]]]]]; try done; apply N.eqb_eq in H' as ->; reflexivity.
Qed.

(** What tmux puts before the layout: nothing, or a hexadecimal checksum and a comma. *)
Definition checksummed (checksum body : jsstring) : jsstring :=
  match checksum with [] => body | _ => checksum ++ 44%N :: body end.

Lemma hex_not c x : is_hex x = false → forallb is_hex c = true → x ∉ c.
Proof. intros Hx Hc Hin. rewrite forallb_spec in Hc. apply Hc in Hin. congruence. Qed.

Lemma strip_checksum_print checksum t : forallb is_hex checksum = true →
  strip_checksum (checksummed checksum (print_tree t)) = print_tree t.
Proof.
  intros Hc. destruct checksum as [|c cs] eqn:Ecs; cbn [checksummed].
  - assert (Hpre : ∃ w rest, print_tree t = show_N w ++ 120%N :: rest).
    { destruct t; cbn [print_tree]; unfold print_dims; rewrite <- (assoc_L (++)); cbn [app]; eauto. }
    destruct Hpre as (w & rest & ->). unfold strip_checksum.
    destruct (indexOf 44 (show_N w ++ 120%N :: rest)) as [[|i]|] eqn:E; [done| |done].
    assert (Hx : 120%N ∈ take (S i) (show_N w ++ 120%N :: rest)); [|unfold includes_unit; by rewrite bool_decide_true].
    destruct (show_N_spec w) as [Hd _]. revert i E. induction Hd as [|d ds Hd Hds IH]; intros i E; simpl in *.
    + by left.
    + rewrite decide_False in E by (intros ->; discriminate Hd). right.
      destruct (indexOf 44 (ds ++ 120%N :: rest)) as [j|] eqn:Ej; [|done]. simpl in E. injection E as <-.
      destruct j as [|j]; [|by apply IH]. exfalso. destruct ds as [|d' ds]; cbn [indexOf app] in Ej.
      * rewrite decide_False in Ej by done. by destruct (indexOf 44 rest).
      * case_decide as Hd'; [subst; by inversion Hds|]. by destruct (indexOf 44 (ds ++ _)).
  - rewrite <- Ecs in *. assert (Hne : length checksum = S (length cs)) by by subst.
    clear Ecs. unfold strip_checksum. rewrite indexOf_app by (by apply hex_not).
    rewrite Hne. rewrite <- Hne. rewrite take_app_length, Hc. unfold includes_unit.
    rewrite bool_decide_false by (by apply hex_not). cbn [negb andb].
    rewrite drop_app_ge by lia. by replace (S (length checksum) - length checksum) with 1 by lia.
Qed.

(** C33: Every layout tmux can print is read back as it is: nested rows and columns of
    panes of any sizes, with or without the checksum and surrounding blanks,
    become the nested binary splits with each cell's share of its row or column
    and each pane's exact size; the fuel is always enough. *)
Theorem parseTmuxLayout_print checksum t layout n :
  forallb is_hex checksum = true → js_trim layout = checksummed checksum (print_tree t) →
  ∃ node n', parseTmuxLayout toSessionId layout n = (Some node, n')
    ∧ erase node = cell_node (tree_cell toSessionId t).
Proof.
  intros Hc Hl. unfold parseTmuxLayout, fbind, fret. rewrite Hl, strip_checksum_print by done.
  destruct (reads_all t (tmux_fuel (print_tree t)) [] n) as (c & n' & Ep & Ec); [done|unfold tmux_fuel; rewrite app_nil_r; lia|].
  rewrite app_nil_r in Ep. rewrite Ep. exists (cell_node c), n'. split; [done|]. by rewrite <- Ec.
Qed.

(** ** The fuel *)

Lemma dims_length s w h r : dims s = Some (w, h, r) → length r < length s.
Proof.
  unfold dims. pose proof (span_digits_split s) as E1. destruct (span_digits s) as [d1 r1].
  destruct d1 as [|? d1]; [done|]. destruct r1 as [|c1 r1]; [done|].
  destruct (decide (c1 = 120%N)) as [->|]; [|by repeat case_match].
  pose proof (span_digits_split r1) as E2. destruct (span_digits r1) as [d2 r2].
  destruct d2 as [|? d2]; [done|]. destruct r2 as [|c2 r2]; [done|].
  destruct (decide (c2 = 44%N)) as [->|]; [|by repeat case_match].
  pose proof (span_digits_split r2) as E3. destruct (span_digits r2) as [d3 r3].
  destruct d3 as [|? d3]; [done|]. destruct r3 as [|c3 r3]; [done|].
  destruct (decide (c3 = 44%N)) as [->|]; [|by repeat case_match].
  pose proof (span_digits_split r3) as E4. destruct (span_digits r3) as [d4 r4].
  destruct d4 as [|? d4]; [done|]. intros [= <- <- <-]. simpl in *.
  rewrite E1. simpl. rewrite length_app. simpl. rewrite E2. simpl. rewrite length_app. simpl.
  rewrite E3. simpl. rewrite length_app. simpl. rewrite E4. simpl. rewrite length_app. lia.
Qed.

Lemma finish_container_rest axis w h p n c r n' :
  finish_container axis w h p n = (Some (c, r), n') → r = p.2.
Proof.
  destruct p as [[first rest] r']. unfold finish_container, fbind, fret.
  destruct (buildTmuxLayoutBinary first rest axis n). by intros [= <- <- <-].
Qed.

Lemma span_rest_length s : length (span_digits s).2 ≤ length s.
Proof. rewrite (span_digits_split s) at 2. rewrite length_app. lia. Qed.

(** A successful read consumes something. *)
Lemma parse_consumes fuel :
  (∀ s n c r n', parseCell fuel s n = (Some (c, r), n') → length r < length s)
  ∧ (∀ s close n p r n', parseChildren fuel s close n = (Some (p, r), n') → length r < length s).
Proof.
  induction fuel as [|fuel [IHc IHs]]; [by split|]. split.
  - intros s n c r n'. rewrite parseCell_S. destruct (dims s) as [[[w h] [|next r']]|] eqn:Ed; [done| |done].
    apply dims_length in Ed. simpl in Ed. unfold try_bind, fbind, fret.
    repeat case_match; intros E; simplify_eq; try (apply finish_container_rest in E as ->;
      match goal with H : parseChildren _ _ _ _ = (Some ?q, _) |- _ => destruct q as [? ?]; apply IHs in H end; simpl; lia).
    match goal with H : span_digits r' = _ |- _ => pose proof (span_rest_length r') as Hs; rewrite H in Hs end.
    simpl in Hs. lia.
  - intros s close n p r n'. rewrite parseChildren_S. unfold try_bind, fbind, fret.
    destruct (parseCell fuel s n) as [[[c r']|] n1] eqn:Ec; [|done]. apply IHc in Ec. simpl.
    destruct r' as [|x r']; [done|]. simpl in Ec. destruct (x =? 44)%N.
    + destruct (parseChildren fuel r' close n1) as [[[p' r'']|] n2] eqn:Es; [|done]. apply IHs in Es.
      simpl. intros [= <- <- <-]. lia.
    + destruct (x =? close)%N; [|done]. intros [= <- <- <-]. lia.
Qed.

Lemma parse_fuel f1 f2 :
  (∀ s n, 2 * length s < f1 → 2 * length s < f2 → parseCell f1 s n = parseCell f2 s n)
  ∧ (∀ s close n, 2 * length s + 1 < f1 → 2 * length s + 1 < f2 →
       parseChildren f1 s close n = parseChildren f2 s close n).
Proof.
  revert f2. induction f1 as [|f1 IH]; intros f2; [split; intros; lia|].
  destruct f2 as [|f2]; [split; intros; lia|]. destruct (IH f2) as [IHc IHs]. split.
  - intros s n H1 H2. rewrite !parseCell_S. destruct (dims s) as [[[w h] [|next r]]|] eqn:Ed; [done| |done].
    apply dims_length in Ed. simpl in Ed. unfold try_bind, fbind.
    destruct (next =? 123)%N; [by rewrite (IHs r) by lia|].
    destruct (next =? 91)%N; [by rewrite (IHs r) by lia|]. done.
  - intros s close n H1 H2. rewrite !parseChildren_S. unfold try_bind, fbind. rewrite IHc by lia.
    destruct (parseCell f2 s n) as [[[c r]|] n1] eqn:Ec; [|done].
    apply parse_consumes in Ec. simpl. destruct r as [|x r]; [done|]. simpl in Ec.
    destruct (x =? 44)%N; [|done]. by rewrite IHs by lia.
Qed.

(** The parser terminates on every input, not only on tmux's: its fuel is never
    what stops it, any larger fuel gives the same answer. *)
Theorem parseTmuxLayout_terminates layout fuel n :
  let body := strip_checksum (js_trim layout) in
  tmux_fuel body ≤ fuel →
  parseTmuxLayout toSessionId layout n
  = (let@ result := parseCell fuel body in
     fret match result with Some (cell, []) => Some (cell_node cell) | _ => None end) n.
Proof.
  intros body Hf. unfold parseTmuxLayout. fold body. unfold fbind.
  by rewrite (proj1 (parse_fuel (tmux_fuel body) fuel)) by (unfold tmux_fuel in *; lia).
Qed.
End roundtrip.

(** ** Witnesses *)

Section witnesses.
#[local] Existing Instance demo_uuid.
Definition demo_session (pane : jsstring) : jsstring := js "tmux:" ++ pane.

(** [bd5e,80x24,0,0{40x24,0,0,1,39x24,41,0[39x12,41,0,2,39x11,41,13,3]}] *)
Definition demo_tree : TmuxTree :=
  TBox horizontal 80 24 0 0 (TPane 40 24 0 0 1)
    [TBox vertical 39 24 41 0 (TPane 39 12 41 0 2) [TPane 39 11 41 13 3]].

Example demo_tree_print :
  print_tree demo_tree = js "80x24,0,0{40x24,0,0,1,39x24,41,0[39x12,41,0,2,39x11,41,13,3]}".
Proof. vm_compute. reflexivity. Qed.

Lemma parseTmuxLayout_print_witness :
  ∃ node n', parseTmuxLayout demo_session
      (js " bd5e,80x24,0,0{40x24,0,0,1,39x24,41,0[39x12,41,0,2,39x11,41,13,3]}") 0 = (Some node, n')
    ∧ erase node = cell_node (tree_cell demo_session demo_tree).
Proof.
  apply (parseTmuxLayout_print demo_session (js "bd5e") demo_tree); vm_compute; reflexivity.
Defined.

Lemma parseTmuxLayout_terminates_witness :
  (parseTmuxLayout demo_session (js "80x24,0,0,1") 0).1 ≠ None.
Proof.
  rewrite (parseTmuxLayout_terminates demo_session (js "80x24,0,0,1") 100 0
    ltac:(vm_compute; lia)).
  vm_compute. discriminate.
Defined.
End witnesses.
