(* ===== verification/HostKeyPrompts.v ===== *)
(** * The queue of host-key questions
      (apps/desktop/src/renderer/store/utils/host-key-prompts.ts)

    One question is shown, the others wait.  [removeHostKeyPrompt] compares
    prompts with [===], so a prompt is an object: an identity and its fields.
    Every object literal of the source takes a new identity. *)

From S2P Require Import Prelude Collections.

Record KnownHostRecord := {
  kh_id : jsstring;
  kh_tailnetId : option jsstring;
  kh_host : jsstring;
  kh_port : Z;
  kh_algorithm : jsstring;
  kh_publicKeyBase64 : jsstring;
  kh_fingerprintSha256 : jsstring;
  kh_createdAt : jsstring;
  kh_lastSeenAt : jsstring;
  kh_updatedAt : jsstring;
}.

Inductive KnownHostTrustStatus := trusted | untrusted | mismatch.

Record HostKeyProbeResult := {
  probe_hostId : jsstring;
  probe_hostLabel : jsstring;
  probe_host : jsstring;
  probe_port : Z;
  probe_targetDescription : option jsstring;
  probe_algorithm : jsstring;
  probe_publicKeyBase64 : jsstring;
  probe_fingerprintSha256 : jsstring;
  probe_status : KnownHostTrustStatus;
  probe_existing : option KnownHostRecord;
}.

Section queue.
(** What is done after the answer: the queue carries it and never reads it. *)
Context {Action : Type}.

Record PendingHostKeyPrompt := {
  prompt_sessionId : option jsstring;
  prompt_probe : HostKeyProbeResult;
  prompt_liveChallengeId : option jsstring;
  prompt_action : Action;
}.
Abbreviation prompt := (object PendingHostKeyPrompt).
Implicit Types (p q : prompt) (l : list prompt).

Record HostKeyPromptQueueState := {
  pendingHostKeyPrompt : option prompt;
  queuedHostKeyPrompts : list prompt;
}.
Implicit Types s : HostKeyPromptQueueState.

Definition isSameHostKeyPrompt (shown : option prompt) (right : prompt) : bool :=
  match shown with
  | None => false
  | Some shown =>
      let lc := prompt_liveChallengeId (fields shown) in
      let rc := prompt_liveChallengeId (fields right) in
      match opt_truthy lc, opt_truthy rc with
      | None, None =>
          bool_decide (probe_host (prompt_probe (fields shown)) = probe_host (prompt_probe (fields right)))
          && (probe_port (prompt_probe (fields shown)) =? probe_port (prompt_probe (fields right)))%Z
      | _, _ => bool_decide (lc = rc)
      end
  end.

Definition enqueueHostKeyPrompt s p : HostKeyPromptQueueState :=
  if isSameHostKeyPrompt (pendingHostKeyPrompt s) p then
    {| pendingHostKeyPrompt := Some p; queuedHostKeyPrompts := queuedHostKeyPrompts s |}
  else if existsb (λ queued, isSameHostKeyPrompt (Some queued) p) (queuedHostKeyPrompts s) then s
  else match pendingHostKeyPrompt s with
  | None => {| pendingHostKeyPrompt := Some p; queuedHostKeyPrompts := queuedHostKeyPrompts s |}
  | Some _ => {| pendingHostKeyPrompt := pendingHostKeyPrompt s;
                 queuedHostKeyPrompts := queuedHostKeyPrompts s ++ [p] |}
  end.

Definition shiftHostKeyPrompt s : HostKeyPromptQueueState :=
  {| pendingHostKeyPrompt := head (queuedHostKeyPrompts s);
     queuedHostKeyPrompts := tail (queuedHostKeyPrompts s) |}.

Definition listHostKeyPrompts s : list prompt :=
  match pendingHostKeyPrompt s with
  | Some p => p :: queuedHostKeyPrompts s
  | None => queuedHostKeyPrompts s
  end.

Definition prompt_session p : option jsstring := prompt_sessionId (fields p).

Definition findHostKeyPromptForSession s (sessionId : option jsstring) : option prompt :=
  match opt_truthy sessionId with
  | None => None
  | Some id => List.find (λ p, bool_decide (prompt_session p = Some id)) (listHostKeyPrompts s)
  end.

Definition unowned (hasTabFor : jsstring → bool) p : bool :=
  match opt_truthy (prompt_session p) with None => true | Some id => negb (hasTabFor id) end.
Definition findUnownedHostKeyPrompt s (hasTabFor : jsstring → bool) : option prompt :=
  List.find (unowned hasTabFor) (listHostKeyPrompts s).

Definition removeHostKeyPrompt s (target : option prompt) : HostKeyPromptQueueState :=
  match target with
  | None => s
  | Some t =>
      if decide ((identity <$> pendingHostKeyPrompt s) = Some (identity t)) then shiftHostKeyPrompt s
      else {| pendingHostKeyPrompt := pendingHostKeyPrompt s;
              queuedHostKeyPrompts :=
                List.filter (λ p, negb (bool_decide (identity p = identity t))) (queuedHostKeyPrompts s) |}
  end.

Definition of_session (sessionId : jsstring) p : bool := bool_decide (prompt_session p = Some sessionId).

Definition dropHostKeyPromptsForSession s (sessionId : jsstring) : HostKeyPromptQueueState :=
  let queued := List.filter (λ p, negb (of_session sessionId p)) (queuedHostKeyPrompts s) in
  if decide ((pendingHostKeyPrompt s ≫= prompt_session) ≠ Some sessionId) then
    {| pendingHostKeyPrompt := pendingHostKeyPrompt s; queuedHostKeyPrompts := queued |}
  else {| pendingHostKeyPrompt := head queued; queuedHostKeyPrompts := tail queued |}.

Definition with_session (sessionId : jsstring) (x : PendingHostKeyPrompt) : PendingHostKeyPrompt :=
  {| prompt_sessionId := Some sessionId; prompt_probe := prompt_probe x;
     prompt_liveChallengeId := prompt_liveChallengeId x; prompt_action := prompt_action x |}.

Definition remap (previousSessionId nextSessionId : jsstring) p : fresh_m prompt :=
  if of_session previousSessionId p then new (with_session nextSessionId (fields p)) else fret p.

Definition remapHostKeyPromptSessionId s (previousSessionId nextSessionId : jsstring)
    : fresh_m HostKeyPromptQueueState :=
  let@ pending := match pendingHostKeyPrompt s with
                  | Some p => let@ q := remap previousSessionId nextSessionId p in fret (Some q)
                  | None => fret None
                  end in
  let@ queued := map_m (remap previousSessionId nextSessionId) (queuedHostKeyPrompts s) in
  fret {| pendingHostKeyPrompt := pending; queuedHostKeyPrompts := queued |}.

(** ** The specification: one list of questions *)

(** Two prompts ask the same question when they have the same key. *)
Definition prompt_key p : jsstring + (jsstring * Z) :=
  match opt_truthy (prompt_liveChallengeId (fields p)) with
  | Some c => inl c
  | None => inr (probe_host (prompt_probe (fields p)), probe_port (prompt_probe (fields p)))
  end.

Lemma same_key p q : isSameHostKeyPrompt (Some p) q = bool_decide (prompt_key p = prompt_key q).
Proof.
  apply eq_true_iff_eq. rewrite bool_decide_eq_true. unfold isSameHostKeyPrompt, prompt_key.
  destruct (prompt_liveChallengeId (fields p)) as [[|c t]|], (prompt_liveChallengeId (fields q)) as [[|d u]|];
    cbn [opt_truthy];
    rewrite ?andb_true_iff, ?bool_decide_eq_true, ?Z.eqb_eq; split;
    first [intros [-> ->]; done | intros [= ?]; try split; congruence | done].
Qed.

(** The state never hides a waiting question, no question is asked twice, and
    the identities are of distinct objects below the allocation counter [n]. *)
Record queue_ok (n : nat) s : Prop := {
  ok_shown : pendingHostKeyPrompt s = None → queuedHostKeyPrompts s = [];
  ok_once : NoDup (prompt_key <$> listHostKeyPrompts s);
  ok_objects : NoDup (identity <$> listHostKeyPrompts s);
  ok_allocated : Forall (λ p, identity p < n) (listHostKeyPrompts s);
}.

(** What each operation does to the list of questions. *)
Definition spec_enqueue l p : list prompt :=
  if decide ((prompt_key <$> head l) = Some (prompt_key p)) then p :: tail l
  else if decide (prompt_key p ∈ prompt_key <$> l) then l else l ++ [p].
Definition spec_remove l p : list prompt := List.filter (λ q, negb (bool_decide (identity q = identity p))) l.
Definition spec_drop l (sessionId : jsstring) : list prompt := List.filter (λ q, negb (of_session sessionId q)) l.

(** The fields of the remapped prompts; their identities are new. *)
Definition remap_fields (prev next : jsstring) (x : PendingHostKeyPrompt) : PendingHostKeyPrompt :=
  if decide (prompt_sessionId x = Some prev) then with_session next x else x.

Definition queue_of l : HostKeyPromptQueueState :=
  {| pendingHostKeyPrompt := head l; queuedHostKeyPrompts := tail l |}.

Lemma list_queue_of l : listHostKeyPrompts (queue_of l) = l.
Proof. by destruct l. Qed.

Lemma queue_of_list n s : queue_ok n s → s = queue_of (listHostKeyPrompts s).
Proof.
  intros [Hs _ _ _]. destruct s as [[p|] q]; [done|].
  unfold listHostKeyPrompts in *. simpl in *. by rewrite Hs.
Qed.

Lemma queue_ok_of n l : queue_ok n (queue_of l) ↔
  NoDup (prompt_key <$> l) ∧ NoDup (identity <$> l) ∧ Forall (λ p, identity p < n) l.
Proof.
  split.
  - intros [_ ? ? ?]. by rewrite list_queue_of in *.
  - intros (? & ? & ?). split; rewrite ?list_queue_of; [|done..]. by destruct l.
Qed.

(** A state that keeps part of the questions is as good. *)
Lemma queue_ok_sub n l k : l `sublist_of` k → queue_ok n (queue_of k) → queue_ok n (queue_of l).
Proof.
  rewrite !queue_ok_of. intros Hl (H1 & H2 & H3). split_and!.
  - by eapply sublist_NoDup, sublist_fmap.
  - by eapply sublist_NoDup, sublist_fmap.
  - by eapply sublist_Forall.
Qed.

(** ** The operations implement the specification *)

Inductive queue_op :=
| op_enqueue (x : PendingHostKeyPrompt)
| op_shift
| op_remove (target : option prompt)
| op_drop (sessionId : jsstring)
| op_remap (previousSessionId nextSessionId : jsstring).

Definition queue_step (op : queue_op) s : fresh_m HostKeyPromptQueueState :=
  match op with
  | op_enqueue x => let@ p := new x in fret (enqueueHostKeyPrompt s p)
  | op_shift => fret (shiftHostKeyPrompt s)
  | op_remove target => fret (removeHostKeyPrompt s target)
  | op_drop sessionId => fret (dropHostKeyPromptsForSession s sessionId)
  | op_remap prev next => remapHostKeyPromptSessionId s prev next
  end.

Definition spec_step (op : queue_op) l : fresh_m (list prompt) :=
  match op with
  | op_enqueue x => let@ p := new x in fret (spec_enqueue l p)
  | op_shift => fret (tail l)
  | op_remove (Some p) => fret (spec_remove l p)
  | op_remove None => fret l
  | op_drop sessionId => fret (spec_drop l sessionId)
  | op_remap prev next => map_m (remap prev next) l
  end.

Fixpoint run {S} (step : queue_op → S → fresh_m S) (ops : list queue_op) (st : S) : fresh_m S :=
  match ops with [] => fret st | op :: ops' => let@ st' := step op st in run step ops' st' end.

Lemma enqueue_refines l p :
  enqueueHostKeyPrompt (queue_of l) p = queue_of (spec_enqueue l p).
Proof.
  unfold enqueueHostKeyPrompt, spec_enqueue. destruct l as [|q l]; [done|].
  cbn [queue_of head tail pendingHostKeyPrompt queuedHostKeyPrompts].
  change (prompt_key <$> Some q) with (Some (prompt_key q)).
  rewrite same_key.
  case_bool_decide as Hq.
  { by rewrite decide_True by congruence. }
  rewrite decide_False by congruence.
  destruct (existsb _ l) eqn:E.
  - apply existsb_spec in E as (q' & Hq' & Hs). rewrite same_key, bool_decide_eq_true in Hs.
    rewrite decide_True; [done|]. rewrite fmap_cons. right. apply list_elem_of_fmap. eauto.
  - rewrite decide_False; [done|]. rewrite fmap_cons, elem_of_cons. intros [?|(q' & Hk & Hq')%list_elem_of_fmap]; [congruence|].
    rewrite existsb_false in E. specialize (E q' Hq').
    rewrite same_key, bool_decide_eq_false in E. congruence.
Qed.

Lemma spec_enqueue_ok n l x : queue_ok n (queue_of l) →
  queue_ok (S n) (queue_of (spec_enqueue l {| identity := n; fields := x |})).
Proof.
  rewrite !queue_ok_of. intros (Hk & Hi & Ha). unfold spec_enqueue.
  assert (Hn : n ∉ identity <$> l).
  { intros (q & -> & Hq)%list_elem_of_fmap. rewrite Forall_forall in Ha. specialize (Ha q Hq). lia. }
  assert (Ha' : Forall (λ p, identity p < S n) l) by (eapply Forall_impl; [exact Ha|]; simpl; lia).
  destruct l as [|q l]; cbn [head tail].
  - rewrite decide_False by done. rewrite decide_False by (rewrite fmap_nil; set_solver). simpl.
    repeat split; repeat constructor; set_solver by lia.
  - change (prompt_key <$> Some q) with (Some (prompt_key q)). rewrite !fmap_cons in *. apply NoDup_cons in Hk as [Hk1 Hk2], Hi as [Hi1 Hi2].
    apply Forall_cons in Ha' as [Hq Hl]. case_decide as Hh; [|case_decide as Hin].
    + rewrite !fmap_cons, !NoDup_cons, Forall_cons. injection Hh as <-. simpl.
      split_and!; [done..|set_solver|done|lia|done].
    + rewrite !fmap_cons, !NoDup_cons, Forall_cons. done.
    + rewrite <- app_comm_cons, !fmap_cons, !fmap_app, !NoDup_cons, Forall_cons, Forall_app.
      split_and!; try done; [| | | |repeat constructor; simpl; lia].
      * set_solver.
      * apply NoDup_app. split; [done|]. split; [set_solver|]. apply NoDup_singleton.
      * set_solver.
      * apply NoDup_app. split; [done|]. split; [set_solver|]. apply NoDup_singleton.
Qed.

Lemma remove_refines n l p : queue_ok n (queue_of l) →
  removeHostKeyPrompt (queue_of l) (Some p) = queue_of (spec_remove l p).
Proof.
  rewrite queue_ok_of. intros (_ & Hi & _). unfold removeHostKeyPrompt, spec_remove.
  destruct l as [|q l]; [done|]. cbn [queue_of pendingHostKeyPrompt head].
  change (identity <$> Some q) with (Some (identity q)).
  rewrite fmap_cons, NoDup_cons in Hi. destruct Hi as [Hi _]. cbn [List.filter]. case_decide as E.
  - injection E as E. rewrite (bool_decide_true (identity q = identity p)) by done. simpl.
    rewrite filter_all; [done|]. intros q' Hq'. apply negb_true_iff, bool_decide_eq_false.
    intros E'. apply Hi, list_elem_of_fmap. exists q'. split; congruence.
  - rewrite (bool_decide_false (identity q = identity p)) by congruence. done.
Qed.

Lemma drop_refines l sessionId :
  dropHostKeyPromptsForSession (queue_of l) sessionId = queue_of (spec_drop l sessionId).
Proof.
  unfold dropHostKeyPromptsForSession, spec_drop. destruct l as [|q l]; [by rewrite decide_True|].
  cbn [queue_of pendingHostKeyPrompt queuedHostKeyPrompts head tail List.filter mbind option_bind].
  case_decide as E.
  - assert (of_session sessionId q = false) as -> by by apply bool_decide_eq_false. done.
  - assert (of_session sessionId q = true) as -> by by apply bool_decide_eq_true.
    done.
Qed.

Lemma remap_refines l prev next n :
  remapHostKeyPromptSessionId (queue_of l) prev next n
  = let '(k, n') := map_m (remap prev next) l n in (queue_of k, n').
Proof.
  unfold remapHostKeyPromptSessionId, fbind. destruct l as [|q l]; [done|]. simpl. unfold fbind.
  destruct (remap prev next q n) as [q' n1]. simpl.
  destruct (map_m (remap prev next) l n1) as [k n2]. done.
Qed.

Lemma remap_key prev next p n :
  prompt_key (remap prev next p n).1 = prompt_key p.
Proof. unfold remap. by destruct (of_session prev p). Qed.

Lemma remap_objects prev next l n l' n' m : map_m (remap prev next) l n = (l', n') →
  m ≤ n → NoDup (identity <$> l) → Forall (λ p, identity p < m) l →
  n ≤ n' ∧ NoDup (identity <$> l') ∧ prompt_key <$> l' = prompt_key <$> l
  ∧ Forall (λ p, identity p ∈ identity <$> l ∨ n ≤ identity p < n') l'.
Proof.
  revert n l' n'. induction l as [|p l IH]; intros n l' n' E Hm Hnd Hl; cbn [map_m] in E.
  { injection E as <- <-. split_and!; [lia|constructor|done|constructor]. }
  unfold fbind in E. destruct (remap prev next p n) as [p' n1] eqn:Ep.
  destruct (map_m _ l n1) as [k n2] eqn:Ek. injection E as <- <-.
  pose proof (remap_key prev next p n) as Hkey. rewrite Ep in Hkey.
  rewrite fmap_cons, NoDup_cons in Hnd. destruct Hnd as [Hp Hnd].
  apply Forall_cons in Hl as [Hpm Hl].
  assert (Hn1 : n ≤ n1 ∧ (identity p' = identity p ∨ identity p' = n ∧ n1 = S n)).
  { unfold remap in Ep. destruct (of_session prev p); injection Ep as <- <-; simpl; lia. }
  destruct (IH n1 k n2 Ek ltac:(lia) Hnd Hl) as (Hle & Hndk & Hkk & Hid).
  rewrite !fmap_cons, NoDup_cons, Forall_cons. split_and!; [lia| |done|by f_equal| |].
  - intros (q & Eq & Hq)%list_elem_of_fmap. rewrite Forall_forall in Hid, Hl.
    destruct (Hid q Hq) as [Hin|]; [|lia].
    assert (identity q < m) by (apply list_elem_of_fmap in Hin as (q0 & -> & ?); auto).
    destruct Hn1 as [_ [?|[? _]]]; [|lia]. apply Hp. congruence.
  - set_solver by lia.
  - eapply Forall_impl; [exact Hid|]. simpl. intros q [?|?]; [set_solver|right; lia].
Qed.

Lemma remap_ok prev next l n l' n' : map_m (remap prev next) l n = (l', n') →
  queue_ok n (queue_of l) → queue_ok n' (queue_of l').
Proof.
  rewrite !queue_ok_of. intros E (Hk & Hi & Ha).
  destruct (remap_objects prev next l n l' n' n E) as (Hle & Hi' & Hk' & Hid); [lia|done..|].
  split_and!; [by rewrite Hk'|done|]. eapply Forall_impl; [exact Hid|]. simpl.
  intros q [(q0 & -> & Hq0)%list_elem_of_fmap|?]; [|lia].
  rewrite Forall_forall in Ha. specialize (Ha q0 Hq0). lia.
Qed.

Lemma step_refines op l n : queue_ok n (queue_of l) →
  queue_step op (queue_of l) n = (let '(k, n') := spec_step op l n in (queue_of k, n'))
  ∧ queue_ok (spec_step op l n).2 (queue_of (spec_step op l n).1).
Proof.
  intros Hok. destruct op as [x| |[p|]|sid|prev next]; cbn [queue_step spec_step].
  - cbn. rewrite enqueue_refines. split; [done|]. by apply spec_enqueue_ok.
  - split; [by destruct l as [|? []]|]. eapply queue_ok_sub; [|exact Hok].
    destruct l; [constructor|by constructor].
  - unfold fret. rewrite (remove_refines n) by done. split; [done|].
    eapply queue_ok_sub; [apply filter_sublist|exact Hok].
  - done.
  - unfold fret. rewrite drop_refines. split; [done|].
    eapply queue_ok_sub; [apply filter_sublist|exact Hok].
  - rewrite remap_refines. destruct (map_m _ l n) as [k n'] eqn:E. split; [done|]. by eapply remap_ok.
Qed.

Lemma run_refines ops l n : queue_ok n (queue_of l) →
  run queue_step ops (queue_of l) n = (let '(k, n') := run spec_step ops l n in (queue_of k, n'))
  ∧ queue_ok (run spec_step ops l n).2 (queue_of (run spec_step ops l n).1).
Proof.
  revert l n. induction ops as [|op ops IH]; intros l n Hok; cbn [run]; [done|].
  destruct (step_refines op l n Hok) as [E Hok']. unfold fbind. rewrite E.
  destruct (spec_step op l n) as [k n1]. by apply IH.
Qed.

Definition empty_queue : HostKeyPromptQueueState :=
  {| pendingHostKeyPrompt := None; queuedHostKeyPrompts := [] |}.

(** C31: after any sequence of operations on an empty queue the shown question
    and the waiting ones are together exactly the list a plain first-in
    first-out list of questions would hold under the same operations; the
    question shown is that list's head (so one is shown whenever any waits),
    no question is asked twice, and no two prompts are the same object. *)
Theorem host_key_queue_refines ops s n : run queue_step ops empty_queue 0 = (s, n) →
  run spec_step ops [] 0 = (listHostKeyPrompts s, n)
  ∧ pendingHostKeyPrompt s = head (listHostKeyPrompts s)
  ∧ NoDup (prompt_key <$> listHostKeyPrompts s)
  ∧ NoDup (identity <$> listHostKeyPrompts s).
Proof.
  intros Hrun. change empty_queue with (queue_of []) in Hrun.
  destruct (run_refines ops [] 0) as [E Hok]; [by repeat constructor|]. rewrite Hrun in E.
  destruct (run spec_step ops [] 0) as [l n']. injection E as -> ->. rewrite list_queue_of.
  apply queue_ok_of in Hok as (? & ? & _). by destruct l.
Qed.

(** ** Every question can be answered *)

(** What the screens offer for an answer: each tab its own question, and the
    global dialog the first that no tab owns. *)
Definition offered s (hasTabFor : jsstring → bool) p : Prop :=
  findUnownedHostKeyPrompt s hasTabFor = Some p
  ∨ ∃ id, hasTabFor id = true ∧ findHostKeyPromptForSession s (Some id) = Some p.

Lemma find_is_Some {A} (P : A → bool) (xs : list A) x : x ∈ xs → P x = true →
  ∃ y, List.find P xs = Some y ∧ P y = true ∧ y ∈ xs.
Proof.
  intros Hx HP. destruct (List.find P xs) as [y|] eqn:E.
  - apply find_Some_1 in E as [? ?]. eauto.
  - rewrite (find_None_1 P xs x E Hx) in HP. done.
Qed.

(** Whatever waits, and whichever tabs are open, some screen offers an
    unanswered question; a question is offered in its own tab only if it is
    that session's, in the global dialog only if no open tab could show it; and
    answering an offered question takes exactly that one off the list, the
    others keeping their order. *)
Theorem host_key_prompts_answerable n s hasTabFor : queue_ok n s →
  (listHostKeyPrompts s ≠ [] → ∃ p, offered s hasTabFor p)
  ∧ (∀ id p, findHostKeyPromptForSession s id = Some p → prompt_session p = id)
  ∧ (∀ p id, findUnownedHostKeyPrompt s hasTabFor = Some p → prompt_session p = Some id →
       id ≠ [] → hasTabFor id = false)
  ∧ ∀ p, offered s hasTabFor p → ∃ l k,
      listHostKeyPrompts s = l ++ p :: k
      ∧ listHostKeyPrompts (removeHostKeyPrompt s (Some p)) = l ++ k.
Proof.
  intros Hok. split_and!.
  - destruct (listHostKeyPrompts s) as [|p l] eqn:El; [done|]. intros _.
    assert (Hp : p ∈ listHostKeyPrompts s) by (rewrite El; by left).
    destruct (unowned hasTabFor p) eqn:Hu.
    + destruct (find_is_Some _ _ p Hp Hu) as (q & Hq & _). exists q. by left.
    + unfold unowned in Hu. destruct (opt_truthy (prompt_session p)) as [id|] eqn:Eid; [|done].
      apply negb_false_iff in Hu. apply opt_truthy_Some in Eid as [Eid Hne].
      destruct (find_is_Some (λ q, bool_decide (prompt_session q = Some id)) _ p Hp) as (q & Hq & _);
        [by apply bool_decide_eq_true|].
      exists q. right. exists id. split; [done|]. unfold findHostKeyPromptForSession.
      by destruct id.
  - intros id p. unfold findHostKeyPromptForSession. destruct (opt_truthy id) as [i|] eqn:E; [|done].
    apply opt_truthy_Some in E as [-> _]. intros [_ H%bool_decide_eq_true]%find_Some_1. done.
  - intros p id [_ Hu]%find_Some_1 Hp Hne. unfold unowned in Hu. rewrite Hp in Hu.
    destruct id; [done|]. simpl in Hu. by apply negb_true_iff.
  - intros p Hoff. assert (Hp : p ∈ listHostKeyPrompts s).
    { destruct Hoff as [[? _]%find_Some_1|(id & _ & H)]; [done|].
      unfold findHostKeyPromptForSession in H. destruct (opt_truthy _); [|done].
      by apply find_Some_1 in H as [? _]. }
    rewrite (queue_of_list n s Hok) in Hok |- *. rewrite (remove_refines n) by done.
    rewrite !list_queue_of. apply list_elem_of_split in Hp as (l & k & E). exists l, k. split; [done|].
    apply queue_ok_of in Hok as (_ & Hi & _). rewrite E in Hi |- *.
    rewrite fmap_app, fmap_cons in Hi.
    assert (Hni : identity p ∉ identity <$> (l ++ k)).
    { rewrite fmap_app. rewrite <- Permutation_middle in Hi. by apply NoDup_cons in Hi as [? _]. }
    unfold spec_remove. rewrite List.filter_app. cbn [List.filter].
    rewrite (bool_decide_true (identity p = identity p)) by done. cbn [negb].
    rewrite <- List.filter_app. apply filter_all. intros q Hq.
    apply negb_true_iff, bool_decide_eq_false. intros Eq. apply Hni, list_elem_of_fmap. eauto.
Qed.
End queue.

(** ** Concrete inputs *)

Definition demo_prompt (session : option jsstring) (challenge : string) : @PendingHostKeyPrompt unit :=
  {| prompt_sessionId := session;
     prompt_probe := {| probe_hostId := js "h"; probe_hostLabel := js "web"; probe_host := js "10.0.0.1";
       probe_port := 22%Z; probe_targetDescription := None; probe_algorithm := js "ssh-ed25519";
       probe_publicKeyBase64 := js "AAAA"; probe_fingerprintSha256 := js "SHA256:x";
       probe_status := untrusted; probe_existing := None |};
     prompt_liveChallengeId := Some (js challenge); prompt_action := tt |}.

(** Three questions, one of them twice; a session is reconnected, another is closed. *)
Definition demo_ops : list queue_op :=
  [ op_enqueue (demo_prompt (Some (js "s1")) "c1"); op_enqueue (demo_prompt (Some (js "s2")) "c2");
    op_enqueue (demo_prompt None "c3"); op_enqueue (demo_prompt (Some (js "s2")) "c2");
    op_remap (js "s1") (js "s9"); op_drop (js "s2") ].
Definition demo_queue : HostKeyPromptQueueState * nat := run queue_step demo_ops empty_queue 0.

Lemma host_key_queue_refines_witness :
  (prompt_session <$> listHostKeyPrompts demo_queue.1 = [Some (js "s9"); None])
  ∧ pendingHostKeyPrompt demo_queue.1 = head (listHostKeyPrompts demo_queue.1).
Proof.
  split; [vm_compute; exact eq_refl|].
  exact (proj1 (proj2 (host_key_queue_refines demo_ops demo_queue.1 demo_queue.2 (surjective_pairing _)))).
Defined.

Lemma demo_queue_ok : queue_ok demo_queue.2 demo_queue.1.
Proof.
  destruct (run_refines demo_ops [] 0) as [E Hok]; [by repeat constructor|].
  unfold demo_queue, empty_queue. change {| pendingHostKeyPrompt := None; queuedHostKeyPrompts := [] |}
    with (queue_of (Action:=unit) []). rewrite E. by destruct (run spec_step demo_ops [] 0).
Qed.

Lemma host_key_prompts_answerable_witness :
  ∃ p, offered demo_queue.1 (λ _, true) p.
Proof.
  apply (proj1 (host_key_prompts_answerable _ _ (λ _, true) demo_queue_ok)).
  vm_compute. discriminate.
Defined.
