(* ===== verification/InteractiveAuth.v ===== *)
(** * Pending interactive authentications
      (apps/desktop/src/renderer/store/utils/interactive-auth.ts)

    The questions (one-time codes, passwords) the core asks while connecting.
    Each belongs to a target, its scope, and a new question of a scope replaces
    the old one. *)

From S2P Require Import Prelude Collections.

Record KeyboardInteractivePrompt := { kip_label : jsstring; kip_echo : bool;
  kip_allowStoredPassword : option bool; kip_masked : option bool }.
Record KeyboardInteractiveHop := {
  hop_username : option jsstring; hop_host : option jsstring; hop_port : option Z }.
Inductive AuthProvider := generic | warpgate.
Inductive SftpPaneId := pane_left | pane_right.

(** The [source] of a question, with the fields only that source has. *)
Inductive AuthSource :=
| auth_ssh (sessionId : jsstring)
| auth_keyInstall (sessionId hostId : jsstring)
| auth_sftp (endpointId : jsstring) (paneId : SftpPaneId) (hostId : jsstring)
| auth_containers (endpointId hostId : jsstring)
| auth_portForward (endpointId ruleId hostId : jsstring)
| auth_vncTunnel (endpointId sessionId hostId : jsstring).

Record PendingInteractiveAuth := {
  auth_source : AuthSource;
  auth_challengeId : jsstring;
  auth_name : option jsstring;
  auth_instruction : jsstring;
  auth_prompts : list KeyboardInteractivePrompt;
  auth_provider : AuthProvider;
  auth_approvalUrl : option jsstring;
  auth_authCode : option jsstring;
  auth_autoSubmitted : bool;
  auth_hasStoredPassword : option bool;
  auth_hop : option KeyboardInteractiveHop;
  auth_deliveryError : option jsstring;
}.

(** ["endpointId" in auth], and [auth.sessionId] where there is one. *)
Definition auth_endpointId (auth : PendingInteractiveAuth) : option jsstring :=
  match auth_source auth with
  | auth_sftp e _ _ | auth_containers e _ | auth_portForward e _ _ | auth_vncTunnel e _ _ => Some e
  | auth_ssh _ | auth_keyInstall _ _ => None
  end.
Definition auth_sessionId (auth : PendingInteractiveAuth) : option jsstring :=
  match auth_source auth with
  | auth_ssh s | auth_keyInstall s _ | auth_vncTunnel _ s _ => Some s
  | _ => None
  end.

(** [isPendingSessionInteractiveAuth]: the session of a question of source ssh. *)
Definition isPendingSessionInteractiveAuth (auth : PendingInteractiveAuth) : option jsstring :=
  match auth_source auth with auth_ssh s => Some s | _ => None end.

Definition normalizeInteractiveText (value : option jsstring) : jsstring := js_trim (default [] value).

Definition interactiveAuthScope (auth : PendingInteractiveAuth) : jsstring :=
  match auth_endpointId auth with
  | Some e => js "endpoint:" ++ e
  | None => js "session:" ++ default (js "undefined") (auth_sessionId auth)
  end.

Definition upsertPendingInteractiveAuth (auths : list PendingInteractiveAuth) (auth : PendingInteractiveAuth)
    : list PendingInteractiveAuth :=
  let scope := interactiveAuthScope auth in
  List.filter (λ item, negb (bool_decide (interactiveAuthScope item = scope))) auths ++ [auth].

Definition ssh_of (sessionId : jsstring) (auth : PendingInteractiveAuth) : bool :=
  bool_decide (isPendingSessionInteractiveAuth auth = Some sessionId).
Definition endpoint_of (endpointId : jsstring) (auth : PendingInteractiveAuth) : bool :=
  bool_decide (auth_endpointId auth = Some endpointId).

Definition clearSessionPendingInteractiveAuth (auths : list PendingInteractiveAuth) (sessionId : jsstring)
    : list PendingInteractiveAuth :=
  List.filter (λ auth, negb (ssh_of sessionId auth)) auths.

Definition clearEndpointPendingInteractiveAuth (auths : list PendingInteractiveAuth) (endpointId : jsstring)
    : list PendingInteractiveAuth :=
  List.filter (λ auth, negb (endpoint_of endpointId auth)) auths.

Definition findSessionPendingInteractiveAuth (auths : list PendingInteractiveAuth) (sessionId : option jsstring)
    : option PendingInteractiveAuth :=
  match opt_truthy sessionId with
  | None => None
  | Some id => List.find (ssh_of id) auths
  end.

Definition findEndpointPendingInteractiveAuth (auths : list PendingInteractiveAuth) (endpointId : option jsstring)
    : option PendingInteractiveAuth :=
  match opt_truthy endpointId with
  | None => None
  | Some id => List.find (endpoint_of id) auths
  end.

Definition findPendingInteractiveAuthByChallengeId (auths : list PendingInteractiveAuth) (challengeId : jsstring)
    : option PendingInteractiveAuth :=
  List.find (λ auth, bool_decide (auth_challengeId auth = challengeId)) auths.

(** A reconnect gives the session of a question a new id. *)
Definition with_auth_session (nextSessionId : jsstring) (auth : PendingInteractiveAuth) : PendingInteractiveAuth :=
  {| auth_source := auth_ssh nextSessionId; auth_challengeId := auth_challengeId auth;
     auth_name := auth_name auth; auth_instruction := auth_instruction auth;
     auth_prompts := auth_prompts auth; auth_provider := auth_provider auth;
     auth_approvalUrl := auth_approvalUrl auth; auth_authCode := auth_authCode auth;
     auth_autoSubmitted := auth_autoSubmitted auth; auth_hasStoredPassword := auth_hasStoredPassword auth;
     auth_hop := auth_hop auth; auth_deliveryError := auth_deliveryError auth |}.
Definition remap_auth (previousSessionId nextSessionId : jsstring) (auth : PendingInteractiveAuth)
    : PendingInteractiveAuth :=
  if ssh_of previousSessionId auth then with_auth_session nextSessionId auth else auth.

(** Which browser page a challenge opens, to open it once. *)
Definition buildInteractiveBrowserChallengeKey (sessionId endpointId : option jsstring)
    (challengeId : jsstring) (approvalUrl : option jsstring) : jsstring :=
  let scopeId := normalizeInteractiveText (match sessionId with Some s => Some s | None => endpointId end) in
  let approvalUrl := normalizeInteractiveText approvalUrl in
  if truthy scopeId && truthy approvalUrl then scopeId ++ js "::" ++ approvalUrl
  else if truthy scopeId then scopeId ++ js "::" ++ challengeId
  else if truthy approvalUrl then approvalUrl
  else challengeId.

(** ** At most one question per target *)

Definition one_per_scope (auths : list PendingInteractiveAuth) : Prop :=
  NoDup (interactiveAuthScope <$> auths).

Lemma one_per_scope_filter P auths : one_per_scope auths → one_per_scope (List.filter P auths).
Proof. unfold one_per_scope. auto with dolgate. Qed.

Lemma upsert_one_per_scope auths auth :
  one_per_scope auths → one_per_scope (upsertPendingInteractiveAuth auths auth).
Proof.
  unfold upsertPendingInteractiveAuth. intros Hone. unfold one_per_scope. rewrite fmap_app.
  apply NoDup_app. split; [by apply one_per_scope_filter|]. split; [|apply NoDup_singleton].
  intros x (a & -> & [_ Ha]%filter_In_elem)%list_elem_of_fmap Hs.
  apply list_elem_of_singleton in Hs. apply negb_true_iff, bool_decide_eq_false in Ha. done.
Qed.

Lemma scope_endpoint auth e : auth_endpointId auth = Some e → interactiveAuthScope auth = js "endpoint:" ++ e.
Proof. unfold interactiveAuthScope. by intros ->. Qed.

(** Within the questions of one scope each, two of the same scope are one. *)
Lemma one_per_scope_inj auths a b : one_per_scope auths → a ∈ auths → b ∈ auths →
  interactiveAuthScope a = interactiveAuthScope b → a = b.
Proof. unfold one_per_scope. apply NoDup_fmap_inj. Qed.

Lemma find_unique {A} (P : A → bool) l x : x ∈ l → P x = true →
  (∀ y, y ∈ l → P y = true → y = x) → List.find P l = Some x.
Proof.
  intros Hx HP Hu. destruct (List.find P l) as [y|] eqn:E.
  - apply find_Some_1 in E as [Hy HPy]. f_equal. by apply Hu.
  - rewrite (find_None_1 P l x E Hx) in HP. done.
Qed.

(** What a sequence of events leaves waiting. *)
Inductive auth_event :=
| ev_challenge (auth : PendingInteractiveAuth)
| ev_clear_session (sessionId : jsstring)
| ev_clear_endpoint (endpointId : jsstring).

Definition auth_step (auths : list PendingInteractiveAuth) (e : auth_event) : list PendingInteractiveAuth :=
  match e with
  | ev_challenge auth => upsertPendingInteractiveAuth auths auth
  | ev_clear_session s => clearSessionPendingInteractiveAuth auths s
  | ev_clear_endpoint e => clearEndpointPendingInteractiveAuth auths e
  end.

Lemma auth_step_one_per_scope auths e : one_per_scope auths → one_per_scope (auth_step auths e).
Proof. destruct e; simpl; [apply upsert_one_per_scope|apply one_per_scope_filter..]. Qed.

(** After any events at most one question waits per target, so the card a
    screen draws is the last question its target asked; a new question leaves
    those of other targets alone, in order, and clearing a session or an
    endpoint takes down exactly its own. *)
Theorem pending_interactive_auths events auth :
  let auths := foldl auth_step [] events in
  one_per_scope auths
  ∧ (∀ s, isPendingSessionInteractiveAuth auth = Some s → s ≠ [] →
       findSessionPendingInteractiveAuth (upsertPendingInteractiveAuth auths auth) (Some s) = Some auth)
  ∧ (∀ e, auth_endpointId auth = Some e → e ≠ [] →
       findEndpointPendingInteractiveAuth (upsertPendingInteractiveAuth auths auth) (Some e) = Some auth)
  ∧ (∀ a, a ∈ upsertPendingInteractiveAuth auths auth ↔
       a = auth ∨ a ∈ auths ∧ interactiveAuthScope a ≠ interactiveAuthScope auth)
  ∧ (∀ s a, a ∈ clearSessionPendingInteractiveAuth auths s ↔
       a ∈ auths ∧ isPendingSessionInteractiveAuth a ≠ Some s)
  ∧ (∀ e a, a ∈ clearEndpointPendingInteractiveAuth auths e ↔ a ∈ auths ∧ auth_endpointId a ≠ Some e).
Proof.
  intros auths. assert (Hone : one_per_scope auths).
  { subst auths. generalize (NoDup_nil_2 (A:=jsstring)).
    change (NoDup []) with (one_per_scope []). generalize (@nil PendingInteractiveAuth).
    induction events as [|e es IH]; intros l Hl; [done|]. by apply IH, auth_step_one_per_scope. }
  assert (Hup := upsert_one_per_scope auths auth Hone).
  assert (Hin : auth ∈ upsertPendingInteractiveAuth auths auth)
    by (unfold upsertPendingInteractiveAuth; set_solver).
  split_and!; [done|..].
  - intros s Hs Hne. unfold findSessionPendingInteractiveAuth. destruct s as [|c s]; [done|]. simpl.
    apply find_unique; [done|by apply bool_decide_eq_true|]. intros y Hy Hys%bool_decide_eq_true.
    eapply one_per_scope_inj; [exact Hup|done|done|].
    unfold isPendingSessionInteractiveAuth in *. unfold interactiveAuthScope, auth_endpointId, auth_sessionId.
    destruct (auth_source y), (auth_source auth); simplify_eq/=. done.
  - intros e He Hne. unfold findEndpointPendingInteractiveAuth. destruct e as [|c e]; [done|]. simpl.
    apply find_unique; [done|by apply bool_decide_eq_true|]. intros y Hy Hye%bool_decide_eq_true.
    eapply one_per_scope_inj; [exact Hup|done|done|]. by erewrite !scope_endpoint.
  - intros a. unfold upsertPendingInteractiveAuth.
    rewrite elem_of_app, filter_In_elem, negb_true_iff, bool_decide_eq_false. set_solver.
  - intros s a. unfold clearSessionPendingInteractiveAuth, ssh_of.
    by rewrite filter_In_elem, negb_true_iff, bool_decide_eq_false.
  - intros e a. unfold clearEndpointPendingInteractiveAuth, endpoint_of.
    by rewrite filter_In_elem, negb_true_iff, bool_decide_eq_false.
Qed.

Definition demo_auth (source : AuthSource) (challenge : string) : PendingInteractiveAuth :=
  {| auth_source := source; auth_challengeId := js challenge; auth_name := None;
     auth_instruction := js "Verification code:"; auth_prompts := []; auth_provider := generic;
     auth_approvalUrl := None; auth_authCode := None; auth_autoSubmitted := false;
     auth_hasStoredPassword := None; auth_hop := None; auth_deliveryError := None |}.

(** A session asks twice while a tunnel waits: the second question is the one shown. *)
Lemma pending_interactive_auths_witness :
  findSessionPendingInteractiveAuth
    (upsertPendingInteractiveAuth
       (foldl auth_step [] [ ev_challenge (demo_auth (auth_ssh (js "s1")) "c1");
                             ev_challenge (demo_auth (auth_portForward (js "e1") (js "r") (js "h")) "c2") ])
       (demo_auth (auth_ssh (js "s1")) "c3")) (Some (js "s1"))
  = Some (demo_auth (auth_ssh (js "s1")) "c3").
Proof.
  refine (proj1 (proj2 (pending_interactive_auths _ (demo_auth (auth_ssh (js "s1")) "c3"))) (js "s1") eq_refl _).
  vm_compute. discriminate.
Defined.
