(* ===== verification/WorkspaceState.v ===== *)
(** * The tab shell: sessions, tabs and workspaces of the window
      (apps/desktop/src/renderer/store/utils/workspaces.ts, store/slices/sessionSlice.ts,
       lib/workspace-split-target.ts, store/utils/session-share.ts)

    The state a window keeps about its sessions, and the reducers that open,
    close, reconnect, split, move, detach and focus them.  A reducer returns the
    state after [{ ...state, ...partial }].  [D] is the type of what the reducers
    carry along and never read (a tab's progress, a group's details, ...). *)

From S2P Require Import Prelude Collections JsNumber Models SavedWorkspace WorkspaceLayout.
From S2P Require Import HostKeyPrompts InteractiveAuth.

(** ** Tab identifiers

    The template-literal types [session:...], [workspace:...], [tmuxgrp:...] and
    the three fixed tabs; [startsWith] followed by [slice] is a match on it. *)
Inductive WorkspaceTabId :=
| tab_home | tab_sftp | tab_containers
| asSessionTabId (sessionId : jsstring)
| asWorkspaceTabId (workspaceId : jsstring)
| asTmuxSessionGroupTabId (tmuxGroupId : jsstring).
#[export] Instance WorkspaceTabId_eq_dec : EqDecision WorkspaceTabId.
Proof. solve_decision. Defined.

Definition tab_string (t : WorkspaceTabId) : jsstring :=
  match t with
  | tab_home => js "home" | tab_sftp => js "sftp" | tab_containers => js "containers"
  | asSessionTabId s => js "session:" ++ s
  | asWorkspaceTabId w => js "workspace:" ++ w
  | asTmuxSessionGroupTabId g => js "tmuxgrp:" ++ g
  end.

Definition is_dynamic (t : WorkspaceTabId) : bool :=
  match t with
  | asSessionTabId _ | asWorkspaceTabId _ | asTmuxSessionGroupTabId _ => true
  | _ => false
  end.

(** The strings are compared and dispatched on by the source, and they tell the
    same story as the constructors. *)
Lemma tab_string_inj t u : tab_string t = tab_string u → t = u.
Proof.
  destruct t, u; cbn [tab_string]; unfold js; simpl; intros E;
    try discriminate E; try (injection E as E; subst); done.
Qed.
Lemma tab_string_dynamic t :
  is_dynamic t = startsWith (tab_string t) (js "session:")
    || startsWith (tab_string t) (js "workspace:") || startsWith (tab_string t) (js "tmuxgrp:").
Proof.
  assert (Hp : ∀ p s, startsWith (p ++ s) p = true)
    by (intros p s; apply startsWith_spec; by exists s).
  destruct t; cbn [is_dynamic tab_string]; rewrite ?Hp, ?orb_true_r; done.
Qed.

Inductive HomeSection := hs_hosts | hs_portForwarding | hs_snippets | hs_logs | hs_settings.
Inductive SettingsSection :=
| ss_general | ss_sftp | ss_security | ss_secrets | ss_aws_profiles | ss_tailnet | ss_ai | ss_account.
#[export] Instance HomeSection_eq_dec : EqDecision HomeSection.
Proof. solve_decision. Defined.

Inductive DynamicTabStripItem :=
| item_session (sessionId : jsstring)
| item_workspace (workspaceId : jsstring)
| item_tmux (tmuxGroupId : jsstring).
#[export] Instance DynamicTabStripItem_eq_dec : EqDecision DynamicTabStripItem.
Proof. solve_decision. Defined.

Record WorkspaceTmux := {
  wtm_controlSessionId : jsstring; wtm_windowId : jsstring;
  wtm_index : option Z; wtm_name : option jsstring }.

Record WorkspaceTab := {
  wt_id : jsstring;
  wt_title : jsstring;
  wt_layout : WorkspaceLayoutNode;
  wt_activeSessionId : jsstring;
  wt_broadcastEnabled : bool;
  wt_broadcastExcludedSessionIds : option (list jsstring);
  wt_zoomedSessionId : option jsstring;
  wt_tmux : option WorkspaceTmux;
}.

Inductive TerminalSessionSource := src_host | src_local.
#[export] Instance TerminalSessionSource_eq_dec : EqDecision TerminalSessionSource.
Proof. solve_decision. Defined.

Record SessionReturnTarget := {
  rt_activeWorkspaceTab : WorkspaceTabId;
  rt_homeSection : option HomeSection;
  rt_settingsSection : option SettingsSection;
  rt_activeContainerHostId : option (option jsstring);  (* absent, [null] or an id *)
}.

Record SessionShareChatMessage := {
  chat_id : jsstring; chat_nickname : jsstring; chat_senderRole : jsstring;
  chat_text : jsstring; chat_sentAt : jsstring }.

Definition dynamicTabMatches (l r : DynamicTabStripItem) : bool :=
  match l, r with
  | item_session a, item_session b => bool_decide (a = b)
  | item_workspace a, item_workspace b => bool_decide (a = b)
  | item_tmux a, item_tmux b => bool_decide (a = b)
  | _, _ => false
  end.

Definition is_session (sessionId : jsstring) (item : DynamicTabStripItem) : bool :=
  match item with item_session s => bool_decide (s = sessionId) | _ => false end.
Definition is_workspace (workspaceId : jsstring) (item : DynamicTabStripItem) : bool :=
  match item with item_workspace w => bool_decide (w = workspaceId) | _ => false end.

(** The tab an item of the strip stands for. *)
Definition item_tab (item : DynamicTabStripItem) : WorkspaceTabId :=
  match item with
  | item_session s => asSessionTabId s
  | item_workspace w => asWorkspaceTabId w
  | item_tmux g => asTmuxSessionGroupTabId g
  end.

Definition resolveNextVisibleTab (tabStrip : list DynamicTabStripItem) (removedIndex : nat) : WorkspaceTabId :=
  let nextItem := match tabStrip !! removedIndex with
                  | Some item => Some item
                  | None => match removedIndex with O => None | S i => tabStrip !! i end
                  end in
  match nextItem with Some item => item_tab item | None => tab_home end.

(** ** Titles *)

Definition suffixed (label : jsstring) (suffix : N) : jsstring :=
  label ++ js " (" ++ show_N suffix ++ js ")".

(** [while (existingTitles.has(...)) suffix += 1] *)
Fixpoint free_suffix (fuel : nat) (existingTitles : list jsstring) (label : jsstring) (suffix : N) : N :=
  match fuel with
  | O => suffix
  | S fuel' => if shas (suffixed label suffix) existingTitles
               then free_suffix fuel' existingTitles label (suffix + 1)%N else suffix
  end.

Definition title_among (existingTitles : list jsstring) (label : jsstring) : jsstring :=
  if shas label existingTitles
  then suffixed label (free_suffix (S (length existingTitles)) existingTitles label 1)
  else label.

Definition buildWorkspaceTitle (workspaces : list WorkspaceTab) : jsstring :=
  title_among (sof (wt_title <$> workspaces)) (js "Workspace").

Section state.
Context {D : Type}.

Record TerminalTab := {
  tab_id : jsstring;
  tab_stableId : jsstring;
  tab_sessionId : jsstring;
  tab_source : TerminalSessionSource;
  tab_hostId : option jsstring;
  tab_title : jsstring;
  tab_paneKind : option PaneKind;
  tab_tmux : bool;             (* [Boolean(tab.tmux)] *)
  tab_details : D;
}.

Record TmuxSessionGroup := {
  tg_id : jsstring; tg_controlSessionId : jsstring; tg_sessionName : jsstring;
  tg_activeWorkspaceId : jsstring; tg_details : D }.

Record PendingCredentialRetry := { retry_sessionId : option jsstring; retry_details : D }.
Record PendingConnectionAttempt := { attempt_sessionId : jsstring; attempt_hostId : option jsstring; attempt_details : D }.

Record Shell := {
  tabs : list TerminalTab;
  tabStrip : list DynamicTabStripItem;
  workspaces : list WorkspaceTab;
  tmuxGroups : list TmuxSessionGroup;
  containerTabs : list jsstring;             (* their [hostId]s *)
  activeWorkspaceTab : WorkspaceTabId;
  homeSection : HomeSection;
  settingsSection : SettingsSection;
  activeContainerHostId : option jsstring;
}.

Record AppState := {
  shell : Shell;
  hostKeyPrompts : HostKeyPromptQueueState (Action:=D);
  pendingCredentialRetry : option PendingCredentialRetry;
  activeCredentialRetryAttempt : option PendingCredentialRetry;
  pendingInteractiveAuths : list PendingInteractiveAuth;
  pendingConnectionAttempts : list PendingConnectionAttempt;
  sessionReturnTargets : gmap jsstring SessionReturnTarget;
  resolvedStartupCommandsBySessionId : gmap jsstring jsstring;
  sessionContainerTunnels : gmap jsstring (list D);
  sessionShareChatNotifications : gmap jsstring (list SessionShareChatMessage);
  rttHistory : gmap jsstring (list D);       (* lib/rtt-history.ts, by [stableId] *)
  sessionScopedState : gmap jsstring (gmap jsstring D);   (* lib/session-scoped-state.ts *)
}.
Implicit Types (sh : Shell) (st : AppState).

(** The tabs whose titles must differ: of the same host, or local. *)
Definition in_scope (scope : option jsstring) (tab : TerminalTab) : bool :=
  match scope with
  | None => bool_decide (tab_source tab = src_local)
  | Some hostId => bool_decide (tab_source tab = src_host) && bool_decide (tab_hostId tab = Some hostId)
  end.

Definition buildSessionTitle (label : jsstring) (scope : option jsstring) (ts : list TerminalTab) : jsstring :=
  title_among (sof (tab_title <$> List.filter (in_scope scope) ts)) label.

(** [{ ...state, tabStrip, workspaces, activeWorkspaceTab }] *)
Definition show sh strip wss active : Shell :=
  {| tabs := tabs sh; tabStrip := strip; workspaces := wss; tmuxGroups := tmuxGroups sh;
     containerTabs := containerTabs sh; activeWorkspaceTab := active; homeSection := homeSection sh;
     settingsSection := settingsSection sh; activeContainerHostId := activeContainerHostId sh |}.

Definition with_shell st sh : AppState :=
  {| shell := sh; hostKeyPrompts := hostKeyPrompts st;
     pendingCredentialRetry := pendingCredentialRetry st;
     activeCredentialRetryAttempt := activeCredentialRetryAttempt st;
     pendingInteractiveAuths := pendingInteractiveAuths st;
     pendingConnectionAttempts := pendingConnectionAttempts st;
     sessionReturnTargets := sessionReturnTargets st;
     resolvedStartupCommandsBySessionId := resolvedStartupCommandsBySessionId st;
     sessionContainerTunnels := sessionContainerTunnels st;
     sessionShareChatNotifications := sessionShareChatNotifications st;
     rttHistory := rttHistory st; sessionScopedState := sessionScopedState st |}.

(** ** Where a closed session returns to *)

Definition captureSessionReturnTarget sh : SessionReturnTarget :=
  match activeWorkspaceTab sh with
  | tab_home =>
      {| rt_activeWorkspaceTab := tab_home; rt_homeSection := Some (homeSection sh);
         rt_settingsSection := if decide (homeSection sh = hs_settings) then Some (settingsSection sh) else None;
         rt_activeContainerHostId := None |}
  | tab_containers =>
      {| rt_activeWorkspaceTab := tab_containers; rt_homeSection := None; rt_settingsSection := None;
         rt_activeContainerHostId := Some (activeContainerHostId sh) |}
  | t => {| rt_activeWorkspaceTab := t; rt_homeSection := None; rt_settingsSection := None;
            rt_activeContainerHostId := None |}
  end.

Definition return_to (t : WorkspaceTabId) : SessionReturnTarget :=
  {| rt_activeWorkspaceTab := t; rt_homeSection := None; rt_settingsSection := None;
     rt_activeContainerHostId := None |}.

Definition resolveSessionReturnTarget sh (target : SessionReturnTarget) : option SessionReturnTarget :=
  match rt_activeWorkspaceTab target with
  | tab_home =>
      let home := default hs_hosts (rt_homeSection target) in
      Some {| rt_activeWorkspaceTab := tab_home; rt_homeSection := Some home;
              rt_settingsSection := if decide (home = hs_settings)
                then Some (default (settingsSection sh) (rt_settingsSection target)) else None;
              rt_activeContainerHostId := None |}
  | tab_sftp => Some (return_to tab_sftp)
  | tab_containers =>
      if decide (containerTabs sh = []) then None else
      let has h := bool_decide (default [] h ∈ containerTabs sh) in
      let wanted := default None (rt_activeContainerHostId target) in
      let chosen := if has wanted then wanted
                    else if has (activeContainerHostId sh) then activeContainerHostId sh
                    else head (containerTabs sh) in
      match opt_truthy chosen with
      | None => None
      | Some h => Some {| rt_activeWorkspaceTab := tab_containers; rt_homeSection := None;
                          rt_settingsSection := None; rt_activeContainerHostId := Some (Some h) |}
      end
  | asSessionTabId s =>
      if existsb (is_session s) (tabStrip sh) then Some (return_to (asSessionTabId s)) else None
  | asWorkspaceTabId w =>
      if existsb (λ ws, bool_decide (wt_id ws = w)) (workspaces sh)
      then Some (return_to (asWorkspaceTabId w)) else None
  | asTmuxSessionGroupTabId g =>
      if existsb (λ gr, bool_decide (tg_id gr = g)) (tmuxGroups sh)
      then Some (return_to (asTmuxSessionGroupTabId g)) else None
  end.
End state.
