(* ===== verification/WorkspaceReducers.v ===== *)
(** * The reducers of the tab shell
      (store/utils/workspaces.ts, store/slices/sessionSlice.ts, store/services/session.ts,
       lib/workspace-split-target.ts)

    One definition per reducer.  New ids come from [crypto.randomUUID()] and new
    objects from the same counter. *)

From S2P Require Import Prelude Collections JsNumber Models SavedWorkspace WorkspaceLayout.
From S2P Require Import HostKeyPrompts InteractiveAuth WorkspaceState.

Section reducers.
Context {D : Type} `{UuidSupply}.
Implicit Types (sh : Shell (D:=D)) (st : AppState (D:=D)).

Definition owns (sessionId : jsstring) (workspace : WorkspaceTab) : bool :=
  bool_decide (sessionId ∈ listWorkspaceSessionIds (wt_layout workspace)).
Definition named (workspaceId : jsstring) (workspace : WorkspaceTab) : bool :=
  bool_decide (wt_id workspace = workspaceId).

(** [{ ...workspace, layout, activeSessionId }] *)
Definition with_layout (layout : WorkspaceLayoutNode) (active : jsstring) (w : WorkspaceTab) : WorkspaceTab :=
  {| wt_id := wt_id w; wt_title := wt_title w; wt_layout := layout; wt_activeSessionId := active;
     wt_broadcastEnabled := wt_broadcastEnabled w;
     wt_broadcastExcludedSessionIds := wt_broadcastExcludedSessionIds w;
     wt_zoomedSessionId := wt_zoomedSessionId w; wt_tmux := wt_tmux w |}.
Definition with_zoom (zoomed : option jsstring) (w : WorkspaceTab) : WorkspaceTab :=
  {| wt_id := wt_id w; wt_title := wt_title w; wt_layout := wt_layout w;
     wt_activeSessionId := wt_activeSessionId w; wt_broadcastEnabled := wt_broadcastEnabled w;
     wt_broadcastExcludedSessionIds := wt_broadcastExcludedSessionIds w;
     wt_zoomedSessionId := zoomed; wt_tmux := wt_tmux w |}.
Definition with_broadcast (enabled : bool) (excluded : list jsstring) (w : WorkspaceTab) : WorkspaceTab :=
  {| wt_id := wt_id w; wt_title := wt_title w; wt_layout := wt_layout w;
     wt_activeSessionId := wt_activeSessionId w; wt_broadcastEnabled := enabled;
     wt_broadcastExcludedSessionIds := Some excluded;
     wt_zoomedSessionId := wt_zoomedSessionId w; wt_tmux := wt_tmux w |}.

(** [workspaces.map((w) => w.id === id ? f(w) : w)] *)
Definition update_workspace (workspaceId : jsstring) (f : WorkspaceTab → WorkspaceTab)
    (l : list WorkspaceTab) : list WorkspaceTab :=
  (λ w, if named workspaceId w then f w else w) <$> l.

Definition without (P : DynamicTabStripItem → bool) (strip : list DynamicTabStripItem) :=
  List.filter (λ item, negb (P item)) strip.

(** [index >= 0 ? index : l.length] *)
Definition index_or_end {A} (index : option nat) (l : list A) : nat := default (length l) index.

(** ** Closing a session *)

(** The tab strip, workspaces and active tab after the panes are rearranged,
    before the return target is looked at. *)
Definition close_panes sh (sessionId : jsstring) : Shell :=
  let standaloneIndex := findIndex (is_session sessionId) (tabStrip sh) in
  let nextTabStrip := without (is_session sessionId) (tabStrip sh) in
  match List.find (owns sessionId) (workspaces sh) with
  | Some owning =>
      let w := wt_id owning in
      let workspaceIndex := findIndex (is_workspace w) (tabStrip sh) in
      let others := List.filter (λ workspace, negb (named w workspace)) (workspaces sh) in
      let strip := without (is_workspace w) (tabStrip sh) in
      match removeSessionFromWorkspaceLayout (wt_layout owning) sessionId with
      | None =>
          show sh strip others
            (if decide (activeWorkspaceTab sh = asWorkspaceTabId w)
             then resolveNextVisibleTab strip (index_or_end workspaceIndex strip)
             else activeWorkspaceTab sh)
      | Some (LLeaf leaf) =>
          show sh (insert_at (index_or_end workspaceIndex strip) (item_session (leaf_sessionId leaf)) strip)
            others
            (if decide (activeWorkspaceTab sh = asWorkspaceTabId w)
             then asSessionTabId (leaf_sessionId leaf) else activeWorkspaceTab sh)
      | Some reduced =>
          show sh nextTabStrip
            (update_workspace w (λ workspace,
               with_layout reduced
                 (if decide (wt_activeSessionId workspace = sessionId)
                  then findFirstWorkspaceSessionId reduced else wt_activeSessionId workspace) workspace)
               (workspaces sh))
            (activeWorkspaceTab sh)
      end
  | None =>
      show sh nextTabStrip (workspaces sh)
        (if decide (activeWorkspaceTab sh = asSessionTabId sessionId)
         then resolveNextVisibleTab nextTabStrip (index_or_end standaloneIndex nextTabStrip)
         else activeWorkspaceTab sh)
  end.

(** The screen a stored return target leads to, if it is still there. *)
Definition restore_target sh (stored : option SessionReturnTarget) : Shell :=
  match stored ≫= resolveSessionReturnTarget sh with
  | None => sh
  | Some target =>
      {| tabs := tabs sh; tabStrip := tabStrip sh; workspaces := workspaces sh;
         tmuxGroups := tmuxGroups sh; containerTabs := containerTabs sh;
         activeWorkspaceTab := rt_activeWorkspaceTab target;
         homeSection := default (homeSection sh) (rt_homeSection target);
         settingsSection := default (settingsSection sh) (rt_settingsSection target);
         activeContainerHostId := default (activeContainerHostId sh) (rt_activeContainerHostId target) |}
  end.

(** A tab of the strip is preferred to the fixed tabs while there is one. *)
Definition prefer_dynamic sh (standaloneIndex : option nat) : Shell :=
  if negb (is_dynamic (activeWorkspaceTab sh)) && negb (bool_decide (tabStrip sh = []))
  then show sh (tabStrip sh) (workspaces sh)
         (resolveNextVisibleTab (tabStrip sh) (index_or_end standaloneIndex (tabStrip sh)))
  else sh.

Definition close_tab sh (sessionId : jsstring) : Shell :=
  {| tabs := List.filter (λ tab, negb (bool_decide (tab_sessionId tab = sessionId))) (tabs sh);
     tabStrip := tabStrip sh; workspaces := workspaces sh; tmuxGroups := tmuxGroups sh;
     containerTabs := containerTabs sh; activeWorkspaceTab := activeWorkspaceTab sh;
     homeSection := homeSection sh; settingsSection := settingsSection sh;
     activeContainerHostId := activeContainerHostId sh |}.

Definition clearSessionShareChatNotifications (notifications : gmap jsstring (list SessionShareChatMessage))
    (sessionId : jsstring) : gmap jsstring (list SessionShareChatMessage) :=
  delete sessionId notifications.

Definition dropRetry (sessionId : jsstring) (retry : option (PendingCredentialRetry (D:=D))) :=
  if decide ((retry ≫= retry_sessionId) = Some sessionId) then None else retry.

Definition removeSessionFromState st (sessionId : jsstring) : AppState :=
  let sh := shell st in
  let closingStableId :=
    opt_truthy (tab_stableId <$> List.find (λ tab, bool_decide (tab_sessionId tab = sessionId)) (tabs sh)) in
  let standaloneIndex := findIndex (is_session sessionId) (tabStrip sh) in
  let storedReturnTarget :=
    if decide (activeWorkspaceTab sh = asSessionTabId sessionId)
    then sessionReturnTargets st !! sessionId else None in
  {| shell := prefer_dynamic
       (restore_target (close_panes (close_tab sh sessionId) sessionId) storedReturnTarget) standaloneIndex;
     hostKeyPrompts := dropHostKeyPromptsForSession (hostKeyPrompts st) sessionId;
     pendingCredentialRetry := dropRetry sessionId (pendingCredentialRetry st);
     activeCredentialRetryAttempt := dropRetry sessionId (activeCredentialRetryAttempt st);
     pendingInteractiveAuths := clearSessionPendingInteractiveAuth (pendingInteractiveAuths st) sessionId;
     pendingConnectionAttempts :=
       List.filter (λ attempt, negb (bool_decide (attempt_sessionId attempt = sessionId)))
         (pendingConnectionAttempts st);
     sessionReturnTargets := delete sessionId (sessionReturnTargets st);
     resolvedStartupCommandsBySessionId := delete sessionId (resolvedStartupCommandsBySessionId st);
     sessionContainerTunnels := delete sessionId (sessionContainerTunnels st);
     sessionShareChatNotifications :=
       clearSessionShareChatNotifications (sessionShareChatNotifications st) sessionId;
     rttHistory := match closingStableId with Some k => delete k (rttHistory st) | None => rttHistory st end;
     sessionScopedState := delete sessionId (sessionScopedState st) |}.

(** ** Reconnecting: a session takes a new id *)

Definition rename_id (prev next s : jsstring) : jsstring := if decide (s = prev) then next else s.

Definition with_session_id (next : jsstring) (tab : TerminalTab (D:=D)) : TerminalTab :=
  {| tab_id := next; tab_stableId := tab_stableId tab; tab_sessionId := next;
     tab_source := tab_source tab; tab_hostId := tab_hostId tab; tab_title := tab_title tab;
     tab_paneKind := tab_paneKind tab; tab_tmux := tab_tmux tab; tab_details := tab_details tab |}.

Definition move_key {V} (prev next : jsstring) (m : gmap jsstring V) : gmap jsstring V :=
  match m !! prev with Some v => <[next := v]> (delete prev m) | None => delete prev m end.

Definition renameRetry (prev next : jsstring) (retry : option (PendingCredentialRetry (D:=D))) :=
  (λ r, if decide (retry_sessionId r = Some prev)
        then {| retry_sessionId := Some next; retry_details := retry_details r |} else r) <$> retry.

Definition replace_in_shell sh (prev next : jsstring) (transformTab : TerminalTab → TerminalTab) : Shell :=
  {| tabs := (λ tab, if decide (tab_sessionId tab = prev) then transformTab (with_session_id next tab)
                     else tab) <$> tabs sh;
     tabStrip := (λ item, if is_session prev item then item_session next else item) <$> tabStrip sh;
     workspaces := (λ w, with_layout (replaceSessionIdInLayout (wt_layout w) prev next)
                           (rename_id prev next (wt_activeSessionId w)) w) <$> workspaces sh;
     tmuxGroups := tmuxGroups sh; containerTabs := containerTabs sh;
     activeWorkspaceTab := if decide (activeWorkspaceTab sh = asSessionTabId prev)
                           then asSessionTabId next else activeWorkspaceTab sh;
     homeSection := homeSection sh; settingsSection := settingsSection sh;
     activeContainerHostId := activeContainerHostId sh |}.

Definition replaceSessionReferencesInState st (prev next : jsstring)
    (transformTab : TerminalTab → TerminalTab) : fresh_m AppState :=
  let@ prompts := remapHostKeyPromptSessionId (hostKeyPrompts st) prev next in
  fret
  {| shell := replace_in_shell (shell st) prev next transformTab;
     hostKeyPrompts := prompts;
     pendingCredentialRetry := renameRetry prev next (pendingCredentialRetry st);
     activeCredentialRetryAttempt := renameRetry prev next (activeCredentialRetryAttempt st);
     pendingInteractiveAuths := remap_auth prev next <$> pendingInteractiveAuths st;
     pendingConnectionAttempts := pendingConnectionAttempts st;
     sessionReturnTargets := move_key prev next (sessionReturnTargets st);
     resolvedStartupCommandsBySessionId := move_key prev next (resolvedStartupCommandsBySessionId st);
     sessionContainerTunnels := sessionContainerTunnels st;
     sessionShareChatNotifications := sessionShareChatNotifications st;
     rttHistory := rttHistory st; sessionScopedState := sessionScopedState st |}.

(** ** Focusing *)

Definition activateSessionContextInState sh (sessionId : jsstring) : Shell :=
  match List.find (owns sessionId) (workspaces sh) with
  | None => show sh (tabStrip sh) (workspaces sh) (asSessionTabId sessionId)
  | Some owning =>
      show sh (tabStrip sh)
        (update_workspace (wt_id owning) (λ w, with_layout (wt_layout w) sessionId w) (workspaces sh))
        (asWorkspaceTabId (wt_id owning))
  end.

Definition findTmuxGroupForWorkspace (groups : list (TmuxSessionGroup (D:=D))) (workspace : option WorkspaceTab)
    : option TmuxSessionGroup :=
  match opt_truthy (wtm_controlSessionId <$> (workspace ≫= wt_tmux)) with
  | None => None
  | Some c => List.find (λ g, bool_decide (tg_controlSessionId g = c)) groups
  end.

Definition with_active_workspace (workspaceId : jsstring) (g : TmuxSessionGroup (D:=D)) : TmuxSessionGroup :=
  {| tg_id := tg_id g; tg_controlSessionId := tg_controlSessionId g; tg_sessionName := tg_sessionName g;
     tg_activeWorkspaceId := workspaceId; tg_details := tg_details g |}.

Definition with_groups sh (groups : list TmuxSessionGroup) : Shell :=
  {| tabs := tabs sh; tabStrip := tabStrip sh; workspaces := workspaces sh; tmuxGroups := groups;
     containerTabs := containerTabs sh; activeWorkspaceTab := activeWorkspaceTab sh;
     homeSection := homeSection sh; settingsSection := settingsSection sh;
     activeContainerHostId := activeContainerHostId sh |}.

Definition focusWorkspaceSession sh (workspaceId sessionId : jsstring) : Shell :=
  let workspace := List.find (named workspaceId) (workspaces sh) in
  let wss := update_workspace workspaceId (λ w, with_layout (wt_layout w) sessionId w) (workspaces sh) in
  match findTmuxGroupForWorkspace (tmuxGroups sh) workspace with
  | Some group =>
      with_groups (show sh (tabStrip sh) wss (asTmuxSessionGroupTabId (tg_id group)))
        ((λ g, if decide (tg_id g = tg_id group) then with_active_workspace workspaceId g else g)
           <$> tmuxGroups sh)
  | None => show sh (tabStrip sh) wss (asWorkspaceTabId workspaceId)
  end.

Definition toggleWorkspaceZoom sh (workspaceId sessionId : jsstring) : Shell :=
  show sh (tabStrip sh)
    (update_workspace workspaceId (λ w,
       if decide (wt_zoomedSessionId w = Some sessionId) then with_zoom None w
       else with_zoom (Some sessionId) (with_layout (wt_layout w) sessionId w)) (workspaces sh))
    (activeWorkspaceTab sh).

(** The panes of a workspace that take part in its broadcast. *)
Definition participating (excluded : list jsstring) (w : WorkspaceTab) : list jsstring :=
  List.filter (λ id, negb (bool_decide (id ∈ excluded))) (listWorkspaceSessionIds (wt_layout w)).

Definition toggle_broadcast (sessionId : jsstring) (w : WorkspaceTab) : WorkspaceTab :=
  if negb (wt_broadcastEnabled w) then with_broadcast true [] w
  else
    let excluded := default [] (wt_broadcastExcludedSessionIds w) in
    let nextExcluded := if decide (sessionId ∈ excluded)
                        then List.filter (λ id, negb (bool_decide (id = sessionId))) excluded
                        else excluded ++ [sessionId] in
    if length (participating nextExcluded w) <? 2 then with_broadcast false [] w
    else {| wt_id := wt_id w; wt_title := wt_title w; wt_layout := wt_layout w;
            wt_activeSessionId := wt_activeSessionId w; wt_broadcastEnabled := wt_broadcastEnabled w;
            wt_broadcastExcludedSessionIds := Some nextExcluded;
            wt_zoomedSessionId := wt_zoomedSessionId w; wt_tmux := wt_tmux w |}.

Definition toggleSessionBroadcast sh (workspaceId sessionId : jsstring) : Shell :=
  show sh (tabStrip sh) (update_workspace workspaceId (toggle_broadcast sessionId) (workspaces sh))
    (activeWorkspaceTab sh).

Definition resizeWorkspaceSplit sh (workspaceId splitId : jsstring) (ratio : number) : Shell :=
  show sh (tabStrip sh)
    (update_workspace workspaceId (λ w,
       with_layout (updateWorkspaceSplitRatio (wt_layout w) splitId ratio) (wt_activeSessionId w) w)
       (workspaces sh))
    (activeWorkspaceTab sh).

(** ** Splitting and moving panes *)

(** [[index + 1, index - 1]]: the first neighbour that can take a pane. *)
Definition takes_pane sh (candidate : option DynamicTabStripItem) : bool :=
  match candidate with
  | None | Some (item_tmux _) => false
  | Some (item_session _) => true
  | Some (item_workspace id) =>
      match List.find (named id) (workspaces sh) with
      | None => false
      | Some w => negb (bool_decide (is_Some (wt_tmux w)))
                  && (countWorkspaceSessions (wt_layout w) <? 4)
      end
  end.

Definition resolveAdjacentTarget sh (sessionId : jsstring) : option DynamicTabStripItem :=
  match findIndex (is_session sessionId) (tabStrip sh) with
  | None => None
  | Some index =>
      let after := tabStrip sh !! S index in
      let before := match index with O => None | S i => tabStrip sh !! i end in
      if takes_pane sh after then after else if takes_pane sh before then before else None
  end.

Definition tmux_prefixed (sessionId : jsstring) : bool := startsWith sessionId (js "tmux:").

Definition isSplittable sh (id : jsstring) : bool :=
  match List.find (λ tab, bool_decide (tab_sessionId tab = id)) (tabs sh) with
  | None => false
  | Some tab => negb (tab_tmux tab) && negb (tmux_prefixed id) && isSplittablePaneKind (tab_paneKind tab)
  end.
Definition isStandalone sh (id : jsstring) : bool := existsb (is_session id) (tabStrip sh).

(** The pane to split and the workspace it is in: of the neighbour, when no
    other session is named, or of the session named. *)
Definition adjacent_candidate sh (sessionId : jsstring) : option (option jsstring * option WorkspaceTab) :=
  match resolveAdjacentTarget sh sessionId with
  | None | Some (item_tmux _) => None
  | Some (item_session s) => Some (Some s, None)
  | Some (item_workspace id) =>
      match List.find (named id) (workspaces sh) with
      | None => None
      | Some w =>
          let ids := listWorkspaceSessionIds (wt_layout w) in
          Some (if decide (wt_activeSessionId w ∈ ids) then Some (wt_activeSessionId w) else head ids, Some w)
      end
  end.

Definition split_candidate sh (sessionId : jsstring) (targetSessionId : option jsstring)
    : option (option jsstring * option WorkspaceTab) :=
  match targetSessionId with
  | None => adjacent_candidate sh sessionId
  | Some target =>
      if decide (target = sessionId) then adjacent_candidate sh sessionId
      else if isStandalone sh target then Some (Some target, None)
      else match List.find (owns target) (workspaces sh) with
           | None => None
           | Some w => Some (Some target, Some w)
           end
  end.

Record WorkspaceSplitTarget := { split_sessionId : jsstring; split_workspaceId : option jsstring }.

Definition resolveWorkspaceSplitTarget sh (sessionId : jsstring) (targetSessionId : option jsstring)
    : option WorkspaceSplitTarget :=
  if negb (isSplittable sh sessionId) || negb (isStandalone sh sessionId) then None else
  match split_candidate sh sessionId targetSessionId with
  | None => None
  | Some (resolved, workspace) =>
      match opt_truthy resolved with
      | None => None
      | Some id =>
          if bool_decide (id = sessionId) || negb (isSplittable sh id) then None else
          match workspace with
          | Some w =>
              let ids := listWorkspaceSessionIds (wt_layout w) in
              if bool_decide (is_Some (wt_tmux w)) || (4 <=? length ids) || bool_decide (sessionId ∈ ids)
                 || negb (forallb (isSplittable sh) ids)
                 || negb (existsb (is_workspace (wt_id w)) (tabStrip sh))
              then None else Some {| split_sessionId := id; split_workspaceId := Some (wt_id w) |}
          | None => if isStandalone sh id
                    then Some {| split_sessionId := id; split_workspaceId := None |} else None
          end
      end
  end.

(** A new workspace of two sessions that were tabs of their own. *)
Definition new_workspace (id title active : jsstring) (layout : WorkspaceLayoutNode) : WorkspaceTab :=
  {| wt_id := id; wt_title := title; wt_layout := layout; wt_activeSessionId := active;
     wt_broadcastEnabled := false; wt_broadcastExcludedSessionIds := None;
     wt_zoomedSessionId := None; wt_tmux := None |}.

Definition splitSessionIntoWorkspace sh (sessionId : jsstring) (direction : WorkspaceDropDirection)
    (targetSessionId : option jsstring) : fresh_m (Shell * bool) :=
  if tmux_prefixed sessionId then fret (sh, false) else
  match resolveWorkspaceSplitTarget sh sessionId targetSessionId with
  | None => fret (sh, false)
  | Some target =>
      match split_workspaceId target with
      | None =>
          match findIndex (is_session sessionId) (tabStrip sh),
                findIndex (is_session (split_sessionId target)) (tabStrip sh) with
          | Some currentIndex, Some targetIndex =>
              let@ workspaceId := randomUUID in
              let@ layout := createWorkspaceSplit (split_sessionId target) sessionId direction in
              let strip := without (λ item, is_session sessionId item
                                            || is_session (split_sessionId target) item) (tabStrip sh) in
              fret (show sh (insert_at (min currentIndex targetIndex) (item_workspace workspaceId) strip)
                      (workspaces sh ++ [new_workspace workspaceId (buildWorkspaceTitle (workspaces sh))
                                           sessionId layout])
                      (asWorkspaceTabId workspaceId), true)
          | _, _ => fret (sh, false)
          end
      | Some workspaceId =>
          match List.find (named workspaceId) (workspaces sh) with
          | None => fret (sh, false)
          | Some workspace =>
              let@ next := insertSessionIntoWorkspaceLayout (wt_layout workspace) (split_sessionId target)
                             sessionId direction in
              if negb next.2 then fret (sh, false) else
              fret (show sh (without (is_session sessionId) (tabStrip sh))
                      (update_workspace (wt_id workspace)
                         (λ w, with_zoom None (with_layout next.1 sessionId w)) (workspaces sh))
                      (asWorkspaceTabId (wt_id workspace)), true)
          end
      end
  end.

Definition isSplittableSession (ts : list (TerminalTab (D:=D))) (sessionId : jsstring) : bool :=
  isSplittablePaneKind (List.find (λ tab, bool_decide (tab_sessionId tab = sessionId)) ts ≫= tab_paneKind).

Definition moveWorkspaceSession sh (workspaceId sessionId : jsstring) (direction : WorkspaceDropDirection)
    (targetSessionId : jsstring) : fresh_m (Shell * bool) :=
  if negb (isSplittableSession (tabs sh) sessionId) then fret (sh, false) else
  match List.find (named workspaceId) (workspaces sh) with
  | None => fret (sh, false)
  | Some workspace =>
      let@ next := moveSessionWithinWorkspaceLayout (wt_layout workspace) sessionId targetSessionId direction in
      if negb next.2 then fret (sh, false) else
      fret (show sh (tabStrip sh)
              (update_workspace workspaceId (with_layout next.1 sessionId) (workspaces sh))
              (asWorkspaceTabId workspaceId), true)
  end.

Definition detachSessionFromWorkspace sh (workspaceId sessionId : jsstring) : Shell :=
  match List.find (named workspaceId) (workspaces sh) with
  | None => sh
  | Some workspace =>
      let workspaceIndex := findIndex (is_workspace workspaceId) (tabStrip sh) in
      match removeSessionFromWorkspaceLayout (wt_layout workspace) sessionId with
      | None => sh
      | Some (LLeaf leaf) =>
          let strip := without (is_workspace workspaceId) (tabStrip sh) in
          let strip1 := insert_at (index_or_end workspaceIndex strip) (item_session (leaf_sessionId leaf)) strip in
          let strip2 := insert_at (match workspaceIndex with Some i => S i | None => length strip1 end)
                          (item_session sessionId) strip1 in
          show sh strip2 (List.filter (λ w, negb (named workspaceId w)) (workspaces sh))
            (asSessionTabId sessionId)
      | Some reduced =>
          show sh (insert_at (match workspaceIndex with Some i => S i | None => length (tabStrip sh) end)
                     (item_session sessionId) (tabStrip sh))
            (update_workspace workspaceId (λ w,
               with_layout reduced
                 (if decide (wt_activeSessionId w = sessionId)
                  then findFirstWorkspaceSessionId reduced else wt_activeSessionId w) w) (workspaces sh))
            (asSessionTabId sessionId)
      end
  end.

(** Dragging a tab of the strip before or after another. *)
Definition reorderDynamicTab sh (source target : DynamicTabStripItem) (after : bool) : Shell :=
  if dynamicTabMatches source target then sh else
  match findIndex (λ item, dynamicTabMatches item source) (tabStrip sh),
        findIndex (λ item, dynamicTabMatches item target) (tabStrip sh) with
  | Some sourceIndex, Some targetIndex =>
      if decide (sourceIndex = targetIndex) then sh else
      match tabStrip sh !! sourceIndex with
      | None => sh
      | Some moved =>
          let rest := remove_at sourceIndex (tabStrip sh) in
          match findIndex (λ item, dynamicTabMatches item target) rest with
          | None => sh
          | Some nextTargetIndex =>
              show sh (insert_at (if after then S nextTargetIndex else nextTargetIndex) moved rest)
                (workspaces sh) (activeWorkspaceTab sh)
          end
      end
  | _, _ => sh
  end.

(** ** Opening a session: the tab of a connection that starts *)
Definition open_session st (tab : TerminalTab) (attempt : PendingConnectionAttempt) : AppState :=
  let sh := shell st in
  let sessionId := tab_sessionId tab in
  let opened :=
    {| tabs := List.filter (λ t, negb (bool_decide (tab_sessionId t = sessionId))) (tabs sh) ++ [tab];
       tabStrip := without (is_session sessionId) (tabStrip sh) ++ [item_session sessionId];
       workspaces := workspaces sh; tmuxGroups := tmuxGroups sh; containerTabs := containerTabs sh;
       activeWorkspaceTab := asSessionTabId sessionId; homeSection := hs_hosts;
       settingsSection := settingsSection sh; activeContainerHostId := activeContainerHostId sh |} in
  {| shell := opened; hostKeyPrompts := hostKeyPrompts st;
     pendingCredentialRetry := pendingCredentialRetry st;
     activeCredentialRetryAttempt := activeCredentialRetryAttempt st;
     pendingInteractiveAuths := pendingInteractiveAuths st;
     pendingConnectionAttempts :=
       List.filter (λ a, negb (bool_decide (attempt_sessionId a = sessionId))) (pendingConnectionAttempts st)
         ++ [attempt];
     sessionReturnTargets := <[sessionId := captureSessionReturnTarget sh]> (sessionReturnTargets st);
     resolvedStartupCommandsBySessionId := resolvedStartupCommandsBySessionId st;
     sessionContainerTunnels := sessionContainerTunnels st;
     sessionShareChatNotifications := sessionShareChatNotifications st;
     rttHistory := rttHistory st; sessionScopedState := sessionScopedState st |}.

(** ** Chat notifications of a shared session (store/utils/session-share.ts) *)
Definition appendSessionShareChatNotification (notifications : gmap jsstring (list SessionShareChatMessage))
    (sessionId : jsstring) (message : SessionShareChatMessage) :=
  <[sessionId := default [] (notifications !! sessionId) ++ [message]]> notifications.

Definition dismissSessionShareChatNotification (notifications : gmap jsstring (list SessionShareChatMessage))
    (sessionId messageId : jsstring) : gmap jsstring (list SessionShareChatMessage) :=
  match notifications !! sessionId with
  | None => notifications
  | Some current =>
      let nextMessages := List.filter (λ m, negb (bool_decide (chat_id m = messageId))) current in
      if decide (length nextMessages = length current) then notifications
      else if decide (nextMessages = []) then clearSessionShareChatNotifications notifications sessionId
      else <[sessionId := nextMessages]> notifications
  end.
End reducers.
