(* ===== verification/WorkspaceInvariant.v ===== *)
(** * The tab shell stays consistent

    Every open session is shown exactly once, as a tab of its own or as a pane
    of one workspace; what is active exists; and every reducer keeps it so. *)

From S2P Require Import Prelude Collections JsNumber Models SavedWorkspace WorkspaceLayout.
From S2P Require Import HostKeyPrompts InteractiveAuth WorkspaceState WorkspaceReducers.

(** ** The sessions on screen *)

Definition item_sessionId (item : DynamicTabStripItem) : option jsstring :=
  match item with item_session s => Some s | _ => None end.
Definition standalone (strip : list DynamicTabStripItem) : list jsstring := omap item_sessionId strip.
Definition panes (wss : list WorkspaceTab) : list jsstring :=
  wss ≫= λ w, listWorkspaceSessionIds (wt_layout w).
Definition open_in (strip : list DynamicTabStripItem) (wss : list WorkspaceTab) : list jsstring :=
  standalone strip ++ panes wss.

(** All sessions but [s]. *)
Definition others (s : jsstring) (l : list jsstring) : list jsstring :=
  List.filter (λ x, negb (bool_decide (x = s))) l.

#[export] Instance standalone_Permutation : Proper ((≡ₚ) ==> (≡ₚ)) standalone.
Proof. unfold standalone. solve_proper. Qed.
#[export] Instance panes_Permutation : Proper ((≡ₚ) ==> (≡ₚ)) panes.
Proof. unfold panes. solve_proper. Qed.
#[export] Instance open_in_Permutation : Proper ((≡ₚ) ==> (≡ₚ) ==> (≡ₚ)) open_in.
Proof. unfold open_in. intros ?? E ?? F. by rewrite E, F. Qed.
#[export] Instance others_Permutation s : Proper ((≡ₚ) ==> (≡ₚ)) (others s).
Proof.
  unfold others. induction 1; simpl; repeat case_match; try done;
    [by constructor|apply Permutation_swap|by etrans].
Qed.

Lemma panes_app l k : panes (l ++ k) = panes l ++ panes k.
Proof. apply bind_app. Qed.
Lemma panes_cons w l : panes (w :: l) = listWorkspaceSessionIds (wt_layout w) ++ panes l.
Proof. done. Qed.
Lemma panes_middle l w k :
  panes (l ++ w :: k) ≡ₚ listWorkspaceSessionIds (wt_layout w) ++ panes (l ++ k).
Proof. by rewrite <- Permutation_middle, panes_cons. Qed.

Lemma elem_panes s wss : s ∈ panes wss ↔ ∃ w, w ∈ wss ∧ s ∈ listWorkspaceSessionIds (wt_layout w).
Proof. unfold panes. rewrite list_elem_of_bind. naive_solver. Qed.

Lemma elem_standalone s strip : s ∈ standalone strip ↔ item_session s ∈ strip.
Proof.
  unfold standalone. rewrite list_elem_of_omap. split.
  - intros ([t|w|g] & Ht & E); simplify_eq/=. done.
  - intros H. by exists (item_session s).
Qed.

Lemma elem_others x s l : x ∈ others s l ↔ x ∈ l ∧ x ≠ s.
Proof. unfold others. by rewrite filter_In_elem, negb_true_iff, bool_decide_eq_false. Qed.
Lemma others_notin s l : s ∉ l → others s l = l.
Proof.
  intros Hs. apply filter_all. intros x Hx. apply negb_true_iff, bool_decide_eq_false. congruence.
Qed.
Lemma others_app s l k : others s (l ++ k) = others s l ++ others s k.
Proof. apply List.filter_app. Qed.
Lemma others_perm s l : NoDup l → s ∈ l → l ≡ₚ s :: others s l.
Proof. apply filter_ne_perm. Qed.

Lemma is_session_spec s item : is_session s item = true ↔ item = item_session s.
Proof. destruct item; simpl; rewrite ?bool_decide_eq_true; naive_solver. Qed.
Lemma is_workspace_spec w item : is_workspace w item = true ↔ item = item_workspace w.
Proof. destruct item; simpl; rewrite ?bool_decide_eq_true; naive_solver. Qed.
Lemma dynamicTabMatches_spec a b : dynamicTabMatches a b = true ↔ a = b.
Proof. destruct a, b; simpl; rewrite ?bool_decide_eq_true; naive_solver. Qed.

Lemma elem_without P item strip : item ∈ without P strip ↔ item ∈ strip ∧ P item = false.
Proof. unfold without. by rewrite filter_In_elem, negb_true_iff. Qed.
Lemma without_NoDup P strip : NoDup strip → NoDup (without P strip).
Proof. unfold without. auto with dolgate. Qed.

Definition here (item : DynamicTabStripItem) : list jsstring :=
  match item with item_session s => [s] | _ => [] end.

Lemma standalone_cons item strip :
  standalone (item :: strip) = here item ++ standalone strip.
Proof. unfold standalone. by destruct item. Qed.

Lemma standalone_without_session s strip :
  standalone (without (is_session s) strip) = others s (standalone strip).
Proof.
  unfold without, others. induction strip as [|item strip IH]; [done|]. cbn [List.filter].
  rewrite (standalone_cons item strip). destruct item as [t|w|g]; cbn [is_session negb here];
    rewrite ?standalone_cons; cbn [here app List.filter]; [|by rewrite IH..].
  destruct (bool_decide (t = s)); cbn [negb]; [done|].
  rewrite standalone_cons. cbn [here app]. by rewrite IH.
Qed.

Lemma standalone_without_workspace w strip :
  standalone (without (is_workspace w) strip) = standalone strip.
Proof.
  unfold without. induction strip as [|item strip IH]; [done|]. cbn [List.filter].
  rewrite (standalone_cons item strip). destruct item as [t|v|g]; cbn [is_workspace negb];
    rewrite ?standalone_cons; [by rewrite IH| |by rewrite IH].
  destruct (bool_decide (v = w)); cbn [negb]; rewrite ?standalone_cons; by rewrite IH.
Qed.

Lemma standalone_insert i item strip :
  standalone (insert_at i item strip) ≡ₚ here item ++ standalone strip.
Proof. by rewrite insert_at_perm, standalone_cons. Qed.

(** ** Finding and updating a workspace *)

Lemma find_decompose {A} (P : A → bool) (l : list A) x : List.find P l = Some x →
  ∃ l1 l2, l = l1 ++ x :: l2 ∧ P x = true ∧ ∀ y, y ∈ l1 → P y = false.
Proof.
  induction l as [|y l IH]; [done|]. simpl. destruct (P y) eqn:Ey.
  - intros [= ->]. exists [], l. split_and!; [done..|set_solver].
  - intros H. destruct (IH H) as (l1 & l2 & -> & Hx & Hl). exists (y :: l1), l2.
    split_and!; [done..|]. intros z [->|Hz]%elem_of_cons; auto.
Qed.

Lemma named_spec id w : named id w = true ↔ wt_id w = id.
Proof. apply bool_decide_eq_true. Qed.

(** With distinct ids, a workspace sits between two parts that updates of it
    and filters on its id leave alone. *)
Lemma named_decompose wss w id : NoDup (wt_id <$> wss) → w ∈ wss → wt_id w = id →
  ∃ l k, wss = l ++ w :: k
    ∧ (∀ f, update_workspace id f wss = l ++ f w :: k)
    ∧ List.filter (λ v, negb (named id v)) wss = l ++ k.
Proof.
  intros Hnd Hw Hid. apply list_elem_of_split in Hw as (l & k & ->). exists l, k. split; [done|].
  rewrite fmap_app, fmap_cons, <- Permutation_middle, <- fmap_app in Hnd.
  apply NoDup_cons in Hnd as [Hn _].
  assert (Hne : ∀ v, v ∈ l ++ k → named id v = false).
  { intros v Hv. apply bool_decide_eq_false. intros E. apply Hn. rewrite Hid, <- E.
    by apply list_elem_of_fmap_2. }
  assert (Hself : named id w = true) by by apply named_spec.
  split.
  - intros f. unfold update_workspace. rewrite fmap_app, fmap_cons, Hself.
    f_equal; [|f_equal]; symmetry; rewrite <- (list_fmap_id _) at 1; apply list_fmap_ext; intros i v Hv;
      apply list_elem_of_lookup_2 in Hv; rewrite Hne by set_solver; done.
  - rewrite List.filter_app. cbn [List.filter]. rewrite Hself. cbn [negb].
    rewrite !filter_all; [done|..]; intros v Hv; by rewrite Hne by set_solver.
Qed.

Lemma find_named wss id w : List.find (named id) wss = Some w → w ∈ wss ∧ wt_id w = id.
Proof. intros [Hw Hn]%find_Some_1. split; [done|]. by apply named_spec. Qed.

Lemma find_named_None wss id : List.find (named id) wss = None → id ∉ wt_id <$> wss.
Proof.
  intros Hf (w & -> & Hw)%list_elem_of_fmap. pose proof (find_None_1 _ _ w Hf Hw) as Hn.
  apply bool_decide_eq_false in Hn. done.
Qed.

Lemma find_owns wss s w : List.find (owns s) wss = Some w →
  w ∈ wss ∧ s ∈ listWorkspaceSessionIds (wt_layout w).
Proof. intros [Hw Hs]%find_Some_1. split; [done|]. by apply bool_decide_eq_true in Hs. Qed.

Lemma find_owns_None wss s : List.find (owns s) wss = None → s ∉ panes wss.
Proof.
  intros Hf (w & Hw & Hs)%elem_panes. pose proof (find_None_1 _ _ w Hf Hw) as Hn.
  apply bool_decide_eq_false in Hn. done.
Qed.

(** ** Consistency *)

(** A tab id that leads somewhere. *)
Definition shown (groups : list jsstring) (strip : list DynamicTabStripItem) (wss : list WorkspaceTab)
    (t : WorkspaceTabId) : Prop :=
  match t with
  | asSessionTabId s => item_session s ∈ strip
  | asWorkspaceTabId w => w ∈ wt_id <$> wss
  | asTmuxSessionGroupTabId g => g ∈ groups
  | _ => True
  end.

Record consistent_view (known groups : list jsstring) (strip : list DynamicTabStripItem)
    (wss : list WorkspaceTab) (active : WorkspaceTabId) : Prop := {
  cv_open : NoDup (open_in strip wss);                 (* each session on screen once *)
  cv_known : ∀ s, s ∈ open_in strip wss → s ∈ known;   (* and it has a tab record *)
  cv_ids : NoDup (wt_id <$> wss);
  cv_strip : NoDup strip;
  cv_strip_ws : ∀ w, item_workspace w ∈ strip → w ∈ wt_id <$> wss;
  cv_strip_tmux : ∀ g, item_tmux g ∈ strip → g ∈ groups;
  cv_pane : ∀ w, w ∈ wss → wt_activeSessionId w ∈ listWorkspaceSessionIds (wt_layout w);
  cv_active : shown groups strip wss active;
}.

Section consistency.
Context {D : Type}.
Implicit Types (sh : Shell (D:=D)).

Definition known_sessions sh : list jsstring := tab_sessionId <$> tabs sh.
Definition group_ids sh : list jsstring := tg_id <$> tmuxGroups sh.
Definition open_sessions sh : list jsstring := open_in (tabStrip sh) (workspaces sh).
Definition consistent sh : Prop :=
  consistent_view (known_sessions sh) (group_ids sh) (tabStrip sh) (workspaces sh) (activeWorkspaceTab sh).
End consistency.

Section views.
Context (known groups : list jsstring).
Implicit Types (strip : list DynamicTabStripItem) (wss : list WorkspaceTab).

Lemma cv_item_shown strip wss active item :
  consistent_view known groups strip wss active → item ∈ strip → shown groups strip wss (item_tab item).
Proof. intros [] Hi. destruct item; simpl; auto. Qed.

Lemma resolveNext_cases strip i :
  resolveNextVisibleTab strip i = tab_home ∨ ∃ item, item ∈ strip ∧ resolveNextVisibleTab strip i = item_tab item.
Proof.
  unfold resolveNextVisibleTab. destruct (strip !! i) as [item|] eqn:E.
  - right. exists item. split; [by eapply list_elem_of_lookup_2|done].
  - destruct i as [|i]; [by left|]. destruct (strip !! i) as [item|] eqn:E'; [|by left].
    right. exists item. split; [by eapply list_elem_of_lookup_2|done].
Qed.

Lemma resolveNext_dynamic strip i : i ≤ length strip → strip ≠ [] →
  ∃ item, item ∈ strip ∧ resolveNextVisibleTab strip i = item_tab item.
Proof.
  intros Hi Hne. unfold resolveNextVisibleTab. destruct (strip !! i) as [item|] eqn:E.
  - exists item. split; [by eapply list_elem_of_lookup_2|done].
  - apply lookup_ge_None in E. destruct i as [|i]; [destruct strip; [done|simpl in E; lia]|].
    destruct (lookup_lt_is_Some_2 strip i) as [item Hitem]; [lia|]. rewrite Hitem.
    exists item. split; [by eapply list_elem_of_lookup_2|done].
Qed.

(** What is on screen is rearranged, nothing opens or closes. *)
Lemma view_rearrange strip wss active strip' wss' active' :
  consistent_view known groups strip wss active →
  open_in strip' wss' ≡ₚ open_in strip wss →
  NoDup (wt_id <$> wss') → NoDup strip' →
  (∀ w, item_workspace w ∈ strip' → w ∈ wt_id <$> wss') →
  (∀ g, item_tmux g ∈ strip' → item_tmux g ∈ strip) →
  (∀ w, w ∈ wss' → wt_activeSessionId w ∈ listWorkspaceSessionIds (wt_layout w)) →
  shown groups strip' wss' active' →
  consistent_view known groups strip' wss' active'.
Proof.
  intros [Ho Hk _ _ _ Ht _ _] E ? ? ? Ht' ? ?. split; [by rewrite E| |done|done|done|auto|done|done].
  intros s. rewrite E. apply Hk.
Qed.

Lemma view_standalone strip wss active : consistent_view known groups strip wss active → NoDup (standalone strip).
Proof. intros [Ho _ _ _ _ _ _ _]. by apply NoDup_app in Ho as [? _]. Qed.

(** Only the order of the strip changes. *)
Lemma view_permute strip strip' wss active : strip' ≡ₚ strip →
  consistent_view known groups strip wss active → consistent_view known groups strip' wss active.
Proof.
  intros E Hv. eapply view_rearrange; [exact Hv|by rewrite E|apply Hv|rewrite E; apply Hv| | |apply Hv|].
  - intros w. rewrite E. apply Hv.
  - intros g. by rewrite E.
  - pose proof (cv_active _ _ _ _ _ Hv) as Ha. destruct active; simpl in *; try done. by rewrite E.
Qed.

Lemma ids_update id f wss : (∀ w, wt_id (f w) = wt_id w) → wt_id <$> update_workspace id f wss = wt_id <$> wss.
Proof.
  intros Hf. unfold update_workspace. rewrite <- list_fmap_compose. apply list_fmap_ext.
  intros i w _. simpl. by destruct (named id w).
Qed.

Lemma panes_update id f wss :
  (∀ w, w ∈ wss → wt_id w = id →
     listWorkspaceSessionIds (wt_layout (f w)) ≡ₚ listWorkspaceSessionIds (wt_layout w)) →
  panes (update_workspace id f wss) ≡ₚ panes wss.
Proof.
  unfold update_workspace. induction wss as [|w wss IH]; intros Hf; [done|].
  rewrite fmap_cons, !panes_cons. rewrite IH by (intros; apply Hf; [by right|done]).
  destruct (named id w) eqn:E; [|done]. apply named_spec in E. by apply Permutation_app_tail, Hf; [left|].
Qed.

(** A workspace is changed in place, with the same panes. *)
Lemma view_update strip wss active active' id f :
  consistent_view known groups strip wss active →
  (∀ w, wt_id (f w) = wt_id w) →
  (∀ w, w ∈ wss → wt_id w = id →
     listWorkspaceSessionIds (wt_layout (f w)) ≡ₚ listWorkspaceSessionIds (wt_layout w)
     ∧ wt_activeSessionId (f w) ∈ listWorkspaceSessionIds (wt_layout w)) →
  shown groups strip wss active' →
  consistent_view known groups strip (update_workspace id f wss) active'.
Proof.
  intros Hv Hid Hf Hs.
  assert (Hp : panes (update_workspace id f wss) ≡ₚ panes wss)
    by (apply panes_update; intros w Hw E; by apply Hf).
  eapply view_rearrange; [exact Hv|..]; try (rewrite (ids_update id f wss) by done); try (by apply Hv).
  - unfold open_in. by rewrite Hp.
  - done.
  - unfold update_workspace. intros w (v & -> & Hv')%list_elem_of_fmap.
    destruct (named id v) eqn:E; [|by apply Hv]. apply named_spec in E.
    destruct (Hf v Hv' E) as [-> ?]. done.
  - destruct active'; simpl in *; try done. by rewrite ids_update.
Qed.
End views.

(** ** Closing *)

Section closing.
Context {D : Type}.
Implicit Types (sh : Shell (D:=D)).

Lemma known_close_tab sh s x : x ∈ known_sessions (close_tab sh s) ↔ x ∈ known_sessions sh ∧ x ≠ s.
Proof.
  unfold known_sessions, close_tab. cbn [tabs]. rewrite !list_elem_of_fmap. split.
  - intros (t & -> & [Ht Hn]%filter_In_elem). apply negb_true_iff, bool_decide_eq_false in Hn. eauto.
  - intros ((t & -> & Ht) & Hn). exists t. split; [done|]. apply filter_In_elem.
    split; [done|]. by apply negb_true_iff, bool_decide_eq_false.
Qed.

(** The owner of a session is the only place it is shown. *)
Lemma owner_only (strip : list DynamicTabStripItem) l w k s :
  NoDup (open_in strip (l ++ w :: k)) → s ∈ listWorkspaceSessionIds (wt_layout w) →
  item_session s ∉ strip ∧ s ∉ panes (l ++ k)
  ∧ others s (open_in strip (l ++ w :: k))
    ≡ₚ standalone strip ++ others s (listWorkspaceSessionIds (wt_layout w)) ++ panes (l ++ k).
Proof.
  unfold open_in. rewrite panes_middle. intros Hnd Hs.
  apply NoDup_app in Hnd as (_ & Hd & (_ & Hd' & _)%NoDup_app).
  assert (Hst : s ∉ standalone strip) by (intros Hx; apply (Hd s Hx); set_solver).
  assert (Hp : s ∉ panes (l ++ k)) by auto.
  split_and!; [by rewrite <- elem_standalone|done|].
  by rewrite !others_app, (others_notin s (standalone strip)), (others_notin s (panes (l ++ k))).
Qed.

Lemma without_session_id s strip : item_session s ∉ strip → without (is_session s) strip = strip.
Proof.
  intros Hs. apply filter_all. intros item Hi. apply negb_true_iff, not_true_iff_false.
  rewrite is_session_spec. congruence.
Qed.

Lemma others_NoDup s l : NoDup l → NoDup (others s l).
Proof. unfold others. auto with dolgate. Qed.

(** The panes of [w] shrink to [rest]; [item] may take its place in the strip. *)
Lemma view_without_workspace known known' groups strip l w k active s strip' active' :
  consistent_view known groups strip (l ++ w :: k) active →
  s ∈ listWorkspaceSessionIds (wt_layout w) →
  (∀ x, x ∈ known → x ≠ s → x ∈ known') →
  standalone strip' ≡ₚ others s (listWorkspaceSessionIds (wt_layout w)) ++ standalone strip →
  NoDup strip' →
  (∀ v, item_workspace v ∈ strip' → item_workspace v ∈ strip ∧ v ≠ wt_id w) →
  (∀ g, item_tmux g ∈ strip' → item_tmux g ∈ strip) →
  shown groups strip' (l ++ k) active' →
  open_in strip' (l ++ k) ≡ₚ others s (open_in strip (l ++ w :: k))
  ∧ consistent_view known' groups strip' (l ++ k) active'.
Proof.
  intros Hv Hs Hkn Hst Hnd Hws Htm Hact. destruct Hv as [Ho Hk Hi _ Hsw Hst' Hp _].
  destruct (owner_only strip l w k s Ho Hs) as (_ & _ & Heq).
  assert (E : open_in strip' (l ++ k) ≡ₚ others s (open_in strip (l ++ w :: k))).
  { rewrite Heq. unfold open_in. rewrite Hst. rewrite !(assoc_L (++)).
    apply Permutation_app_tail, Permutation_app_comm. }
  split; [done|]. rewrite fmap_app, fmap_cons, <- Permutation_middle, <- fmap_app, NoDup_cons in Hi.
  destruct Hi as [Hwi Hi]. split.
  - rewrite E. by apply others_NoDup.
  - intros x. rewrite E, elem_others. intros [Hx ?]. auto.
  - done.
  - done.
  - intros v Hv. destruct (Hws v Hv) as [Hv' Hne]. specialize (Hsw v Hv').
    rewrite fmap_app, fmap_cons in Hsw. rewrite fmap_app. set_solver.
  - auto.
  - intros v Hv. apply Hp. set_solver.
  - done.
Qed.

Definition closed sh s sh' : Prop :=
  open_sessions sh' ≡ₚ others s (open_sessions sh) ∧ consistent sh'.

Lemma close_standalone sh s : consistent sh → s ∉ panes (workspaces sh) →
  closed sh s (show (close_tab sh s) (without (is_session s) (tabStrip sh)) (workspaces sh)
    (if decide (activeWorkspaceTab sh = asSessionTabId s)
     then resolveNextVisibleTab (without (is_session s) (tabStrip sh))
            (index_or_end (findIndex (is_session s) (tabStrip sh)) (without (is_session s) (tabStrip sh)))
     else activeWorkspaceTab sh)).
Proof.
  intros Hv Hs. unfold closed, open_sessions, consistent. cbn [show tabStrip workspaces activeWorkspaceTab].
  assert (E : open_in (without (is_session s) (tabStrip sh)) (workspaces sh) = others s (open_sessions sh)).
  { unfold open_sessions, open_in. rewrite others_app, standalone_without_session.
    by rewrite (others_notin s (panes _)). }
  split; [by rewrite E|].
  assert (Hv' : ∀ active, shown (group_ids sh) (without (is_session s) (tabStrip sh)) (workspaces sh) active →
    consistent_view (known_sessions (close_tab sh s)) (group_ids sh)
      (without (is_session s) (tabStrip sh)) (workspaces sh) active).
  { intros active Hact. destruct Hv as [Ho Hk Hi Hst Hsw Hst' Hp _]. split; [| |done| | | |done|done].
    - rewrite E. by apply others_NoDup.
    - intros x. rewrite E, elem_others, known_close_tab. intros [Hx ?]. auto.
    - by apply without_NoDup.
    - intros w [Hw _]%elem_without. auto.
    - intros g [Hg _]%elem_without. auto. }
  apply Hv'. case_decide as Ha.
  - destruct (resolveNext_cases (without (is_session s) (tabStrip sh))
      (index_or_end (findIndex (is_session s) (tabStrip sh)) (without (is_session s) (tabStrip sh))))
      as [->|(item & Hitem & ->)]; [done|].
    eapply cv_item_shown; [exact (Hv' tab_home I)|done].
  - pose proof (cv_active _ _ _ _ _ Hv) as Hact. destruct (activeWorkspaceTab sh) as [| | |t|w|g]; try done.
    simpl in *. apply elem_without. split; [done|].
    apply bool_decide_eq_false. congruence.
Qed.

Lemma without_workspace_facts w strip :
  (∀ v, item_workspace v ∈ without (is_workspace w) strip → item_workspace v ∈ strip ∧ v ≠ w)
  ∧ (∀ g, item_tmux g ∈ without (is_workspace w) strip → item_tmux g ∈ strip)
  ∧ (∀ t, item_session t ∈ without (is_workspace w) strip ↔ item_session t ∈ strip).
Proof.
  split_and!.
  - intros v [Hv Hn]%elem_without. apply bool_decide_eq_false in Hn. done.
  - intros g [Hg _]%elem_without. done.
  - intros t. rewrite elem_without. naive_solver.
Qed.

(** A tab other than workspace [w] is still there when [w] goes. *)
Lemma shown_without groups strip l w k active : 
  shown groups strip (l ++ w :: k) active → active ≠ asWorkspaceTabId (wt_id w) →
  shown groups (without (is_workspace (wt_id w)) strip) (l ++ k) active.
Proof.
  destruct active as [| | |t|v|g]; simpl; try done.
  - intros. by apply (proj2 (proj2 (without_workspace_facts (wt_id w) strip))).
  - rewrite !fmap_app, fmap_cons. intros Hv Hne. assert (v ≠ wt_id w) by congruence. set_solver.
Qed.

Lemma shown_insert groups strip wss active i item :
  shown groups strip wss active → shown groups (insert_at i item strip) wss active.
Proof. destruct active; simpl; try done. intros. rewrite insert_at_perm. by right. Qed.

Lemma close_empties sh s w : consistent sh → w ∈ workspaces sh → s ∈ listWorkspaceSessionIds (wt_layout w) →
  others s (listWorkspaceSessionIds (wt_layout w)) = [] →
  let strip := without (is_workspace (wt_id w)) (tabStrip sh) in
  closed sh s (show (close_tab sh s) strip (List.filter (λ v, negb (named (wt_id w) v)) (workspaces sh))
    (if decide (activeWorkspaceTab sh = asWorkspaceTabId (wt_id w))
     then resolveNextVisibleTab strip (index_or_end (findIndex (is_workspace (wt_id w)) (tabStrip sh)) strip)
     else activeWorkspaceTab sh)).
Proof.
  intros Hv Hw Hs Hnone strip. unfold closed, open_sessions, consistent.
  cbn [show tabStrip workspaces activeWorkspaceTab].
  destruct (named_decompose (workspaces sh) w (wt_id w) (cv_ids _ _ _ _ _ Hv) Hw eq_refl)
    as (l & k & E & _ & Hf). rewrite Hf. unfold consistent in Hv. rewrite E in *.
  destruct (without_workspace_facts (wt_id w) (tabStrip sh)) as (Hws & Htm & _).
  assert (Hgo : ∀ active, shown (group_ids sh) strip (l ++ k) active →
    open_in strip (l ++ k) ≡ₚ others s (open_in (tabStrip sh) (l ++ w :: k))
    ∧ consistent_view (known_sessions (close_tab sh s)) (group_ids sh) strip (l ++ k) active).
  { intros active Hact.
    apply (view_without_workspace (known_sessions sh) _ _ (tabStrip sh) _ w _ (activeWorkspaceTab sh));
      try done.
    - intros. by apply known_close_tab.
    - rewrite Hnone. unfold strip. by rewrite standalone_without_workspace.
    - apply without_NoDup, Hv. }
  apply Hgo. case_decide as Ha.
  - destruct (resolveNext_cases strip (index_or_end (findIndex (is_workspace (wt_id w)) (tabStrip sh)) strip))
      as [->|(item & Hitem & ->)]; [done|]. eapply cv_item_shown; [exact (proj2 (Hgo tab_home I))|done].
  - apply shown_without; [apply Hv|done].
Qed.

Lemma close_unwraps sh s w leaf : consistent sh → w ∈ workspaces sh →
  s ∈ listWorkspaceSessionIds (wt_layout w) →
  others s (listWorkspaceSessionIds (wt_layout w)) = [leaf_sessionId leaf] →
  let strip := without (is_workspace (wt_id w)) (tabStrip sh) in
  closed sh s (show (close_tab sh s)
    (insert_at (index_or_end (findIndex (is_workspace (wt_id w)) (tabStrip sh)) strip)
       (item_session (leaf_sessionId leaf)) strip)
    (List.filter (λ v, negb (named (wt_id w) v)) (workspaces sh))
    (if decide (activeWorkspaceTab sh = asWorkspaceTabId (wt_id w))
     then asSessionTabId (leaf_sessionId leaf) else activeWorkspaceTab sh)).
Proof.
  intros Hv Hw Hs Hone strip. unfold closed, open_sessions, consistent.
  cbn [show tabStrip workspaces activeWorkspaceTab].
  destruct (named_decompose (workspaces sh) w (wt_id w) (cv_ids _ _ _ _ _ Hv) Hw eq_refl)
    as (l & k & E & _ & Hf). rewrite Hf. unfold consistent in Hv. rewrite E in *.
  destruct (without_workspace_facts (wt_id w) (tabStrip sh)) as (Hws & Htm & Hse).
  apply (view_without_workspace (known_sessions sh) _ _ (tabStrip sh) _ w _ (activeWorkspaceTab sh)); try done.
  - intros. by apply known_close_tab.
  - rewrite Hone, standalone_insert. unfold strip. by rewrite standalone_without_workspace.
  - rewrite insert_at_perm, NoDup_cons. split; [|apply without_NoDup, Hv].
    unfold strip. rewrite Hse, <- elem_standalone. pose proof (cv_open _ _ _ _ _ Hv) as Ho.
    unfold open_in in Ho. rewrite panes_middle in Ho. apply NoDup_app in Ho as (_ & Hd & _).
    intros Hx. apply (Hd _ Hx), elem_of_app. left. apply (elem_others _ s). rewrite Hone. set_solver.
  - intros v. rewrite insert_at_perm, elem_of_cons. intros [?|Hv']; [done|]. by apply Hws.
  - intros g. rewrite insert_at_perm, elem_of_cons. intros [?|Hg]; [done|]. by apply Htm.
  - case_decide as Ha.
    + simpl. rewrite insert_at_perm. by left.
    + apply shown_insert, shown_without; [apply Hv|done].
Qed.

Lemma close_shrinks sh s w reduced : consistent sh → w ∈ workspaces sh →
  s ∈ listWorkspaceSessionIds (wt_layout w) →
  listWorkspaceSessionIds reduced = others s (listWorkspaceSessionIds (wt_layout w)) →
  closed sh s (show (close_tab sh s) (without (is_session s) (tabStrip sh))
    (update_workspace (wt_id w) (λ v, with_layout reduced
       (if decide (wt_activeSessionId v = s) then findFirstWorkspaceSessionId reduced
        else wt_activeSessionId v) v) (workspaces sh)) (activeWorkspaceTab sh)).
Proof.
  intros Hv Hw Hs Hred. unfold closed, open_sessions, consistent.
  cbn [show tabStrip workspaces activeWorkspaceTab].
  destruct (named_decompose (workspaces sh) w (wt_id w) (cv_ids _ _ _ _ _ Hv) Hw eq_refl)
    as (l & k & E & Hu & _). rewrite Hu. unfold consistent in Hv. rewrite E in *.
  destruct Hv as [Ho Hk Hi Hst Hsw Hst' Hp Hact].
  destruct (owner_only _ l w k s Ho Hs) as (Hns & _ & Heq). rewrite without_session_id by done.
  set (w' := with_layout reduced _ w).
  assert (Eo : open_in (tabStrip sh) (l ++ w' :: k) ≡ₚ others s (open_in (tabStrip sh) (l ++ w :: k))).
  { rewrite Heq. unfold open_in. rewrite panes_middle. unfold w'. cbn [with_layout wt_layout]. by rewrite Hred. }
  assert (Ei : wt_id <$> (l ++ w' :: k) = wt_id <$> (l ++ w :: k)) by (rewrite !fmap_app, !fmap_cons; done).
  split; [done|]. split; rewrite ?Ei; try done.
  - rewrite Eo. by apply others_NoDup.
  - intros x. rewrite Eo, elem_others. intros [Hx ?]. apply known_close_tab. auto.
  - intros v Hv. rewrite elem_of_app, elem_of_cons in Hv.
    destruct Hv as [Hv|[->|Hv]]; [apply Hp; set_solver| |apply Hp; set_solver].
    cbn [with_layout wt_activeSessionId wt_layout w']. case_decide as Ha.
    + pose proof (findFirst_head reduced) as Hh. destruct (listWorkspaceSessionIds reduced); [done|].
      injection Hh as ->. by left.
    + rewrite Hred, elem_others. split; [|done]. apply Hp. set_solver.
  - destruct (activeWorkspaceTab sh); simpl in *; try done. by rewrite Ei.
Qed.

Lemma close_panes_closed sh s : consistent sh → closed sh s (close_panes (close_tab sh s) s).
Proof.
  intros Hv. unfold close_panes. cbn [close_tab tabStrip workspaces activeWorkspaceTab].
  destruct (List.find (owns s) (workspaces sh)) as [w|] eqn:Ef.
  - apply find_owns in Ef as [Hw Hs]. pose proof (remove_sessions (wt_layout w) s) as Hr.
    destruct (removeSessionFromWorkspaceLayout (wt_layout w) s) as [[leaf|id axis ratio a b]|].
    + by apply close_unwraps.
    + by apply close_shrinks.
    + by apply close_empties.
  - apply close_standalone; [done|]. by apply find_owns_None.
Qed.
End closing.

Section removal.
Context {D : Type}.
Implicit Types (sh : Shell (D:=D)) (st : AppState (D:=D)).

Lemma resolve_target_shown sh target t : resolveSessionReturnTarget sh target = Some t →
  shown (group_ids sh) (tabStrip sh) (workspaces sh) (rt_activeWorkspaceTab t).
Proof.
  unfold resolveSessionReturnTarget. destruct (rt_activeWorkspaceTab target) as [| | |s|w|g].
  - by intros [= <-].
  - by intros [= <-].
  - case_decide; [done|]. destruct (opt_truthy _); [|done]. by intros [= <-].
  - destruct (existsb _ _) eqn:E; [|done]. intros [= <-].
    apply existsb_spec in E as (item & Hi & Hs). apply is_session_spec in Hs as ->. done.
  - destruct (existsb _ _) eqn:E; [|done]. intros [= <-].
    apply existsb_spec in E as (ws & Hi & Hs). apply bool_decide_eq_true in Hs as <-.
    by apply list_elem_of_fmap_2.
  - destruct (existsb _ _) eqn:E; [|done]. intros [= <-].
    apply existsb_spec in E as (gr & Hi & Hs). apply bool_decide_eq_true in Hs as <-.
    by apply list_elem_of_fmap_2.
Qed.

Lemma consistent_refocus sh active : consistent sh → shown (group_ids sh) (tabStrip sh) (workspaces sh) active →
  consistent_view (known_sessions sh) (group_ids sh) (tabStrip sh) (workspaces sh) active.
Proof. by intros [] ?. Qed.

Lemma restore_consistent sh stored : consistent sh → consistent (restore_target sh stored).
Proof.
  intros Hv. unfold restore_target. destruct (stored ≫= resolveSessionReturnTarget sh) as [t|] eqn:E; [|done].
  apply bind_Some in E as (target & _ & E). apply (consistent_refocus sh); [done|].
  by eapply resolve_target_shown.
Qed.

Lemma restore_same sh stored : tabStrip (restore_target sh stored) = tabStrip sh
  ∧ workspaces (restore_target sh stored) = workspaces sh ∧ tabs (restore_target sh stored) = tabs sh.
Proof. unfold restore_target. by destruct (stored ≫= _). Qed.

Lemma prefer_consistent sh i : consistent sh → consistent (prefer_dynamic sh i).
Proof.
  intros Hv. unfold prefer_dynamic. case_match; [|done]. apply (consistent_refocus sh); [done|].
  destruct (resolveNext_cases (tabStrip sh) (index_or_end i (tabStrip sh))) as [->|(item & Hi & ->)]; [done|].
  by eapply cv_item_shown.
Qed.

Lemma prefer_same sh i : tabStrip (prefer_dynamic sh i) = tabStrip sh
  ∧ workspaces (prefer_dynamic sh i) = workspaces sh ∧ tabs (prefer_dynamic sh i) = tabs sh.
Proof. unfold prefer_dynamic. by case_match. Qed.

Lemma prefer_is_dynamic sh i : (∀ k, i = Some k → k ≤ length (tabStrip sh)) → tabStrip sh ≠ [] →
  is_dynamic (activeWorkspaceTab (prefer_dynamic sh i)) = true.
Proof.
  intros Hi Hne. unfold prefer_dynamic. rewrite (bool_decide_false (tabStrip sh = [])) by done.
  destruct (is_dynamic (activeWorkspaceTab sh)) eqn:E; [done|]. cbn [negb andb show activeWorkspaceTab].
  destruct (resolveNext_dynamic (tabStrip sh) (index_or_end i (tabStrip sh))) as (item & _ & ->);
    [|done|by destruct item].
  destruct i as [k|]; simpl; [auto|lia].
Qed.

Lemma findIndex_filter {A} (P : A → bool) (l : list A) i : findIndex P l = Some i →
  i ≤ length (List.filter (λ x, negb (P x)) l).
Proof.
  unfold findIndex. intros ([j x] & E & ->)%fmap_Some. simpl.
  apply list_find_Some in E as (Hj & _ & Hb). pose proof (lookup_lt_Some _ _ _ Hj).
  rewrite <- (take_drop j l), List.filter_app, filter_all, length_app, length_take; [lia|].
  intros y (k & Hy)%list_elem_of_lookup. apply lookup_take_Some in Hy as [Hy Hk].
  apply negb_true_iff, not_true_iff_false. by eapply Hb.
Qed.

Lemma close_panes_tabs sh s : tabs (close_panes sh s) = tabs sh.
Proof.
  unfold close_panes. destruct (List.find _ _) as [w|]; [|done].
  by destruct (removeSessionFromWorkspaceLayout _ _) as [[]|].
Qed.

Lemma close_panes_ids sh s x : x ∈ wt_id <$> workspaces (close_panes sh s) → x ∈ wt_id <$> workspaces sh.
Proof.
  unfold close_panes. destruct (List.find _ _) as [w|]; [|done].
  assert (Hf : x ∈ wt_id <$> List.filter (λ v, negb (named (wt_id w) v)) (workspaces sh) →
    x ∈ wt_id <$> workspaces sh).
  { intros (v & -> & [Hv _]%filter_In_elem)%list_elem_of_fmap. by apply list_elem_of_fmap_2. }
  destruct (removeSessionFromWorkspaceLayout _ _) as [[]|]; [exact Hf| |exact Hf].
  cbn [show workspaces]. by rewrite ids_update.
Qed.

(** The strip after closing, when the session was a tab of its own. *)
Lemma close_panes_index sh s i : consistent sh → findIndex (is_session s) (tabStrip sh) = Some i →
  i ≤ length (tabStrip (close_panes (close_tab sh s) s)).
Proof.
  intros Hv Hi. unfold close_panes. cbn [close_tab tabStrip workspaces activeWorkspaceTab].
  destruct (List.find (owns s) (workspaces sh)) as [w|] eqn:Ef.
  - exfalso. apply find_owns in Ef as [Hw Hs].
    apply findIndex_Some in Hi as (item & Hl & ->%is_session_spec).
    apply list_elem_of_lookup_2 in Hl. destruct Hv as [Ho _ _ _ _ _ _ _].
    apply NoDup_app in Ho as (_ & Hd & _). apply (Hd s); [by apply elem_standalone|].
    apply elem_panes. eauto.
  - by apply findIndex_filter.
Qed.

Lemma remove_shell st s : consistent (shell st) →
  let sh' := shell (removeSessionFromState st s) in
  closed (shell st) s sh' ∧ (∀ x, x ∈ known_sessions sh' ↔ x ∈ known_sessions (shell st) ∧ x ≠ s).
Proof.
  intros Hv sh'. destruct (close_panes_closed (shell st) s Hv) as [E Hc].
  subst sh'. unfold removeSessionFromState. cbn [shell].
  set (mid := close_panes _ s) in *. set (r := restore_target mid _).
  destruct (restore_same mid (if decide (activeWorkspaceTab (shell st) = asSessionTabId s)
    then sessionReturnTargets st !! s else None)) as (R1 & R2 & R3).
  destruct (prefer_same r (findIndex (is_session s) (tabStrip (shell st)))) as (P1 & P2 & P3).
  split; [split|].
  - unfold open_sessions. rewrite P1, P2. unfold r. rewrite R1, R2. exact E.
  - by apply prefer_consistent, restore_consistent.
  - intros x. unfold known_sessions. rewrite P3. unfold r. rewrite R3. unfold mid.
    rewrite close_panes_tabs. apply known_close_tab.
Qed.

End removal.
