(* ===== verification/WorkspaceMachine.v ===== *)
(** * The tab shell as a state machine

    Every reducer, as a step; the consistency of WorkspaceInvariant.v holds in
    every reachable state, and each step opens and closes exactly the sessions
    it is about. *)

From S2P Require Import Prelude Collections JsNumber Models SavedWorkspace WorkspaceLayout.
From S2P Require Import HostKeyPrompts InteractiveAuth WorkspaceState WorkspaceReducers WorkspaceInvariant.

Section steps.
Context {D : Type} `{UuidSupply}.
Implicit Types (sh : Shell (D:=D)) (st : AppState (D:=D)).

(** A step that rearranges what is on screen. *)
Definition keeps sh sh' : Prop :=
  open_sessions sh' ≡ₚ open_sessions sh ∧ known_sessions sh' = known_sessions sh ∧ consistent sh'.

Lemma keeps_refl sh : consistent sh → keeps sh sh.
Proof. done. Qed.

(** Workspace [id] is changed in place. *)
Lemma keeps_update sh id f active : consistent sh →
  (∀ w, wt_id (f w) = wt_id w) →
  (∀ w, w ∈ workspaces sh → wt_id w = id →
     listWorkspaceSessionIds (wt_layout (f w)) ≡ₚ listWorkspaceSessionIds (wt_layout w)
     ∧ wt_activeSessionId (f w) ∈ listWorkspaceSessionIds (wt_layout w)) →
  shown (group_ids sh) (tabStrip sh) (workspaces sh) active →
  keeps sh (show sh (tabStrip sh) (update_workspace id f (workspaces sh)) active).
Proof.
  intros Hv Hid Hf Ha. split; [|split; [done|]].
  - unfold open_sessions, open_in. cbn [show tabStrip workspaces].
    by rewrite panes_update by (intros w Hw E; by apply Hf).
  - by eapply view_update.
Qed.

Lemma activate_keeps sh s : consistent sh → s ∈ open_sessions sh → keeps sh (activateSessionContextInState sh s).
Proof.
  intros Hv Hs. unfold activateSessionContextInState.
  destruct (List.find (owns s) (workspaces sh)) as [w|] eqn:E.
  - apply find_owns in E as [Hw Hsw]. apply keeps_update; [done|done| |by apply list_elem_of_fmap_2].
    intros v Hv' Eid. cbn [with_layout wt_layout wt_activeSessionId].
    assert (v = w) as -> by (eapply NoDup_fmap_inj; [apply Hv|done..]). done.
  - apply find_owns_None in E. split; [done|]. split; [done|].
    apply (consistent_refocus sh); [done|]. simpl. apply elem_standalone.
    unfold open_sessions, open_in in Hs. set_solver.
Qed.

Lemma focus_keeps sh id s : consistent sh →
  (∃ w, w ∈ workspaces sh ∧ wt_id w = id ∧ s ∈ listWorkspaceSessionIds (wt_layout w)) →
  keeps sh (focusWorkspaceSession sh id s).
Proof.
  intros Hv (w & Hw & Eid & Hs). unfold focusWorkspaceSession.
  assert (Hk : ∀ active, shown (group_ids sh) (tabStrip sh) (workspaces sh) active →
    keeps sh (show sh (tabStrip sh)
      (update_workspace id (λ w, with_layout (wt_layout w) s w) (workspaces sh)) active)).
  { intros active Ha. apply keeps_update; [done|done| |done].
    intros v Hv' Ev. cbn [with_layout wt_layout wt_activeSessionId].
    assert (v = w) as -> by (eapply NoDup_fmap_inj; [apply Hv|done|done|congruence]). done. }
  destruct (findTmuxGroupForWorkspace _ _) as [g|] eqn:E.
  - assert (Hg : tg_id g ∈ group_ids sh).
    { unfold findTmuxGroupForWorkspace in E. destruct (opt_truthy _); [|done].
      apply find_Some_1 in E as [Hg _]. by apply list_elem_of_fmap_2. }
    destruct (Hk (asTmuxSessionGroupTabId (tg_id g)) Hg) as (Ho & Hn & Hc).
    split; [exact Ho|]. split; [exact Hn|]. unfold consistent in *.
    assert (group_ids (with_groups sh ((λ g0, if decide (tg_id g0 = tg_id g)
        then with_active_workspace id g0 else g0) <$> tmuxGroups sh)) = group_ids sh) as Eg.
    { unfold group_ids. cbn [with_groups tmuxGroups]. rewrite <- list_fmap_compose.
      apply list_fmap_ext. intros i g0 _. simpl. by case_decide. }
    unfold group_ids in *. cbn [with_groups show tmuxGroups] in *. rewrite Eg. exact Hc.
  - apply Hk. simpl. rewrite <- Eid. by apply list_elem_of_fmap_2.
Qed.

Lemma zoom_keeps sh id s : consistent sh →
  (∀ w, w ∈ workspaces sh → wt_id w = id → s ∈ listWorkspaceSessionIds (wt_layout w)) →
  keeps sh (toggleWorkspaceZoom sh id s).
Proof.
  intros Hv Hs. apply keeps_update; [done|by intros w; case_decide| |apply Hv].
  intros w Hw E. case_decide; cbn; split; [done|by apply Hv|done|by apply Hs].
Qed.

Lemma broadcast_keeps sh id s : consistent sh → keeps sh (toggleSessionBroadcast sh id s).
Proof.
  intros Hv. apply keeps_update; [done| | |apply Hv]; unfold toggle_broadcast.
  - intros w. repeat case_match; done.
  - intros w Hw _. pose proof (cv_pane _ _ _ _ _ Hv w Hw). repeat case_match; done.
Qed.

Lemma resize_keeps sh id sp r : consistent sh → keeps sh (resizeWorkspaceSplit sh id sp r).
Proof.
  intros Hv. apply keeps_update; [done|done| |apply Hv].
  intros w Hw _. cbn [with_layout wt_layout wt_activeSessionId]. rewrite update_sessions.
  split; [done|by apply Hv].
Qed.

Lemma pane_NoDup sh w : consistent sh → w ∈ workspaces sh → NoDup (listWorkspaceSessionIds (wt_layout w)).
Proof.
  intros Hv (l & k & E)%list_elem_of_split. pose proof (cv_open _ _ _ _ _ Hv) as Ho. rewrite E in Ho.
  unfold open_in in Ho. rewrite panes_middle in Ho. apply NoDup_app in Ho as (_ & _ & Ho).
  by apply NoDup_app in Ho as [? _].
Qed.

Lemma move_keeps sh id s d t n : consistent sh →
  keeps sh (moveWorkspaceSession sh id s d t n).1.1 ∧ n ≤ (moveWorkspaceSession sh id s d t n).2
  ∧ wt_id <$> workspaces (moveWorkspaceSession sh id s d t n).1.1 = wt_id <$> workspaces sh.
Proof.
  intros Hv. unfold moveWorkspaceSession, fbind, fret.
  destruct (negb _); [done|]. destruct (List.find (named id) (workspaces sh)) as [w|] eqn:Ef; [|done].
  apply find_named in Ef as [Hw Eid]. pose proof (move_mono (wt_layout w) s t d n) as Hn.
  pose proof (move_sessions (wt_layout w) s t d n (pane_NoDup sh w Hv Hw)) as Hm.
  destruct (moveSessionWithinWorkspaceLayout (wt_layout w) s t d n) as [[layout moved] n'].
  destruct Hm as (Em & Hp & _). destruct moved; cbn [negb fst snd]; [|done].
  split; [|split; [done|by apply ids_update]].
  symmetry in Em. apply bool_decide_eq_true in Em as (_ & Hs & _).
  apply keeps_update; [done|done| |simpl; rewrite <- Eid; by apply list_elem_of_fmap_2].
  intros v Hv' Ev. assert (v = w) as -> by (eapply NoDup_fmap_inj; [apply Hv|done|done|congruence]).
  cbn [with_layout wt_layout wt_activeSessionId]. done.
Qed.

Lemma reorder_keeps sh a b after : consistent sh → keeps sh (reorderDynamicTab sh a b after).
Proof.
  intros Hv. unfold reorderDynamicTab. destruct (dynamicTabMatches a b); [done|].
  destruct (findIndex _ (tabStrip sh)) as [i|]; [|done]. destruct (findIndex _ (tabStrip sh)) as [j|]; [|done].
  case_decide; [done|]. destruct (tabStrip sh !! i) as [moved|] eqn:Ei; [|done].
  destruct (findIndex _ (remove_at i (tabStrip sh))) as [k|]; [|done].
  set (strip := insert_at _ _ _). assert (E : strip ≡ₚ tabStrip sh).
  { unfold strip. rewrite insert_at_perm. symmetry. by apply remove_at_perm. }
  split; [|split; [done|]].
  - unfold open_sessions. cbn [show tabStrip workspaces]. by rewrite E.
  - by eapply view_permute.
Qed.

(** ** Splitting *)

Lemma candidate_workspace sh s t r w : split_candidate sh s t = Some (r, Some w) → w ∈ workspaces sh.
Proof.
  assert (Hadj : adjacent_candidate sh s = Some (r, Some w) → w ∈ workspaces sh).
  { unfold adjacent_candidate. destruct (resolveAdjacentTarget sh s) as [[]|]; try done.
    destruct (List.find _ _) as [v|] eqn:E; [|done]. intros [= _ <-]. by apply find_named in E as [? _]. }
  unfold split_candidate. destruct t as [t|]; [|done]. case_decide; [done|].
  destruct (isStandalone sh t); [done|]. destruct (List.find _ _) as [v|] eqn:E; [|done].
  intros [= _ <-]. by apply find_owns in E as [? _].
Qed.

Lemma isStandalone_spec sh s : isStandalone sh s = true ↔ item_session s ∈ tabStrip sh.
Proof.
  unfold isStandalone. rewrite existsb_spec. split.
  - intros (item & Hi & ->%is_session_spec). done.
  - intros Hs. exists (item_session s). split; [done|]. by apply is_session_spec.
Qed.

(** A workspace that may take one more pane. *)
Definition can_take sh (s : jsstring) (w : WorkspaceTab) : Prop :=
  w ∈ workspaces sh ∧ wt_tmux w = None ∧ length (listWorkspaceSessionIds (wt_layout w)) < 4
  ∧ s ∉ listWorkspaceSessionIds (wt_layout w)
  ∧ (∀ x, x ∈ listWorkspaceSessionIds (wt_layout w) → isSplittable sh x = true)
  ∧ item_workspace (wt_id w) ∈ tabStrip sh.

Lemma split_target_facts sh s t target : resolveWorkspaceSplitTarget sh s t = Some target →
  isSplittable sh s = true ∧ item_session s ∈ tabStrip sh
  ∧ split_sessionId target ≠ s ∧ isSplittable sh (split_sessionId target) = true
  ∧ match split_workspaceId target with
    | None => item_session (split_sessionId target) ∈ tabStrip sh
    | Some id => ∃ w, can_take sh s w ∧ wt_id w = id
    end.
Proof.
  unfold resolveWorkspaceSplitTarget.
  destruct (isSplittable sh s) eqn:Es; [|done]. destruct (isStandalone sh s) eqn:Est; [|done].
  apply isStandalone_spec in Est. cbn [negb orb].
  destruct (split_candidate sh s t) as [[r w]|] eqn:Ec; [|done]. destruct (opt_truthy r) as [id|]; [|done].
  case_bool_decide; [done|]. destruct (isSplittable sh id) eqn:Eid; [|done]. cbn [negb orb].
  destruct w as [w|].
  - apply candidate_workspace in Ec.
    destruct (_ || _) eqn:E; [done|]. intros [= <-]. cbn [split_sessionId split_workspaceId].
    apply orb_false_iff in E as [[[[E1 E2]%orb_false_iff E3]%orb_false_iff E4]%orb_false_iff E5].
    apply bool_decide_eq_false in E1, E3. apply negb_false_iff in E4, E5.
    rewrite forallb_spec in E4. apply existsb_spec in E5 as (item & Hi & ->%is_workspace_spec).
    apply Nat.leb_gt in E2. split_and!; try done. exists w. split; [|done].
    split_and!; try done. by apply eq_None_not_Some.
  - destruct (isStandalone sh id) eqn:Ei; [|done]. intros [= <-]. cbn [split_sessionId split_workspaceId].
    apply isStandalone_spec in Ei. done.
Qed.

Lemma without_or P Q strip : without (λ i, P i || Q i) strip = without Q (without P strip).
Proof.
  unfold without. induction strip as [|i strip IH]; [done|]. simpl.
  destruct (P i); simpl; [done|]. destruct (Q i); simpl; by rewrite IH.
Qed.

(** Two tabs become one workspace. *)
Lemma view_join known groups strip wss active a b id ws i :
  consistent_view known groups strip wss active →
  a ≠ b → item_session a ∈ strip → item_session b ∈ strip →
  wt_id ws = id → id ∉ wt_id <$> wss →
  listWorkspaceSessionIds (wt_layout ws) ≡ₚ [a; b] →
  wt_activeSessionId ws ∈ listWorkspaceSessionIds (wt_layout ws) →
  let strip' := insert_at i (item_workspace id)
                  (without (λ item, is_session a item || is_session b item) strip) in
  open_in strip' (wss ++ [ws]) ≡ₚ open_in strip wss
  ∧ consistent_view known groups strip' (wss ++ [ws]) (asWorkspaceTabId id).
Proof.
  intros Hv Hab Ha Hb Eid Hid Hp Hact strip'.
  assert (E : open_in strip' (wss ++ [ws]) ≡ₚ open_in strip wss).
  { unfold open_in, strip'. rewrite standalone_insert, without_or, !standalone_without_session, panes_app.
    cbn [here app]. rewrite panes_cons. cbn [panes mbind list_bind].
    assert (Hnd : NoDup (standalone strip)) by by eapply view_standalone.
    apply elem_standalone in Ha, Hb.
    rewrite (others_perm a (standalone strip)) at 2 by done.
    rewrite (others_perm b (others a (standalone strip))) at 2;
      [|by apply others_NoDup|by apply elem_others].
    rewrite app_nil_r, Hp, (assoc_L (++)). by rewrite (Permutation_app_comm _ [a; b]). }
  split; [done|]. eapply view_rearrange; [exact Hv|exact E|..].
  - rewrite fmap_app. cbn. rewrite Eid. apply NoDup_app. split; [apply Hv|].
    split; [set_solver|apply NoDup_singleton].
  - unfold strip'. rewrite insert_at_perm, NoDup_cons. split; [|apply without_NoDup, Hv].
    intros [Hi _]%elem_without. by apply Hid, Hv.
  - intros w. unfold strip'. rewrite insert_at_perm, elem_of_cons, fmap_app. cbn. rewrite Eid.
    intros [[= ->]|[Hw _]%elem_without]; [set_solver|]. pose proof (cv_strip_ws _ _ _ _ _ Hv w Hw). set_solver.
  - intros g. unfold strip'. rewrite insert_at_perm, elem_of_cons. intros [?|[? _]%elem_without]; done.
  - intros w [Hw| ->%list_elem_of_singleton]%elem_of_app; [by apply Hv|done].
  - simpl. rewrite fmap_app. cbn. set_solver.
Qed.

(** A tab becomes a pane of a workspace. *)
Lemma view_absorb known groups strip l w k active s f :
  consistent_view known groups strip (l ++ w :: k) active →
  item_session s ∈ strip → wt_id (f w) = wt_id w →
  listWorkspaceSessionIds (wt_layout (f w)) ≡ₚ s :: listWorkspaceSessionIds (wt_layout w) →
  wt_activeSessionId (f w) = s →
  let strip' := without (is_session s) strip in
  open_in strip' (l ++ f w :: k) ≡ₚ open_in strip (l ++ w :: k)
  ∧ consistent_view known groups strip' (l ++ f w :: k) (asWorkspaceTabId (wt_id w)).
Proof.
  intros Hv Hs Eid Hp Hact strip'.
  assert (E : open_in strip' (l ++ f w :: k) ≡ₚ open_in strip (l ++ w :: k)).
  { unfold open_in, strip'. rewrite standalone_without_session, !panes_middle, Hp.
    assert (Hnd : NoDup (standalone strip)) by by eapply view_standalone.
    rewrite (others_perm s (standalone strip)) at 2 by (done || by apply elem_standalone).
    cbn [app]. by rewrite <- Permutation_middle. }
  assert (Ei : wt_id <$> (l ++ f w :: k) = wt_id <$> (l ++ w :: k)) by (rewrite !fmap_app, !fmap_cons, Eid; done).
  split; [done|]. eapply view_rearrange; [exact Hv|exact E|rewrite Ei; apply Hv|apply without_NoDup, Hv|..].
  - intros v [Hv' _]%elem_without. rewrite Ei. by apply Hv.
  - by intros g [? _]%elem_without.
  - intros v Hv'. rewrite elem_of_app, elem_of_cons in Hv'.
    destruct Hv' as [?|[->|?]]; [apply Hv; set_solver| |apply Hv; set_solver].
    rewrite Hact, Hp. by left.
  - simpl. rewrite Ei, fmap_app, fmap_cons. set_solver.
Qed.

Definition fresh_at (n : nat) sh : Prop := supply_fresh n (wt_id <$> workspaces sh).

Lemma split_keeps sh s d t n : consistent sh → fresh_at n sh →
  let '((sh', _), n') := splitSessionIntoWorkspace sh s d t n in
  keeps sh sh' ∧ fresh_at n' sh'.
Proof.
  intros Hv Hf. unfold splitSessionIntoWorkspace, fbind, fret.
  destruct (tmux_prefixed s); [done|].
  destruct (resolveWorkspaceSplitTarget sh s t) as [[target ws]|] eqn:Et; [|done].
  apply split_target_facts in Et as (_ & Hs & Hne & _ & Htgt). cbn [split_sessionId split_workspaceId] in *.
  destruct ws as [id|].
  - destruct Htgt as (w & (Hw & _ & _ & Hns & _) & Eid).
    destruct (List.find (named id) (workspaces sh)) as [v|] eqn:Ef; [|done].
    apply find_named in Ef as [Hv' Ev].
    assert (v = w) as -> by (eapply NoDup_fmap_inj; [apply Hv|done|done|congruence]).
    pose proof (insert_sessions (wt_layout w) target s d n) as Hi.
    pose proof (insert_mono (wt_layout w) target s d n) as Hn.
    destruct (insertSessionIntoWorkspaceLayout (wt_layout w) target s d n) as [[layout ins] n'].
    destruct Hi as (Ei & El & _). cbn [fst snd] in *.
    assert (Hf' : fresh_at n' sh) by (eapply supply_fresh_step; [exact Hf|done|auto]).
    destruct ins; cbn [negb]; [|done].
    symmetry in Ei. apply bool_decide_eq_true in Ei.
    destruct (named_decompose (workspaces sh) w (wt_id w) (cv_ids _ _ _ _ _ Hv) Hw eq_refl) as (l & k & E & Hu & _).
    destruct (view_absorb (known_sessions sh) (group_ids sh) (tabStrip sh) l w k (activeWorkspaceTab sh) s
      (λ w, with_zoom None (with_layout layout s w))) as [Ho Hc]; try done.
    { by rewrite <- E. }
    { cbn [with_zoom with_layout wt_layout]. rewrite El. by apply drop_at_perm. }
    split; [split; [|split; [done|]]|].
    + unfold open_sessions. cbn [show tabStrip workspaces]. rewrite Hu. rewrite Ho. by rewrite E.
    + unfold consistent. cbn [show tabStrip workspaces activeWorkspaceTab]. rewrite Hu. exact Hc.
    + unfold fresh_at. cbn [show workspaces]. by rewrite ids_update.
  - destruct (findIndex _ _) as [i|]; [|done]. destruct (findIndex _ _) as [j|]; [|done].
    unfold randomUUID, createWorkspaceSplit, createWorkspaceLeaf, fbind, fret, randomUUID. cbn [fst snd].
    set (layout := LSplit _ _ _ _ _).
    destruct (view_join (known_sessions sh) (group_ids sh) (tabStrip sh) (workspaces sh) (activeWorkspaceTab sh)
      s target (uuid n) (new_workspace (uuid n) (buildWorkspaceTitle (workspaces sh)) s layout) (min i j))
      as [Ho Hc]; try done.
    { apply Hf. done. }
    { unfold layout. simpl. destruct (prepends d); [done|apply Permutation_swap]. }
    { unfold layout. simpl. destruct (prepends d); set_solver. }
    split; [by split; [|split]|].
    eapply supply_fresh_step; [exact Hf|lia|]. cbn [show workspaces]. intros x.
    rewrite fmap_app. cbn. intros [?|Hx%list_elem_of_singleton]%elem_of_app; [by left|subst x].
    right. exists n. split; [lia|done].
Qed.

(** ** Detaching *)

(** Pulling a pane [s] out of workspace [w], next to a strip item. *)
Section detach.
Context (sh : Shell (D:=D)) (l k : list WorkspaceTab) (w : WorkspaceTab) (s : jsstring).
Context (Hv : consistent sh) (E : workspaces sh = l ++ w :: k).
Context (Hin : s ∈ listWorkspaceSessionIds (wt_layout w)).

Lemma detach_view : consistent_view (known_sessions sh) (group_ids sh) (tabStrip sh) (l ++ w :: k) (activeWorkspaceTab sh).
Proof. pose proof Hv as Hv'. unfold consistent in Hv'. by rewrite E in Hv'. Qed.

(** One pane is left: the workspace dissolves into two tabs. *)
Lemma detach_dissolves (other : jsstring) strip2 :
  others s (listWorkspaceSessionIds (wt_layout w)) = [other] →
  strip2 ≡ₚ item_session s :: item_session other :: without (is_workspace (wt_id w)) (tabStrip sh) →
  keeps sh (show sh strip2 (l ++ k) (asSessionTabId s)).
Proof.
  intros Hr E2. pose proof detach_view as Hv'.
  assert (Hw : w ∈ workspaces sh) by (rewrite E; set_solver).
  destruct (owner_only _ l w k s (cv_open _ _ _ _ _ Hv') Hin) as (Hns & _ & _).
  pose proof (others_perm s _ (pane_NoDup sh w Hv Hw) Hin) as Hp.
  assert (Hleaf : item_session other ∉ tabStrip sh ∧ other ≠ s).
  { assert (Hnd := pane_NoDup sh w Hv Hw). rewrite Hp, Hr in Hnd. apply NoDup_cons in Hnd as [Hne _].
    split; [|intros ->; apply Hne; by left].
    apply (owner_only _ l w k _ (cv_open _ _ _ _ _ Hv')). rewrite Hp, Hr. right. by left. }
  destruct (without_workspace_facts (wt_id w) (tabStrip sh)) as (Hws & Htm & Hse).
  assert (Ho : open_in strip2 (l ++ k) ≡ₚ open_in (tabStrip sh) (l ++ w :: k)).
  { unfold open_in. rewrite E2, panes_middle, Hp, Hr, !standalone_cons, standalone_without_workspace.
    cbn [here app]. by rewrite <- !Permutation_middle. }
  split; [|split; [done|]].
  - unfold open_sessions. cbn [show tabStrip workspaces]. rewrite E. exact Ho.
  - unfold consistent. cbn [show tabStrip workspaces activeWorkspaceTab].
    eapply view_rearrange; [exact Hv'|exact Ho|..].
    + pose proof (cv_ids _ _ _ _ _ Hv') as Hi. rewrite fmap_app, fmap_cons in Hi.
      rewrite fmap_app. by eapply NoDup_app_middle_2.
    + rewrite E2, !NoDup_cons. split_and!; [|rewrite Hse; apply Hleaf|apply without_NoDup, Hv].
      rewrite elem_of_cons, Hse. intros [[= ?]|?]; [by apply (proj2 Hleaf)|done].
    + intros v. rewrite E2, !elem_of_cons. intros [?|[?|Hi]]; [done..|].
      destruct (Hws v Hi) as [Hi' Hne]. pose proof (cv_strip_ws _ _ _ _ _ Hv' v Hi') as Hx.
      rewrite fmap_app, fmap_cons in Hx. rewrite fmap_app. set_solver.
    + intros g. rewrite E2, !elem_of_cons. intros [?|[?|Hi]]; [done..|]. by apply Htm.
    + intros v Hx. apply Hv'. set_solver.
    + simpl. rewrite E2. by left.
Qed.

(** More than one is left: the workspace stays, without the pane. *)
Lemma detach_pulls_out (w' : WorkspaceTab) strip' :
  wt_id w' = wt_id w →
  listWorkspaceSessionIds (wt_layout w') = others s (listWorkspaceSessionIds (wt_layout w)) →
  wt_activeSessionId w' ∈ listWorkspaceSessionIds (wt_layout w') →
  strip' ≡ₚ item_session s :: tabStrip sh →
  keeps sh (show sh strip' (l ++ w' :: k) (asSessionTabId s)).
Proof.
  intros Eid Hr Ha E2. pose proof detach_view as Hv'.
  assert (Hw : w ∈ workspaces sh) by (rewrite E; set_solver).
  destruct (owner_only _ l w k s (cv_open _ _ _ _ _ Hv') Hin) as (Hns & _ & _).
  pose proof (others_perm s _ (pane_NoDup sh w Hv Hw) Hin) as Hp.
  assert (Ei : wt_id <$> (l ++ w' :: k) = wt_id <$> (l ++ w :: k)) by (rewrite !fmap_app, !fmap_cons; by rewrite Eid).
  assert (Ho : open_in strip' (l ++ w' :: k) ≡ₚ open_in (tabStrip sh) (l ++ w :: k)).
  { unfold open_in. rewrite E2, !panes_middle, Hp, standalone_cons, Hr.
    cbn [here app]. by rewrite <- !Permutation_middle. }
  split; [|split; [done|]].
  - unfold open_sessions. cbn [show tabStrip workspaces]. rewrite E. exact Ho.
  - unfold consistent. cbn [show tabStrip workspaces activeWorkspaceTab].
    eapply view_rearrange; [exact Hv'|exact Ho|rewrite Ei; apply Hv'|..].
    + rewrite E2, NoDup_cons. split; [done|apply Hv].
    + intros v. rewrite E2, Ei, elem_of_cons. intros [?|?]; [done|]. by apply Hv'.
    + intros g. rewrite E2, elem_of_cons. by intros [?|?].
    + intros v Hx. rewrite elem_of_app, elem_of_cons in Hx.
      destruct Hx as [?|[->|?]]; [apply Hv'; set_solver|done|apply Hv'; set_solver].
    + simpl. rewrite E2. by left.
Qed.
End detach.

Lemma detach_keeps sh id s : consistent sh →
  (∀ w, w ∈ workspaces sh → wt_id w = id → s ∈ listWorkspaceSessionIds (wt_layout w)) →
  keeps sh (detachSessionFromWorkspace sh id s)
  ∧ (∀ x, x ∈ wt_id <$> workspaces (detachSessionFromWorkspace sh id s) → x ∈ wt_id <$> workspaces sh).
Proof.
  intros Hv Hin. unfold detachSessionFromWorkspace.
  destruct (List.find (named id) (workspaces sh)) as [w|] eqn:Ef; [|done].
  apply find_named in Ef as [Hw Eid]. specialize (Hin w Hw Eid).
  pose proof (remove_sessions (wt_layout w) s) as Hr.
  destruct (named_decompose (workspaces sh) w id (cv_ids _ _ _ _ _ Hv) Hw Eid) as (l & k & E & Hu & Hf).
  destruct (removeSessionFromWorkspaceLayout (wt_layout w) s) as [[leaf|sid axis ratio a b]|]; [| |done].
  - rewrite Hf. split.
    + apply (detach_dissolves sh l k w s Hv E Hin (leaf_sessionId leaf)); [done|].
      rewrite Eid. by rewrite !insert_at_perm.
    + intros x. cbn [show workspaces]. rewrite E, !fmap_app, fmap_cons. set_solver.
  - rewrite Hu. split.
    + apply (detach_pulls_out sh l k w s Hv E Hin); [done|exact Hr| |apply insert_at_perm].
      cbn [with_layout wt_layout wt_activeSessionId]. case_decide.
      * pose proof (findFirst_head (LSplit sid axis ratio a b)) as Hh.
        destruct (listWorkspaceSessionIds (LSplit sid axis ratio a b)); [done|]. injection Hh as ->. by left.
      * rewrite Hr. apply elem_others. split; [|done].
        apply (cv_pane _ _ _ _ _ Hv w Hw).
    + cbn [show workspaces]. by rewrite E, !fmap_app, !fmap_cons.
Qed.

(** ** Opening and reconnecting *)

Lemma open_consistent st tab attempt : consistent (shell st) → tab_sessionId tab ∉ open_sessions (shell st) →
  consistent (shell (open_session st tab attempt))
  ∧ open_sessions (shell (open_session st tab attempt)) ≡ₚ tab_sessionId tab :: open_sessions (shell st).
Proof.
  intros Hv Hnew. set (s := tab_sessionId tab) in *. set (sh := shell st) in *.
  assert (Hs : item_session s ∉ tabStrip sh).
  { rewrite <- elem_standalone. unfold open_sessions, open_in in Hnew. set_solver. }
  assert (E : open_in (tabStrip sh ++ [item_session s]) (workspaces sh) ≡ₚ s :: open_sessions sh).
  { unfold open_sessions, open_in. rewrite <- Permutation_cons_append, standalone_cons. done. }
  unfold open_session. fold sh s. cbn [shell]. rewrite without_session_id by done.
  split; [|exact E]. unfold consistent. cbn [tabStrip workspaces activeWorkspaceTab].
  set (known' := known_sessions _). set (groups' := group_ids _).
  assert (Hk : ∀ x, x = s ∨ x ∈ known_sessions sh → x ∈ known').
  { intros x Hx. unfold known', known_sessions. cbn [tabs]. rewrite fmap_app, elem_of_app. cbn.
    destruct (decide (x = s)) as [->|Hne]; [right; by left|left]. destruct Hx as [?|Hx]; [done|].
    apply (known_close_tab sh s). done. }
  destruct Hv as [Ho Hkn Hi Hst Hsw Hst' Hp _]. split.
  - rewrite E. by constructor.
  - intros x. rewrite E, elem_of_cons. intros [->|?]; apply Hk; auto.
  - done.
  - apply NoDup_app. split; [done|]. split; [set_solver|apply NoDup_singleton].
  - intros w [?| [=]%list_elem_of_singleton]%elem_of_app. auto.
  - intros g [?| [=]%list_elem_of_singleton]%elem_of_app. by apply Hst'.
  - done.
  - simpl. apply elem_of_app. right. by left.
Qed.

Lemma rename_inj prev next (l : list jsstring) : next ∉ l → ∀ x y, x ∈ l → y ∈ l →
  rename_id prev next x = rename_id prev next y → x = y.
Proof. unfold rename_id. intros Hn x y Hx Hy. repeat case_decide; congruence. Qed.

Lemma standalone_rename prev next strip :
  standalone ((λ item, if is_session prev item then item_session next else item) <$> strip)
  = rename_id prev next <$> standalone strip.
Proof.
  induction strip as [|item strip IH]; [done|]. rewrite fmap_cons, !standalone_cons, fmap_app, IH. f_equal.
  destruct item as [t|w|g]; cbn [is_session here]; [|done..].
  change (rename_id prev next <$> [t]) with [rename_id prev next t]. unfold rename_id.
  destruct (decide (t = prev)); [by rewrite bool_decide_true|by rewrite bool_decide_false].
Qed.

Lemma panes_rename prev next wss :
  panes ((λ w, with_layout (replaceSessionIdInLayout (wt_layout w) prev next)
                 (rename_id prev next (wt_activeSessionId w)) w) <$> wss)
  = rename_id prev next <$> panes wss.
Proof.
  induction wss as [|w wss IH]; [done|]. rewrite fmap_cons, !panes_cons, fmap_app, IH. f_equal.
  cbn [with_layout wt_layout]. apply replace_sessions.
Qed.

Lemma reconnect_consistent sh prev next tr : consistent sh → next ∉ open_sessions sh →
  (∀ tab, tab_sessionId (tr tab) = tab_sessionId tab) →
  consistent (replace_in_shell sh prev next tr)
  ∧ open_sessions (replace_in_shell sh prev next tr) = rename_id prev next <$> open_sessions sh
  ∧ wt_id <$> workspaces (replace_in_shell sh prev next tr) = wt_id <$> workspaces sh.
Proof.
  intros Hv Hn Htr. set (sh' := replace_in_shell sh prev next tr).
  assert (E : open_sessions sh' = rename_id prev next <$> open_sessions sh).
  { unfold open_sessions, open_in, sh', replace_in_shell. cbn [tabStrip workspaces].
    by rewrite standalone_rename, panes_rename, fmap_app. }
  assert (Ei : wt_id <$> workspaces sh' = wt_id <$> workspaces sh).
  { unfold sh', replace_in_shell. cbn [workspaces]. by rewrite <- list_fmap_compose. }
  assert (Ek : known_sessions sh' = rename_id prev next <$> known_sessions sh).
  { unfold known_sessions, sh', replace_in_shell. cbn [tabs]. rewrite <- !list_fmap_compose.
    apply list_fmap_ext. intros i tab _. simpl. unfold rename_id. case_decide; [by rewrite Htr|done]. }
  assert (Hnot : item_session next ∉ tabStrip sh).
  { rewrite <- elem_standalone. unfold open_sessions, open_in in Hn. set_solver. }
  split_and!; [|done..]. pose proof Hv as [Ho Hkn Hi Hst Hsw Hst' Hp Hact]. split.
  - fold (open_sessions sh'). rewrite E. apply NoDup_fmap_2_strong; [|done].
    intros x y. by apply rename_inj.
  - fold (open_sessions sh'). rewrite E, Ek. intros s (x & -> & Hx)%list_elem_of_fmap.
    apply list_elem_of_fmap_2. auto.
  - by rewrite Ei.
  - unfold sh', replace_in_shell. cbn [tabStrip]. apply NoDup_fmap_2_strong; [|done].
    intros x y Hx Hy. destruct (is_session prev x) eqn:Ex, (is_session prev y) eqn:Ey; try congruence.
    apply is_session_spec in Ex, Ey. congruence.
  - rewrite Ei. unfold sh', replace_in_shell. cbn [tabStrip].
    intros w ([t|v|g] & Ew & Hw)%list_elem_of_fmap; cbn [is_session] in Ew;
      [by destruct (bool_decide _)| |done]. injection Ew as ->. auto.
  - unfold sh', replace_in_shell. cbn [tabStrip].
    intros w ([t|v|g] & Ew & Hw)%list_elem_of_fmap; cbn [is_session] in Ew;
      [by destruct (bool_decide _)|done|]. injection Ew as ->. by apply Hst'.
  - unfold sh', replace_in_shell. cbn [workspaces]. intros w (v & -> & Hv')%list_elem_of_fmap.
    cbn [with_layout wt_layout wt_activeSessionId]. rewrite replace_sessions.
    apply (list_elem_of_fmap_2 (rename_id prev next)). auto.
  - unfold sh', replace_in_shell in *. cbn [activeWorkspaceTab tabStrip]. case_decide as Ha.
    + rewrite Ha in Hact. simpl in *. apply list_elem_of_fmap. exists (item_session prev).
      split; [|done]. cbn. by rewrite bool_decide_true.
    + destruct (activeWorkspaceTab sh) as [| | |t|w|g]; simpl in *; try done.
      * apply list_elem_of_fmap. exists (item_session t). split; [|done]. cbn.
        rewrite bool_decide_false; [done|congruence].
      * by rewrite <- list_fmap_compose.
Qed.

(** ** The machine *)

Inductive shell_op :=
| so_activate (sessionId : jsstring)
| so_focus (workspaceId sessionId : jsstring)
| so_zoom (workspaceId sessionId : jsstring)
| so_broadcast (workspaceId sessionId : jsstring)
| so_resize (workspaceId splitId : jsstring) (ratio : number)
| so_split (sessionId : jsstring) (direction : WorkspaceDropDirection) (target : option jsstring)
| so_move (workspaceId sessionId : jsstring) (direction : WorkspaceDropDirection) (target : jsstring)
| so_detach (workspaceId sessionId : jsstring)
| so_reorder (source target : DynamicTabStripItem) (after : bool).

Definition shell_step (op : shell_op) sh : fresh_m Shell :=
  match op with
  | so_activate s => fret (activateSessionContextInState sh s)
  | so_focus w s => fret (focusWorkspaceSession sh w s)
  | so_zoom w s => fret (toggleWorkspaceZoom sh w s)
  | so_broadcast w s => fret (toggleSessionBroadcast sh w s)
  | so_resize w sp r => fret (resizeWorkspaceSplit sh w sp r)
  | so_split s d t => let@ r := splitSessionIntoWorkspace sh s d t in fret r.1
  | so_move w s d t => let@ r := moveWorkspaceSession sh w s d t in fret r.1
  | so_detach w s => fret (detachSessionFromWorkspace sh w s)
  | so_reorder a b after => fret (reorderDynamicTab sh a b after)
  end.

(** The screens offer an operation on a pane only where the pane is. *)
Definition offered_op sh (op : shell_op) : Prop :=
  match op with
  | so_activate s => s ∈ open_sessions sh
  | so_focus w s => ∃ ws, ws ∈ workspaces sh ∧ wt_id ws = w ∧ s ∈ listWorkspaceSessionIds (wt_layout ws)
  | so_zoom w s | so_detach w s =>
      ∀ ws, ws ∈ workspaces sh → wt_id ws = w → s ∈ listWorkspaceSessionIds (wt_layout ws)
  | _ => True
  end.

Lemma shell_step_keeps op sh n : consistent sh → fresh_at n sh → offered_op sh op →
  let '(sh', n') := shell_step op sh n in keeps sh sh' ∧ fresh_at n' sh'.
Proof.
  intros Hv Hf Hop. destruct op; cbn [shell_step offered_op] in *; unfold fret, fbind.
  - split; [by apply activate_keeps|]. unfold fresh_at, activateSessionContextInState.
    destruct (List.find _ _); cbn [show workspaces]; by rewrite ?ids_update.
  - split; [by apply focus_keeps|]. unfold fresh_at, focusWorkspaceSession.
    destruct (findTmuxGroupForWorkspace _ _); cbn [with_groups show workspaces]; by rewrite ids_update.
  - split; [by apply zoom_keeps|]. unfold fresh_at, toggleWorkspaceZoom. cbn [show workspaces].
    rewrite ids_update; [done|by intros w; case_decide].
  - split; [by apply broadcast_keeps|]. unfold fresh_at, toggleSessionBroadcast. cbn [show workspaces].
    rewrite ids_update; [done|]. intros w. unfold toggle_broadcast. repeat case_match; done.
  - split; [by apply resize_keeps|]. unfold fresh_at, resizeWorkspaceSplit. cbn [show workspaces].
    by rewrite ids_update.
  - pose proof (split_keeps sh sessionId direction target n Hv Hf) as Hs.
    by destruct (splitSessionIntoWorkspace sh sessionId direction target n) as [[sh' b] n'].
  - destruct (move_keeps sh workspaceId sessionId direction target n Hv) as (Hk & Hn & Hi).
    destruct (moveWorkspaceSession sh workspaceId sessionId direction target n) as [[sh' b] n'].
    cbn [fst snd] in *. split; [done|]. unfold fresh_at. rewrite Hi.
    eapply supply_fresh_step; [exact Hf|done|auto].
  - destruct (detach_keeps sh workspaceId sessionId Hv Hop) as [Hk Hi]. split; [done|].
    by eapply supply_fresh_sub.
  - split; [by apply reorder_keeps|]. unfold fresh_at, reorderDynamicTab.
    repeat case_match; done.
Qed.

Inductive session_op :=
| op_open (tab : TerminalTab (D:=D)) (attempt : PendingConnectionAttempt (D:=D))
| op_close (sessionId : jsstring)
| op_reconnect (prev next : jsstring) (transformTab : TerminalTab (D:=D) → TerminalTab (D:=D))
| op_screen (op : shell_op).

Definition session_step (op : session_op) st : fresh_m AppState :=
  match op with
  | op_open tab attempt => fret (open_session st tab attempt)
  | op_close s => fret (removeSessionFromState st s)
  | op_reconnect prev next tr => replaceSessionReferencesInState st prev next tr
  | op_screen op => let@ sh := shell_step op (shell st) in fret (with_shell st sh)
  end.

(** A new connection and a reconnection take ids that no open session has. *)
Definition possible st (op : session_op) : Prop :=
  match op with
  | op_open tab _ => tab_sessionId tab ∉ open_sessions (shell st)
  | op_close _ => True
  | op_reconnect _ next tr =>
      next ∉ open_sessions (shell st) ∧ ∀ tab, tab_sessionId (tr tab) = tab_sessionId tab
  | op_screen op => offered_op (shell st) op
  end.

(** What each operation does to the sessions on screen. *)
Definition effect (op : session_op) (l : list jsstring) : list jsstring :=
  match op with
  | op_open tab _ => tab_sessionId tab :: l
  | op_close s => others s l
  | op_reconnect prev next _ => rename_id prev next <$> l
  | op_screen _ => l
  end.

Inductive steps : list session_op → AppState * nat → AppState * nat → Prop :=
| steps_nil c : steps [] c c
| steps_cons op ops st n c : possible st op → steps ops (session_step op st n) c →
    steps (op :: ops) (st, n) c.

#[local] Instance effect_Permutation op : Proper ((≡ₚ) ==> (≡ₚ)) (effect op).
Proof. intros l k E. destruct op; simpl; by rewrite E. Qed.
#[local] Instance effects_Permutation ops : Proper ((≡ₚ) ==> (≡ₚ)) (λ l, foldl (λ l op, effect op l) l ops).
Proof. induction ops as [|op ops IH]; intros l k E; simpl; [done|]. apply IH. by rewrite E. Qed.

Lemma map_m_remap_mono (prev next : jsstring) (l : list (object (PendingHostKeyPrompt (Action:=D)))) n :
  n ≤ (map_m (remap prev next) l n).2.
Proof.
  revert n. induction l as [|p l IH]; intros n; [done|]. cbn [map_m]. unfold fbind, fret.
  assert (n ≤ (remap prev next p n).2) by (unfold remap; destruct (of_session prev p); simpl; lia).
  destruct (remap prev next p n) as [q n1]. specialize (IH n1).
  destruct (map_m (remap prev next) l n1) as [k n2]. simpl in *. lia.
Qed.

Lemma remap_prompts_mono (q : HostKeyPromptQueueState (Action:=D)) prev next n :
  n ≤ (remapHostKeyPromptSessionId q prev next n).2.
Proof.
  unfold remapHostKeyPromptSessionId, fbind, fret. destruct q as [[p|] q]; cbn [pendingHostKeyPrompt queuedHostKeyPrompts].
  - assert (n ≤ (remap prev next p n).2) by (unfold remap; destruct (of_session prev p); simpl; lia).
    destruct (remap prev next p n) as [p' n1]. simpl in *. pose proof (map_m_remap_mono prev next q n1).
    destruct (map_m (remap prev next) q n1) as [k n2]. simpl in *. lia.
  - pose proof (map_m_remap_mono prev next q n). by destruct (map_m (remap prev next) q n) as [k n2].
Qed.

Lemma session_step_ok op st n : consistent (shell st) → fresh_at n (shell st) → possible st op →
  let '(st', n') := session_step op st n in
  consistent (shell st') ∧ fresh_at n' (shell st')
  ∧ open_sessions (shell st') ≡ₚ effect op (open_sessions (shell st)).
Proof.
  intros Hv Hf Hop. destruct op as [tab attempt|s|prev next tr|op]; cbn [session_step effect]; unfold fret.
  - destruct (open_consistent st tab attempt Hv Hop) as [Hc Ho]. done.
  - destruct (remove_shell st s Hv) as [[Ho Hc] _]. split_and!; [done| |done].
    eapply supply_fresh_sub; [|exact Hf]. intros x.
    unfold removeSessionFromState. cbn [shell].
    rewrite (proj1 (proj2 (prefer_same _ _))), (proj1 (proj2 (restore_same _ _))).
    intros Hx. by apply close_panes_ids in Hx.
  - destruct Hop as [Hn Htr]. destruct (reconnect_consistent (shell st) prev next tr Hv Hn Htr) as (Hc & Ho & Hi).
    unfold replaceSessionReferencesInState, fbind, fret.
    pose proof (remap_prompts_mono (hostKeyPrompts st) prev next n) as Hle.
    destruct (remapHostKeyPromptSessionId (hostKeyPrompts st) prev next n) as [q n'].
    cbn [shell]. split_and!; [done| |by rewrite Ho].
    eapply supply_fresh_step; [exact Hf|exact Hle|]. rewrite Hi. auto.
  - pose proof (shell_step_keeps op (shell st) n Hv Hf Hop) as Hs. unfold fbind.
    destruct (shell_step op (shell st) n) as [sh' n']. destruct Hs as [(Ho & _ & Hc) Hf'].
    cbn [with_shell shell]. done.
Qed.

Lemma steps_ok ops st n st' n' : steps ops (st, n) (st', n') →
  consistent (shell st) → fresh_at n (shell st) →
  consistent (shell st')
  ∧ open_sessions (shell st') ≡ₚ foldl (λ l op, effect op l) (open_sessions (shell st)) ops.
Proof.
  intros Hs. remember (st, n) as c eqn:Ec. remember (st', n') as c' eqn:Ec'. revert st n Ec.
  induction Hs as [c|op ops st0 n0 c Hp _ IH]; intros st n Ec Hv Hf; subst.
  - injection Ec as -> ->. done.
  - injection Ec as -> ->. pose proof (session_step_ok op st n Hv Hf Hp) as Hok.
    destruct (session_step op st n) as [st1 n1]. destruct Hok as (Hv1 & Hf1 & Ho).
    destruct (IH eq_refl st1 n1 eq_refl Hv1 Hf1) as [Hc Ho']. split; [done|].
    rewrite Ho'. cbn [foldl]. by apply (effects_Permutation ops).
Qed.

End steps.
