(* ===== verification/WorkspaceFacts.v ===== *)
(** * What the tab shell's reducers promise

    Fresh titles, the focus after a tab closes, the limits of a split
    workspace, and what a reconnection carries over. *)

From S2P Require Import Prelude Collections JsNumber Models SavedWorkspace WorkspaceLayout.
From S2P Require Import HostKeyPrompts InteractiveAuth WorkspaceState WorkspaceReducers WorkspaceInvariant WorkspaceMachine.

(** ** Titles *)

Lemma suffixed_inj label j k : suffixed label j = suffixed label k → j = k.
Proof.
  unfold suffixed. intros E. apply app_inv_head, app_inv_head, app_inv_tail in E. by apply show_N_inj.
Qed.

Lemma free_suffix_spec fuel titles label k :
  let r := free_suffix fuel titles label k in
  (k ≤ r)%N ∧ (∀ j, (k ≤ j < r)%N → suffixed label j ∈ titles)
  ∧ (suffixed label r ∉ titles ∨ r = (k + N.of_nat fuel)%N).
Proof.
  revert k. induction fuel as [|fuel IH]; intros k; cbn [free_suffix]; [split_and!; [lia|lia|right; lia]|].
  destruct (shas (suffixed label k) titles) eqn:E.
  - apply shas_spec in E. destruct (IH (k + 1)%N) as (H1 & H2 & H3). split_and!; [lia| |].
    + intros j Hj. destruct (decide (j = k)) as [->|]; [done|]. apply H2. lia.
    + destruct H3 as [?|H3]; [by left|right; lia].
  - split_and!; [lia|lia|]. left. intros Hin. by rewrite (proj2 (shas_spec _ _) Hin) in E.
Qed.

(** Pigeonhole: more candidates than titles are never all taken. *)
Lemma free_suffix_free fuel titles label k : length titles < fuel →
  suffixed label (free_suffix fuel titles label k) ∉ titles.
Proof.
  intros Hf. destruct (free_suffix_spec fuel titles label k) as (_ & Hall & [?|Hr]); [done|].
  exfalso. rewrite Hr in Hall.
  assert (Hsub : (λ i, suffixed label (k + N.of_nat i)) <$> seq 0 fuel ⊆+ titles).
  { apply NoDup_submseteq.
    - apply NoDup_fmap_2_strong; [|apply NoDup_seq]. intros i j _ _ E. apply suffixed_inj in E. lia.
    - intros x (i & -> & Hi%elem_of_seq)%list_elem_of_fmap. apply Hall. lia. }
  apply submseteq_length in Hsub. rewrite length_fmap, length_seq in Hsub. lia.
Qed.

(** The title is the label itself if it is free, and otherwise has the least free suffix. *)
Definition first_free (titles : list jsstring) (label title : jsstring) : Prop :=
  title ∉ titles
  ∧ (label ∉ titles → title = label)
  ∧ (label ∈ titles → ∃ k, (1 ≤ k)%N ∧ title = suffixed label k
       ∧ ∀ j, (1 ≤ j < k)%N → suffixed label j ∈ titles).

Lemma title_among_first_free titles label : first_free titles label (title_among titles label).
Proof.
  unfold title_among. destruct (shas label titles) eqn:E.
  - apply shas_spec in E. split_and!; [apply free_suffix_free; lia|done|]. intros _.
    destruct (free_suffix_spec (S (length titles)) titles label 1) as (H1 & H2 & _).
    exists (free_suffix (S (length titles)) titles label 1). done.
  - assert (label ∉ titles) by (rewrite <- (shas_spec label titles); by rewrite E). split_and!; done.
Qed.

Lemma free_suffix_fuel f1 f2 titles label k : length titles < f1 → length titles < f2 →
  free_suffix f1 titles label k = free_suffix f2 titles label k.
Proof.
  intros H1 H2. destruct (free_suffix_spec f1 titles label k) as (L1 & A1 & _).
  destruct (free_suffix_spec f2 titles label k) as (L2 & A2 & _).
  pose proof (free_suffix_free f1 titles label k H1) as F1.
  pose proof (free_suffix_free f2 titles label k H2) as F2.
  destruct (N.lt_total (free_suffix f1 titles label k) (free_suffix f2 titles label k)) as [H|[H|H]]; [|done|].
  - destruct F1. apply A2. lia.
  - destruct F2. apply A1. lia.
Qed.

(** The searches for an unused title end: with as many rounds as there are
    titles they have found one, and more rounds change nothing; the title is
    used by no tab of its scope (no workspace), it is the plain label if that
    is free, and carries the least free number otherwise. *)
Theorem titles_are_fresh {D} (label : jsstring) (scope : option jsstring) (ts : list (TerminalTab (D:=D)))
    (wss : list WorkspaceTab) :
  first_free (tab_title <$> List.filter (in_scope scope) ts) label (buildSessionTitle label scope ts)
  ∧ first_free (wt_title <$> wss) (js "Workspace") (buildWorkspaceTitle wss)
  ∧ (∀ titles l k fuel, length titles < fuel →
       free_suffix fuel titles l k = free_suffix (S (length titles)) titles l k).
Proof.
  assert (Hsof : ∀ titles l, first_free titles l (title_among (sof titles) l)).
  { intros titles l. destruct (title_among_first_free (sof titles) l) as (H1 & H2 & H3).
    unfold first_free. rewrite !elem_sof in *. split_and!; [done..|].
    intros Hl. destruct (H3 Hl) as (k & ? & ? & Hj). exists k. split_and!; [done..|].
    intros j Hjk. apply elem_sof. by apply Hj. }
  split_and!.
  - apply Hsof.
  - apply Hsof.
  - intros titles l k fuel Hf. apply free_suffix_fuel; lia.
Qed.

Section facts.
Context {D : Type} `{UuidSupply}.
Implicit Types (sh : Shell (D:=D)) (st : AppState (D:=D)).

(** ** Focus after closing *)

(** What closing [s] does to a dynamic tab that is active. *)
Definition survives sh (s : jsstring) (t : WorkspaceTabId) : Prop :=
  t ≠ asSessionTabId s
  ∧ match t with
    | asWorkspaceTabId id => ∀ w, w ∈ workspaces sh → wt_id w = id →
        s ∈ listWorkspaceSessionIds (wt_layout w) → 2 < length (listWorkspaceSessionIds (wt_layout w))
    | _ => True
    end.

Lemma others_length s l : NoDup l → s ∈ l → length l = S (length (others s l)).
Proof. intros Hl Hs. rewrite (others_perm s l Hl Hs) at 1. done. Qed.

Lemma close_panes_active sh s : consistent sh → survives sh s (activeWorkspaceTab sh) →
  activeWorkspaceTab (close_panes (close_tab sh s) s) = activeWorkspaceTab sh.
Proof.
  intros Hv [Hne Hs]. unfold close_panes. cbn [close_tab tabStrip workspaces activeWorkspaceTab].
  destruct (List.find (owns s) (workspaces sh)) as [w|] eqn:Ef; [|cbn; by rewrite decide_False].
  apply find_owns in Ef as [Hw Hsw]. pose proof (remove_sessions (wt_layout w) s) as Hr.
  pose proof (others_length s _ (pane_NoDup sh w Hv Hw) Hsw) as Hl. unfold others in Hl.
  destruct (removeSessionFromWorkspaceLayout (wt_layout w) s) as [[leaf|id axis ratio a b]|]; [|done|];
    cbn [show activeWorkspaceTab]; case_decide as Ha; try done;
    rewrite Ha in Hs; specialize (Hs w Hw eq_refl Hsw).
  - rewrite <- Hr in Hl. simpl in Hl. lia.
  - rewrite Hr in Hl. simpl in Hl. lia.
Qed.

(** A dynamic tab that is active and not affected by a closing stays active,
    and as long as any tab is left in the strip the window never falls back to a
    fixed tab (Home, SFTP, containers) - not even when a fixed tab was active. *)
Theorem removeSessionFromState_focus st s : consistent (shell st) →
  let sh' := shell (removeSessionFromState st s) in
  (is_dynamic (activeWorkspaceTab (shell st)) = true → survives (shell st) s (activeWorkspaceTab (shell st)) →
     activeWorkspaceTab sh' = activeWorkspaceTab (shell st))
  ∧ (tabStrip sh' ≠ [] → is_dynamic (activeWorkspaceTab sh') = true)
  ∧ (tabStrip sh' = [] → is_dynamic (activeWorkspaceTab (shell st)) = false →
     activeWorkspaceTab sh' = activeWorkspaceTab (shell st)).
Proof.
  intros Hv sh'. subst sh'. unfold removeSessionFromState. cbn [shell]. split_and!.
  - intros Hd Hs. rewrite decide_False by apply Hs. unfold restore_target. cbn [mbind option_bind].
    pose proof (close_panes_active (shell st) s Hv Hs) as E.
    unfold prefer_dynamic. by rewrite E, Hd.
  - set (r := restore_target _ _). set (i := findIndex _ _).
    destruct (prefer_same r i) as (E & _). rewrite E. apply prefer_is_dynamic.
    intros k Hk. unfold r. rewrite (proj1 (restore_same _ _)). by apply (close_panes_index _ _ k Hv).
  - intros He Hd.
    assert (Hs : survives (shell st) s (activeWorkspaceTab (shell st)))
      by (split; destruct (activeWorkspaceTab (shell st)); done).
    revert He. rewrite decide_False by apply Hs. unfold restore_target. cbn [mbind option_bind].
    unfold prefer_dynamic. rewrite close_panes_active, Hd by done. cbn [negb andb].
    case_bool_decide; cbn [negb]; [|done]. intros _. by apply close_panes_active.
Qed.

(** ** Splitting *)

Lemma split_target_named sh s x target : resolveWorkspaceSplitTarget sh s (Some x) = Some target → x ≠ s →
  split_sessionId target = x.
Proof.
  unfold resolveWorkspaceSplitTarget. intros Ht Hx. destruct (_ || _); [done|]. revert Ht. unfold split_candidate.
  rewrite decide_False by done. destruct (isStandalone sh x).
  - destruct (opt_truthy (Some x)) as [id|] eqn:E; [|done]. apply opt_truthy_Some in E as [[= ->] _].
    destruct (_ || _); [done|]. destruct (isStandalone sh id); [|done]. by intros [= <-].
  - destruct (List.find _ _); [|done].
    destruct (opt_truthy (Some x)) as [id|] eqn:E; [|done]. apply opt_truthy_Some in E as [[= ->] _].
    destruct (_ || _); [done|]. destruct (_ || _); [done|]. by intros [= <-].
Qed.

(** The workspace a split leaves in front of the user. *)
Definition split_result sh (s : jsstring) (t : option jsstring) sh' (w : WorkspaceTab) : Prop :=
  w ∈ workspaces sh' ∧ activeWorkspaceTab sh' = asWorkspaceTabId (wt_id w)
  ∧ wt_activeSessionId w = s ∧ s ∈ listWorkspaceSessionIds (wt_layout w)
  ∧ (∀ x, t = Some x → x ≠ s → x ∈ listWorkspaceSessionIds (wt_layout w))
  ∧ 2 ≤ length (listWorkspaceSessionIds (wt_layout w)) ≤ 4
  ∧ (∀ x, x ∈ listWorkspaceSessionIds (wt_layout w) → isSplittable sh x = true)
  ∧ wt_tmux w = None ∧ wt_zoomedSessionId w = None
  ∧ (∀ v, v ∈ workspaces sh' → wt_id v ≠ wt_id w → v ∈ workspaces sh).

Lemma split_result_join sh s d t target i n : consistent sh →
  split_sessionId target ≠ s → isSplittable sh s = true → isSplittable sh (split_sessionId target) = true →
  (∀ x, t = Some x → x ≠ s → split_sessionId target = x) →
  let '(layout, n') := createWorkspaceSplit (split_sessionId target) s d (S n) in
  let w := new_workspace (uuid n) (buildWorkspaceTitle (workspaces sh)) s layout in
  ∀ strip, split_result sh s t
    (show sh (insert_at i (item_workspace (uuid n)) strip) (workspaces sh ++ [w]) (asWorkspaceTabId (uuid n))) w.
Proof.
  intros Hv Hne Hs Ht Hx. unfold createWorkspaceSplit, createWorkspaceLeaf, fbind, fret, randomUUID.
  intros strip.
  assert (Hids : ∀ (b : bool) x l1 l2,
    x ∈ listWorkspaceSessionIds (LSplit (uuid (S (S (S n)))) (directionAxis d) ratio_half
      (if b then LLeaf l1 else LLeaf l2) (if b then LLeaf l2 else LLeaf l1))
    ↔ x = leaf_sessionId l1 ∨ x = leaf_sessionId l2).
  { intros [] x l1 l2; cbn; set_solver. }
  unfold split_result. cbn [show workspaces activeWorkspaceTab new_workspace wt_id wt_activeSessionId wt_layout
    wt_tmux wt_zoomedSessionId].
  split_and!; try done.
  - set_solver.
  - apply Hids. by left.
  - intros x Et Hxs. apply Hids. right. by rewrite (Hx x Et Hxs).
  - destruct (prepends d); simpl; lia.
  - destruct (prepends d); simpl; lia.
  - intros x [->| ->]%Hids; done.
  - intros v [?| ->%list_elem_of_singleton]%elem_of_app Hn; [done|]. by destruct Hn.
Qed.


(** ** Reconnecting *)

Lemma map_m_remap_fields prev next (l : list (object (PendingHostKeyPrompt (Action:=D)))) n :
  fields <$> (map_m (remap prev next) l n).1 = remap_fields prev next <$> (fields <$> l).
Proof.
  revert n. induction l as [|p l IH]; intros n; [done|]. cbn [map_m]. unfold fbind, fret.
  assert (Ef : fields (remap prev next p n).1 = remap_fields prev next (fields p)).
  { unfold remap, remap_fields, of_session, prompt_session, new, fret.
    destruct (decide (prompt_sessionId (fields p) = Some prev));
      [by rewrite bool_decide_true by done|by rewrite bool_decide_false by done]. }
  destruct (remap prev next p n) as [p' n1]. specialize (IH n1).
  destruct (map_m (remap prev next) l n1) as [k n2]. cbn [fst] in *.
  by rewrite !fmap_cons, Ef, IH.
Qed.

Lemma move_key_next {V} (prev next : jsstring) (m : gmap jsstring V) v : m !! prev = Some v →
  move_key prev next m !! next = Some v.
Proof. unfold move_key. intros ->. apply lookup_insert_eq. Qed.
Lemma move_key_prev {V} (prev next : jsstring) (m : gmap jsstring V) : prev ≠ next → move_key prev next m !! prev = None.
Proof.
  unfold move_key. intros Hne. destruct (m !! prev); [rewrite lookup_insert_ne by done|]; apply lookup_delete_eq.
Qed.

End facts.

(** ** Concrete inputs *)

Section demo.
#[local] Existing Instance demo_uuid.

Definition demo_tab (s : string) : TerminalTab (D:=unit) :=
  {| tab_id := js s; tab_stableId := js "term:" ++ js s; tab_sessionId := js s; tab_source := src_host;
     tab_hostId := Some (js "h1"); tab_title := js "web"; tab_paneKind := None; tab_tmux := false;
     tab_details := tt |}.
Definition demo_attempt (s : string) : PendingConnectionAttempt (D:=unit) :=
  {| attempt_sessionId := js s; attempt_hostId := Some (js "h1"); attempt_details := tt |}.

(** The window as it starts. *)
Definition demo_start : AppState (D:=unit) :=
  {| shell := {| tabs := []; tabStrip := []; workspaces := []; tmuxGroups := []; containerTabs := [];
       activeWorkspaceTab := tab_home; homeSection := hs_hosts; settingsSection := ss_general;
       activeContainerHostId := None |};
     hostKeyPrompts := empty_queue; pendingCredentialRetry := None; activeCredentialRetryAttempt := None;
     pendingInteractiveAuths := []; pendingConnectionAttempts := []; sessionReturnTargets := ∅;
     resolvedStartupCommandsBySessionId := ∅; sessionContainerTunnels := ∅;
     sessionShareChatNotifications := ∅; rttHistory := ∅; sessionScopedState := ∅ |}.

(** Three connections; the third is dropped on the first, and it reconnects. *)
Definition demo_ops : list (session_op (D:=unit)) :=
  [ op_open (demo_tab "s1") (demo_attempt "s1"); op_open (demo_tab "s2") (demo_attempt "s2");
    op_open (demo_tab "s3") (demo_attempt "s3");
    op_screen (so_split (js "s3") dir_right (Some (js "s1")));
    op_reconnect (js "s3") (js "s9") (λ tab, tab) ].

Fixpoint run_ops (ops : list (session_op (D:=unit))) (c : AppState * nat) : AppState * nat :=
  match ops with [] => c | op :: ops' => run_ops ops' (session_step op c.1 c.2) end.
Definition demo_end : AppState * nat := run_ops demo_ops (demo_start, 0).
Definition demo_joined : AppState * nat := run_ops (take 4 demo_ops) (demo_start, 0).

Lemma demo_notin (s : string) (l : list jsstring) : bool_decide (js s ∈ l) = false → js s ∉ l.
Proof. apply bool_decide_eq_false_1. Qed.

Ltac possible_demo :=
  first [ apply demo_notin; vm_compute; reflexivity | exact I
        | split; [apply demo_notin; vm_compute; reflexivity|done] ].

Lemma demo_steps : steps demo_ops (demo_start, 0) demo_end.
Proof.
  unfold demo_end, demo_ops. cbn [run_ops fst snd].
  repeat (apply steps_cons; [possible_demo|]). apply steps_nil.
Qed.
Lemma demo_joined_steps : steps (take 4 demo_ops) (demo_start, 0) demo_joined.
Proof.
  unfold demo_joined, demo_ops. cbn [take run_ops fst snd].
  repeat (apply steps_cons; [possible_demo|]). apply steps_nil.
Qed.

Lemma demo_start_consistent : consistent (shell demo_start).
Proof. split; cbn; try (by constructor); try set_solver. Qed.

Lemma demo_fresh n (l : list jsstring) : l = [] → supply_fresh n l.
Proof.
  intros ->. split; [|intros; apply not_elem_of_nil]. intros i j _ _ E. unfold uuid, demo_uuid in E.
  apply app_inv_head, show_N_inj in E. lia.
Qed.


Lemma demo_joined_consistent : consistent (shell demo_joined.1).
Proof.
  pose proof demo_joined_steps as Hs. rewrite (surjective_pairing demo_joined) in Hs.
  by destruct (steps_ok _ _ _ _ _ Hs demo_start_consistent (demo_fresh 0 _ eq_refl)).
Qed.


Lemma removeSessionFromState_focus_witness :
  is_dynamic (activeWorkspaceTab (shell (removeSessionFromState demo_joined.1 (js "s1")))) = true.
Proof.
  refine (proj1 (proj2 (removeSessionFromState_focus demo_joined.1 (js "s1") demo_joined_consistent)) _).
  vm_compute. discriminate.
Defined.


Lemma demo_joined_queue : queue_ok 5 (hostKeyPrompts demo_joined.1).
Proof.
  assert (hostKeyPrompts demo_joined.1 = queue_of []) as -> by (vm_compute; reflexivity).
  apply queue_ok_of. repeat split; constructor.
Qed.


Lemma titles_are_fresh_witness :
  buildSessionTitle (js "web") (Some (js "h1")) (tabs (shell demo_joined.1)) ∉ [js "web"].
Proof.
  pose proof (proj1 (proj1 (titles_are_fresh (js "web") (Some (js "h1")) (tabs (shell demo_joined.1)) []))) as Hf.
  intros Hin. apply Hf. apply list_elem_of_singleton in Hin. rewrite Hin. vm_compute. left.
Defined.
End demo.
