(* ===== verification/CoreFraming.v ===== *)
(** * Frames between the app and its cores (apps/desktop/src/main/core-framing.ts)

    A frame is a nine-byte header, a JSON text and a binary payload.  The
    parser assembles frames from chunks of any sizes in one growing buffer with a
    read cursor; its specification is a plain list of pending bytes. *)

From S2P Require Import Prelude Collections.

Definition FRAME_HEADER_SIZE : N := 9.
Definition kind_control : N := 1.
Definition kind_stream : N := 2.
Definition INITIAL_CAPACITY : N := 128 * 1024.
Definition RETAINED_CAPACITY : N := 4 * 1024 * 1024.

(** [JSON.stringify] to UTF-8 and back, for the messages of the cores. *)
Class JsonCodec (Msg : Type) := {
  json_bytes : Msg → list N;
  json_parse : list N → option Msg;
  json_roundtrip m : json_parse (json_bytes m) = Some m;
}.

(** [Buffer.allocUnsafe(n)]: [n] bytes of anything. *)
Class AllocUnsafe := {
  allocUnsafe : N → list N;
  allocUnsafe_length n : length (allocUnsafe n) = N.to_nat n;
}.

Definition lenN {A} (l : list A) : N := N.of_nat (length l).

Definition be32 (n : N) : list N :=
  [ n / 16777216 mod 256; n / 65536 mod 256; n / 256 mod 256; n mod 256 ]%N.
Definition read32 (l : list N) (i : nat) : N :=
  (l !!! i * 16777216 + l !!! S i * 65536 + l !!! S (S i) * 256 + l !!! S (S (S i)))%N.

(** [buffer.subarray(a, b)], and [src.copy(dst, at)] as the new [dst]. *)
Definition subarray (l : list N) (a b : N) : list N := take (N.to_nat (b - a)) (drop (N.to_nat a) l).
Definition copy_at (src dst : list N) (at_ : N) : list N :=
  let src := take (length dst - N.to_nat at_) src in
  take (N.to_nat at_) dst ++ src ++ drop (N.to_nat at_ + length src) dst.

Section framing.
Context {Msg : Type} `{JsonCodec Msg}.

(** ** Encoding *)

(** [writeUInt32BE] throws outside 32 bits. *)
Definition encodeHeader (kind metadataLength payloadLength : N) : result (list N) :=
  if ((metadataLength <? 2 ^ 32) && (payloadLength <? 2 ^ 32))%N
  then Ok (kind :: be32 metadataLength ++ be32 payloadLength)
  else Throw "ERR_OUT_OF_RANGE".

Definition encode_frame (kind : N) (message : Msg) (payload : list N) : result (list N) :=
  let metadata := json_bytes message in
  let! header := encodeHeader kind (lenN metadata) (lenN payload) in
  Ok (header ++ metadata ++ payload).

Definition encodeControlFrameOf (message : Msg) : result (list N) := encode_frame kind_control message [].
Definition encodeControlFrameWithPayload (message : Msg) (payload : list N) : result (list N) :=
  encode_frame kind_control message payload.
Definition encodeStreamFrame (metadata : Msg) (payload : list N) : result (list N) :=
  encode_frame kind_stream metadata payload.

(** ** Parsing *)

Inductive ParsedFrame :=
| ParsedControlFrame (metadata : Msg)
| ParsedStreamFrame (metadata : Msg) (payload : list N).

(** The frame of a kind: only stream frames hand out their payload. *)
Definition parsed (kind : N) (metadata : list N) (payload : list N) : result ParsedFrame :=
  if (kind =? kind_control)%N then
    match json_parse metadata with Some m => Ok (ParsedControlFrame m) | None => Throw "SyntaxError" end
  else if (kind =? kind_stream)%N then
    match json_parse metadata with Some m => Ok (ParsedStreamFrame m payload) | None => Throw "SyntaxError" end
  else Throw "Unknown core frame kind".

Context `{AllocUnsafe}.

Record CoreFrameParser := { buffer : list N; start : N; end_ : N }.

Definition new_parser : CoreFrameParser :=
  {| buffer := allocUnsafe INITIAL_CAPACITY; start := 0; end_ := 0 |}.

(** [while (capacity < needed) capacity *= 2] *)
Fixpoint grow (fuel : nat) (capacity needed : N) : N :=
  match fuel with
  | O => capacity
  | S fuel' => if (capacity <? needed)%N then grow fuel' (capacity * 2) needed else capacity
  end.

Definition append (p : CoreFrameParser) (chunk : list N) : CoreFrameParser :=
  let pending := (end_ p - start p)%N in
  let needed := (pending + lenN chunk)%N in
  let p' :=
    if (lenN (buffer p) <? needed)%N then
      let grown := allocUnsafe (grow (N.to_nat (N.size needed)) (lenN (buffer p)) needed) in
      {| buffer := copy_at (subarray (buffer p) (start p) (end_ p)) grown 0; start := 0; end_ := pending |}
    else if (lenN (buffer p) <? end_ p + lenN chunk)%N then
      {| buffer := copy_at (subarray (buffer p) (start p) (end_ p)) (buffer p) 0; start := 0; end_ := pending |}
    else p in
  {| buffer := copy_at chunk (buffer p') (end_ p'); start := start p'; end_ := end_ p' + lenN chunk |}.

Definition reclaim (p : CoreFrameParser) : CoreFrameParser :=
  if (start p =? end_ p)%N then
    {| buffer := if (RETAINED_CAPACITY <? lenN (buffer p))%N then allocUnsafe INITIAL_CAPACITY else buffer p;
       start := 0; end_ := 0 |}
  else p.

(** The loop of [push]: the frames in order, or the exception; the cursor. *)
Fixpoint read_frames (fuel : nat) (p : CoreFrameParser) : CoreFrameParser * result (list ParsedFrame) :=
  match fuel with
  | O => (p, Ok [])
  | S fuel' =>
      if (end_ p - start p <? FRAME_HEADER_SIZE)%N then (p, Ok []) else
      let kind := buffer p !!! N.to_nat (start p) in
      let metadataLength := read32 (buffer p) (N.to_nat (start p + 1)) in
      let payloadLength := read32 (buffer p) (N.to_nat (start p + 5)) in
      let totalLength := (FRAME_HEADER_SIZE + metadataLength + payloadLength)%N in
      if (end_ p - start p <? totalLength)%N then (p, Ok []) else
      let metadataStart := (start p + FRAME_HEADER_SIZE)%N in
      let metadataEnd := (metadataStart + metadataLength)%N in
      let payloadEnd := (metadataEnd + payloadLength)%N in
      match parsed kind (subarray (buffer p) metadataStart metadataEnd)
              (subarray (buffer p) metadataEnd payloadEnd) with
      | Throw m => (p, Throw m)
      | Ok frame =>
          let '(p', frames) := read_frames fuel' {| buffer := buffer p; start := payloadEnd; end_ := end_ p |} in
          (p', let! frames := frames in Ok (frame :: frames))
      end
  end.

(** Each frame takes at least its header, so this many rounds are enough. *)
Definition push_fuel (p : CoreFrameParser) : nat := S (N.to_nat (end_ p - start p)).

Definition push (p : CoreFrameParser) (chunk : list N) : CoreFrameParser * result (list ParsedFrame) :=
  let p := append p chunk in
  let '(p', frames) := read_frames (push_fuel p) p in
  match frames with
  | Throw m => (p', Throw m)
  | Ok frames => (reclaim p', Ok frames)
  end.

(** A sequence of chunks, as long as none throws. *)
Fixpoint push_all (p : CoreFrameParser) (chunks : list (list N)) : CoreFrameParser * result (list ParsedFrame) :=
  match chunks with
  | [] => (p, Ok [])
  | c :: chunks' =>
      match push p c with
      | (p', Throw m) => (p', Throw m)
      | (p', Ok frames) =>
          let '(p'', rest) := push_all p' chunks' in (p'', let! rest := rest in Ok (frames ++ rest))
      end
  end.

(** ** The specification: a list of pending bytes *)

(** The first frame of the bytes, if they hold all of it, and what follows it. *)
Definition spec_frame (c : list N) : option (result ParsedFrame * list N) :=
  if (lenN c <? FRAME_HEADER_SIZE)%N then None else
  let m := read32 c 1 in
  let k := read32 c 5 in
  if (lenN c <? FRAME_HEADER_SIZE + m + k)%N then None else
  let body := drop 9 c in
  Some (parsed (c !!! 0) (take (N.to_nat m) body) (take (N.to_nat k) (drop (N.to_nat m) body)),
        drop (N.to_nat k) (drop (N.to_nat m) body)).

Fixpoint spec_frames (fuel : nat) (c : list N) : list N * result (list ParsedFrame) :=
  match fuel with
  | O => (c, Ok [])
  | S fuel' =>
      match spec_frame c with
      | None => (c, Ok [])
      | Some (Throw m, _) => (c, Throw m)
      | Some (Ok frame, rest) =>
          let '(c', frames) := spec_frames fuel' rest in (c', let! frames := frames in Ok (frame :: frames))
      end
  end.
Definition spec_push (c : list N) (chunk : list N) : list N * result (list ParsedFrame) :=
  spec_frames (S (length (c ++ chunk))) (c ++ chunk).

(** The parser holds [c] pending, somewhere in its buffer. *)
Definition reps (p : CoreFrameParser) (c : list N) : Prop :=
  ∃ l1 l2, buffer p = l1 ++ c ++ l2 ∧ start p = lenN l1 ∧ end_ p = (lenN l1 + lenN c)%N
    ∧ (0 < lenN (buffer p))%N.

Lemma lenN_app {A} (l k : list A) : lenN (l ++ k) = (lenN l + lenN k)%N.
Proof. unfold lenN. rewrite length_app. lia. Qed.

Lemma subarray_middle l1 c l2 : subarray (l1 ++ c ++ l2) (lenN l1) (lenN l1 + lenN c) = c.
Proof.
  unfold subarray, lenN. rewrite Nat2N.id, drop_app_length.
  replace (N.to_nat _) with (length c) by lia. apply take_app_length.
Qed.

Lemma subarray_shift l1 c l2 a b : (a ≤ b ≤ lenN c)%N →
  subarray (l1 ++ c ++ l2) (lenN l1 + a) (lenN l1 + b) = take (N.to_nat (b - a)) (drop (N.to_nat a) c).
Proof.
  unfold subarray, lenN. intros Hab.
  replace (N.to_nat (N.of_nat (length l1) + a)) with (length l1 + N.to_nat a) by lia.
  rewrite <- drop_drop, drop_app_length.
  replace (N.of_nat (length l1) + b - (N.of_nat (length l1) + a))%N with (b - a)%N by lia.
  rewrite drop_app_le by lia. rewrite take_app_le; [done|]. rewrite length_drop. lia.
Qed.

Lemma lookup_middle (l1 c l2 : list N) i : i < length c → (l1 ++ c ++ l2) !!! (length l1 + i) = c !!! i.
Proof.
  intros Hi. rewrite lookup_total_app_r by lia. replace (length l1 + i - length l1) with i by lia.
  by apply lookup_total_app_l.
Qed.

Lemma read32_middle l1 c l2 i : i + 3 < length c → read32 (l1 ++ c ++ l2) (length l1 + i) = read32 c i.
Proof.
  intros Hi. unfold read32. rewrite <- !Nat.add_succ_r. by rewrite !lookup_middle by lia.
Qed.

Lemma copy_at_fits src dst k l : dst = k ++ l → length src ≤ length l →
  copy_at src dst (lenN k) = k ++ src ++ drop (length src) l.
Proof.
  intros -> Hl. unfold copy_at, lenN. rewrite Nat2N.id, length_app.
  rewrite (firstn_all2 src) by lia. rewrite take_app_length.
  f_equal. f_equal. rewrite <- drop_drop, drop_app_length. done.
Qed.

Lemma grow_enough fuel capacity needed : (0 < capacity)%N → (needed ≤ capacity * 2 ^ N.of_nat fuel)%N →
  (needed ≤ grow fuel capacity needed)%N.
Proof.
  revert capacity. induction fuel as [|fuel IH]; intros capacity Hc Hn; cbn [grow].
  - rewrite N.pow_0_r in Hn. lia.
  - destruct (N.ltb_spec capacity needed); [|done]. apply IH; [lia|].
    rewrite Nat2N.inj_succ, N.pow_succ_r' in Hn. lia.
Qed.

Lemma grow_needed capacity needed : (0 < capacity)%N →
  (needed ≤ grow (N.to_nat (N.size needed)) capacity needed)%N.
Proof.
  intros Hc. apply grow_enough; [done|]. rewrite N2Nat.id. pose proof (N.size_gt needed). nia.
Qed.

Lemma append_reps p c chunk : reps p c → reps (append p chunk) (c ++ chunk).
Proof.
  intros (l1 & l2 & Eb & Es & Ee & Hpos). unfold append. cbv zeta.
  replace (end_ p - start p)%N with (lenN c) by lia.
  assert (Hsub : subarray (buffer p) (start p) (end_ p) = c) by (rewrite Eb, Es, Ee; apply subarray_middle).
  assert (Hgo : ∀ b k l s, b = k ++ l → (∃ k1, k = k1 ++ c ∧ s = lenN k1) → length chunk ≤ length l →
    (0 < lenN b)%N →
    reps {| buffer := copy_at chunk b (lenN k); start := s; end_ := lenN k + lenN chunk |} (c ++ chunk)).
  { intros b k l s -> (k1 & -> & ->) Hl Hb. rewrite (copy_at_fits chunk _ (k1 ++ c) l) by done.
    exists k1, (drop (length chunk) l). cbn. rewrite !lenN_app in *.
    rewrite <- !(assoc_L (++)). split_and!; [done|done|lia|].
    unfold lenN in *. rewrite length_drop. lia. }
  destruct (N.ltb_spec (lenN (buffer p)) (lenN c + lenN chunk)).
  - pose proof (grow_needed (lenN (buffer p)) (lenN c + lenN chunk) Hpos) as Hg.
    set (g := grow _ _ _) in *. pose proof (allocUnsafe_length g) as Ha.
    set (a := allocUnsafe g) in *. clearbody a. cbn [buffer start end_]. rewrite Hsub.
    change 0%N with (lenN (@nil N)). rewrite (copy_at_fits c a [] a) by (done || unfold lenN in *; lia).
    apply (Hgo _ c (drop (length c) a)); [done|by exists []| |].
    + rewrite length_drop. unfold lenN in *. lia.
    + unfold lenN in *. rewrite !length_app, length_drop. simpl. lia.
  - destruct (N.ltb_spec (lenN (buffer p)) (end_ p + lenN chunk)).
    + cbn [buffer start end_]. rewrite Hsub. change 0%N with (lenN (@nil N)).
      assert (length c ≤ length (buffer p)) by (rewrite Eb, !length_app; lia).
      rewrite (copy_at_fits c (buffer p) [] (buffer p)) by done.
      apply (Hgo _ c (drop (length c) (buffer p))); [done|by exists []| |].
      * rewrite length_drop. unfold lenN in *. lia.
      * unfold lenN in *. rewrite !length_app, length_drop. simpl. lia.
    + rewrite Es, Ee. rewrite <- lenN_app. apply (Hgo _ (l1 ++ c) l2); [|by exists l1| |done].
      * rewrite Eb. by rewrite (assoc_L (++)).
      * rewrite Eb, Ee, !lenN_app in *. unfold lenN in *. lia.
Qed.

Lemma reclaim_reps p c : reps p c → reps (reclaim p) c.
Proof.
  intros (l1 & l2 & Eb & Es & Ee & Hpos). unfold reclaim.
  destruct (N.eqb_spec (start p) (end_ p)) as [E|E]; [|by exists l1, l2].
  assert (c = []) as -> by (destruct c; [done|unfold lenN in *; simpl in *; lia]).
  exists []. destruct (RETAINED_CAPACITY <? lenN (buffer p))%N; eexists; cbn; split_and!; try done.
  unfold lenN. rewrite allocUnsafe_length. done.
Qed.

(** One round of the loop. *)
Lemma frame_at l1 c l2 m k : (FRAME_HEADER_SIZE + m + k ≤ lenN c)%N →
  subarray (l1 ++ c ++ l2) (lenN l1 + FRAME_HEADER_SIZE) (lenN l1 + FRAME_HEADER_SIZE + m)
    = take (N.to_nat m) (drop 9 c)
  ∧ subarray (l1 ++ c ++ l2) (lenN l1 + FRAME_HEADER_SIZE + m) (lenN l1 + FRAME_HEADER_SIZE + m + k)
    = take (N.to_nat k) (drop (N.to_nat m) (drop 9 c))
  ∧ ∃ l3, l1 ++ c ++ l2 = l3 ++ drop (N.to_nat k) (drop (N.to_nat m) (drop 9 c)) ++ l2
      ∧ lenN l3 = (lenN l1 + FRAME_HEADER_SIZE + m + k)%N.
Proof.
  unfold FRAME_HEADER_SIZE. intros Hl. split_and!.
  - rewrite <- N.add_assoc. rewrite subarray_shift by lia. f_equal. lia.
  - rewrite <- !N.add_assoc. rewrite subarray_shift by lia. rewrite drop_drop. f_equal; [lia|]. f_equal. lia.
  - exists (l1 ++ take (9 + N.to_nat m + N.to_nat k) c). rewrite !drop_drop. split.
    + rewrite <- !(assoc_L (++)). f_equal. rewrite (assoc_L (++)).
      replace (9 + (N.to_nat m + N.to_nat k)) with (9 + N.to_nat m + N.to_nat k) by lia. by rewrite take_drop.
    + rewrite lenN_app. unfold lenN in *. rewrite length_take. lia.
Qed.

Lemma read_frames_refines fuel p c : reps p c →
  (read_frames fuel p).2 = (spec_frames fuel c).2 ∧ reps (read_frames fuel p).1 (spec_frames fuel c).1.
Proof.
  revert p c. induction fuel as [|fuel IH]; intros p c Hp; [done|].
  destruct Hp as (l1 & l2 & Eb & Es & Ee & Hpos). cbn [read_frames spec_frames]. unfold spec_frame.
  replace (end_ p - start p)%N with (lenN c) by lia.
  destruct (N.ltb_spec (lenN c) FRAME_HEADER_SIZE) as [Hs|Hs]; [cbn; split; [done|by exists l1, l2]|].
  assert (Hlen : 9 ≤ length c) by (unfold lenN, FRAME_HEADER_SIZE in *; lia).
  assert (Ek : buffer p !!! N.to_nat (start p) = c !!! 0).
  { rewrite Eb, Es. unfold lenN. rewrite Nat2N.id. rewrite <- (Nat.add_0_r (length l1)). apply lookup_middle. lia. }
  assert (E1 : read32 (buffer p) (N.to_nat (start p + 1)) = read32 c 1).
  { rewrite Eb, Es. unfold lenN. replace (N.to_nat _) with (length l1 + 1) by lia. apply read32_middle. lia. }
  assert (E5 : read32 (buffer p) (N.to_nat (start p + 5)) = read32 c 5).
  { rewrite Eb, Es. unfold lenN. replace (N.to_nat _) with (length l1 + 5) by lia. apply read32_middle. lia. }
  rewrite Ek, E1, E5. cbv zeta. set (m := read32 c 1). set (k := read32 c 5).
  destruct (N.ltb_spec (lenN c) (FRAME_HEADER_SIZE + m + k)) as [Hs'|Hs']; [cbn; split; [done|by exists l1, l2]|].
  destruct (frame_at l1 c l2 m k Hs') as (F1 & F2 & l3 & F3 & F4).
  rewrite Eb, Es, F1, F2.
  destruct (parsed (c !!! 0) _ _) as [frame|msg]; [|cbn; split; [done|by exists l1, l2]].
  destruct (IH {| buffer := l1 ++ c ++ l2; start := lenN l1 + FRAME_HEADER_SIZE + m + k; end_ := end_ p |}
    (drop (N.to_nat k) (drop (N.to_nat m) (drop 9 c)))) as [Er Hr].
  { exists l3, l2. cbn [buffer start end_]. rewrite <- F3, F4. split_and!; [done|done| |by rewrite <- Eb].
    rewrite Ee. unfold lenN, FRAME_HEADER_SIZE in *. rewrite !length_drop. lia. }
  destruct (read_frames fuel _) as [p' frames]. destruct (spec_frames fuel _) as [c' frames'].
  cbn [fst snd] in *. subst. done.
Qed.

(** More rounds than bytes change nothing. *)
Lemma spec_frame_shrinks c r rest : spec_frame c = Some (r, rest) → length rest + 9 ≤ length c.
Proof.
  unfold spec_frame, FRAME_HEADER_SIZE. destruct (N.ltb_spec (lenN c) 9); [done|].
  destruct (N.ltb_spec (lenN c) (9 + read32 c 1 + read32 c 5)) as [|Hl]; [done|]. intros [= _ <-].
  unfold lenN in *. rewrite !length_drop. lia.
Qed.

Lemma spec_frames_fuel f1 f2 c : length c < f1 → length c < f2 → spec_frames f1 c = spec_frames f2 c.
Proof.
  revert f2 c. induction f1 as [|f1 IH]; intros [|f2] c H1 H2; [lia..|]. cbn [spec_frames].
  destruct (spec_frame c) as [[[frame|m] rest]|] eqn:E; [|done..].
  apply spec_frame_shrinks in E. by rewrite (IH f2 rest) by lia.
Qed.

Lemma push_refines_spec p c chunk : reps p c →
  (push p chunk).2 = (spec_push c chunk).2 ∧ reps (push p chunk).1 (spec_push c chunk).1.
Proof.
  intros Hp. pose proof (append_reps p c chunk Hp) as Ha. unfold push, spec_push.
  set (q := append p chunk) in *.
  assert (push_fuel q = S (length (c ++ chunk))) as ->.
  { destruct Ha as (l1 & l2 & _ & Es & Ee & _). unfold push_fuel, lenN in *. lia. }
  destruct (read_frames_refines (S (length (c ++ chunk))) q (c ++ chunk) Ha) as [Er Hr].
  destruct (read_frames _ q) as [p' frames]. destruct (spec_frames _ _) as [c' frames'].
  cbn [fst snd] in *. subst. destruct frames' as [fs|m]; [|done]. split; [done|]. by apply reclaim_reps.
Qed.

(** ** Round trip *)

Inductive Sent :=
| sent_control (message : Msg)
| sent_control_payload (message : Msg) (payload : list N)
| sent_stream (metadata : Msg) (payload : list N).

Definition encode_sent (f : Sent) : result (list N) :=
  match f with
  | sent_control m => encodeControlFrameOf m
  | sent_control_payload m b => encodeControlFrameWithPayload m b
  | sent_stream m b => encodeStreamFrame m b
  end.

(** What the receiver makes of it: a control frame's payload is not handed out. *)
Definition frame_of (f : Sent) : ParsedFrame :=
  match f with
  | sent_control m | sent_control_payload m _ => ParsedControlFrame m
  | sent_stream m b => ParsedStreamFrame m b
  end.

Lemma read32_be32 n (l k : list N) : (n < 2 ^ 32)%N → read32 (l ++ be32 n ++ k) (length l) = n.
Proof.
  intros Hn. unfold read32, be32.
  assert (E : ∀ j, j < 4 → (l ++ be32 n ++ k) !!! (length l + j) = be32 n !!! j)
    by (intros j Hj; apply lookup_middle; by unfold be32).
  unfold be32 in E. pose proof (E 0 ltac:(lia)) as E0. pose proof (E 1 ltac:(lia)) as E1.
  pose proof (E 2 ltac:(lia)) as E2. pose proof (E 3 ltac:(lia)) as E3.
  rewrite Nat.add_0_r in E0. rewrite !Nat.add_succ_r, Nat.add_0_r in *.
  rewrite E0, E1, E2, E3. cbn [lookup_total list_lookup_total].
  change (2 ^ 32)%N with 4294967296%N in Hn.
  assert (n = n mod 256 + 256 * (n / 256 mod 256) + 65536 * (n / 65536 mod 256) + 16777216 * (n / 16777216))%N as Hd.
  { pose proof (N.div_mod n 256 ltac:(done)). pose proof (N.div_mod (n / 256) 256 ltac:(done)).
    pose proof (N.div_mod (n / 65536) 256 ltac:(done)).
    rewrite N.Div0.div_div in *. change (256 * 256)%N with 65536%N in *.
    change (65536 * 256)%N with 16777216%N in *. lia. }
  rewrite (N.mod_small (n / 16777216)) by (apply N.Div0.div_lt_upper_bound; lia). lia.
Qed.

Lemma encoded_shape kind m payload b : encode_frame kind m payload = Ok b →
  b = (kind :: be32 (lenN (json_bytes m)) ++ be32 (lenN payload)) ++ json_bytes m ++ payload
  ∧ (lenN (json_bytes m) < 2 ^ 32)%N ∧ (lenN payload < 2 ^ 32)%N.
Proof.
  unfold encode_frame, encodeHeader. destruct (_ && _)%N eqn:E; [|done]. cbn [rbind]. intros [= <-].
  apply andb_true_iff in E as [E1%N.ltb_lt E2%N.ltb_lt]. done.
Qed.

(** The header's lengths, read from any list that begins with the header. *)
Lemma header_lengths kind a b r : (a < 2 ^ 32)%N → (b < 2 ^ 32)%N →
  let h := kind :: be32 a ++ be32 b in
  read32 (h ++ r) 1 = a ∧ read32 (h ++ r) 5 = b.
Proof.
  intros Ha Hb h. subst h. split.
  - exact (read32_be32 a [kind] (be32 b ++ r) Ha).
  - exact (read32_be32 b (kind :: be32 a) r Hb).
Qed.

Lemma spec_frame_encoded kind m payload b r : encode_frame kind m payload = Ok b →
  spec_frame (b ++ r) = Some (parsed kind (json_bytes m) payload, r).
Proof.
  intros (-> & Ha & Hb)%encoded_shape. rewrite <- (assoc_L (++)). unfold spec_frame.
  destruct (header_lengths kind _ _ ((json_bytes m ++ payload) ++ r) Ha Hb) as [E1 E5]. rewrite E1, E5.
  set (h := kind :: _) in *. assert (Hh : length h = 9) by done.
  assert (Hl : lenN (h ++ (json_bytes m ++ payload) ++ r) = (9 + lenN (json_bytes m) + lenN payload + lenN r)%N)
    by (rewrite !lenN_app; unfold lenN at 1; rewrite Hh; lia).
  rewrite Hl. unfold FRAME_HEADER_SIZE.
  destruct (N.ltb_spec (9 + lenN (json_bytes m) + lenN payload + lenN r) 9); [lia|].
  destruct (N.ltb_spec (9 + lenN (json_bytes m) + lenN payload + lenN r) (9 + lenN (json_bytes m) + lenN payload)); [lia|].
  rewrite <- Hh, drop_app_length. unfold lenN. rewrite !Nat2N.id, <- (assoc_L (++)).
  by rewrite take_app_length, !drop_app_length, take_app_length.
Qed.

(** A frame cut short is not a frame yet. *)
Lemma spec_frame_cut kind m payload b q : encode_frame kind m payload = Ok b → q `prefix_of` b → q ≠ b →
  spec_frame q = None.
Proof.
  intros (Eb & Ha & Hb)%encoded_shape [r Hr] Hne.
  assert (Hlt : length q < length b).
  { rewrite Hr, length_app. destruct r; [by rewrite app_nil_r in Hr|simpl; lia]. }
  unfold spec_frame. destruct (N.ltb_spec (lenN q) FRAME_HEADER_SIZE) as [|Hq]; [done|].
  set (h := kind :: be32 (lenN (json_bytes m)) ++ be32 (lenN payload)) in *.
  assert (Hh : length h = 9) by done. unfold FRAME_HEADER_SIZE in *.
  assert (Hq' : q = h ++ drop 9 q).
  { rewrite <- (take_drop 9 q) at 1. f_equal. rewrite Eb in Hr.
    apply (f_equal (take 9)) in Hr. rewrite <- Hh in Hr at 1. rewrite take_app_length in Hr.
    rewrite take_app_le in Hr by (unfold lenN in Hq; lia). done. }
  rewrite Hq'. destruct (header_lengths kind _ _ (drop 9 q) Ha Hb) as [E1 E5]. fold h in E1, E5.
  rewrite E1, E5, <- Hq'. destruct (N.ltb_spec (lenN q) (9 + lenN (json_bytes m) + lenN payload)); [done|].
  rewrite Eb, !length_app, Hh in Hlt. unfold lenN in *. lia.
Qed.

Lemma sent_frame f b r : encode_sent f = Ok b → spec_frame (b ++ r) = Some (Ok (frame_of f), r).
Proof.
  intros Hf. destruct f as [m|m pl|m pl]; cbn [encode_sent frame_of] in *;
    rewrite (spec_frame_encoded _ _ _ _ _ Hf); unfold parsed; cbn; by rewrite json_roundtrip.
Qed.

Lemma sent_cut f b q : encode_sent f = Ok b → q `prefix_of` b → q ≠ b → spec_frame q = None.
Proof. intros Hf. destruct f; eapply spec_frame_cut, Hf. Qed.

(** The start of a frame whose rest has not come yet. *)
Definition unfinished (t : list N) : Prop :=
  t = [] ∨ ∃ f b, encode_sent f = Ok b ∧ t `prefix_of` b ∧ t ≠ b.

Lemma unfinished_prefix t q : unfinished t → q `prefix_of` t → spec_frame q = None.
Proof.
  intros [->|(f & b & Hf & Ht & Hne)] Hq; [by apply prefix_nil_inv in Hq as ->|].
  eapply sent_cut; [exact Hf|by etrans|]. intros ->. apply Hne.
  destruct Ht as [k Hk], Hq as [k' Hk']. rewrite Hk in Hk'.
  rewrite <- (app_nil_r t) in Hk' at 1. rewrite <- (assoc_L (++)) in Hk'.
  apply app_inv_head in Hk'. symmetry in Hk'. apply app_eq_nil in Hk' as [-> _]. by rewrite app_nil_r in Hk.
Qed.

(** Any part of the stream decodes to the frames it holds whole. *)
Lemma decode_prefix fs bs t q q2 fuel : Forall2 (λ f b, encode_sent f = Ok b) fs bs → unfinished t →
  q ++ q2 = concat bs ++ t → length q < fuel →
  ∃ k rest, spec_frames fuel q = (rest, Ok (frame_of <$> take k fs)) ∧ spec_frame rest = None
    ∧ rest ++ q2 = concat (drop k bs) ++ t.
Proof.
  intros Hfs Ht. revert q fuel. induction Hfs as [|f b fs bs Hf Hfs IH]; intros q fuel Eq Hfuel.
  - destruct fuel as [|fuel]; [lia|]. exists 0, q. cbn [spec_frames].
    assert (spec_frame q = None) as -> by (eapply unfinished_prefix; [exact Ht|by exists q2]). done.
  - destruct fuel as [|fuel]; [lia|]. cbn [concat] in Eq. rewrite <- (assoc_L (++)) in Eq.
    destruct (decide (length b ≤ length q)) as [Hb|Hb].
    + assert (∃ q', q = b ++ q') as [q' ->].
      { exists (drop (length b) q). rewrite <- (take_drop (length b) q) at 1. f_equal.
        apply (f_equal (take (length b))) in Eq. by rewrite take_app_length, take_app_le in Eq. }
      rewrite <- (assoc_L (++)) in Eq. apply app_inv_head in Eq.
      pose proof (sent_frame f b q' Hf) as Hs. pose proof (spec_frame_shrinks _ _ _ Hs) as Hsh.
      destruct (IH q' fuel Eq) as (k & rest & E & Hn & Er); [lia|].
      exists (S k), rest. cbn [spec_frames take drop]. rewrite Hs, E. done.
    + assert (Hq : q `prefix_of` b).
      { exists (drop (length q) b). rewrite <- (take_drop (length q) b) at 1. f_equal.
        apply (f_equal (take (length q))) in Eq. rewrite take_app_length in Eq.
        by rewrite take_app_le in Eq by lia. }
      assert (Hn : spec_frame q = None).
      { eapply sent_cut; [exact Hf|exact Hq|]. intros ->. lia. }
      exists 0, q. cbn [spec_frames]. rewrite Hn. cbn [take drop concat]. by rewrite <- (assoc_L (++)).
Qed.

Lemma push_all_stream chunks : ∀ p c fs bs t, reps p c → spec_frame c = None →
  Forall2 (λ f b, encode_sent f = Ok b) fs bs → unfinished t →
  c ++ concat chunks = concat bs ++ t →
  ∃ p', push_all p chunks = (p', Ok (frame_of <$> fs)) ∧ reps p' t.
Proof.
  induction chunks as [|chunk chunks IH]; intros p c fs bs t Hp Hc Hfs Ht E; cbn [push_all concat] in *.
  - rewrite app_nil_r in E. destruct Hfs as [|f b fs bs Hf Hfs]; [exists p; cbn in *; by subst|].
    cbn [concat] in E. rewrite <- (assoc_L (++)) in E. rewrite E, (sent_frame f b _ Hf) in Hc. done.
  - destruct (decode_prefix fs bs t (c ++ chunk) (concat chunks) (S (length (c ++ chunk))) Hfs Ht)
      as (k & rest & Es & Hn & Er); [by rewrite <- (assoc_L (++))|lia|].
    destruct (push_refines_spec p c chunk Hp) as [Ef Hp']. unfold spec_push in *. rewrite Es in *.
    destruct (push p chunk) as [p1 r]. cbn [fst snd] in *. subst r.
    destruct (IH p1 rest (drop k fs) (drop k bs) t Hp' Hn (Forall2_drop _ _ _ k Hfs) Ht Er) as (p' & E' & Hp2).
    exists p'. rewrite E'. cbn [rbind]. by rewrite <- fmap_app, take_drop.
Qed.

(** C3: whatever frames a core sends, and however the pipe cuts them into chunks,
    the parser hands out exactly those frames, in order, once each and with
    their payloads, and keeps pending exactly the bytes of a frame not yet
    complete; growing, compacting and shrinking the buffer never shows. *)
Theorem framing_roundtrip fs bs t chunks : Forall2 (λ f b, encode_sent f = Ok b) fs bs →
  unfinished t → concat chunks = concat bs ++ t →
  ∃ p', push_all new_parser chunks = (p', Ok (frame_of <$> fs)) ∧ reps p' t.
Proof.
  intros Hfs Ht E. apply (push_all_stream chunks new_parser [] fs bs t); [|done..].
  exists [], (allocUnsafe INITIAL_CAPACITY). cbn [new_parser buffer start end_]. split_and!; try done.
  unfold lenN. rewrite allocUnsafe_length. done.
Qed.
End framing.

(** ** A concrete stream *)

Section demo.
(** Messages that are their own text. *)
#[local] Instance demo_codec : JsonCodec (list N) := {| json_bytes m := m; json_parse := Some; json_roundtrip _ := eq_refl |}.
#[local] Instance demo_alloc : AllocUnsafe :=
  {| allocUnsafe n := replicate (N.to_nat n) 170%N; allocUnsafe_length n := length_replicate _ _ |}.

Definition demo_sent : list Sent := [sent_control (js "{}"); sent_stream (js "{s}") [1; 2; 3]%N].
Definition demo_bytes (f : Sent) : list N := match encode_sent f with Ok b => b | Throw _ => [] end.
Definition demo_stream : list N := concat (demo_bytes <$> demo_sent) ++ take 5 (demo_bytes (sent_control (js "{t}"))).

Lemma demo_encoded : Forall2 (λ f b, encode_sent f = Ok b) demo_sent (demo_bytes <$> demo_sent).
Proof. repeat constructor; vm_compute; reflexivity. Qed.
Lemma demo_unfinished : unfinished (take 5 (demo_bytes (sent_control (js "{t}")))).
Proof.
  right. exists (sent_control (js "{t}")), (demo_bytes (sent_control (js "{t}"))). split_and!.
  - vm_compute. reflexivity.
  - eexists. symmetry. apply take_drop.
  - vm_compute. discriminate.
Qed.

(** Cut in the middle of a header and of a payload. *)
Lemma framing_roundtrip_witness :
  ∃ p', push_all new_parser [take 4 demo_stream; take 20 (drop 4 demo_stream); drop 24 demo_stream]
        = (p', Ok (frame_of <$> demo_sent))
        ∧ reps p' (take 5 (demo_bytes (sent_control (js "{t}")))).
Proof.
  apply (framing_roundtrip demo_sent (demo_bytes <$> demo_sent) _ _ demo_encoded demo_unfinished).
  vm_compute. reflexivity.
Defined.
End demo.
