(* ===== verification/SyncMerge.v ===== *)
(** * Merging a server snapshot into the local state
      (apps/mobile/src/lib/sync-merge.ts)

    The one entry through which remote records reach the phone's state: per
    record the newer of the two sides stays, a tombstone wins over what is not
    newer than it, and what only the phone has is kept and queued again. *)

From S2P Require Import Prelude Collections Models HostKeyPrompts.

Record ManagedSecretPayload := {
  secret_secretRef : jsstring;
  secret_label : jsstring;
  secret_kind : option jsstring;
  secret_username : option jsstring;
  secret_domain : option jsstring;
  secret_password : option jsstring;
  secret_passphrase : option jsstring;
  secret_privateKeyPem : option jsstring;
  secret_certificateText : option jsstring;
  secret_publicKey : option jsstring;
  secret_publicKeyFingerprintSha256 : option jsstring;
  secret_keyAlgorithm : option jsstring;
  secret_privateKeyEncrypted : option bool;
  secret_keyCurve : option jsstring;
  secret_keyBits : option Z;
  secret_privateKeyCipher : option jsstring;
  secret_privateKeyKdfRounds : option Z;
  secret_passphraseSaved : option bool;
  secret_generatedByApp : option bool;
  secret_updatedAt : jsstring;
}.

Record SshCertificateInfo := {
  cert_status : jsstring;
  cert_validAfter : option jsstring;
  cert_validBefore : option jsstring;
  cert_principals : option (list jsstring);
  cert_keyId : option jsstring;
  cert_serial : option jsstring;
}.

(** [extends ManagedSecretPayload] *)
Record LoadedManagedSecretPayload := {
  loaded_secret : ManagedSecretPayload;
  loaded_certificateInfo : option SshCertificateInfo;
}.

Record Tombstone := { tomb_id : jsstring; tomb_deletedAt : jsstring }.
Record RemoteCollection (T : Type) := { live : list T; tombstones : list Tombstone }.
Arguments live {T} _.
Arguments tombstones {T} _.
Record MergeableCollection (T : Type) := { local : list T; remote : RemoteCollection T }.
Arguments local {T} _.
Arguments remote {T} _.

Section merge.
Context `{DateParse}.

(** Whether [l] is later than [r]; an absent time never claims to be. *)
Definition isAfter (l r : option jsstring) : bool :=
  match opt_truthy l with
  | None => false
  | Some lt =>
      match opt_truthy r with
      | None => true
      | Some rt =>
          match date_parse lt, date_parse rt with
          | Some leftMs, Some rightMs => (rightMs <? leftMs)%Z
          | _, _ => str_gt lt rt
          end
      end
  end.

Section records.
Context {T : Type} (idOf : T → jsstring) (updatedAtOf : T → option jsstring).
Implicit Types (c : MergeableCollection T) (rec l r : T).

(** The local record that a remote one would replace, when it is the newer. *)
Definition local_winner (localById : list (jsstring * T)) r : option T :=
  match mget (idOf r) localById with
  | Some l => if isAfter (updatedAtOf l) (updatedAtOf r) then Some l else None
  | None => None
  end.

(** A local record the server does not have, unless it was deleted since. *)
Definition kept_local (taken : list jsstring) (deletedAtById : list (jsstring * jsstring)) l : bool :=
  negb (shas (idOf l) taken)
  && match opt_truthy (mget (idOf l) deletedAtById) with
     | Some deletedAt => isAfter (updatedAtOf l) (Some deletedAt)
     | None => true
     end.

Definition mergeSyncedRecords c : list T * list jsstring :=
  let deletedAtById := mof ((λ t, (tomb_id t, tomb_deletedAt t)) <$> tombstones (remote c)) in
  let localById := mof ((λ l, (idOf l, l)) <$> local c) in
  let taken := sof (idOf <$> live (remote c)) in
  let kept := List.filter (kept_local taken deletedAtById) (local c) in
  ( ((λ r, default r (local_winner localById r)) <$> live (remote c)) ++ kept,
    (idOf <$> List.filter (λ r, bool_decide (is_Some (local_winner localById r))) (live (remote c)))
      ++ (idOf <$> kept) ).
End records.

Inductive SyncOutboxKind := kind_hosts | kind_groups | kind_knownHosts | kind_secrets.
#[export] Instance SyncOutboxKind_eq_dec : EqDecision SyncOutboxKind.
Proof. solve_decision. Defined.

Record SyncMergeInput := {
  in_hosts : MergeableCollection HostRecord;
  in_groups : MergeableCollection GroupRecord;
  in_knownHosts : MergeableCollection KnownHostRecord;
  in_secrets : MergeableCollection LoadedManagedSecretPayload;
}.
Record SyncMergeResult := {
  merged_hosts : list HostRecord;
  merged_groups : list GroupRecord;
  merged_knownHosts : list KnownHostRecord;
  merged_secrets : list LoadedManagedSecretPayload;
  unpushed : list (SyncOutboxKind * jsstring);
}.

Definition mergeSyncedState (input : SyncMergeInput) : SyncMergeResult :=
  let hosts := mergeSyncedRecords host_id (λ h, Some (host_updatedAt h)) (in_hosts input) in
  let groups := mergeSyncedRecords g_id (λ g, Some (g_updatedAt g)) (in_groups input) in
  let knownHosts := mergeSyncedRecords kh_id (λ k, Some (kh_updatedAt k)) (in_knownHosts input) in
  let secrets := mergeSyncedRecords (λ s, secret_secretRef (loaded_secret s)) (λ s, Some (secret_updatedAt (loaded_secret s)))
    (in_secrets input) in
  {| merged_hosts := hosts.1; merged_groups := groups.1; merged_knownHosts := knownHosts.1;
     merged_secrets := secrets.1;
     unpushed := (pair kind_hosts <$> hosts.2) ++ (pair kind_groups <$> groups.2)
       ++ (pair kind_knownHosts <$> knownHosts.2) ++ (pair kind_secrets <$> secrets.2) |}.

(** ** What a merge keeps *)

Lemma isAfter_irrefl t : isAfter t t = false.
Proof.
  unfold isAfter. destruct (opt_truthy t) as [s|]; [|done].
  assert (Hs : str_gt s s = false).
  { unfold str_gt. pose proof (unit_compare_antisym s s). apply Z.ltb_ge. lia. }
  destruct (date_parse s); [by rewrite Z.ltb_irrefl|done].
Qed.

Section facts.
Context {T : Type} (idOf : T → jsstring) (updatedAtOf : T → option jsstring).
Implicit Types (c : MergeableCollection T) (rec l r : T).
Abbreviation newer a b := (isAfter (updatedAtOf a) (updatedAtOf b)).

(** The phone's own edit of a record the server has in an older version. *)
Definition own_edit c rec : Prop :=
  rec ∈ local c ∧ ∃ r, r ∈ live (remote c) ∧ idOf r = idOf rec ∧ newer rec r = true.
(** A record only the phone has, not deleted since it was last changed. *)
Definition own_record c rec : Prop :=
  rec ∈ local c ∧ idOf rec ∉ idOf <$> live (remote c)
  ∧ ∀ d, mget (idOf rec) (mof ((λ t, (tomb_id t, tomb_deletedAt t)) <$> tombstones (remote c))) = Some d →
      d ≠ [] → isAfter (updatedAtOf rec) (Some d) = true.
(** The server's version, where the phone has none that is newer. *)
Definition server_record c rec : Prop :=
  rec ∈ live (remote c) ∧ ∀ l, l ∈ local c → idOf l = idOf rec → newer l rec = false.

Lemma mget_by_id (l : list T) x : NoDup (idOf <$> l) →
  (mget (idOf x) (mof ((λ y, (idOf y, y)) <$> l)) = Some x ↔ x ∈ l).
Proof.
  intros Hnd.
  assert (E : ((λ y, (idOf y, y)) <$> l).*1 = idOf <$> l) by (by rewrite <- list_fmap_compose).
  rewrite mof_id by by rewrite E. split.
  - intros (y & [= _ ->] & Hy)%mget_Some_elem%list_elem_of_fmap. done.
  - intros Hx. destruct (mget (idOf x) ((λ y, (idOf y, y)) <$> l)) as [y|] eqn:Ey.
    + apply mget_Some_elem, list_elem_of_fmap in Ey as (y' & [= Eid ->] & Hy).
      f_equal. by eapply NoDup_fmap_inj.
    + apply mget_None in Ey. destruct Ey. rewrite E. by apply list_elem_of_fmap_2.
Qed.

Lemma mget_by_id_eq (l : list T) k x : NoDup (idOf <$> l) →
  mget k (mof ((λ y, (idOf y, y)) <$> l)) = Some x → x ∈ l ∧ idOf x = k.
Proof.
  intros Hnd Hx. rewrite mof_id in Hx by by rewrite <- list_fmap_compose.
  apply mget_Some_elem, list_elem_of_fmap in Hx as (y & [= -> ->] & Hy). done.
Qed.

Lemma local_winner_spec c r l : NoDup (idOf <$> local c) →
  local_winner idOf updatedAtOf (mof ((λ l, (idOf l, l)) <$> local c)) r = Some l ↔
  l ∈ local c ∧ idOf l = idOf r ∧ newer l r = true.
Proof.
  intros Hnd. unfold local_winner. split.
  - destruct (mget _ _) as [l'|] eqn:E; [|done]. destruct (newer l' r) eqn:En; [|done]. intros [= ->].
    by apply mget_by_id_eq in E as [? ?].
  - intros (Hl & Eid & Hn). rewrite <- Eid. by rewrite (proj2 (mget_by_id _ l Hnd) Hl), Hn.
Qed.

Lemma local_winner_None c r : NoDup (idOf <$> local c) →
  local_winner idOf updatedAtOf (mof ((λ l, (idOf l, l)) <$> local c)) r = None ↔
  ∀ l, l ∈ local c → idOf l = idOf r → newer l r = false.
Proof.
  intros Hnd. split.
  - intros Hw l Hl Eid. destruct (newer l r) eqn:En; [|done].
    by rewrite (proj2 (local_winner_spec c r l Hnd)) in Hw.
  - intros Hall. destruct (local_winner _ _ _ r) as [l|] eqn:E; [|done].
    apply local_winner_spec in E as (Hl & Eid & Hn); [|done]. by rewrite (Hall l Hl Eid) in Hn.
Qed.

Lemma kept_local_spec c l : l ∈ List.filter
    (kept_local idOf updatedAtOf (sof (idOf <$> live (remote c)))
       (mof ((λ t, (tomb_id t, tomb_deletedAt t)) <$> tombstones (remote c)))) (local c)
  ↔ own_record c l.
Proof.
  rewrite filter_In_elem. unfold kept_local, own_record.
  rewrite andb_true_iff, negb_true_iff.
  assert (Ht : shas (idOf l) (sof (idOf <$> live (remote c))) = false ↔ idOf l ∉ idOf <$> live (remote c)).
  { rewrite <- not_true_iff_false, shas_spec, elem_sof. done. }
  rewrite Ht. destruct (mget _ _) as [d|]; [|naive_solver].
  destruct d as [|x d]; cbn [opt_truthy]; [split; [intros (? & ? & _); split_and!; [done..|]; by intros d [= <-]
    |intros (? & ? & _); done]|]. split.
  - intros (? & ? & ?). split_and!; [done..|]. by intros d' [= <-].
  - intros (? & ? & Hd). split_and!; [done..|]. by apply Hd.
Qed.

Lemma elem_merged c rec : NoDup (idOf <$> local c) →
  rec ∈ (mergeSyncedRecords idOf updatedAtOf c).1 ↔
  server_record c rec ∨ own_edit c rec ∨ own_record c rec.
Proof.
  intros Hnd. unfold mergeSyncedRecords. cbn [fst]. rewrite elem_of_app, kept_local_spec, list_elem_of_fmap.
  enough (Hfirst : (∃ r, rec = default r (local_winner idOf updatedAtOf
      (mof ((λ l, (idOf l, l)) <$> local c)) r) ∧ r ∈ live (remote c)) ↔ server_record c rec ∨ own_edit c rec)
    by (rewrite Hfirst; tauto).
  split.
  - intros (r & -> & Hr). destruct (local_winner _ _ _ r) as [l|] eqn:E; cbn [default].
    + right. apply local_winner_spec in E as (Hl & Eid & Hn); [|done]. split; [done|]. eauto.
    + left. split; [done|]. by apply local_winner_None.
  - intros [[Hr Hall]|(Hl & r & Hr & Eid & Hn)].
    + exists rec. apply local_winner_None in Hall; [|done]. by rewrite Hall.
    + exists r. assert (E : local_winner idOf updatedAtOf (mof ((λ l, (idOf l, l)) <$> local c)) r = Some rec)
        by (by apply local_winner_spec). by rewrite E.
Qed.

Lemma elem_unpushed c id : NoDup (idOf <$> local c) →
  id ∈ (mergeSyncedRecords idOf updatedAtOf c).2 ↔
  ∃ rec, idOf rec = id ∧ (own_edit c rec ∨ own_record c rec).
Proof.
  intros Hnd. unfold mergeSyncedRecords. cbn [snd]. rewrite elem_of_app, !list_elem_of_fmap. split.
  - intros [(r & -> & [Hr Hw]%filter_In_elem)|(l & -> & Hl%kept_local_spec)].
    + apply bool_decide_eq_true in Hw as [l E]. apply local_winner_spec in E as (Hl & Eid & Hn); [|done].
      exists l. split; [done|]. left. split; [done|]. eauto.
    + exists l. auto.
  - intros (rec & <- & [(Hl & r & Hr & Eid & Hn)|Hrec]).
    + left. exists r. split; [done|]. apply filter_In_elem. split; [done|]. apply bool_decide_eq_true.
      exists rec. by apply local_winner_spec.
    + right. exists rec. split; [done|]. by apply kept_local_spec.
Qed.

Lemma merged_ids c : NoDup (idOf <$> local c) → NoDup (idOf <$> live (remote c)) →
  NoDup (idOf <$> (mergeSyncedRecords idOf updatedAtOf c).1).
Proof.
  intros Hl Hr. unfold mergeSyncedRecords. cbn [fst]. rewrite fmap_app.
  set (localById := mof _). set (P := kept_local _ _ _ _).
  assert (E : idOf <$> ((λ r, default r (local_winner idOf updatedAtOf localById r)) <$> live (remote c))
    = idOf <$> live (remote c)).
  { rewrite <- list_fmap_compose. apply list_fmap_ext. intros i r _. simpl.
    destruct (local_winner _ _ _ r) as [l|] eqn:Ew; [|done]. cbn.
    by apply local_winner_spec in Ew as (_ & ? & _). }
  rewrite E. apply NoDup_app. split; [done|]. split.
  - intros id Hid (l & -> & Hk%kept_local_spec)%list_elem_of_fmap. by apply Hk.
  - auto with dolgate.
Qed.

(** C32: the merge is last-writer-wins, record by record: it keeps one record per
    id; a record is in the result exactly when it is the server's and the phone
    has none newer, or the phone's and newer than the server's, or the phone's
    alone and not deleted since its last change; and exactly the last two kinds are
    queued to be pushed - so no local edit is lost unless the server has one at
    least as new, or a deletion at least as late. *)
Theorem mergeSyncedRecords_spec c : NoDup (idOf <$> local c) → NoDup (idOf <$> live (remote c)) →
  let '(merged, unpushed) := mergeSyncedRecords idOf updatedAtOf c in
  NoDup (idOf <$> merged)
  ∧ (∀ rec, rec ∈ merged ↔ server_record c rec ∨ own_edit c rec ∨ own_record c rec)
  ∧ (∀ id, id ∈ unpushed ↔ ∃ rec, idOf rec = id ∧ (own_edit c rec ∨ own_record c rec))
  ∧ (∀ l, l ∈ local c → l ∈ merged ∧ idOf l ∈ unpushed
       ∨ (∃ r, r ∈ merged ∧ r ∈ live (remote c) ∧ idOf r = idOf l ∧ newer l r = false)
       ∨ (idOf l ∉ idOf <$> merged ∧ ∃ d, d ≠ [] ∧ isAfter (updatedAtOf l) (Some d) = false
            ∧ {| tomb_id := idOf l; tomb_deletedAt := d |} ∈ tombstones (remote c))).
Proof.
  intros Hl Hr. pose proof (elem_merged c) as Hm. pose proof (elem_unpushed c) as Hu.
  pose proof (merged_ids c Hl Hr) as Hi.
  destruct (mergeSyncedRecords idOf updatedAtOf c) as [merged unpushed]. cbn [fst snd] in *.
  split_and!; [done|by intros; apply Hm|by intros; apply Hu|]. intros l Hin.
  destruct (decide (idOf l ∈ idOf <$> live (remote c))) as [(r & Er & Hrr)%list_elem_of_fmap|Hnr].
  - destruct (newer l r) eqn:En.
    + left. assert (Ho : own_edit c l) by (split; [done|]; exists r; done).
      split; [apply Hm; auto|apply Hu; eauto].
    + right. left. exists r. split_and!; try done. apply Hm; [done|]. left. split; [done|].
      intros l' Hl' Eid. assert (l' = l) as -> by (eapply NoDup_fmap_inj; [exact Hl|done|done|congruence]). done.
  - destruct (mget (idOf l) (mof ((λ t, (tomb_id t, tomb_deletedAt t)) <$> tombstones (remote c)))) as [d|] eqn:Ed.
    + destruct (decide (d ≠ [] ∧ isAfter (updatedAtOf l) (Some d) = false)) as [[Hd Ha]|Hno].
      * right. right. split.
        -- intros (rec & Eid & Hrec)%list_elem_of_fmap. apply Hm in Hrec; [|done].
           destruct Hrec as [[Hx _]|[(Hx & r & Hxr & Exr & _)|(Hx & _ & Hx2)]].
           ++ apply Hnr. rewrite Eid. by apply list_elem_of_fmap_2.
           ++ apply Hnr. rewrite Eid, <- Exr. by apply list_elem_of_fmap_2.
           ++ rewrite <- Eid in Hx2. specialize (Hx2 d Ed Hd).
              assert (rec = l) as -> by (eapply NoDup_fmap_inj; [exact Hl|done|done|congruence]). congruence.
        -- exists d. split_and!; [done..|]. rewrite mget_mof in Ed. apply mget_Some_elem in Ed.
           rewrite elem_of_reverse in Ed. apply list_elem_of_fmap in Ed as ([i d'] & [= -> ->] & Ht). done.
      * left. assert (Ho : own_record c l).
        { split_and!; [done..|]. intros d' Ed' Hd'. rewrite Ed in Ed'. injection Ed' as <-.
          destruct (isAfter (updatedAtOf l) (Some d)); naive_solver. }
        split; [apply Hm; auto|apply Hu; eauto].
    + left. assert (Ho : own_record c l) by (split_and!; [done..|]; congruence).
      split; [apply Hm; auto|apply Hu; eauto].
Qed.

(** Synchronisation settles: when a device has nothing left to push, its
    records are exactly the server's; and once the server holds what the merge
    kept - in any order, with any tombstones of other ids - merging again changes
    nothing and finds nothing to push. *)
Theorem merge_settles c c' : NoDup (idOf <$> local c) → NoDup (idOf <$> live (remote c)) →
  ((mergeSyncedRecords idOf updatedAtOf c).2 = [] →
     (mergeSyncedRecords idOf updatedAtOf c).1 = live (remote c))
  ∧ (local c' = (mergeSyncedRecords idOf updatedAtOf c).1 →
     live (remote c') ≡ₚ (mergeSyncedRecords idOf updatedAtOf c).1 →
     mergeSyncedRecords idOf updatedAtOf c' = (live (remote c'), [])).
Proof.
  intros Hl Hr. split.
  - unfold mergeSyncedRecords. cbn [fst snd]. intros [Hw Hk]%app_eq_nil.
    apply fmap_nil_inv in Hw, Hk. rewrite Hk, app_nil_r.
    rewrite <- (list_fmap_id (live (remote c))) at 2. apply list_fmap_ext.
    intros i r Hi%list_elem_of_lookup_2. simpl.
    destruct (local_winner _ _ _ r) as [l|] eqn:E; [|done]. exfalso.
    assert (r ∈ List.filter (λ r, bool_decide (is_Some (local_winner idOf updatedAtOf
      (mof ((λ l, (idOf l, l)) <$> local c)) r))) (live (remote c))) as Hin.
    { apply filter_In_elem. split; [done|]. apply bool_decide_eq_true. eauto. }
    rewrite Hw in Hin. by apply elem_of_nil in Hin.
  - intros El Er. pose proof (merged_ids c Hl Hr) as Hi. set (merged := (mergeSyncedRecords idOf updatedAtOf c).1) in *.
    assert (Hw : ∀ r, r ∈ live (remote c') →
      local_winner idOf updatedAtOf (mof ((λ l, (idOf l, l)) <$> local c')) r = None).
    { intros r Hrr. apply local_winner_None; rewrite El; [done|]. intros l Hll Eid.
      rewrite Er in Hrr. assert (l = r) as -> by (by eapply NoDup_fmap_inj). apply isAfter_irrefl. }
    assert (Hk : List.filter (kept_local idOf updatedAtOf (sof (idOf <$> live (remote c')))
       (mof ((λ t, (tomb_id t, tomb_deletedAt t)) <$> tombstones (remote c')))) (local c') = []).
    { apply filter_none. intros l Hll. unfold kept_local. apply andb_false_iff. left.
      apply negb_false_iff. autorewrite with dolgate_reflect. rewrite El in Hll. rewrite <- Er in Hll.
      by apply list_elem_of_fmap_2. }
    unfold mergeSyncedRecords. rewrite Hk. cbn [fmap list_fmap]. rewrite !app_nil_r. f_equal.
    + rewrite <- (list_fmap_id (live (remote c'))) at 2. apply list_fmap_ext.
      intros i r Hir%list_elem_of_lookup_2. simpl. by rewrite Hw.
    + rewrite filter_none; [done|]. intros r Hrr. rewrite Hw by done. done.
Qed.
End facts.
End merge.

(** ** A concrete merge *)

Section demo.
(** Times are their own numbers: the n-th instant is a string of n units. *)
#[local] Instance demo_clock : DateParse := λ s, Some (Z.of_nat (length s)).

Definition demo_time (n : nat) : jsstring := replicate n 48%N.
Definition demo_known (id : string) (t : nat) : KnownHostRecord :=
  {| kh_id := js id; kh_tailnetId := None; kh_host := js "h"; kh_port := 22%Z; kh_algorithm := js "ed25519";
     kh_publicKeyBase64 := js "A"; kh_fingerprintSha256 := js "F"; kh_createdAt := demo_time 1;
     kh_lastSeenAt := demo_time t; kh_updatedAt := demo_time t |}.

(** a: edited here; b: newer on the server; c: deleted there; d: only here. *)
Definition demo_merge : MergeableCollection KnownHostRecord :=
  {| local := [demo_known "a" 5; demo_known "b" 2; demo_known "c" 3; demo_known "d" 1];
     remote := {| live := [demo_known "b" 4; demo_known "a" 4; demo_known "e" 1];
                  tombstones := [{| tomb_id := js "c"; tomb_deletedAt := demo_time 3 |}] |} |}.
Abbreviation merge_demo := (mergeSyncedRecords kh_id (λ k, Some (kh_updatedAt k))).

Lemma demo_local_ids : NoDup (kh_id <$> local demo_merge).
Proof. apply (bool_decide_unpack (NoDup (kh_id <$> local demo_merge))). vm_compute. exact I. Qed.
Lemma demo_live_ids : NoDup (kh_id <$> live (remote demo_merge)).
Proof. apply (bool_decide_unpack (NoDup (kh_id <$> live (remote demo_merge)))). vm_compute. exact I. Qed.

Lemma mergeSyncedRecords_spec_witness :
  demo_known "a" 5 ∈ (merge_demo demo_merge).1 ∧ (merge_demo demo_merge).2 = [js "a"; js "d"].
Proof.
  split; [|vm_compute; reflexivity].
  pose proof (mergeSyncedRecords_spec kh_id (λ k, Some (kh_updatedAt k)) demo_merge demo_local_ids demo_live_ids) as Hm.
  destruct (merge_demo demo_merge) as [merged unpushed]. destruct Hm as (_ & Hm & _). apply Hm.
  right. left. split; [left|]. exists (demo_known "a" 4).
  split; [right; left|]. split; vm_compute; reflexivity.
Defined.

Lemma merge_settles_witness :
  merge_demo {| local := (merge_demo demo_merge).1;
                remote := {| live := (merge_demo demo_merge).1; tombstones := [] |} |}
  = ((merge_demo demo_merge).1, []).
Proof.
  exact (proj2 (merge_settles kh_id (λ k, Some (kh_updatedAt k)) demo_merge
    {| local := (merge_demo demo_merge).1;
       remote := {| live := (merge_demo demo_merge).1; tombstones := [] |} |}
    demo_local_ids demo_live_ids) eq_refl (Permutation_refl _)).
Defined.
End demo.
