(* ===== verification/SyncOutbox.v ===== *)
(** * The queue of changes not pushed yet (apps/mobile/src/lib/sync-outbox.ts)

    Entries name records and carry no contents: the payload is built from the
    local state when it is sent.  Entries are objects: what was sent is taken off
    the queue by identity, not by key. *)

From S2P Require Import Prelude Collections Models HostKeyPrompts SyncMerge.

Inductive SyncOutboxOp :=
| op_upsert
| op_delete (deletedAt : option jsstring).   (* absent only in queues of old versions *)

Record SyncOutboxEntry := { ob_kind : SyncOutboxKind; ob_id : jsstring; ob_op : SyncOutboxOp }.
Abbreviation entry := (object SyncOutboxEntry).

Definition ob_key (e : entry) : SyncOutboxKind * jsstring := (ob_kind (fields e), ob_id (fields e)).

Definition enqueueSyncOutbox (queue : list entry) (e : entry) : list entry :=
  List.filter (λ item, negb (bool_decide (ob_key item = ob_key e))) queue ++ [e].
Definition enqueueManySyncOutbox (queue entries : list entry) : list entry :=
  foldl enqueueSyncOutbox queue entries.

(** [Set.has] on objects is identity. *)
Definition removeSyncOutbox (queue pushed : list entry) : list entry :=
  List.filter (λ e, negb (bool_decide (identity e ∈ identity <$> pushed))) queue.

Record SyncOutboxPayloadInput := {
  pl_hosts : list HostRecord;
  pl_deletedHosts : list Tombstone;
  pl_groups : list GroupRecord;
  pl_deletedGroups : list Tombstone;
  pl_knownHosts : list KnownHostRecord;
  pl_secrets : list ManagedSecretPayload;
}.
Definition no_payload : SyncOutboxPayloadInput :=
  {| pl_hosts := []; pl_deletedHosts := []; pl_groups := []; pl_deletedGroups := [];
     pl_knownHosts := []; pl_secrets := [] |}.

Record LocalState := {
  st_hosts : list HostRecord;
  st_groups : list GroupRecord;
  st_knownHosts : list KnownHostRecord;
  st_secretsByRef : gmap jsstring ManagedSecretPayload;
}.

Definition by_id {T} (idOf : T → jsstring) (l : list T) : list (jsstring * T) := mof ((λ r, (idOf r, r)) <$> l).

(** One field of the payload with one more element. *)
Definition push_host (p : SyncOutboxPayloadInput) h :=
  {| pl_hosts := pl_hosts p ++ [h]; pl_deletedHosts := pl_deletedHosts p; pl_groups := pl_groups p;
     pl_deletedGroups := pl_deletedGroups p; pl_knownHosts := pl_knownHosts p; pl_secrets := pl_secrets p |}.
Definition push_deletedHost (p : SyncOutboxPayloadInput) t :=
  {| pl_hosts := pl_hosts p; pl_deletedHosts := pl_deletedHosts p ++ [t]; pl_groups := pl_groups p;
     pl_deletedGroups := pl_deletedGroups p; pl_knownHosts := pl_knownHosts p; pl_secrets := pl_secrets p |}.
Definition push_group (p : SyncOutboxPayloadInput) g :=
  {| pl_hosts := pl_hosts p; pl_deletedHosts := pl_deletedHosts p; pl_groups := pl_groups p ++ [g];
     pl_deletedGroups := pl_deletedGroups p; pl_knownHosts := pl_knownHosts p; pl_secrets := pl_secrets p |}.
Definition push_deletedGroup (p : SyncOutboxPayloadInput) t :=
  {| pl_hosts := pl_hosts p; pl_deletedHosts := pl_deletedHosts p; pl_groups := pl_groups p;
     pl_deletedGroups := pl_deletedGroups p ++ [t]; pl_knownHosts := pl_knownHosts p; pl_secrets := pl_secrets p |}.
Definition push_knownHost (p : SyncOutboxPayloadInput) k :=
  {| pl_hosts := pl_hosts p; pl_deletedHosts := pl_deletedHosts p; pl_groups := pl_groups p;
     pl_deletedGroups := pl_deletedGroups p; pl_knownHosts := pl_knownHosts p ++ [k]; pl_secrets := pl_secrets p |}.
Definition push_secret (p : SyncOutboxPayloadInput) s :=
  {| pl_hosts := pl_hosts p; pl_deletedHosts := pl_deletedHosts p; pl_groups := pl_groups p;
     pl_deletedGroups := pl_deletedGroups p; pl_knownHosts := pl_knownHosts p; pl_secrets := pl_secrets p ++ [s] |}.

(** What one entry of the queue adds; [now] is [new Date().toISOString()]. *)
Definition add_entry (now : jsstring) (st : LocalState) (p : SyncOutboxPayloadInput) (e : SyncOutboxEntry)
    : SyncOutboxPayloadInput :=
  match ob_op e with
  | op_delete deletedAt =>   (* the type allows hosts and groups *)
      let t := {| tomb_id := ob_id e; tomb_deletedAt := default now deletedAt |} in
      if decide (ob_kind e = kind_hosts) then push_deletedHost p t else push_deletedGroup p t
  | op_upsert =>
      match ob_kind e with
      | kind_hosts => from_option (push_host p) p (mget (ob_id e) (by_id host_id (st_hosts st)))
      | kind_groups => from_option (push_group p) p (mget (ob_id e) (by_id g_id (st_groups st)))
      | kind_secrets => from_option (push_secret p) p (st_secretsByRef st !! ob_id e)
      | kind_knownHosts => from_option (push_knownHost p) p (mget (ob_id e) (by_id kh_id (st_knownHosts st)))
      end
  end.

(** The payload and the entries it accounts for. *)
Definition buildSyncOutboxPayload (now : jsstring) (queue : list entry) (st : LocalState)
    : SyncOutboxPayloadInput * list entry :=
  foldl (λ '(p, drained) e, (add_entry now st p (fields e), drained ++ [e])) (no_payload, []) queue.

(** ** Lemmas *)

Lemma drained_all now queue st p d :
  (foldl (λ '(p, drained) e, (add_entry now st p (fields e), drained ++ [e])) (p, d) queue).2 = d ++ queue.
Proof.
  revert p d. induction queue as [|e queue IH]; intros p d; simpl; [by rewrite app_nil_r|].
  rewrite IH. by rewrite <- (assoc_L (++)).
Qed.

Lemma payload_fold now queue st p d :
  (foldl (λ '(p, drained) e, (add_entry now st p (fields e), drained ++ [e])) (p, d) queue).1
  = foldl (add_entry now st) p (fields <$> queue).
Proof. revert p d. induction queue as [|e queue IH]; intros p d; simpl; [done|]. apply IH. Qed.

(** What an entry sends of a kind: the record it names, or its tombstone. *)
Definition upserted {T} (k : SyncOutboxKind) (find : jsstring → option T) (e : SyncOutboxEntry) : option T :=
  match ob_op e with
  | op_upsert => if decide (ob_kind e = k) then find (ob_id e) else None
  | op_delete _ => None
  end.
Definition deleted (now : jsstring) (hosts : bool) (e : SyncOutboxEntry) : option Tombstone :=
  match ob_op e with
  | op_delete d => if Bool.eqb (bool_decide (ob_kind e = kind_hosts)) hosts
      then Some {| tomb_id := ob_id e; tomb_deletedAt := default now d |} else None
  | op_upsert => None
  end.

(** The payload a queue stands for, list by list, in the order of the queue. *)
Definition sends (now : jsstring) (st : LocalState) (l : list SyncOutboxEntry) : SyncOutboxPayloadInput :=
  {| pl_hosts := omap (upserted kind_hosts (λ id, mget id (by_id host_id (st_hosts st)))) l;
     pl_deletedHosts := omap (deleted now true) l;
     pl_groups := omap (upserted kind_groups (λ id, mget id (by_id g_id (st_groups st)))) l;
     pl_deletedGroups := omap (deleted now false) l;
     pl_knownHosts := omap (upserted kind_knownHosts (λ id, mget id (by_id kh_id (st_knownHosts st)))) l;
     pl_secrets := omap (upserted kind_secrets (λ id, st_secretsByRef st !! id)) l |}.

Lemma omap_snoc {A B} (f : A → option B) l x : omap f (l ++ [x]) = omap f l ++ option_list (f x).
Proof. rewrite omap_app. cbn. by destruct (f x). Qed.

Lemma payload_sends now st l : foldl (add_entry now st) no_payload l = sends now st l.
Proof.
  induction l as [|e l IH] using rev_ind; [done|].
  rewrite foldl_snoc, IH. unfold sends. rewrite !omap_snoc. clear IH.
  unfold add_entry, upserted, deleted. destruct e as [kind id [|d]]; destruct kind; cbn [ob_op ob_kind ob_id];
    rewrite ?decide_True, ?decide_False by done; rewrite ?bool_decide_true, ?bool_decide_false by done;
    cbn [Bool.eqb]; try destruct (mget _ _); try destruct (st_secretsByRef st !! id);
    cbn [from_option option_list]; rewrite ?app_nil_r; reflexivity.
Qed.

Definition one_per_key (queue : list entry) : Prop := NoDup (ob_key <$> queue).

Lemma enqueue_one_per_key queue e : one_per_key queue → one_per_key (enqueueSyncOutbox queue e).
Proof.
  unfold one_per_key, enqueueSyncOutbox. intros Hq. rewrite fmap_app. apply NoDup_app.
  split; [auto with dolgate|]. split; [|apply NoDup_singleton].
  intros k (x & -> & [_ Hx]%filter_In_elem)%list_elem_of_fmap Hk.
  apply list_elem_of_singleton in Hk. apply negb_true_iff, bool_decide_eq_false in Hx. done.
Qed.
Lemma enqueueMany_one_per_key queue es : one_per_key queue → one_per_key (enqueueManySyncOutbox queue es).
Proof. revert queue. induction es as [|e es IH]; intros queue Hq; [done|]. by apply IH, enqueue_one_per_key. Qed.

Lemma remove_enqueue queue pushed e : identity e ∉ identity <$> pushed →
  removeSyncOutbox (enqueueSyncOutbox queue e) pushed = enqueueSyncOutbox (removeSyncOutbox queue pushed) e.
Proof.
  intros He. unfold removeSyncOutbox, enqueueSyncOutbox. rewrite List.filter_app. cbn [List.filter].
  rewrite (bool_decide_false (identity e ∈ _)) by done. cbn [negb]. f_equal.
  induction queue as [|x queue IH]; [done|]. cbn [List.filter].
  destruct (bool_decide (ob_key x = ob_key e)) eqn:Ek, (bool_decide (identity x ∈ identity <$> pushed)) eqn:Ei;
    cbn [negb List.filter]; rewrite ?Ek, ?Ei; cbn [negb]; by rewrite IH.
Qed.

Lemma remove_self pushed : removeSyncOutbox pushed pushed = [].
Proof.
  apply filter_none. intros e He. apply negb_false_iff, bool_decide_eq_true. by apply list_elem_of_fmap_2.
Qed.

Lemma remove_enqueueMany queue pushed es : (∀ e, e ∈ es → identity e ∉ identity <$> pushed) →
  removeSyncOutbox (enqueueManySyncOutbox queue es) pushed
  = enqueueManySyncOutbox (removeSyncOutbox queue pushed) es.
Proof.
  revert queue. induction es as [|e es IH]; intros queue Hes; [done|]. cbn [enqueueManySyncOutbox foldl].
  change (foldl enqueueSyncOutbox (enqueueSyncOutbox queue e) es)
    with (enqueueManySyncOutbox (enqueueSyncOutbox queue e) es).
  rewrite IH by set_solver. by rewrite remove_enqueue by set_solver.
Qed.

(** C34: a push never drops a change made while it was under way: every entry of
    the queue is accounted for by the payload, and taking the pushed entries off
    afterwards leaves exactly the changes queued meanwhile - even of a record
    that was just pushed - with one entry per record; what is sent, kind by kind and in the order of the queue,
    is the current local record of each entry or its tombstone, and an entry whose
    record is gone sends nothing. *)
Theorem outbox_push_loses_nothing now queue es st :
  one_per_key queue → (∀ e, e ∈ es → identity e ∉ identity <$> queue) →
  let '(payload, drained) := buildSyncOutboxPayload now queue st in
  drained = queue
  ∧ removeSyncOutbox (enqueueManySyncOutbox queue es) drained = enqueueManySyncOutbox [] es
  ∧ one_per_key (removeSyncOutbox (enqueueManySyncOutbox queue es) drained)
  ∧ payload = sends now st (fields <$> queue).
Proof.
  intros Hq Hes. pose proof (drained_all now queue st no_payload []) as Hd.
  pose proof (payload_fold now queue st no_payload []) as Hp. unfold buildSyncOutboxPayload.
  destruct (foldl _ _ queue) as [payload drained]. cbn [fst snd app] in *. subst.
  rewrite payload_sends.
  assert (E : removeSyncOutbox (enqueueManySyncOutbox queue es) queue = enqueueManySyncOutbox [] es)
    by by rewrite remove_enqueueMany, remove_self.
  split_and!; [done|done| |done]. rewrite E. apply enqueueMany_one_per_key. constructor.
Qed.

(** A group is edited, and edited again while it is being pushed. *)
Definition demo_entry (n : nat) (id : string) : entry :=
  {| identity := n; fields := {| ob_kind := kind_groups; ob_id := js id; ob_op := op_upsert |} |}.

Lemma outbox_push_loses_nothing_witness :
  removeSyncOutbox (enqueueManySyncOutbox [demo_entry 0 "g1"; demo_entry 1 "g2"] [demo_entry 2 "g1"])
    [demo_entry 0 "g1"; demo_entry 1 "g2"] = [demo_entry 2 "g1"].
Proof.
  pose proof (outbox_push_loses_nothing [] [demo_entry 0 "g1"; demo_entry 1 "g2"] [demo_entry 2 "g1"]
    {| st_hosts := []; st_groups := []; st_knownHosts := []; st_secretsByRef := ∅ |}) as Ho.
  destruct (buildSyncOutboxPayload _ _ _) as [payload drained].
  destruct Ho as (Ed & E & _).
  - apply (bool_decide_unpack (NoDup _)). vm_compute. exact I.
  - intros e He. apply list_elem_of_singleton in He. rewrite He.
    apply (bool_decide_eq_false_1 (_ ∈ _)). vm_compute. reflexivity.
  - rewrite Ed in E. rewrite E. vm_compute. reflexivity.
Defined.
