(* ===== verification/OutputFlowControl.v ===== *)
(** * Flow control of terminal output, the renderer's side
      (apps/desktop/src/renderer/lib/output-flow-control.ts)

    How much of the received output the screen has processed is acknowledged to
    the core, which stops reading a session that is too far ahead.  The closure's
    variables are a record; the calls it makes are the events it returns; what it
    asks its surroundings (pending bytes, visibility, the clock) are arguments. *)

From S2P Require Import Prelude Collections.

Open Scope Z_scope.

Definition OUTPUT_ACK_STEP_BYTES : Z := 128 * 1024.
Definition OUTPUT_HEARTBEAT_MS : Z := 1000.
Definition OUTPUT_HIDDEN_BACKLOG_BYTES : Z := 64 * 1024 * 1024.

Inductive flow_event := ev_start | ev_ack (bytes : Z) | ev_stop | ev_setHidden (hidden : bool).

Record OutputFlowControl := {
  fc_received : Z;
  fc_acked : Z;
  fc_lastAckAt : Z;
  fc_disposed : bool;
  fc_reportedHidden : bool;
}.
Implicit Types (s : OutputFlowControl) (visible : bool).

Definition reportVisibility s visible : OutputFlowControl * list flow_event :=
  if Bool.eqb (fc_reportedHidden s) (negb visible) then (s, [])
  else ({| fc_received := fc_received s; fc_acked := fc_acked s; fc_lastAckAt := fc_lastAckAt s;
           fc_disposed := fc_disposed s; fc_reportedHidden := negb visible |}, [ev_setHidden (negb visible)]).

Definition createOutputFlowControl (now : Z) visible : OutputFlowControl * list flow_event :=
  let '(s, ev) := reportVisibility {| fc_received := 0; fc_acked := 0; fc_lastAckAt := now;
                                      fc_disposed := false; fc_reportedHidden := false |} visible in
  (s, ev_start :: ev).

Definition received s (bytes : Z) : OutputFlowControl :=
  if negb (fc_disposed s) && (0 <? bytes) then
    {| fc_received := fc_received s + bytes; fc_acked := fc_acked s; fc_lastAckAt := fc_lastAckAt s;
       fc_disposed := fc_disposed s; fc_reportedHidden := fc_reportedHidden s |}
  else s.

(** What counts as not processed: everything pending while the window is
    visible, and what exceeds the hidden backlog while it is not. *)
Definition unprocessed visible (pendingBytes : Z) : Z :=
  let pending := Z.max 0 pendingBytes in
  if visible then pending else Z.max 0 (pending - OUTPUT_HIDDEN_BACKLOG_BYTES).

Definition settle s visible (pendingBytes at_ : Z) : OutputFlowControl * list flow_event :=
  if fc_disposed s then (s, []) else
  let '(s, ev) := reportVisibility s visible in
  let pending := Z.max 0 pendingBytes in
  let processed := Z.max (fc_acked s) (fc_received s - unprocessed visible pendingBytes) in
  let delta := processed - fc_acked s in
  if (OUTPUT_ACK_STEP_BYTES <=? delta) || ((0 <? pending) && (OUTPUT_HEARTBEAT_MS <=? at_ - fc_lastAckAt s))
  then ({| fc_received := fc_received s; fc_acked := processed; fc_lastAckAt := at_;
           fc_disposed := false; fc_reportedHidden := fc_reportedHidden s |}, ev ++ [ev_ack delta])
  else (s, ev).

Definition dispose s : OutputFlowControl * list flow_event :=
  if fc_disposed s then (s, [])
  else ({| fc_received := fc_received s; fc_acked := fc_acked s; fc_lastAckAt := fc_lastAckAt s;
           fc_disposed := true; fc_reportedHidden := fc_reportedHidden s |}, [ev_stop]).

(** ** A session of calls *)

Inductive flow_call :=
| call_received (bytes : Z)
| call_settle (visible : bool) (pendingBytes at_ : Z)
| call_dispose.

Definition flow_step s (c : flow_call) : OutputFlowControl * list flow_event :=
  match c with
  | call_received bytes => (received s bytes, [])
  | call_settle visible pendingBytes at_ => settle s visible pendingBytes at_
  | call_dispose => dispose s
  end.

Fixpoint flow_run s (calls : list flow_call) : OutputFlowControl * list flow_event :=
  match calls with
  | [] => (s, [])
  | c :: calls' =>
      let '(s', ev) := flow_step s c in
      let '(s'', ev') := flow_run s' calls' in (s'', ev ++ ev')
  end.

Definition flow_session (now : Z) visible (calls : list flow_call) : OutputFlowControl * list flow_event :=
  let '(s, ev) := createOutputFlowControl now visible in
  let '(s', ev') := flow_run s calls in (s', ev ++ ev').

Definition acks (evs : list flow_event) : list Z :=
  omap (λ e, match e with ev_ack n => Some n | _ => None end) evs.
Definition stops (evs : list flow_event) : nat :=
  length (List.filter (λ e, match e with ev_stop => true | _ => false end) evs).
(** The last visibility told to the core, which starts with a visible window. *)
Definition told_hidden (h : bool) (evs : list flow_event) : bool :=
  foldl (λ h e, match e with ev_setHidden h' => h' | _ => h end) h evs.
(** Each report changes what the core was told. *)
Fixpoint reports_change (h : bool) (evs : list flow_event) : bool :=
  match evs with
  | [] => true
  | ev_setHidden h' :: evs' => negb (Bool.eqb h h') && reports_change h' evs'
  | _ :: evs' => reports_change h evs'
  end.
Definition total_received (calls : list flow_call) : Z :=
  foldr (λ c n, match c with call_received b => Z.max 0 b + n | _ => n end) 0 calls.

Lemma acks_app e f : acks (e ++ f) = acks e ++ acks f.
Proof. apply omap_app. Qed.
Lemma reports_change_app h e f : reports_change h (e ++ f) = reports_change h e && reports_change (told_hidden h e) f.
Proof.
  revert h. induction e as [|[| | |h'] e IH]; intros h; simpl; rewrite ?IH; try done. by rewrite andb_assoc.
Qed.
Lemma told_hidden_app h e f : told_hidden h (e ++ f) = told_hidden (told_hidden h e) f.
Proof. unfold told_hidden. by rewrite foldl_app. Qed.
Definition zsum (l : list Z) : Z := foldr Z.add 0 l.
Lemma zsum_app l k : zsum (l ++ k) = zsum l + zsum k.
Proof. induction l as [|x l IH]; simpl; [done|]. rewrite IH. lia. Qed.

(** What a step that starts in [s] promises. *)
Record step_ok s s' (ev : list flow_event) : Prop := {
  so_sum : fc_acked s' = fc_acked s + zsum (acks ev);
  so_nonneg : Forall (λ n, 0 ≤ n) (acks ev);
  so_bound : fc_acked s ≤ fc_received s → fc_acked s' ≤ fc_received s';
  so_told : fc_reportedHidden s' = told_hidden (fc_reportedHidden s) ev;
  so_change : reports_change (fc_reportedHidden s) ev = true;
  so_quiet : fc_disposed s = true → s' = s ∧ ev = [];
}.

Lemma step_ok_trans s1 s2 s3 e f : step_ok s1 s2 e → step_ok s2 s3 f → step_ok s1 s3 (e ++ f).
Proof.
  intros [A1 A2 A3 A4 A5 A6] [B1 B2 B3 B4 B5 B6]. split.
  - rewrite acks_app, zsum_app, B1, A1. lia.
  - rewrite acks_app. by apply Forall_app.
  - auto.
  - by rewrite told_hidden_app, <- A4.
  - rewrite reports_change_app, A5, <- A4. done.
  - intros Hd. destruct (A6 Hd) as [-> ->]. destruct (B6 Hd) as [-> ->]. done.
Qed.

Lemma report_spec s visible : fc_disposed s = false →
  let '(s', ev) := reportVisibility s visible in
  step_ok s s' ev ∧ acks ev = [] ∧ fc_acked s' = fc_acked s ∧ fc_received s' = fc_received s
  ∧ fc_lastAckAt s' = fc_lastAckAt s ∧ fc_disposed s' = false ∧ fc_reportedHidden s' = negb visible.
Proof.
  intros Hd. unfold reportVisibility. destruct (Bool.eqb (fc_reportedHidden s) (negb visible)) eqn:E.
  - apply Bool.eqb_prop in E. split_and!; try done. split; simpl; try done; lia || constructor.
  - split_and!; try done. split; simpl; try done; [lia|by rewrite E|congruence].
Qed.

(** What one settlement does: it tells the core the window's visibility if it
    changed; and leaves less than one step of processed output unacknowledged,
    acknowledging at least every second while output is pending. *)
Lemma settle_spec s visible pendingBytes at_ : fc_disposed s = false → fc_acked s ≤ fc_received s →
  let '(s', ev) := settle s visible pendingBytes at_ in
  step_ok s s' ev
  ∧ fc_reportedHidden s' = negb visible ∧ fc_received s' = fc_received s ∧ fc_disposed s' = false
  ∧ fc_received s' - fc_acked s' < OUTPUT_ACK_STEP_BYTES + unprocessed visible pendingBytes
  ∧ (0 < pendingBytes → OUTPUT_HEARTBEAT_MS ≤ at_ - fc_lastAckAt s → acks ev ≠ []).
Proof.
  intros Hd Hle. unfold settle. rewrite Hd. pose proof (report_spec s visible Hd) as Hr.
  destruct (reportVisibility s visible) as [s1 ev]. destruct Hr as (Hok & Hna & Ha & Hrc & Hl & Hd1 & Hh).
  assert (Hu : 0 ≤ unprocessed visible pendingBytes) by (unfold unprocessed; destruct visible; lia).
  rewrite Hrc, Ha, Hl. set (u := unprocessed visible pendingBytes) in *.
  destruct (_ || _) eqn:E.
  - assert (Hack : step_ok s1 {| fc_received := fc_received s; fc_acked := Z.max (fc_acked s) (fc_received s - u);
       fc_lastAckAt := at_; fc_disposed := false; fc_reportedHidden := fc_reportedHidden s1 |}
       [ev_ack (Z.max (fc_acked s) (fc_received s - u) - fc_acked s)]).
    { split; simpl; [lia|repeat constructor; lia|lia|done|done|congruence]. }
    split_and!; [exact (step_ok_trans _ _ _ _ _ Hok Hack)|done|done|done| |].
    + cbn. unfold OUTPUT_ACK_STEP_BYTES. lia.
    + intros _ _. rewrite acks_app. simpl. by destruct (acks ev).
  - apply orb_false_iff in E as [E1%Z.leb_gt E2]. split_and!; [exact Hok|done|done|done| |].
    + rewrite Hrc, Ha. lia.
    + intros Hp Hb. exfalso. apply andb_false_iff in E2 as [E2%Z.ltb_ge|E2%Z.leb_gt]; lia.
Qed.

(** Solves [step_ok] for a step that tells the core nothing. *)
Ltac step_ok_quiet := split; cbn; first [lia | congruence | done | by constructor | (intros; split; congruence)].

Lemma flow_step_ok s c : fc_acked s ≤ fc_received s →
  step_ok s (flow_step s c).1 (flow_step s c).2.
Proof.
  intros Hle. destruct c as [b|visible p at_|]; cbn [flow_step fst snd].
  - unfold received. destruct (fc_disposed s) eqn:Hd; cbn [negb andb]; [step_ok_quiet|].
    destruct (Z.ltb_spec 0 b); step_ok_quiet.
  - destruct (fc_disposed s) eqn:Hd.
    + unfold settle. rewrite Hd. step_ok_quiet.
    + pose proof (settle_spec s visible p at_ Hd Hle) as Hs. destruct (settle s visible p at_). apply Hs.
  - unfold dispose. destruct (fc_disposed s) eqn:Hd; step_ok_quiet.
Qed.

Lemma flow_run_ok s calls : fc_acked s ≤ fc_received s →
  step_ok s (flow_run s calls).1 (flow_run s calls).2.
Proof.
  revert s. induction calls as [|c calls IH]; intros s Hle; cbn [flow_run].
  - step_ok_quiet.
  - pose proof (flow_step_ok s c Hle) as Hs. destruct (flow_step s c) as [s1 ev].
    specialize (IH s1 (so_bound _ _ _ Hs Hle)). destruct (flow_run s1 calls) as [s2 ev'].
    exact (step_ok_trans _ _ _ _ _ Hs IH).
Qed.

Lemma create_ok now visible : let '(s, ev) := createOutputFlowControl now visible in
  fc_received s = 0 ∧ fc_acked s = 0 ∧ acks ev = [] ∧ fc_disposed s = false
  ∧ fc_reportedHidden s = told_hidden false ev ∧ reports_change false ev = true.
Proof. unfold createOutputFlowControl, reportVisibility. by destruct visible. Qed.

