(* ===== verification/Reconnect.v ===== *)
(** * The reconnection engine
      (apps/desktop/src/renderer/store/services/reconnect-orchestrator.ts)

    A state machine of the renderer: entries by key, the timers of the event
    loop, the [perform]s that have been awaited and not settled.  Every entry into
    the module is a call: the exported functions, a timer that fires, a [perform]
    that settles.  What a call asks its surroundings - the configuration, the
    clock, a random number, whether the target is still there or waits for a
    person - is its environment; what it tells the handlers is its events.
    Handlers answer by later calls: none of them calls back while it renders. *)

From S2P Require Import Prelude Collections JsNumber.

Open Scope Z_scope.

Inductive ReconnectKind := kind_session | kind_rdp | kind_vnc | kind_sftp | kind_portForward | kind_tmux.
#[export] Instance ReconnectKind_eq_dec : EqDecision ReconnectKind.
Proof. solve_decision. Defined.

Record ReconnectAttemptInfo := {
  info_attempt : Z;
  info_maxAttempts : Z;
  info_nextAttemptAt : Z;
  info_delayMs : Z;
  info_waitingForNetwork : bool;
}.

Record AutoReconnectConfig := {
  autoReconnectEnabled : bool;
  autoReconnectMaxAttempts : Z;
  autoReconnectBaseDelayMs : Z;
  autoReconnectMaxDelayMs : Z;
}.

Definition MAX_CONCURRENT_RECONNECTS : Z := 3.
Definition WATCHDOG_MS : Z := 30000.
Definition CONCURRENCY_REQUEUE_MS : Z := 400.
Definition HOLD_REQUEUE_MS : Z := 2000.
Definition STAGGER_MS : Z := 150.

Definition DEFAULT_CONFIG : AutoReconnectConfig :=
  {| autoReconnectEnabled := true; autoReconnectMaxAttempts := 10;
     autoReconnectBaseDelayMs := 1000; autoReconnectMaxDelayMs := 8000 |}.

(** The delay before attempt [attempt + 1]; [random] is [Math.random()].  The
    capped power of two is exact; the jitter is floating-point. *)
Definition computeBackoffDelay (attempt baseMs maxMs : Z) (random : number) : Z :=
  let exponential := baseMs * 2 ^ Z.max 0 attempt in
  let capped := Z.min maxMs exponential in
  let jitter := SFadd prec emax (num_frac 8 10) (SFmul prec emax random (num_frac 4 10)) in
  math_round (SFmul prec emax (num_of_Z capped) jitter).

(** [{}], the meta of a key that has none. *)
Class NoMeta (Meta : Type) := no_meta : Meta.

Section engine.
Context {Meta : Type} {NM : NoMeta Meta}.

(** A handler, as far as the engine asks it anything: does it know whether its
    targets are still there? *)
Record ReconnectHandler := { has_isStillPresent : bool }.

Record ReconnectState := {
  rs_kind : ReconnectKind;
  rs_key : jsstring;
  rs_attempt : Z;
  rs_timerId : option nat;
  rs_watchdogId : option nat;
  rs_nextAttemptAt : Z;
  rs_meta : Meta;
  rs_inFlight : bool;
}.

Inductive timer_action := run_execute (key : jsstring) | watchdog (key : jsstring).
Record timer := { tm_due : Z; tm_action : timer_action }.

(** The module's variables, the live timers and the awaited [perform]s. *)
Record Engine := {
  reconnectStates : list (jsstring * ReconnectState);
  handlers : list (ReconnectKind * ReconnectHandler);
  isOffline : bool;
  inFlightCount : Z;
  timers : gmap nat timer;
  next_id : nat;
  awaiting : gmap nat ReconnectState;   (* each named by its watchdog *)
}.

Record Env := {
  env_config : option AutoReconnectConfig;
  env_now : Z;
  env_random : number;
  env_present : jsstring → Meta → bool;
  env_held : Meta → bool;
}.
Definition getConfig (env : Env) : AutoReconnectConfig := default DEFAULT_CONFIG (env_config env).

Inductive event :=
| ev_scheduled (key : jsstring) (info : ReconnectAttemptInfo) (meta : Meta)
| ev_perform (key : jsstring) (meta : Meta)
| ev_gaveUp (key : jsstring) (attempts : Z) (meta : Meta).

Implicit Types (e : Engine) (env : Env) (key : jsstring) (st : ReconnectState).

(** ** Assignments *)

Definition with_states (l : list (jsstring * ReconnectState)) e : Engine :=
  {| reconnectStates := l; handlers := handlers e; isOffline := isOffline e; inFlightCount := inFlightCount e;
     timers := timers e; next_id := next_id e; awaiting := awaiting e |}.
Definition with_timers (l : gmap nat timer) e : Engine :=
  {| reconnectStates := reconnectStates e; handlers := handlers e; isOffline := isOffline e;
     inFlightCount := inFlightCount e; timers := l; next_id := next_id e; awaiting := awaiting e |}.
Definition with_offline (b : bool) e : Engine :=
  {| reconnectStates := reconnectStates e; handlers := handlers e; isOffline := b;
     inFlightCount := inFlightCount e; timers := timers e; next_id := next_id e; awaiting := awaiting e |}.
Definition with_awaiting (n : Z) (l : gmap nat ReconnectState) e : Engine :=
  {| reconnectStates := reconnectStates e; handlers := handlers e; isOffline := isOffline e;
     inFlightCount := n; timers := timers e; next_id := next_id e; awaiting := l |}.

Definition with_timerId (o : option nat) st : ReconnectState :=
  {| rs_kind := rs_kind st; rs_key := rs_key st; rs_attempt := rs_attempt st; rs_timerId := o;
     rs_watchdogId := rs_watchdogId st; rs_nextAttemptAt := rs_nextAttemptAt st; rs_meta := rs_meta st;
     rs_inFlight := rs_inFlight st |}.
Definition with_inFlight (b : bool) st : ReconnectState :=
  {| rs_kind := rs_kind st; rs_key := rs_key st; rs_attempt := rs_attempt st; rs_timerId := rs_timerId st;
     rs_watchdogId := rs_watchdogId st; rs_nextAttemptAt := rs_nextAttemptAt st; rs_meta := rs_meta st;
     rs_inFlight := b |}.
(** [state.attempt += 1; state.inFlight = true; state.watchdogId = id] *)
Definition with_attempt (id : nat) st : ReconnectState :=
  {| rs_kind := rs_kind st; rs_key := rs_key st; rs_attempt := rs_attempt st + 1; rs_timerId := rs_timerId st;
     rs_watchdogId := Some id; rs_nextAttemptAt := rs_nextAttemptAt st; rs_meta := rs_meta st;
     rs_inFlight := true |}.

Definition lookup_state e key : option ReconnectState := mget key (reconnectStates e).
Definition put_state st e : Engine := with_states (mset (rs_key st) st (reconnectStates e)) e.
Definition delete_state key e : Engine := with_states (mdelete key (reconnectStates e)) e.

(** [setTimeout] and [clearTimeout] (of an id that may be [null] or spent). *)
Definition setTimeout (due : Z) (action : timer_action) e : Engine * nat :=
  ({| reconnectStates := reconnectStates e; handlers := handlers e; isOffline := isOffline e;
      inFlightCount := inFlightCount e;
      timers := <[next_id e := {| tm_due := due; tm_action := action |}]> (timers e);
      next_id := S (next_id e); awaiting := awaiting e |}, next_id e).
Definition clearTimeout (o : option nat) e : Engine :=
  match o with
  | Some id => with_timers (delete id (timers e)) e
  | None => e
  end.

(** [state.timerId = setTimeout(() => runExecute(key), delay)] *)
Definition arm (due : Z) st e : Engine :=
  let '(e, id) := setTimeout due (run_execute (rs_key st)) e in
  put_state (with_timerId (Some id) st) e.

Definition clearTimers st e : Engine := clearTimeout (rs_watchdogId st) (clearTimeout (rs_timerId st) e).

(** ** Operations *)

Definition scheduleReconnect env (kind : ReconnectKind) key (meta : option Meta) e : Engine * list event * bool :=
  let config := getConfig env in
  if negb (autoReconnectEnabled config) then (e, [], false) else
  match mget kind (handlers e) with
  | None => (e, [], false)
  | Some _ =>
      let existing := lookup_state e key in
      let attempt := default 0 (rs_attempt <$> existing) in
      let meta := default (default no_meta (rs_meta <$> existing)) meta in
      let e := match existing with Some st => clearTimers st e | None => e end in
      if autoReconnectMaxAttempts config <=? attempt then
        (delete_state key e, [ev_gaveUp key attempt meta], false)
      else
        let delayMs := computeBackoffDelay attempt (autoReconnectBaseDelayMs config)
                         (autoReconnectMaxDelayMs config) (env_random env) in
        let nextAttemptAt := if isOffline e then 0 else env_now env + delayMs in
        let st := {| rs_kind := kind; rs_key := key; rs_attempt := attempt; rs_timerId := None;
                     rs_watchdogId := None; rs_nextAttemptAt := nextAttemptAt; rs_meta := meta;
                     rs_inFlight := false |} in
        let info := {| info_attempt := attempt + 1; info_maxAttempts := autoReconnectMaxAttempts config;
                       info_nextAttemptAt := nextAttemptAt; info_delayMs := delayMs;
                       info_waitingForNetwork := isOffline e |} in
        (if isOffline e then put_state st e else arm (env_now env + delayMs) st e,
         [ev_scheduled key info meta], true)
  end.

Definition cancelReconnect key e : Engine :=
  match lookup_state e key with
  | None => e
  | Some st => delete_state key (clearTimers st e)
  end.

Definition cancelAllReconnects e : Engine := foldl (λ e key, cancelReconnect key e) e (mkeys (reconnectStates e)).

(** The state [runExecute] may start an attempt from. *)
Definition start_perform env st e : Engine * list event :=
  let '(e, id) := setTimeout (env_now env + WATCHDOG_MS) (watchdog (rs_key st)) e in
  let st := with_attempt id st in
  (with_awaiting (inFlightCount e + 1) (<[id := st]> (awaiting e)) (put_state st e),
   [ev_perform (rs_key st) (rs_meta st)]).

(** Up to the [await]. *)
Definition runExecute env key e : Engine * list event :=
  match lookup_state e key with
  | None => (e, [])
  | Some st =>
      let st := with_timerId None st in
      let e := put_state st e in
      if isOffline e then (e, []) else
      match mget (rs_kind st) (handlers e) with
      | None => (delete_state key e, [])
      | Some handler =>
          if has_isStillPresent handler && negb (env_present env key (rs_meta st)) then (cancelReconnect key e, [])
          else if env_held env (rs_meta st) then (arm (env_now env + HOLD_REQUEUE_MS) st e, [])
          else if MAX_CONCURRENT_RECONNECTS <=? inFlightCount e
          then (arm (env_now env + CONCURRENCY_REQUEUE_MS) st e, [])
          else start_perform env st e
      end
  end.

Definition watchdog_fires env key e : Engine * list event :=
  match lookup_state e key with
  | None => (e, [])
  | Some current =>
      if rs_inFlight current then (e, [])
      else (scheduleReconnect env (rs_kind current) key (Some (rs_meta current)) e).1
  end.

(** After the [await]: the [catch] when [perform] was rejected, then the [finally]. *)
Definition perform_settled env (id : nat) (ok : bool) e : Engine * list event :=
  match awaiting e !! id with
  | None => (e, [])
  | Some st =>
      let key := rs_key st in
      let e := with_awaiting (inFlightCount e) (delete id (awaiting e)) e in
      let '(e, evs) :=
        if negb ok && mhas key (reconnectStates e)
        then (scheduleReconnect env (rs_kind st) key (Some (rs_meta st)) e).1 else (e, []) in
      let e := with_awaiting (Z.max 0 (inFlightCount e - 1)) (awaiting e) e in
      (match lookup_state e key with
       | Some current => put_state (with_inFlight false current) e
       | None => e
       end, evs)
  end.

(** A timer that is due fires: it is spent, then its callback runs. *)
Definition fire_timer env (id : nat) e : Engine * list event :=
  match timers e !! id with
  | None => (e, [])
  | Some t =>
      if env_now env <? tm_due t then (e, []) else
      let e := with_timers (delete id (timers e)) e in
      match tm_action t with
      | run_execute key => runExecute env key e
      | watchdog key => watchdog_fires env key e
      end
  end.

(** The loop over the entries: those not in flight are armed, staggered. *)
Fixpoint fire_all (now : Z) (index : Z) (l : list ReconnectState) e : Engine :=
  match l with
  | [] => e
  | st :: l' =>
      if rs_inFlight st then fire_all now index l' e
      else fire_all now (index + 1) l' (arm (now + index * STAGGER_MS) st (clearTimeout (rs_timerId st) e))
  end.
Definition fireAllImmediately env e : Engine := fire_all (env_now env) 0 (mvalues (reconnectStates e)) e.

Definition offline_info env st : ReconnectAttemptInfo :=
  {| info_attempt := rs_attempt st + 1; info_maxAttempts := autoReconnectMaxAttempts (getConfig env);
     info_nextAttemptAt := 0; info_delayMs := 0; info_waitingForNetwork := true |}.
Definition suspend st e : Engine := put_state (with_timerId None st) (clearTimeout (rs_timerId st) e).

Definition onConnectivityChange env (online : bool) e : Engine * list event :=
  let wasOffline := isOffline e in
  let e := with_offline (negb online) e in
  if negb online then
    (foldl (λ e st, suspend st e) e (mvalues (reconnectStates e)),
     omap (λ st, (λ _, ev_scheduled (rs_key st) (offline_info env st) (rs_meta st)) <$> mget (rs_kind st) (handlers e))
       (mvalues (reconnectStates e)))
  else if wasOffline then (fireAllImmediately env e, []) else (e, []).

Definition resumeReconnectsAfterHold env e : Engine := if isOffline e then e else fireAllImmediately env e.
Definition onSystemResume env e : Engine := if isOffline e then e else fireAllImmediately env e.

Definition registerReconnectHandler (kind : ReconnectKind) (handler : ReconnectHandler) e : Engine :=
  {| reconnectStates := reconnectStates e; handlers := mset kind handler (handlers e); isOffline := isOffline e;
     inFlightCount := inFlightCount e; timers := timers e; next_id := next_id e; awaiting := awaiting e |}.

Definition isReconnecting key e : bool := mhas key (reconnectStates e).

Definition initial : Engine :=
  {| reconnectStates := []; handlers := []; isOffline := false; inFlightCount := 0; timers := ∅;
     next_id := 0; awaiting := ∅ |}.

(** ** Runs *)

Inductive call :=
| call_register (kind : ReconnectKind) (handler : ReconnectHandler)
| call_schedule (kind : ReconnectKind) (key : jsstring) (meta : option Meta)
| call_cancel (key : jsstring)
| call_cancelAll
| call_connectivity (online : bool)
| call_resumeAfterHold
| call_systemResume
| call_timer (id : nat)
| call_settled (id : nat) (ok : bool).

Definition step env (c : call) e : Engine * list event :=
  match c with
  | call_register kind handler => (registerReconnectHandler kind handler e, [])
  | call_schedule kind key meta => (scheduleReconnect env kind key meta e).1
  | call_cancel key => (cancelReconnect key e, [])
  | call_cancelAll => (cancelAllReconnects e, [])
  | call_connectivity online => onConnectivityChange env online e
  | call_resumeAfterHold => (resumeReconnectsAfterHold env e, [])
  | call_systemResume => (onSystemResume env e, [])
  | call_timer id => fire_timer env id e
  | call_settled id ok => perform_settled env id ok e
  end.

Fixpoint run (calls : list (Env * call)) e : Engine * list event :=
  match calls with
  | [] => (e, [])
  | (env, c) :: calls' =>
      let '(e', evs) := step env c e in
      let '(e'', evs') := run calls' e' in (e'', evs ++ evs')
  end.

(** ** What holds of one key *)

Definition tm_key (t : timer) : jsstring := match tm_action t with run_execute k | watchdog k => k end.

Definition no_runs e key : Prop := ∀ id t, timers e !! id = Some t → tm_action t ≠ run_execute key.

(** Its watchdog is still to fire. *)
Definition watched e st : Prop := ∃ id t, rs_watchdogId st = Some id ∧ timers e !! id = Some t.

(** The one retry timer of an entry is the one it can cancel. *)
Record entry_base e key st : Prop := {
  eb_key : rs_key st = key;
  eb_attempt : 0 ≤ rs_attempt st;
  eb_timer id : rs_timerId st = Some id ↔ ∃ due, timers e !! id = Some {| tm_due := due; tm_action := run_execute key |};
  eb_watchdog id : rs_watchdogId st = Some id →
    (id < next_id e)%nat ∧ ∀ t, timers e !! id = Some t → tm_action t = watchdog key;
}.

(** An entry in flight has a [perform] that has not settled. *)
Definition flying e key st : Prop :=
  rs_inFlight st = true → ∃ id st', awaiting e !! id = Some st' ∧ rs_key st' = key.

(** [w]: no watchdog was lost. *)
Definition entry_ok (w : bool) e key st : Prop :=
  entry_base e key st ∧ flying e key st
  ∧ (is_Some (rs_timerId st) → isOffline e = false)
  ∧ (w = true → rs_inFlight st = true → watched e st)
  ∧ (w = true → isOffline e = true ∨ is_Some (rs_timerId st) ∨ watched e st).

Definition key_ok (w : bool) e key : Prop :=
  match lookup_state e key with Some st => entry_ok w e key st | None => no_runs e key end.

Record globals e : Prop := {
  gl_keys : NoDup (reconnectStates e).*1;
  gl_timers id : is_Some (timers e !! id) → (id < next_id e)%nat;
  gl_awaiting id : is_Some (awaiting e !! id) → (id < next_id e)%nat;
}.

(** The counter counts the [perform]s that have not settled, and is bounded. *)
Definition counted e : Prop :=
  inFlightCount e = Z.of_nat (size (awaiting e)) ∧ inFlightCount e ≤ MAX_CONCURRENT_RECONNECTS.

Definition engine_ok (w : bool) e : Prop := globals e ∧ counted e ∧ ∀ key, key_ok w e key.

(** Only what belongs to [key] changes. *)
Record frame key e e' : Prop := {
  fr_offline : isOffline e' = isOffline e;
  fr_next : (next_id e ≤ next_id e')%nat;
  fr_lookup k : k ≠ key → lookup_state e' k = lookup_state e k;
  fr_timers id t : tm_key t ≠ key → timers e' !! id = Some t ↔ timers e !! id = Some t;
  fr_fresh id t : timers e' !! id = Some t → timers e !! id = Some t ∨ (next_id e ≤ id)%nat;
  fr_awaiting id st : rs_key st ≠ key → awaiting e' !! id = Some st ↔ awaiting e !! id = Some st;
}.
End engine.
Arguments ReconnectState Meta : clear implicits.
Arguments Engine Meta : clear implicits.
Arguments Env Meta : clear implicits.
Arguments event Meta : clear implicits.
Arguments call Meta : clear implicits.
