(* ===== verification/ReconnectInvariant.v ===== *)
(** * The reconnection engine stays consistent

    Every call acts on one key at a time, and leaves the others alone
    ([frame]); the loops do so for each entry.  From this the invariant of the
    engine, what its events claim, and the properties. *)

From S2P Require Import Prelude Collections JsNumber Reconnect.

Open Scope Z_scope.

Section engine.
Context {Meta : Type} {NM : NoMeta Meta}.
Abbreviation Engine := (Reconnect.Engine Meta).
Abbreviation Env := (Reconnect.Env Meta).
Abbreviation event := (Reconnect.event Meta).
Abbreviation call := (Reconnect.call Meta).
Abbreviation ReconnectState := (Reconnect.ReconnectState Meta).
Implicit Types (e : Engine) (env : Env) (key : jsstring) (st : ReconnectState).

(** ** Framing *)

Lemma lookup_put st e k : lookup_state (put_state st e) k = if decide (k = rs_key st) then Some st else lookup_state e k.
Proof.
  unfold lookup_state, put_state. cbn. case_decide as H; [subst; apply mget_mset_eq|by apply mget_mset_ne].
Qed.
Lemma lookup_delete_state key e k :
  lookup_state (delete_state key e) k = if decide (k = key) then None else lookup_state e k.
Proof. apply mget_mdelete. Qed.

Lemma frame_refl key e : frame key e e.
Proof. split; naive_solver. Qed.
Lemma frame_trans key e1 e2 e3 : frame key e1 e2 → frame key e2 e3 → frame key e1 e3.
Proof.
  intros [A1 A2 A3 A4 A5 A6] [B1 B2 B3 B4 B5 B6]. split.
  - congruence.
  - lia.
  - intros k Hk. by rewrite B3, A3.
  - intros id t Ht. by rewrite B4, A4.
  - intros id t Ht. destruct (B5 id t Ht) as [H|H]; [|right; lia]. destruct (A5 id t H); [by left|by right].
  - intros id st Hst. by rewrite B6, A6.
Qed.

Lemma frame_put st e : frame (rs_key st) e (put_state st e).
Proof. split; try done; [|naive_solver]. intros k Hk. rewrite lookup_put. by rewrite decide_False. Qed.
Lemma frame_delete key e : frame key e (delete_state key e).
Proof. split; try done; [|naive_solver]. intros k Hk. rewrite lookup_delete_state. by rewrite decide_False. Qed.
Lemma frame_setTimeout due action e : globals e →
  frame (tm_key {| tm_due := due; tm_action := action |}) e (setTimeout due action e).1.
Proof.
  intros Hg. split; try done; cbn -[tm_key]; [lia| |].
  - intros id t Ht. rewrite lookup_insert_Some. split; [|intros Hid; right; split; [|done]].
    + intros [[_ <-]|[_ ?]]; done.
    + intros <-. by pose proof (gl_timers _ Hg _ (mk_is_Some _ _ Hid)) as ?%Nat.lt_irrefl.
  - intros id t. rewrite lookup_insert_Some. intros [[<- _]|[_ ?]]; [by right|by left].
Qed.
Lemma frame_clearTimeout key o e : (∀ id t, o = Some id → timers e !! id = Some t → tm_key t = key) →
  frame key e (clearTimeout o e).
Proof.
  intros Ho. destruct o as [id|]; [|apply frame_refl]. split; try done; cbn.
  - intros id' t Ht. rewrite lookup_delete_Some. split; [by intros [_ ?]|]. intros Hid. split; [|done].
    intros <-. by apply Ht, (Ho id).
  - intros id' t [_ ?]%lookup_delete_Some. by left.
Qed.

(** The other keys do not notice. *)
Lemma base_frame key e e' k st : frame key e e' → k ≠ key → entry_base e k st → entry_base e' k st.
Proof.
  intros F Hk B. split; [apply B..| |].
  - intros id. rewrite (eb_timer _ _ _ B id). split; intros [due Hd]; exists due; by apply (fr_timers _ _ _ F).
  - intros id Hid. destruct (eb_watchdog _ _ _ B id Hid) as [Hlt Ht].
    split; [pose proof (fr_next _ _ _ F); lia|]. intros t Hl.
    destruct (fr_fresh _ _ _ F id t Hl); [by apply Ht|lia].
Qed.
Lemma flying_frame key e e' k st : frame key e e' → k ≠ key → flying e k st → flying e' k st.
Proof.
  intros F Hk Hf (id & st' & Ha & E)%Hf. exists id, st'. split; [|done].
  apply (fr_awaiting _ _ _ F); [congruence|done].
Qed.
Lemma watched_frame key e e' k st : frame key e e' → k ≠ key → entry_base e k st → watched e st → watched e' st.
Proof.
  intros F Hk B (id & t & Hid & Ht). exists id, t. split; [done|]. apply (fr_timers _ _ _ F); [|done].
  destruct (eb_watchdog _ _ _ B id Hid) as [_ Ha]. unfold tm_key. by rewrite (Ha t Ht).
Qed.
Lemma no_runs_frame key e e' k : frame key e e' → k ≠ key → no_runs e k → no_runs e' k.
Proof.
  intros F Hk Hn id t Hl Ha. apply (Hn id t); [|done]. apply (fr_timers _ _ _ F); [|done].
  unfold tm_key. by rewrite Ha.
Qed.
Lemma key_ok_frame w key e e' k : frame key e e' → k ≠ key → key_ok w e k → key_ok w e' k.
Proof.
  intros F Hk. unfold key_ok. rewrite (fr_lookup _ _ _ F k Hk).
  destruct (lookup_state e k) as [st|]; [|by apply (no_runs_frame key)].
  intros (B & Hf & C & W1 & W2). split_and!; [by apply (base_frame key e)|by apply (flying_frame key e)| | |].
  - by rewrite (fr_offline _ _ _ F).
  - intros Hw Hfl. by eapply watched_frame; [..|apply W1].
  - rewrite (fr_offline _ _ _ F). intros Hw. destruct (W2 Hw) as [?|[?|?]]; [by left|right; by left|].
    right. right. by eapply watched_frame.
Qed.

Lemma engine_ok_frame w key e e' : (∀ k, key_ok w e k) → frame key e e' → globals e' → counted e' →
  key_ok w e' key → engine_ok w e'.
Proof.
  intros Hk F Hg Hc Hkey. split_and!; [done..|]. intros k. destruct (decide (k = key)) as [->|Hne]; [done|].
  by apply (key_ok_frame w key e).
Qed.

(** ** The global part *)

Lemma globals_put st e : globals e → globals (put_state st e).
Proof. intros []. split; try done. by apply mset_NoDup. Qed.
Lemma globals_delete key e : globals e → globals (delete_state key e).
Proof. intros []. split; try done. cbn. by apply mdelete_NoDup. Qed.
Lemma globals_clearTimeout o e : globals e → globals (clearTimeout o e).
Proof.
  intros []. destruct o as [id|]; [|done]. split; try done. cbn. intros id' [t [_ Ht]%lookup_delete_Some]. eauto.
Qed.
Lemma globals_setTimeout due action e : globals e → globals (setTimeout due action e).1.
Proof.
  intros []. split; try done; cbn.
  - intros id [t [[<- _]|[_ Ht]]%lookup_insert_Some]; [lia|]. pose proof (gl_timers id (mk_is_Some _ _ Ht)). lia.
  - intros id Hid. specialize (gl_awaiting id Hid). lia.
Qed.
Lemma globals_arm due st e : globals e → globals (arm due st e).
Proof. intros Hg. exact (globals_put _ _ (globals_setTimeout due _ e Hg)). Qed.

(** ** One key at a time *)

Lemma frame_arm due st e : globals e → frame (rs_key st) e (arm due st e).
Proof.
  intros Hg. eapply frame_trans; [exact (frame_setTimeout due (run_execute (rs_key st)) e Hg)|].
  apply (frame_put (with_timerId (Some (next_id e)) st)).
Qed.

Lemma base_timer_keys e key st : entry_base e key st →
  ∀ id t, rs_timerId st = Some id → timers e !! id = Some t → tm_key t = key.
Proof. intros B id t [due Hd]%(eb_timer _ _ _ B) Ht. rewrite Hd in Ht. by injection Ht as <-. Qed.
Lemma base_watchdog_keys e key st : entry_base e key st →
  ∀ id t, rs_watchdogId st = Some id → timers e !! id = Some t → tm_key t = key.
Proof. intros B id t Hid Ht. unfold tm_key. by rewrite (proj2 (eb_watchdog _ _ _ B id Hid) t Ht). Qed.

(** Clearing its retry timer leaves the rest of an entry. *)
Lemma clear_run e key st : entry_base e key st →
  let e' := clearTimeout (rs_timerId st) e in
  frame key e e' ∧ no_runs e' key ∧ entry_base e' key (with_timerId None st)
  ∧ (watched e st → watched e' (with_timerId None st)).
Proof.
  intros B e'.
  assert (Hn : no_runs e' key).
  { intros id [due a] Hl Ha. cbn in Ha. subst a. unfold e' in Hl. destruct (rs_timerId st) as [i|] eqn:Ei; cbn in Hl.
    - apply lookup_delete_Some in Hl as [Hne Hl].
      assert (rs_timerId st = Some id) as Ei' by (apply (eb_timer _ _ _ B); by exists due). congruence.
    - assert (rs_timerId st = Some id) as Ei' by (apply (eb_timer _ _ _ B); by exists due). congruence. }
  assert (Hsub : ∀ id t, timers e' !! id = Some t → timers e !! id = Some t).
  { intros id t. unfold e'. destruct (rs_timerId st); cbn; [|done]. by intros [_ ?]%lookup_delete_Some. }
  assert (Hsup : ∀ id t, timers e !! id = Some t → tm_action t ≠ run_execute key → timers e' !! id = Some t).
  { intros id t Hl Ha. unfold e'. destruct (rs_timerId st) as [i|] eqn:Ei; cbn; [|done].
    apply lookup_delete_Some. split; [|done]. intros <-. apply (eb_timer _ _ _ B) in Ei as [due Hd].
    rewrite Hd in Hl. injection Hl as <-. done. }
  assert (Hnext : next_id e' = next_id e) by (unfold e'; by destruct (rs_timerId st)).
  split_and!; [apply frame_clearTimeout, (base_timer_keys e key st B)|done| |].
  - split; cbn; [apply B..| |].
    + intros id. split; [done|]. intros [due Hd]. by destruct (Hn _ _ Hd).
    + intros id Hid. rewrite Hnext. destruct (eb_watchdog _ _ _ B id Hid). split; [done|]. intros t Ht. auto.
  - intros (id & t & Hid & Ht). exists id, t. split; [done|]. apply Hsup; [done|].
    rewrite (proj2 (eb_watchdog _ _ _ B id Hid) t Ht). done.
Qed.

Lemma clear_timers e key st : globals e → entry_base e key st →
  frame key e (clearTimers st e) ∧ no_runs (clearTimers st e) key ∧ globals (clearTimers st e).
Proof.
  intros Hg B. destruct (clear_run e key st B) as (F & Hn & B' & _). unfold clearTimers. split_and!.
  - eapply frame_trans; [exact F|]. apply frame_clearTimeout. apply (base_watchdog_keys _ _ _ B').
  - intros id t Ht Ha. destruct (rs_watchdogId st); cbn in Ht; [|by apply (Hn id t)].
    apply lookup_delete_Some in Ht as [_ Ht]. by apply (Hn id t).
  - by apply globals_clearTimeout, globals_clearTimeout.
Qed.

(** An entry that waits for nothing but the network, and one that is armed. *)
Lemma put_quiet w e key st : no_runs e key → entry_base e key st → flying e key st → rs_timerId st = None →
  (w = true → rs_inFlight st = true → watched e st) →
  (w = true → isOffline e = true ∨ watched e st) → key_ok w (put_state st e) key.
Proof.
  intros Hn B Hf Et W1 W2. unfold key_ok. rewrite lookup_put, decide_True by (by rewrite (eb_key _ _ _ B)).
  split_and!; [destruct B; split; done|done|by rewrite Et; intros []|exact W1|].
  intros Hw. destruct (W2 Hw); [by left|right; by right].
Qed.

Lemma arm_ok w due e key st : globals e → no_runs e key → entry_base e key st → flying e key st →
  isOffline e = false → (w = true → rs_inFlight st = true → watched e st) → key_ok w (arm due st e) key.
Proof.
  intros Hg Hn B Hfl Hoff W. pose proof (eb_key _ _ _ B) as Ek. unfold key_ok, arm. cbn -[put_state tm_key].
  rewrite lookup_put. cbn [with_timerId rs_key]. rewrite decide_True by done.
  assert (Hfresh : ∀ id t, timers e !! id = Some t → id ≠ next_id e).
  { intros id t Ht ->. by pose proof (gl_timers _ Hg _ (mk_is_Some _ _ Ht)) as ?%Nat.lt_irrefl. }
  assert (Hw : ∀ st', rs_watchdogId st' = rs_watchdogId st → watched e st →
    watched (put_state (with_timerId (Some (next_id e)) st) (setTimeout due (run_execute (rs_key st)) e).1) st').
  { intros st' E (id & t & Hid & Ht). exists id, t. split; [congruence|]. cbn.
    rewrite lookup_insert_ne; [done|]. by apply not_eq_sym, (Hfresh id t). }
  split_and!; [|exact Hfl|intros _; exact Hoff|intros Hw' Hf; by apply Hw; auto|intros _; right; left; by eexists].
  split; cbn; [apply B..| |].
  - intros id. split.
    + intros [= <-]. exists due. by rewrite lookup_insert_eq, Ek.
    + intros [d [[<- _]|[_ Hd]]%lookup_insert_Some]; [done|]. by destruct (Hn _ _ Hd).
  - intros id Hid. destruct (eb_watchdog _ _ _ B id Hid) as [Hlt Ha]. split; [lia|].
    intros t [[<- _]|[_ Ht]]%lookup_insert_Some; [lia|auto].
Qed.

(** ** What a call tells, and does to one key *)

Definition ev_key (ev : event) : jsstring :=
  match ev with ev_scheduled k _ _ | ev_perform k _ | ev_gaveUp k _ _ => k end.
Definition attempts e key : Z := default 0 (rs_attempt <$> lookup_state e key).
Definition performs key (evs : list event) : Z :=
  Z.of_nat (length (List.filter (λ ev, match ev with ev_perform k _ => bool_decide (k = key) | _ => false end) evs)).

(** What an event claims, of the state before and after. *)
Definition event_true env e e' (ev : event) : Prop :=
  match ev with
  | ev_scheduled key info meta =>
      info_attempt info = attempts e key + 1 ∧ info_waitingForNetwork info = isOffline e'
      ∧ info_maxAttempts info = autoReconnectMaxAttempts (getConfig env)
  | ev_perform key meta =>
      isOffline e = false ∧ env_held env meta = false ∧ inFlightCount e < MAX_CONCURRENT_RECONNECTS
      ∧ inFlightCount e' = inFlightCount e + 1
      ∧ ∃ st handler, lookup_state e key = Some st ∧ rs_meta st = meta ∧ mget (rs_kind st) (handlers e) = Some handler
          ∧ (has_isStillPresent handler = true → env_present env key meta = true)
  | ev_gaveUp key n meta =>
      n = attempts e key ∧ autoReconnectMaxAttempts (getConfig env) ≤ n ∧ lookup_state e' key = None
  end.

Definition no_perform (ev : event) : Prop := match ev with ev_perform _ _ => False | _ => True end.
Lemma no_performs key evs : Forall no_perform evs → performs key evs = 0.
Proof. unfold performs. induction 1 as [|[] evs Hev _ IH]; done. Qed.

Record acts_on env key e e' (evs : list event) : Prop := {
  ac_frame : frame key e e';
  ac_globals : globals e';
  ac_only : Forall (λ ev, ev_key ev = key) evs;
  ac_true : Forall (event_true env e e') evs;
  ac_attempt st : lookup_state e' key = Some st → rs_attempt st = attempts e key + performs key evs;
}.

Lemma acts_nothing env key e : globals e → acts_on env key e e [].
Proof.
  intros Hg. split; [apply frame_refl|done|done|done|]. intros st Hst. unfold attempts, performs. rewrite Hst. simpl. lia.
Qed.

(** What is known of a key before it is scheduled again. *)
Definition key_base e key : Prop :=
  match lookup_state e key with Some st => entry_base e key st | None => no_runs e key end.
Lemma key_ok_base w e key : key_ok w e key → key_base e key.
Proof. unfold key_ok, key_base. destruct (lookup_state e key); [by intros []|done]. Qed.

Definition accepts env (kind : ReconnectKind) e : bool :=
  autoReconnectEnabled (getConfig env) && bool_decide (is_Some (mget kind (handlers e))).

Lemma schedule_refused env kind key meta e : accepts env kind e = false →
  scheduleReconnect env kind key meta e = (e, [], false).
Proof.
  unfold accepts, scheduleReconnect. destruct (autoReconnectEnabled _); [|done]. simpl.
  intros H%bool_decide_eq_false. destruct (mget kind (handlers e)); [|done]. destruct H. by eexists.
Qed.

(** The entry [scheduleReconnect] makes. *)
Definition fresh_entry (kind : ReconnectKind) key (n at_ : Z) (meta : Meta) : ReconnectState :=
  {| rs_kind := kind; rs_key := key; rs_attempt := n; rs_timerId := None; rs_watchdogId := None;
     rs_nextAttemptAt := at_; rs_meta := meta; rs_inFlight := false |}.

Lemma fresh_entry_base e kind key n at_ meta : no_runs e key → 0 ≤ n → entry_base e key (fresh_entry kind key n at_ meta).
Proof. intros Hn H0. split; cbn; [done|done| |done]. intros id. split; [done|]. intros [due Hd]. by destruct (Hn _ _ Hd). Qed.

Lemma attempts_nonneg e key : key_base e key → 0 ≤ attempts e key.
Proof. unfold key_base, attempts. destruct (lookup_state e key) as [st|]; [|done]. apply eb_attempt. Qed.

Lemma clear_existing e key : globals e → key_base e key →
  let e1 := match lookup_state e key with Some st => clearTimers st e | None => e end in
  frame key e e1 ∧ no_runs e1 key ∧ globals e1 ∧ isOffline e1 = isOffline e
  ∧ awaiting e1 = awaiting e ∧ inFlightCount e1 = inFlightCount e ∧ handlers e1 = handlers e
  ∧ reconnectStates e1 = reconnectStates e.
Proof.
  unfold key_base. intros Hg B. destruct (lookup_state e key) as [st|]; [|split_and!; try done; apply frame_refl].
  destruct (clear_timers e key st Hg B) as (F & Hn & Hg'). split_and!; try done; unfold clearTimers;
    destruct (rs_watchdogId st), (rs_timerId st); done.
Qed.

Lemma attempts_put st e : attempts (put_state st e) (rs_key st) = rs_attempt st.
Proof. unfold attempts. rewrite lookup_put. by rewrite decide_True. Qed.

Lemma schedule_acts w env kind key meta e : globals e → key_base e key →
  (accepts env kind e = false → key_ok w e key) →
  let '(e', evs, accepted) := scheduleReconnect env kind key meta e in
  acts_on env key e e' evs ∧ key_ok w e' key ∧ awaiting e' = awaiting e ∧ inFlightCount e' = inFlightCount e
  ∧ isOffline e' = isOffline e ∧ Forall no_perform evs
  ∧ (∀ st, accepts env kind e = true → lookup_state e' key = Some st → rs_inFlight st = false).
Proof.
  intros Hg B Hkeep. destruct (accepts env kind e) eqn:Ha.
  2: { rewrite schedule_refused by done. split_and!; [by apply acts_nothing|by apply Hkeep|done..|by constructor|done]. }
  unfold accepts in Ha. apply andb_true_iff in Ha as [He [h Hh]%bool_decide_eq_true].
  unfold scheduleReconnect. rewrite He, Hh. cbn [negb]. fold (attempts e key).
  destruct (clear_existing e key Hg B) as (F1 & Hn1 & Hg1 & Ho1 & Hw1 & Hc1 & _ & Hs1).
  pose proof (attempts_nonneg e key B) as H0.
  set (e1 := match lookup_state e key with Some st => clearTimers st e | None => e end) in *.
  assert (Hl1 : ∀ k, lookup_state e1 k = lookup_state e k) by (intros k; unfold lookup_state; by rewrite Hs1).
  set (m := default _ meta).
  destruct (Z.leb_spec (autoReconnectMaxAttempts (getConfig env)) (attempts e key)).
  - split_and!; try done; [split| | |].
    + eapply frame_trans; [exact F1|apply frame_delete].
    + by apply globals_delete.
    + by repeat constructor.
    + constructor; [|done]. cbn [event_true]. rewrite lookup_delete_state, decide_True by done. done.
    + intros st. by rewrite lookup_delete_state, decide_True.
    + unfold key_ok. by rewrite lookup_delete_state, decide_True.
    + by repeat constructor.
    + intros st _. by rewrite lookup_delete_state, decide_True.
  - set (d := computeBackoffDelay _ _ _ _). rewrite Ho1. set (at_ := if isOffline e then 0 else _).
    fold (fresh_entry kind key (attempts e key) at_ m).
    pose proof (fresh_entry_base e1 kind key (attempts e key) at_ m Hn1 H0) as Bf.
    assert (Hcase : let e' := if isOffline e then put_state (fresh_entry kind key (attempts e key) at_ m) e1
                      else arm (env_now env + d) (fresh_entry kind key (attempts e key) at_ m) e1 in
      frame key e1 e' ∧ globals e' ∧ key_ok w e' key ∧ awaiting e' = awaiting e1 ∧ inFlightCount e' = inFlightCount e1
      ∧ isOffline e' = isOffline e1 ∧ ∃ st, lookup_state e' key = Some st ∧ rs_attempt st = attempts e key
          ∧ rs_inFlight st = false).
    { destruct (isOffline e) eqn:Eo; cbn zeta; (split_and!; [| | |done..|]).
      - apply (frame_put (fresh_entry kind key (attempts e key) at_ m)).
      - by apply globals_put.
      - apply put_quiet; try done. intros _. left. by rewrite Ho1.
      - eexists. split; [rewrite lookup_put; by rewrite decide_True|done].
      - apply (frame_arm _ (fresh_entry kind key (attempts e key) at_ m)), Hg1.
      - by apply globals_arm.
      - apply arm_ok; try done; by rewrite Ho1.
      - eexists. split; [unfold arm; cbn -[put_state]; rewrite lookup_put; by rewrite decide_True|done]. }
    cbn zeta in Hcase. set (e' := if isOffline e then _ else _) in *.
    destruct Hcase as (F2 & Hg2 & Hk & Ha & Hc & Ho & st & Hst & Hat & Hfl).
    split_and!; [split|done|congruence..| |].
    + by eapply frame_trans.
    + done.
    + by repeat constructor.
    + constructor; [|done]. cbn [event_true]. rewrite Ho, Ho1. done.
    + intros st'. rewrite Hst. intros [= <-]. unfold performs. simpl. lia.
    + by repeat constructor.
    + intros st' _. rewrite Hst. by intros [= <-].
Qed.

(** Cancelling, from any state of the key's timers. *)
Lemma cancel_acts w env key e : globals e → key_base e key →
  let e' := cancelReconnect key e in
  acts_on env key e e' [] ∧ key_ok w e' key ∧ awaiting e' = awaiting e ∧ inFlightCount e' = inFlightCount e
  ∧ isOffline e' = isOffline e ∧ lookup_state e' key = None.
Proof.
  intros Hg B. unfold cancelReconnect. pose proof (clear_existing e key Hg B) as Hc. unfold key_base in B.
  destruct (lookup_state e key) as [st|] eqn:El; cbn zeta in *.
  - destruct Hc as (F & Hn & Hg1 & Ho & Ha & Hc & _). split_and!; try done; [split| |].
    + eapply frame_trans; [exact F|apply frame_delete].
    + by apply globals_delete.
    + done.
    + done.
    + intros st'. by rewrite lookup_delete_state, decide_True.
    + unfold key_ok. by rewrite lookup_delete_state, decide_True.
    + by rewrite lookup_delete_state, decide_True.
  - split_and!; try done; [by apply acts_nothing|]. unfold key_ok. by rewrite El.
Qed.

(** An entry whose retry timer has just been spent. *)
Record spent (w : bool) e key st : Prop := {
  sp_globals : globals e;
  sp_lookup : lookup_state e key = Some st;
  sp_online : isOffline e = false;
  sp_timer : rs_timerId st = None;
  sp_no_runs : no_runs e key;
  sp_base : entry_base e key st;
  sp_flying : flying e key st;
  sp_watched : w = true → rs_inFlight st = true → watched e st;
}.

Lemma spent_arm w env due e key st : spent w e key st →
  acts_on env key e (arm due st e) [] ∧ key_ok w (arm due st e) key.
Proof.
  intros []. pose proof (eb_key _ _ _ sp_base0) as Ek. split; [split| ].
  - pose proof (frame_arm due st e sp_globals0) as F. by rewrite Ek in F.
  - by apply globals_arm.
  - done.
  - done.
  - intros st'. unfold arm. cbn -[put_state]. rewrite lookup_put. cbn. rewrite decide_True by done. intros [= <-].
    unfold attempts, performs. rewrite sp_lookup0. simpl. lia.
  - by apply arm_ok.
Qed.

Lemma spent_delete w env e key st : spent w e key st →
  acts_on env key e (delete_state key e) [] ∧ key_ok w (delete_state key e) key.
Proof.
  intros []. split; [split|].
  - apply frame_delete.
  - by apply globals_delete.
  - done.
  - done.
  - intros st'. by rewrite lookup_delete_state, decide_True.
  - unfold key_ok. by rewrite lookup_delete_state, decide_True.
Qed.

Lemma spent_start w env e key st handler : spent w e key st → counted e →
  inFlightCount e < MAX_CONCURRENT_RECONNECTS → env_held env (rs_meta st) = false →
  mget (rs_kind st) (handlers e) = Some handler →
  (has_isStillPresent handler = true → env_present env key (rs_meta st) = true) →
  let '(e', evs) := start_perform env st e in acts_on env key e e' evs ∧ key_ok w e' key ∧ counted e'.
Proof.
  intros [] Hc Hlt Hh Hm Hp. pose proof (eb_key _ _ _ sp_base0) as Ek. unfold start_perform.
  destruct (setTimeout _ _ e) as [e1 id] eqn:E1.
  pose proof (globals_setTimeout (env_now env + WATCHDOG_MS) (watchdog (rs_key st)) e sp_globals0) as Hg1.
  pose proof (frame_setTimeout (env_now env + WATCHDOG_MS) (watchdog (rs_key st)) e sp_globals0) as F1.
  rewrite E1 in Hg1, F1. cbn [fst tm_key tm_action] in *. injection E1 as <- <-. set (e1 := {| reconnectStates := _ |}) in *.
  assert (Hfresh : awaiting e !! next_id e = None).
  { apply eq_None_not_Some. by intros ?%(gl_awaiting _ sp_globals0)%Nat.lt_irrefl. }
  rewrite Ek in F1. set (st1 := with_attempt (next_id e) st).
  set (e2 := with_awaiting _ _ _).
  assert (Hl : ∀ k, lookup_state e2 k = lookup_state (put_state st1 e1) k) by done.
  assert (F2 : frame key e e2).
  { eapply frame_trans; [exact F1|]. eapply frame_trans; [pose proof (frame_put st1 e1) as F; cbn in F; by rewrite Ek in F|].
    split; try done; [naive_solver|]. intros id st' Hst. cbn. cbn. rewrite lookup_insert_Some.
    split; [intros [[_ <-]|[_ ?]]; [by destruct Hst|done]|]. intros Hs. right. split; [|done]. intros <-. congruence.
  }
  split_and!; [split| |].
  - done.
  - destruct Hg1. split; try done; cbn; [by apply mset_NoDup|]. intros i [x Hx].
    apply lookup_insert_Some in Hx as [[<- _]|[_ Hx]]; [cbn; lia|]. by apply gl_awaiting.
  - by repeat constructor.
  - constructor; [|done]. cbn [event_true]. split_and!; try done. exists st, handler. subst st1. cbn. rewrite Ek. done.
  - intros st'. rewrite Hl, lookup_put. cbn. rewrite Ek, decide_True by done. intros [= <-].
    unfold attempts, performs. rewrite sp_lookup0. cbn. rewrite bool_decide_true by done. cbn. lia.
  - unfold key_ok. rewrite Hl, lookup_put. cbn [st1 with_attempt rs_key]. rewrite Ek, decide_True by done.
    assert (W : watched e2 st1).
    { eexists _, _. split; [done|]. cbn. apply lookup_insert_eq. }
    split_and!; [|intros _; exists (next_id e), st1; split; [apply lookup_insert_eq|done]|cbn; rewrite sp_timer0; by intros []|done|auto].
    split; cbn; [done|pose proof (eb_attempt _ _ _ sp_base0); lia| |].
    + intros id. rewrite sp_timer0. split; [done|]. cbn.
      intros [due [[_ [=]]|[_ Hd]]%lookup_insert_Some]. by destruct (sp_no_runs0 _ _ Hd).
    + intros id [= <-]. cbn. split; [lia|]. intros t. rewrite lookup_insert_eq. intros [= <-]. by rewrite <- Ek.
  - unfold counted in *. cbn. cbn. rewrite map_size_insert_None by done. lia.
Qed.

(** What matters of [key] to the events is the same in two states. *)
Record similar key e e2 : Prop := {
  si_offline : isOffline e2 = isOffline e;
  si_count : inFlightCount e2 = inFlightCount e;
  si_handlers : handlers e2 = handlers e;
  si_attempts : attempts e2 key = attempts e key;
  si_lookup st2 : lookup_state e2 key = Some st2 →
    ∃ st, lookup_state e key = Some st ∧ rs_meta st = rs_meta st2 ∧ rs_kind st = rs_kind st2;
}.

Lemma acts_trans env key e e2 e' evs : frame key e e2 → similar key e e2 → acts_on env key e2 e' evs →
  acts_on env key e e' evs.
Proof.
  intros F [S1 S2 S3 S4 S5] [A1 A2 A3 A4 A5]. split; [by eapply frame_trans|done|done| |].
  - rewrite Forall_forall in A3, A4 |- *. intros ev Hev. pose proof (A3 ev Hev) as Ek. specialize (A4 ev Hev).
    destruct ev as [k info meta|k meta|k n meta]; cbn in Ek; subst k; cbn in *; rewrite ?S1, ?S2, ?S3, ?S4 in A4; try done.
    destruct A4 as (? & ? & ? & ? & st2 & handler & (st & Hst & <- & <-)%S5 & <- & ? & ?). split_and!; try done; try congruence.
    by exists st, handler.
  - intros st Hst. rewrite <- S4. by apply A5.
Qed.

(** The state in which a retry timer's callback does its work. *)
Lemma timer_spent w e key id due : engine_ok w e → timers e !! id = Some {| tm_due := due; tm_action := run_execute key |} →
  ∃ st, lookup_state e key = Some st ∧
    let e2 := put_state (with_timerId None st) (with_timers (delete id (timers e)) e) in
    spent w e2 key (with_timerId None st) ∧ frame key e e2 ∧ similar key e e2 ∧ counted e2.
Proof.
  intros (Hg & Hc & Hk) Ht. specialize (Hk key). unfold key_ok in Hk.
  destruct (lookup_state e key) as [st|] eqn:El; [|by destruct (Hk _ _ Ht)].
  destruct Hk as (B & Hf & Hon & W1 & _). exists st. split; [done|].
  assert (Eid : rs_timerId st = Some id) by (apply (eb_timer _ _ _ B); by exists due).
  destruct (clear_run e key st B) as (F & Hn & B' & W). rewrite Eid in F, Hn, B', W. cbn [clearTimeout] in *.
  set (e1 := with_timers (delete id (timers e)) e) in *. pose proof (eb_key _ _ _ B) as Ek. cbn zeta.
  assert (El2 : lookup_state (put_state (with_timerId None st) e1) key = Some (with_timerId None st))
    by (rewrite lookup_put; by rewrite decide_True).
  split_and!; [split; try done| | |done].
  - apply globals_put. by apply (globals_clearTimeout (Some id)).
  - apply Hon. by rewrite Eid.
  - destruct B'. by split.
  - intros Hw Hfl. by apply W, W1.
  - eapply frame_trans; [exact F|]. pose proof (frame_put (with_timerId None st) e1) as Fp. cbn in Fp. by rewrite Ek in Fp.
  - split; try done; [by unfold attempts; rewrite El2, El|]. intros st2. rewrite El2. intros [= <-]. by exists st.
Qed.

(** The conclusion shared by everything that handles one key. *)
Definition handled (w : bool) env key e (r : Engine * list event) : Prop :=
  acts_on env key e r.1 r.2 ∧ engine_ok w r.1.

Lemma run_acts w env key id due e : engine_ok w e →
  timers e !! id = Some {| tm_due := due; tm_action := run_execute key |} →
  handled w env key e (runExecute env key (with_timers (delete id (timers e)) e)).
Proof.
  intros Hok Ht. destruct (timer_spent w e key id due Hok Ht) as (st & El & Hs & F & Si & Hc).
  pose proof Hok as (_ & _ & Hk). unfold runExecute.
  assert (lookup_state (with_timers (delete id (timers e)) e) key = Some st) as -> by exact El.
  set (e2 := put_state _ _) in *. cbn zeta in Hs, F, Si, Hc |- *. rewrite (sp_online _ _ _ _ Hs).
  assert (Hdone : ∀ e' evs, acts_on env key e2 e' evs → key_ok w e' key → counted e' → handled w env key e (e', evs)).
  { intros e' evs Ha Hke Hce. pose proof (acts_trans env key e e2 e' evs F Si Ha) as Ha'. split; [done|].
    apply (engine_ok_frame w key e); [done|apply Ha'|apply Ha'|done..]. }
  destruct (mget _ (handlers e2)) as [handler|] eqn:Eh; [|destruct (spent_delete w env _ _ _ Hs); by apply Hdone].
  destruct (has_isStillPresent handler && negb (env_present env key (rs_meta (with_timerId None st)))) eqn:Ep.
  { assert (B : key_base e2 key) by (unfold key_base; rewrite (sp_lookup _ _ _ _ Hs); apply Hs).
    destruct (cancel_acts w env key e2 (sp_globals _ _ _ _ Hs) B) as (Ha & Hke & E1 & E2 & _).
    apply Hdone; [done..|]. unfold counted in *. by rewrite E1, E2. }
  destruct (env_held env _) eqn:Ehd.
  { destruct (spent_arm w env (env_now env + HOLD_REQUEUE_MS) _ _ _ Hs). by apply Hdone. }
  destruct (Z.leb_spec MAX_CONCURRENT_RECONNECTS (inFlightCount e2)).
  { destruct (spent_arm w env (env_now env + CONCURRENCY_REQUEUE_MS) _ _ _ Hs). by apply Hdone. }
  assert (Hp : has_isStillPresent handler = true → env_present env key (rs_meta (with_timerId None st)) = true).
  { intros Hh. rewrite Hh in Ep. cbn [andb] in Ep. by apply negb_false_iff. }
  pose proof (spent_start w env _ _ _ handler Hs Hc ltac:(lia) Ehd Eh Hp) as Hstart.
  destruct (start_perform env _ e2) as [e' evs]. destruct Hstart as (? & ? & ?). by apply Hdone.
Qed.

Lemma key_ok_weaken w e key : key_ok w e key → key_ok false e key.
Proof.
  unfold key_ok. destruct (lookup_state e key); [|done]. intros (B & Hf & Ho & _). by split_and!.
Qed.
Lemma engine_ok_weaken w e : engine_ok w e → engine_ok false e.
Proof. intros (? & ? & Hk). split_and!; [done..|]. intros key. by eapply key_ok_weaken. Qed.

(** The watchdog of a key is lost when it fires during the key's own [perform], or
    when the engine no longer takes the key. *)
Definition watchdog_lost env key e : bool :=
  match lookup_state e key with
  | Some st => rs_inFlight st || negb (accepts env (rs_kind st) e)
  | None => false
  end.

(** Once a watchdog is spent, only the entry's being watched may have changed. *)
Lemma watchdog_spent w e key id due : engine_ok w e → timers e !! id = Some {| tm_due := due; tm_action := watchdog key |} →
  let e1 := with_timers (delete id (timers e)) e in
  frame key e e1 ∧ similar key e e1 ∧ globals e1 ∧ key_base e1 key ∧ key_ok false e1 key.
Proof.
  intros (Hg & _ & Hk) Ht e1. specialize (Hk key).
  assert (Hl : ∀ k, lookup_state e1 k = lookup_state e k) by done.
  assert (Hrun : ∀ i d, timers e1 !! i = Some {| tm_due := d; tm_action := run_execute key |}
      ↔ timers e !! i = Some {| tm_due := d; tm_action := run_execute key |}).
  { intros i d. cbn. rewrite lookup_delete_Some. split; [by intros [_ ?]|]. intros Hi. split; [|done].
    intros <-. rewrite Ht in Hi. done. }
  assert (Hn : no_runs e key → no_runs e1 key).
  { intros Hn i [d a] Hi Ha. cbn in Ha. subst a. apply Hrun in Hi. by apply (Hn _ _ Hi). }
  assert (Hbase : ∀ st, entry_base e key st → entry_base e1 key st).
  { intros st B. split; [apply B..| |].
    - intros i. rewrite (eb_timer _ _ _ B i). by setoid_rewrite Hrun.
    - intros i Hi. destruct (eb_watchdog _ _ _ B i Hi). split; [done|]. cbn. intros t [_ ?]%lookup_delete_Some. auto. }
  split_and!.
  - apply (frame_clearTimeout key (Some id)). intros i t [= <-]. rewrite Ht. by intros [= <-].
  - split; try done. intros st2 Hst. by exists st2.
  - by apply (globals_clearTimeout (Some id)).
  - unfold key_base. rewrite Hl. unfold key_ok in Hk. destruct (lookup_state e key); [apply Hbase, Hk|by apply Hn].
  - unfold key_ok. rewrite Hl. unfold key_ok in Hk. destruct (lookup_state e key); [|by apply Hn].
    destruct Hk as (B & Hf & Ho & _). split_and!; [by apply Hbase|done..].
Qed.

Lemma watchdog_acts w env key id due e : engine_ok w e →
  timers e !! id = Some {| tm_due := due; tm_action := watchdog key |} →
  handled (w && negb (watchdog_lost env key e)) env key e (watchdog_fires env key (with_timers (delete id (timers e)) e)).
Proof.
  intros Hok Ht. destruct (watchdog_spent w e key id due Hok Ht) as (F & Si & Hg1 & B & Hf).
  pose proof Hok as (_ & Hc & Hk). set (e1 := with_timers _ e) in *.
  assert (Hl : lookup_state e1 key = lookup_state e key) by done.
  assert (Hdone : ∀ w' e' evs, (w' = true → w = true) → acts_on env key e1 e' evs → key_ok w' e' key → counted e' →
    handled w' env key e (e', evs)).
  { intros w' e' evs Hw Ha Hke Hce. pose proof (acts_trans env key e e1 e' evs F Si Ha) as Ha'. split; [done|].
    apply (engine_ok_frame w' key e); [|apply Ha'|apply Ha'|done..].
    intros k. destruct w'; [by rewrite Hw in Hk|by eapply key_ok_weaken]. }
  unfold watchdog_fires, watchdog_lost. rewrite Hl.
  destruct (lookup_state e key) as [st|] eqn:El.
  2: { apply Hdone; [by destruct w|by apply acts_nothing| |done]. unfold key_ok, key_base in *. by rewrite Hl in *. }
  destruct (rs_inFlight st) eqn:Efl; cbn [orb negb andb].
  { rewrite andb_false_r. apply Hdone; [done|by apply acts_nothing|done|done]. }
  assert (Hacc : accepts env (rs_kind st) e1 = accepts env (rs_kind st) e) by done.
  destruct (accepts env (rs_kind st) e) eqn:Ea; cbn [negb].
  - rewrite andb_true_r. pose proof (schedule_acts w env (rs_kind st) key (Some (rs_meta st)) e1 Hg1 B ltac:(congruence)) as Hs.
    destruct (scheduleReconnect env (rs_kind st) key (Some (rs_meta st)) e1) as [[e' evs] acc].
    destruct Hs as (Ha & Hke & E1 & E2 & _). apply Hdone; [done..|]. unfold counted in *. by rewrite E1, E2.
  - rewrite andb_false_r, schedule_refused by done. apply Hdone; [done|by apply acts_nothing|done|done].
Qed.

(** ** A [perform] settles *)

Definition key_ok_landing (w : bool) e key : Prop :=
  match lookup_state e key with
  | Some st => entry_base e key st ∧ (is_Some (rs_timerId st) → isOffline e = false)
               ∧ (w = true → isOffline e = true ∨ is_Some (rs_timerId st) ∨ watched e st)
  | None => no_runs e key
  end.
Lemma key_ok_land w e key : key_ok w e key → key_ok_landing w e key.
Proof.
  unfold key_ok, key_ok_landing. destruct (lookup_state e key); [|done]. intros (B & _ & Ho & _ & W). by split_and!.
Qed.

(** The [finally]. *)
Definition land key e : Engine :=
  let e := with_awaiting (Z.max 0 (inFlightCount e - 1)) (awaiting e) e in
  match lookup_state e key with
  | Some current => put_state (with_inFlight false current) e
  | None => e
  end.

Lemma land_spec w env key e : globals e → key_ok_landing w e key →
  acts_on env key e (land key e) [] ∧ key_ok w (land key e) key
  ∧ isOffline (land key e) = isOffline e ∧ awaiting (land key e) = awaiting e
  ∧ inFlightCount (land key e) = Z.max 0 (inFlightCount e - 1)
  ∧ (lookup_state (land key e) key = None ↔ lookup_state e key = None)
  ∧ attempts (land key e) key = attempts e key.
Proof.
  intros Hg Hk. unfold land. set (e1 := with_awaiting _ _ e). unfold key_ok_landing in Hk.
  assert (Hl : ∀ k, lookup_state e1 k = lookup_state e k) by done. rewrite Hl.
  assert (F : frame key e e1) by (split; naive_solver).
  assert (Hg1 : globals e1) by (by destruct Hg; split).
  destruct (lookup_state e key) as [st|] eqn:El.
  - destruct Hk as (B & Ho & W). pose proof (eb_key _ _ _ B) as Ek.
    assert (El2 : lookup_state (put_state (with_inFlight false st) e1) key = Some (with_inFlight false st))
      by (rewrite lookup_put; by rewrite decide_True).
    split_and!; [split| |done..| |].
    + eapply frame_trans; [exact F|]. pose proof (frame_put (with_inFlight false st) e1) as F2. cbn in F2. by rewrite Ek in F2.
    + by apply globals_put.
    + done.
    + done.
    + intros st'. rewrite El2. intros [= <-]. unfold attempts, performs. rewrite El. simpl. lia.
    + unfold key_ok. rewrite El2. split_and!; [destruct B; by split|done|done|done|].
      intros Hw. destruct (W Hw) as [?|[?|?]]; auto.
    + by rewrite El2.
    + unfold attempts. by rewrite El2, El.
  - assert (Hk1 : key_ok w e1 key) by (unfold key_ok; by rewrite Hl, El).
    assert (Ea : attempts e1 key = attempts e key) by (unfold attempts; by rewrite Hl, El).
    split_and!; [split|exact Hk1|done..|by rewrite Hl, El|exact Ea]; try done.
    intros st. by rewrite Hl, El.
Qed.

Lemma settled_acts w env id st ok e : engine_ok w e → awaiting e !! id = Some st →
  handled w env (rs_key st) e (perform_settled env id ok e)
  ∧ Forall no_perform (perform_settled env id ok e).2.
Proof.
  intros (Hg & [Hc Hb] & Hk) Ha. unfold perform_settled. rewrite Ha. set (key := rs_key st).
  set (e1 := with_awaiting (inFlightCount e) (delete id (awaiting e)) e).
  assert (F : frame key e e1).
  { split; try done; [naive_solver|]. intros i st' Hst'. cbn. rewrite lookup_delete_Some.
    split; [by intros [_ ?]|]. intros Hi. split; [|done]. intros <-. rewrite Ha in Hi. by injection Hi as <-. }
  assert (Si : similar key e e1) by (split; try done; intros st2 ?; by exists st2).
  assert (Hg1 : globals e1).
  { destruct Hg. split; try done. cbn. intros i [x [_ Hx]%lookup_delete_Some]. eauto. }
  assert (Hsz : inFlightCount e1 = Z.of_nat (size (awaiting e1)) + 1).
  { cbn. rewrite map_size_delete_Some by done. rewrite Hc.
    assert (size (awaiting e) ≠ 0%nat) by (intros E%map_size_empty_inv; by rewrite E, lookup_empty in Ha). lia. }
  assert (Hl1 : key_ok_landing w e1 key).
  { pose proof (key_ok_land w e key (Hk key)) as Hl. unfold key_ok_landing in *.
    change (lookup_state e1 key) with (lookup_state e key). destruct (lookup_state e key); [|done].
    destruct Hl as (B & ? & ?). split_and!; [destruct B; by split|done..]. }
  assert (B1 : key_base e1 key).
  { unfold key_ok_landing, key_base in *. destruct (lookup_state e1 key); [apply Hl1|done]. }
  assert (Hdone : ∀ e2 evs, acts_on env key e1 e2 evs → key_ok_landing w e2 key → Forall no_perform evs →
    awaiting e2 = awaiting e1 → inFlightCount e2 = inFlightCount e1 →
    handled w env key e (land key e2, evs) ∧ Forall no_perform evs).
  { intros e2 evs Hacts Hl2 Hnp Ea Ec. split; [|done].
    destruct (land_spec w env key e2 (ac_globals _ _ _ _ _ Hacts) Hl2) as (L & Lk & Lo & La & Lc & Ln & Lt).
    assert (Hacts' : acts_on env key e1 (land key e2) evs).
    { split; [eapply frame_trans; [apply Hacts|apply L]|apply L|apply Hacts| |].
      - pose proof (ac_true _ _ _ _ _ Hacts) as Ht. pose proof (ac_only _ _ _ _ _ Hacts) as Ho.
        rewrite Forall_forall in Ht, Hnp, Ho |- *. intros ev Hev. specialize (Ht ev Hev). specialize (Hnp ev Hev).
        specialize (Ho ev Hev). destruct ev; cbn in Ho, Ht |- *; try done; [by rewrite Lo|]. subst. by rewrite Ln.
      - intros st' Hst'. pose proof (ac_attempt _ _ _ _ _ L st' Hst') as EL.
        destruct (lookup_state e2 key) as [st2|] eqn:E2; [|by rewrite (proj2 Ln eq_refl) in Hst'].
        pose proof (ac_attempt _ _ _ _ _ Hacts st2 E2) as EA.
        assert (attempts e2 key = rs_attempt st2) by (unfold attempts; by rewrite E2).
        assert (performs key [] = 0) by done. lia. }
    pose proof (acts_trans env key e e1 _ evs F Si Hacts') as H1. split; [done|].
    apply (engine_ok_frame w key e); [done|apply H1|apply H1| |done].
    assert (inFlightCount e1 = inFlightCount e) by done. unfold counted. cbn [fst]. rewrite La, Lc, Ea, Ec. lia. }
  change (lookup_state e1) with (lookup_state e) in *.
  destruct (negb ok && mhas key (reconnectStates e1)) eqn:Eb.
  - pose proof (schedule_acts w env (rs_kind st) key (Some (rs_meta st)) e1 Hg1 B1) as Hs.
    destruct (accepts env (rs_kind st) e1) eqn:Eacc.
    + destruct (scheduleReconnect _ _ _ _ e1) as [[e2 evs] acc]. destruct Hs as (H1 & H2 & H3 & H4 & H5 & H6 & _); [done|].
      apply (Hdone e2 evs); [done|by apply key_ok_land|done..].
    + rewrite schedule_refused by done. apply (Hdone e1 []); [by apply acts_nothing|done|by constructor|done..].
  - apply (Hdone e1 []); [by apply acts_nothing|done|by constructor|done..].
Qed.

(** ** All the keys at once *)

(** The attempts and the set of keys stay. *)
Definition same_entries e e' : Prop :=
  (∀ k, attempts e' k = attempts e k) ∧ (∀ k, lookup_state e' k = None ↔ lookup_state e k = None)
  ∧ isOffline e' = isOffline e ∧ awaiting e' = awaiting e ∧ inFlightCount e' = inFlightCount e.
Lemma same_entries_trans e1 e2 e3 : same_entries e1 e2 → same_entries e2 e3 → same_entries e1 e3.
Proof.
  intros (A1 & A2 & A3 & A4 & A5) (B1 & B2 & B3 & B4 & B5).
  split_and!; [by intros k; rewrite B1, A1|by intros k; rewrite B2, A2|congruence..].
Qed.
Lemma same_entries_put st st' e e1 : lookup_state e (rs_key st) = Some st → rs_key st' = rs_key st →
  rs_attempt st' = rs_attempt st → reconnectStates e1 = reconnectStates e → isOffline e1 = isOffline e →
  awaiting e1 = awaiting e → inFlightCount e1 = inFlightCount e → same_entries e (put_state st' e1).
Proof.
  intros El Ek Ea Es Eo Ew Ec.
  assert (Hl : ∀ k, lookup_state (put_state st' e1) k = if decide (k = rs_key st) then Some st' else lookup_state e k).
  { intros k. rewrite lookup_put, Ek. unfold lookup_state. by rewrite Es. }
  split_and!; try done; intros k; [unfold attempts|]; rewrite Hl; case_decide as H; try done; subst; rewrite El; [by cbn; rewrite Ea|done].
Qed.

(** An entry of the loop that has not been reached. *)
Definition pending (w : bool) e st : Prop :=
  lookup_state e (rs_key st) = Some st ∧ entry_base e (rs_key st) st ∧ flying e (rs_key st) st
  ∧ (w = true → rs_inFlight st = true → watched e st).
Lemma pending_frame w key e e' st : frame key e e' → rs_key st ≠ key → pending w e st → pending w e' st.
Proof.
  intros F Hk (El & B & Hf & W). split_and!.
  - by rewrite (fr_lookup _ _ _ F).
  - by apply (base_frame key e).
  - by apply (flying_frame key e).
  - intros Hw Hfl. by eapply watched_frame; [..|apply W].
Qed.

(** Two loops: each entry's timer is cleared, then it may be armed. *)
Lemma pending_cleared w e st : globals e → pending w e st →
  let e1 := clearTimeout (rs_timerId st) e in
  frame (rs_key st) e e1 ∧ no_runs e1 (rs_key st) ∧ entry_base e1 (rs_key st) (with_timerId None st)
  ∧ flying e1 (rs_key st) (with_timerId None st) ∧ globals e1
  ∧ (w = true → rs_inFlight st = true → watched e1 (with_timerId None st))
  ∧ (watched e st → watched e1 (with_timerId None st))
  ∧ isOffline e1 = isOffline e ∧ awaiting e1 = awaiting e ∧ inFlightCount e1 = inFlightCount e
  ∧ reconnectStates e1 = reconnectStates e.
Proof.
  intros Hg (El & B & Hf & W). destruct (clear_run e _ st B) as (F & Hn & B' & W').
  intros e1. assert (awaiting e1 = awaiting e) by (unfold e1; by destruct (rs_timerId st)).
  split_and!; [done|done|done| | |auto|done|unfold e1; by destruct (rs_timerId st)..].
  - intros Hfl. destruct (Hf Hfl) as (id & st' & Ha & E). exists id, st'. split; [congruence|done].
  - by apply globals_clearTimeout.
Qed.

Lemma fire_all_ok w now i l e : globals e → isOffline e = false → NoDup (rs_key <$> l) →
  (∀ st, st ∈ l → pending w e st) → (∀ k, k ∉ rs_key <$> l → key_ok w e k) →
  let e' := fire_all now i l e in globals e' ∧ (∀ k, key_ok w e' k) ∧ same_entries e e'.
Proof.
  revert i e. induction l as [|st l IH]; intros i e Hg Ho Hnd Hp Hk; cbn [fire_all].
  { split_and!; [done| |done..]. intros k. apply Hk. by apply not_elem_of_nil. }
  rewrite fmap_cons in Hnd. apply NoDup_cons in Hnd as [Hn Hnd].
  assert (Hne : ∀ st', st' ∈ l → rs_key st' ≠ rs_key st).
  { intros st' Hst' E. apply Hn. rewrite <- E. by apply list_elem_of_fmap_2. }
  pose proof (Hp st ltac:(by left)) as Hst. destruct (rs_inFlight st) eqn:Efl.
  - apply IH; [done..|by intros st' ?; apply Hp; right|]. intros k Hkl.
    destruct (decide (k = rs_key st)) as [->|Hkn].
    + destruct Hst as (El & B & Hf & W). unfold key_ok. rewrite El. split_and!; [done|done|done|by auto|]. auto.
    + apply Hk. rewrite fmap_cons, elem_of_cons. tauto.
  - destruct (pending_cleared w e st Hg Hst) as (F & Hnr & B & Hf & Hg1 & W & _ & E1 & E2 & E3 & E4).
    set (e1 := clearTimeout (rs_timerId st) e) in *. set (due := now + i * STAGGER_MS).
    pose proof (frame_arm due (with_timerId None st) e1 Hg1) as F2.
    assert (F12 : frame (rs_key st) e (arm due st e1)) by (by eapply frame_trans).
    assert (Hsame : same_entries e (arm due st e1)).
    { apply (same_entries_put st (with_timerId (Some (next_id e1)) st)); try done. apply Hst. }
    destruct (IH (i + 1) (arm due st e1)) as (G & K & S); [| |done| | |split_and!; [done|done|by eapply same_entries_trans]].
    + by apply globals_arm.
    + by rewrite <- Ho, <- E1.
    + intros st' Hst'. apply (pending_frame w (rs_key st) e); [done|by apply Hne|]. apply Hp. by right.
    + intros k Hkl. destruct (decide (k = rs_key st)) as [->|Hkn].
      * apply (arm_ok w due e1 _ (with_timerId None st)); try done. congruence.
      * apply (key_ok_frame w (rs_key st) e); [done..|]. apply Hk. rewrite fmap_cons, elem_of_cons. tauto.
Qed.

Lemma suspend_all_ok w l e : globals e → isOffline e = true → NoDup (rs_key <$> l) →
  (∀ st, st ∈ l → pending w e st) → (∀ k, k ∉ rs_key <$> l → key_ok w e k) →
  let e' := foldl (λ e st, suspend st e) e l in globals e' ∧ (∀ k, key_ok w e' k) ∧ same_entries e e'.
Proof.
  revert e. induction l as [|st l IH]; intros e Hg Ho Hnd Hp Hk; cbn [foldl].
  { split_and!; [done| |done..]. intros k. apply Hk. by apply not_elem_of_nil. }
  rewrite fmap_cons in Hnd. apply NoDup_cons in Hnd as [Hn Hnd].
  assert (Hne : ∀ st', st' ∈ l → rs_key st' ≠ rs_key st).
  { intros st' Hst' E. apply Hn. rewrite <- E. by apply list_elem_of_fmap_2. }
  pose proof (Hp st ltac:(by left)) as Hst.
  destruct (pending_cleared w e st Hg Hst) as (F & Hnr & B & Hf & Hg1 & W & _ & E1 & E2 & E3 & E4).
  unfold suspend at 2. set (e1 := clearTimeout (rs_timerId st) e) in *. set (e2 := put_state _ e1).
  assert (F12 : frame (rs_key st) e e2) by (eapply frame_trans; [exact F|apply (frame_put (with_timerId None st))]).
  assert (Hsame : same_entries e e2) by (apply (same_entries_put st (with_timerId None st)); try done; apply Hst).
  destruct (IH e2) as (G & K & S); [by apply globals_put|by rewrite <- Ho, <- E1|done| | |
    split_and!; [done|done|by eapply same_entries_trans]].
  - intros st' Hst'. apply (pending_frame w (rs_key st) e); [done|by apply Hne|]. apply Hp. by right.
  - intros k Hkl. destruct (decide (k = rs_key st)) as [->|Hkn].
    + apply put_quiet; try done. intros _. left. congruence.
    + apply (key_ok_frame w (rs_key st) e); [done..|]. apply Hk. rewrite fmap_cons, elem_of_cons. tauto.
Qed.

(** The entries of a consistent engine, as the loops find them. *)
Lemma entries_keys w e : engine_ok w e → rs_key <$> mvalues (reconnectStates e) = (reconnectStates e).*1.
Proof.
  intros (Hg & _ & Hk). unfold mvalues. rewrite <- list_fmap_compose. apply list_fmap_ext.
  intros i [k st] Hi%list_elem_of_lookup_2. cbn. apply (elem_mget _ _ _ (gl_keys _ Hg)) in Hi.
  specialize (Hk k). unfold key_ok, lookup_state in Hk. rewrite Hi in Hk. apply Hk.
Qed.
Lemma entries_lookup w e st : engine_ok w e → st ∈ mvalues (reconnectStates e) → lookup_state e (rs_key st) = Some st.
Proof.
  intros (Hg & _ & Hk) ([k st'] & E & Hi)%list_elem_of_fmap. cbn in E. subst.
  apply (elem_mget _ _ _ (gl_keys _ Hg)) in Hi. pose proof (Hk k) as Hk'. unfold key_ok, lookup_state in Hk'.
  rewrite Hi in Hk'. unfold lookup_state. by rewrite (eb_key _ _ _ (proj1 Hk')).
Qed.

(** Both loops start from an engine that is consistent but for the new value of [isOffline]. *)
Lemma loops_start w b e : engine_ok w e → let e1 := with_offline b e in
  globals e1 ∧ NoDup (rs_key <$> mvalues (reconnectStates e1))
  ∧ (∀ st, st ∈ mvalues (reconnectStates e1) → pending w e1 st)
  ∧ (∀ k, k ∉ rs_key <$> mvalues (reconnectStates e1) → key_ok w e1 k).
Proof.
  intros Hok e1. pose proof Hok as (Hg & Hc & Hk). split_and!.
  - destruct Hg. by split.
  - change (reconnectStates e1) with (reconnectStates e). rewrite (entries_keys w e Hok). apply Hg.
  - intros st Hst. pose proof (entries_lookup w e st Hok Hst) as El. pose proof (Hk (rs_key st)) as Hk'.
    unfold key_ok in Hk'. rewrite El in Hk'. destruct Hk' as (B & Hf & _ & W & _).
    split_and!; [done|destruct B; by split|done|done].
  - intros k. change (reconnectStates e1) with (reconnectStates e). rewrite (entries_keys w e Hok).
    intros Hn%mget_None. unfold key_ok. change (lookup_state e1 k) with (mget k (reconnectStates e)). rewrite Hn.
    specialize (Hk k). unfold key_ok, lookup_state in Hk. by rewrite Hn in Hk.
Qed.

Lemma counted_same e e' : same_entries e e' → counted e → counted e'.
Proof. intros (_ & _ & _ & E1 & E2). unfold counted. by rewrite E1, E2. Qed.

Lemma fireAll_ok w env b e : engine_ok w e → (b = false) →
  let e' := fireAllImmediately env (with_offline b e) in
  engine_ok w e' ∧ same_entries (with_offline b e) e'.
Proof.
  intros Hok ->. destruct (loops_start w false e Hok) as (A1 & A2 & A3 & A4).
  destruct (fire_all_ok w (env_now env) 0 _ _ A1 eq_refl A2 A3 A4) as (B1 & B2 & B3).
  split; [split_and!; [done| |done]|done]. by apply (counted_same _ _ B3), Hok.
Qed.

Lemma with_offline_same e : with_offline (isOffline e) e = e.
Proof. by destruct e. Qed.

(** ** Steps *)

Definition step_lost env (c : call) e : bool :=
  match c with
  | call_timer id =>
      match timers e !! id with
      | Some {| tm_due := due; tm_action := watchdog key |} => negb (env_now env <? due) && watchdog_lost env key e
      | _ => false
      end
  | _ => false
  end.

(** What a step tells is true of it, the attempts are its [perform]s, and a key that
    is not there appears only when it is scheduled. *)
Record tells env (c : call) e e' (evs : list event) : Prop := {
  te_true : Forall (event_true env e e') evs;
  te_attempt key st : lookup_state e' key = Some st → rs_attempt st = attempts e key + performs key evs;
  te_absent key : lookup_state e key = None → (∀ kind meta, c ≠ call_schedule kind key meta) →
    lookup_state e' key = None ∧ Forall (λ ev, ev_key ev ≠ key) evs;
}.

Lemma performs_other key k evs : Forall (λ ev, ev_key ev = key) evs → k ≠ key → performs k evs = 0.
Proof.
  intros Hall Hk. unfold performs. rewrite filter_none; [done|]. rewrite Forall_forall in Hall.
  intros ev Hev. specialize (Hall ev Hev). destruct ev; try done. cbn in *. subst. by apply bool_decide_eq_false.
Qed.

Lemma acts_tell env c key e e' evs : acts_on env key e e' evs →
  (lookup_state e key = None → (∀ kind meta, c ≠ call_schedule kind key meta) → lookup_state e' key = None ∧ evs = []) →
  tells env c e e' evs.
Proof.
  intros [F _ Ho Ht Ha] Hn. split; [done| |].
  - intros k st Hst. destruct (decide (k = key)) as [->|Hk]; [by apply Ha|].
    rewrite (performs_other key) by done. rewrite (fr_lookup _ _ _ F k Hk) in Hst. unfold attempts. rewrite Hst. cbn. lia.
  - intros k Hl Hc. destruct (decide (k = key)) as [->|Hk]; [destruct (Hn Hl Hc) as [? ->]; done|].
    split; [by rewrite (fr_lookup _ _ _ F k Hk)|]. eapply Forall_impl; [exact Ho|]. cbn. congruence.
Qed.
Lemma same_tell env c e e1 e' : same_entries e1 e' → reconnectStates e1 = reconnectStates e → tells env c e e' [].
Proof.
  intros (A1 & A2 & _) E. assert (Hl : ∀ k, lookup_state e1 k = lookup_state e k) by (intros k; unfold lookup_state; by rewrite E).
  split; [done| |].
  - intros k st Hst. specialize (A1 k). unfold attempts in A1 at 1. rewrite Hst in A1. cbn in A1. rewrite A1.
    unfold attempts, performs. rewrite Hl. cbn. lia.
  - intros k Hn _. split; [|done]. apply A2. by rewrite Hl.
Qed.

Definition stepped (w : bool) env c e (r : Engine * list event) : Prop := engine_ok w r.1 ∧ tells env c e r.1 r.2.

Lemma cancelAll_ok w keys e : engine_ok w e → let e' := foldl (λ e key, cancelReconnect key e) e keys in
  engine_ok w e' ∧ ∀ k st, lookup_state e' k = Some st → lookup_state e k = Some st.
Proof.
  revert e. induction keys as [|key keys IH]; intros e Hok; cbn [foldl]; [done|].
  pose proof Hok as (Hg & Hc & Hk).
  destruct (cancel_acts w {| env_config := None; env_now := 0; env_random := S754_nan; env_present := λ _ _, true;
    env_held := λ _, false |} key e Hg (key_ok_base w e key (Hk key))) as (Ha & Hke & E1 & E2 & _ & El).
  destruct (IH (cancelReconnect key e)) as (A & B).
  { apply (engine_ok_frame w key e); [done|apply Ha|apply Ha| |done]. unfold counted in *. by rewrite E1, E2. }
  split; [done|]. intros k st Hst. apply B in Hst. destruct (decide (k = key)) as [->|Hne]; [congruence|].
  by rewrite (fr_lookup _ _ _ (ac_frame _ _ _ _ _ Ha) k Hne) in Hst.
Qed.

Lemma lookup_elem w e key st : engine_ok w e → lookup_state e key = Some st →
  st ∈ mvalues (reconnectStates e) ∧ rs_key st = key.
Proof.
  intros (_ & _ & Hk) El. split.
  - apply mget_Some_elem in El. apply list_elem_of_fmap. by exists (key, st).
  - specialize (Hk key). unfold key_ok in Hk. rewrite El in Hk. apply Hk.
Qed.

Lemma connectivity_ok w env online e : engine_ok w e →
  stepped w env (call_connectivity online) e (onConnectivityChange env online e).
Proof.
  intros Hok. unfold onConnectivityChange. destruct online; cbn [negb].
  - destruct (isOffline e) eqn:Eo.
    + destruct (fireAll_ok w env false e Hok eq_refl) as [H1 H2]. split; [done|]. by eapply same_tell.
    + rewrite <- Eo, with_offline_same. split; [done|]. by eapply (same_tell _ _ e e).
  - destruct (loops_start w true e Hok) as (A1 & A2 & A3 & A4).
    destruct (suspend_all_ok w _ _ A1 eq_refl A2 A3 A4) as (B1 & B2 & B3). cbn zeta in *.
    set (e1 := with_offline true e) in *. set (e' := foldl _ e1 _) in *. split.
    + split_and!; [done| |done]. by apply (counted_same _ _ B3), Hok.
    + destruct B3 as (C1 & C2 & C3 & _).
      assert (Hevs : ∀ ev, ev ∈ omap (λ st, (λ _, ev_scheduled (rs_key st) (offline_info env st) (rs_meta st))
          <$> mget (rs_kind st) (handlers e1)) (mvalues (reconnectStates e1)) →
        ∃ st, lookup_state e (rs_key st) = Some st ∧ ev = ev_scheduled (rs_key st) (offline_info env st) (rs_meta st)).
      { intros ev (st & Hst & Ev)%list_elem_of_omap. exists st. split; [by apply (entries_lookup w)|].
        destruct (mget _ _); [by injection Ev as <-|done]. }
      split; cbn [fst snd].
      * apply Forall_forall. intros ev (st & El & ->)%Hevs. cbn [event_true]. rewrite C3.
        unfold attempts. rewrite El. done.
      * intros key st Hst. specialize (C1 key). unfold attempts in C1 at 1. rewrite Hst in C1. cbn in C1. rewrite C1.
        rewrite no_performs; [by rewrite Z.add_0_r|]. apply Forall_forall. by intros ev (st' & _ & ->)%Hevs.
      * intros key Hn _. split; [by apply C2|]. apply Forall_forall. intros ev (st & El & ->)%Hevs. cbn. congruence.
Qed.

Lemma fire_timer_ok w env id e : engine_ok w e →
  stepped (w && negb (step_lost env (call_timer id) e)) env (call_timer id) e (fire_timer env id e).
Proof.
  intros Hok. unfold fire_timer, step_lost.
  assert (Hnone : stepped w env (call_timer id) e (e, [])) by (split; [done|by eapply (same_tell _ _ e e)]).
  destruct (timers e !! id) as [[due [key|key]]|] eqn:Et; cbn [tm_due tm_action]; rewrite ?andb_true_r; [| |done].
  - destruct (env_now env <? due); [done|]. destruct (run_acts w env key id due e Hok Et) as [Ha Hk].
    split; [done|]. apply (acts_tell env _ key _ _ _ Ha).
    intros Hn. destruct (timer_spent w e key id due Hok Et) as (st & El & _). congruence.
  - destruct (env_now env <? due); cbn [negb andb]; rewrite ?andb_true_r; [done|].
    destruct (watchdog_acts w env key id due e Hok Et) as [Ha Hk]. split; [done|].
    apply (acts_tell env _ key _ _ _ Ha). intros Hn _. unfold watchdog_fires.
    change (lookup_state (with_timers _ e) key) with (lookup_state e key). by rewrite Hn.
Qed.

Lemma step_ok w env c e : engine_ok w e → stepped (w && negb (step_lost env c e)) env c e (step env c e).
Proof.
  intros Hok. pose proof Hok as (Hg & Hc & Hk). destruct c; cbn [step step_lost negb]; rewrite ?andb_true_r.
  - split; [|by eapply (same_tell _ _ e)]. split_and!; [destruct Hg; by split|done|]. intros k. specialize (Hk k).
    unfold key_ok in *. change (lookup_state _ k) with (lookup_state e k).
    destruct (lookup_state e k); [|done]. destruct Hk as (B & Hrest). split; [destruct B; by split|done].
  - pose proof (schedule_acts w env kind key meta e Hg (key_ok_base w e key (Hk key)) (λ _, Hk key)) as Hs.
    destruct (scheduleReconnect env kind key meta e) as [[e' evs] acc]. destruct Hs as (Ha & Hke & E1 & E2 & _).
    split; [apply (engine_ok_frame w key e); [done|apply Ha|apply Ha| |done]; unfold counted in *; cbn [fst]; by rewrite E1, E2|].
    apply (acts_tell env _ key _ _ _ Ha). intros _ Hne. by destruct (Hne kind meta).
  - destruct (cancel_acts w env key e Hg (key_ok_base w e key (Hk key))) as (Ha & Hke & E1 & E2 & _ & El).
    split; [apply (engine_ok_frame w key e); [done|apply Ha|apply Ha| |done]; unfold counted in *; cbn [fst]; by rewrite E1, E2|].
    by apply (acts_tell env _ key _ _ _ Ha).
  - destruct (cancelAll_ok w (mkeys (reconnectStates e)) e Hok) as [H1 H2]. split; [done|]. split; [done| |].
    + intros key st Hst%H2. unfold attempts. rewrite Hst. unfold performs. cbn. lia.
    + intros key Hn _. split; [|done]. cbn [fst]. unfold cancelAllReconnects.
      destruct (lookup_state (foldl _ _ _) key) eqn:E; [apply H2 in E; congruence|done].
  - by apply connectivity_ok.
  - unfold resumeReconnectsAfterHold. destruct (isOffline e) eqn:Eo; [split; [done|by eapply (same_tell _ _ e e)]|].
    destruct (fireAll_ok w env (isOffline e) e Hok Eo) as [H1 H2]. rewrite with_offline_same in *.
    split; [done|by eapply same_tell].
  - unfold onSystemResume. destruct (isOffline e) eqn:Eo; [split; [done|by eapply (same_tell _ _ e e)]|].
    destruct (fireAll_ok w env (isOffline e) e Hok Eo) as [H1 H2]. rewrite with_offline_same in *.
    split; [done|by eapply same_tell].
  - by apply fire_timer_ok.
  - destruct (awaiting e !! id) as [st|] eqn:Ea.
    + destruct (settled_acts w env id st ok e Hok Ea) as [[Ha Hke] _]. split; [done|].
      apply (acts_tell env _ (rs_key st) _ _ _ Ha). intros Hn _. unfold perform_settled. rewrite Ea.
      assert (mhas (rs_key st) (reconnectStates (with_awaiting (inFlightCount e) (delete id (awaiting e)) e)) = false) as ->
        by (apply mhas_false; by apply mget_None).
      rewrite andb_false_r. change (lookup_state (with_awaiting _ _ _) (rs_key st)) with (lookup_state e (rs_key st)).
      by rewrite Hn.
    + unfold perform_settled. rewrite Ea. split; [done|by eapply (same_tell _ _ e e)].
Qed.

Lemma initial_ok : engine_ok true (initial (Meta:=Meta)).
Proof.
  split_and!; [split|split|]; try done.
  - constructor.
  - intros id. cbn. rewrite lookup_empty. by intros [].
  - intros id. cbn. rewrite lookup_empty. by intros [].
Qed.

(** Whether a watchdog is lost somewhere in the run. *)
Fixpoint run_lost (calls : list (Env * call)) e : bool :=
  match calls with
  | [] => false
  | (env, c) :: calls' => step_lost env c e || run_lost calls' (step env c e).1
  end.

Lemma run_ok w calls e : engine_ok w e → engine_ok (w && negb (run_lost calls e)) (run calls e).1.
Proof.
  revert w e. induction calls as [|[env c] calls IH]; intros w e Hok; cbn [run run_lost]; [by rewrite andb_true_r|].
  destruct (step_ok w env c e Hok) as [Hs _]. destruct (step env c e) as [e' evs]. cbn [fst] in *.
  specialize (IH _ _ Hs). destruct (run calls e') as [e'' evs']. cbn [fst] in *.
  by rewrite negb_orb, andb_assoc.
Qed.
Lemma run_initial_ok calls : engine_ok (negb (run_lost calls (initial (Meta:=Meta)))) (run calls initial).1.
Proof. exact (run_ok true calls initial initial_ok). Qed.

Lemma cancelled_ok w key e : engine_ok w e → engine_ok w (cancelReconnect key e) ∧ lookup_state (cancelReconnect key e) key = None.
Proof.
  intros Hok. destruct (cancelAll_ok w [key] e Hok) as [H1 _]. split; [done|].
  unfold cancelReconnect. destruct (lookup_state e key) eqn:E; [|done].
  by rewrite lookup_delete_state, decide_True.
Qed.

(** What an accepted [scheduleReconnect] leaves and tells. *)
Lemma schedule_outcome kind key meta env e : accepts env kind e = true →
  let '(e', evs) := (scheduleReconnect env kind key meta e).1 in
  if autoReconnectMaxAttempts (getConfig env) <=? attempts e key
  then lookup_state e' key = None ∧ ∃ m, evs = [ev_gaveUp key (attempts e key) m]
  else ∃ st info m, lookup_state e' key = Some st ∧ evs = [ev_scheduled key info m]
         ∧ info_attempt info = attempts e key + 1
         ∧ (isOffline e = false → ∃ id, rs_timerId st = Some id ∧ timers e' !! id =
              Some {| tm_due := env_now env + info_delayMs info; tm_action := run_execute key |}).
Proof.
  intros [He [h Hh]%bool_decide_eq_true]%andb_true_iff. unfold scheduleReconnect. rewrite He, Hh. cbn [negb].
  fold (attempts e key). set (e1 := match lookup_state e key with Some st => clearTimers st e | None => e end).
  assert (Ho : isOffline e1 = isOffline e).
  { unfold e1, clearTimers. destruct (lookup_state e key) as [st|]; [|done]. by destruct (rs_timerId st), (rs_watchdogId st). }
  destruct (autoReconnectMaxAttempts (getConfig env) <=? attempts e key); cbn [fst].
  - rewrite lookup_delete_state, decide_True by done. eauto.
  - rewrite Ho. destruct (isOffline e); cbn [arm setTimeout]; rewrite lookup_put; cbn [rs_key with_timerId];
      rewrite decide_True by done; eexists _, _, _; (split_and!; [done..|]); [done|].
    intros _. eexists. split; [done|]. cbn. by rewrite lookup_insert_eq.
Qed.
End engine.
