(* ===== verification/ReconnectFacts.v ===== *)
(** * What the reconnection engine promises

    The properties of the engine over any run of calls from its initial state,
    and two runs that show what it does not promise: a key can have two attempts
    in flight, and a slow attempt can leave a key with nothing to wake it. *)

From S2P Require Import Prelude Collections JsNumber Reconnect ReconnectInvariant.

Open Scope Z_scope.

Section facts.
Context {Meta : Type} {NM : NoMeta Meta}.
Abbreviation Engine := (Reconnect.Engine Meta).
Abbreviation Env := (Reconnect.Env Meta).
Abbreviation call := (Reconnect.call Meta).
Implicit Types (e : Engine) (env : Env) (key : jsstring).

(** C10: after any run of calls - disconnections, cancellations, timers, settled
    attempts, changes of the network - at most three attempts are in flight, and
    the counter counts exactly them; a key has at most one retry timer, which
    its entry can cancel, and none while the network is down; and an entry
    marked in flight has an attempt that has not settled. *)
Theorem reconnect_invariant calls :
  let e := (run calls (initial (Meta:=Meta))).1 in
  inFlightCount e = Z.of_nat (size (awaiting e)) ∧ inFlightCount e ≤ MAX_CONCURRENT_RECONNECTS
  ∧ (∀ key st, lookup_state e key = Some st → rs_key st = key ∧ 0 ≤ rs_attempt st)
  ∧ (∀ id due key, timers e !! id = Some {| tm_due := due; tm_action := run_execute key |} →
       ∃ st, lookup_state e key = Some st ∧ rs_timerId st = Some id)
  ∧ (∀ key st id, lookup_state e key = Some st → rs_timerId st = Some id →
       ∃ due, timers e !! id = Some {| tm_due := due; tm_action := run_execute key |})
  ∧ (isOffline e = true → ∀ id t key, timers e !! id = Some t → tm_action t ≠ run_execute key)
  ∧ (∀ key st, lookup_state e key = Some st → rs_inFlight st = true →
       ∃ id st', awaiting e !! id = Some st' ∧ rs_key st' = key).
Proof.
  intros e. destruct (run_initial_ok calls) as (Hg & [Hc Hb] & Hk). fold e in Hg, Hc, Hb, Hk.
  assert (Hown : ∀ id due key, timers e !! id = Some {| tm_due := due; tm_action := run_execute key |} →
    ∃ st, lookup_state e key = Some st ∧ rs_timerId st = Some id).
  { intros id due key Ht. specialize (Hk key). unfold key_ok in Hk. destruct (lookup_state e key) as [st|] eqn:El.
    - exists st. split; [done|]. destruct Hk as [B _]. apply (eb_timer _ _ _ B). by exists due.
    - by destruct (Hk _ _ Ht). }
  split_and!; [done|done| |done| | |].
  - intros key st El. specialize (Hk key). unfold key_ok in Hk. rewrite El in Hk. destruct Hk as [[] _]. done.
  - intros key st id El Et. specialize (Hk key). unfold key_ok in Hk. rewrite El in Hk. destruct Hk as [B _].
    by apply (eb_timer _ _ _ B).
  - intros Hoff id [due a] key Ht Ha. cbn in Ha. subst a. destruct (Hown id due key Ht) as (st & El & Et).
    specialize (Hk key). unfold key_ok in Hk. rewrite El in Hk. destruct Hk as (_ & _ & Ho & _).
    rewrite Et in Ho. by rewrite Ho in Hoff.
  - intros key st El Hf. specialize (Hk key). unfold key_ok in Hk. rewrite El in Hk. by apply Hk.
Qed.

(** C11: at any reachable state, an attempt is started only while the network is up,
    fewer than three are in flight, the target is still there and nobody is being
    waited for; the attempt number of an entry counts exactly the attempts
    started for its key since the entry appeared; and scheduling gives the key up,
    saying so, exactly when it has used up its attempts - otherwise it
    announces the next one and arms a timer, or waits for the network. *)
Theorem reconnect_attempts calls env c :
  let e := (run calls (initial (Meta:=Meta))).1 in
  let '(e', evs) := step env c e in
  (∀ key meta, ev_perform key meta ∈ evs →
     isOffline e = false ∧ inFlightCount e < MAX_CONCURRENT_RECONNECTS ∧ inFlightCount e' = inFlightCount e + 1
     ∧ env_held env meta = false
     ∧ ∃ st handler, lookup_state e key = Some st ∧ rs_meta st = meta ∧ mget (rs_kind st) (handlers e) = Some handler
         ∧ (has_isStillPresent handler = true → env_present env key meta = true))
  ∧ (∀ key st, lookup_state e' key = Some st → rs_attempt st = attempts e key + performs key evs)
  ∧ (∀ kind key meta, c = call_schedule kind key meta → accepts env kind e = true →
       if autoReconnectMaxAttempts (getConfig env) <=? attempts e key
       then lookup_state e' key = None ∧ ∃ m, evs = [ev_gaveUp key (attempts e key) m]
       else ∃ st info m, lookup_state e' key = Some st ∧ evs = [ev_scheduled key info m]
              ∧ info_attempt info = attempts e key + 1
              ∧ (isOffline e = false → ∃ id, rs_timerId st = Some id ∧ timers e' !! id =
                   Some {| tm_due := env_now env + info_delayMs info; tm_action := run_execute key |})).
Proof.
  intros e. pose proof (run_initial_ok calls) as Hok. fold e in Hok.
  destruct (step_ok _ env c e Hok) as [_ Ht]. destruct (step env c e) as [e' evs] eqn:Es. cbn [fst snd] in Ht.
  destruct Ht as [Htrue Hat _]. split_and!; [|done|].
  - intros key meta Hev. rewrite Forall_forall in Htrue. destruct (Htrue _ Hev) as (? & ? & ? & ? & ?). done.
  - intros kind key meta -> Ha. cbn [step] in Es. pose proof (schedule_outcome kind key meta env e Ha) as Ho.
    rewrite Es in Ho. exact Ho.
Qed.

(** C13: the engine does not forget a key: as long as no watchdog is lost - none
    fires during its own key's attempt, or after automatic reconnection was
    turned off - every key being reconnected has, whenever the network is up, a
    timer that will take it up again. *)
Theorem reconnect_wakes calls key st :
  run_lost calls (initial (Meta:=Meta)) = false →
  let e := (run calls (initial (Meta:=Meta))).1 in
  lookup_state e key = Some st → isOffline e = false →
  ∃ id t, timers e !! id = Some t ∧ tm_key t = key ∧ (rs_timerId st = Some id ∨ rs_watchdogId st = Some id).
Proof.
  intros Hl e El Ho. destruct (run_initial_ok calls) as (_ & _ & Hk). fold e in Hk.
  rewrite Hl in Hk. specialize (Hk key). unfold key_ok in Hk. rewrite El in Hk.
  destruct Hk as (B & _ & _ & _ & W). destruct (W eq_refl) as [?|[[id Hid]|(id & t & Hid & Ht)]]; [congruence| |].
  - pose proof Hid as [due Hd]%(eb_timer _ _ _ B). exists id. eexists. split; [exact Hd|]. auto.
  - exists id, t. split; [done|]. split; [|auto]. unfold tm_key. by rewrite (proj2 (eb_watchdog _ _ _ B id Hid) t Ht).
Qed.

(** C12: what is cancelled stays cancelled: after [cancelReconnect], whatever timers
    were running and whatever attempts were in flight, nothing more happens to
    the key - no attempt, no message, no entry - until it is scheduled again. *)
Theorem reconnect_cancelled calls key calls' :
  (∀ env kind key' meta, (env, call_schedule kind key' meta) ∈ calls' → key' ≠ key) →
  let '(e, evs) := run calls' (cancelReconnect key (run calls (initial (Meta:=Meta))).1) in
  lookup_state e key = None ∧ ∀ ev, ev ∈ evs → ev_key ev ≠ key.
Proof.
  intros Hc. set (e0 := (run calls initial).1). pose proof (run_initial_ok calls) as Hok. fold e0 in Hok.
  destruct (cancelled_ok _ key e0 Hok) as [Hok1 Hn]. revert Hok1 Hn. generalize (cancelReconnect key e0).
  generalize (negb (run_lost calls initial)). clear -Hc. intros w e. revert w e.
  induction calls' as [|[env c] calls' IH]; intros w e Hok Hn; cbn [run].
  { split; [done|]. intros ev Hev. by apply elem_of_nil in Hev. }
  destruct (step_ok w env c e Hok) as [Hok' Ht]. destruct (step env c e) as [e1 evs1]. cbn [fst snd] in *.
  destruct (te_absent _ _ _ _ _ Ht key Hn) as [Hn1 Hev1].
  { intros kind meta ->. by eapply (Hc env kind key meta); [left|]. }
  specialize (IH ltac:(intros; eapply Hc; right; eassumption) _ e1 Hok' Hn1).
  destruct (run calls' e1) as [e2 evs2]. destruct IH as [Hn2 Hev2]. split; [done|].
  intros ev [Hev|Hev]%elem_of_app; [|by apply Hev2]. by apply (proj1 (Forall_forall _ _) Hev1).
Qed.
End facts.

(** ** Concrete runs *)

Section demo.
#[local] Instance demo_meta : NoMeta unit := tt.

Definition demo_env (now : Z) : Env unit :=
  {| env_config := None; env_now := now; env_random := num_frac 1 2; env_present := λ _ _, true; env_held := λ _, false |}.
Definition demo_handler : ReconnectHandler := {| has_isStillPresent := true |}.
Definition demo_register : Env unit * call unit := (demo_env 0, call_register kind_session demo_handler).
Definition demo_schedule (now : Z) : Env unit * call unit := (demo_env now, call_schedule kind_session (js "tab") None).
Definition demo_at (now : Z) (c : call unit) : Env unit * call unit := (demo_env now, c).

(** A session drops; its retry fires after a second; the attempt settles and the
    watchdog, not hearing of a connection, schedules the next one. *)
Definition demo_run : list (Env unit * call unit) :=
  [demo_register; demo_schedule 0; demo_at 1000 (call_timer 0); demo_at 1500 (call_settled 1 true);
   demo_at 31000 (call_timer 1)].

(** Random number one half: the delays are exactly 1, 2, 4, 8 and 8 seconds. *)
Example demo_delays :
  (λ n, computeBackoffDelay n 1000 8000 (num_frac 1 2)) <$> [0; 1; 2; 3; 4] = [1000; 2000; 4000; 8000; 8000].
Proof. vm_compute. reflexivity. Qed.

Lemma reconnect_wakes_witness :
  run_lost demo_run initial = false
  ∧ ∃ st id t, lookup_state (run demo_run initial).1 (js "tab") = Some st ∧ rs_attempt st = 1
      ∧ timers (run demo_run initial).1 !! id = Some t ∧ tm_key t = js "tab".
Proof.
  split; [vm_compute; reflexivity|].
  destruct (lookup_state (run demo_run initial).1 (js "tab")) as [st|] eqn:E; [|vm_compute in E; discriminate].
  destruct (reconnect_wakes demo_run (js "tab") st) as (id & t & Ht & Hk & _);
    [vm_compute; reflexivity|exact E|vm_compute; reflexivity|].
  exists st, id, t. split; [reflexivity|]. split; [|split; [exact Ht|exact Hk]].
  assert (rs_attempt <$> lookup_state (run demo_run initial).1 (js "tab") = Some 1) as E1 by (vm_compute; reflexivity).
  rewrite E in E1. by injection E1.
Defined.

(** The tab is closed during its attempt, which then fails. *)
Lemma reconnect_cancelled_witness :
  lookup_state (run [demo_at 1600 (call_settled 1 false); demo_at 31000 (call_timer 1)]
    (cancelReconnect (js "tab") (run (take 3 demo_run) initial).1)).1 (js "tab") = None.
Proof.
  pose proof (reconnect_cancelled (take 3 demo_run) (js "tab")
    [demo_at 1600 (call_settled 1 false); demo_at 31000 (call_timer 1)]) as Hc.
  destruct (run _ (cancelReconnect _ _)) as [e evs]. apply Hc.
  intros env kind key' meta Hin. exfalso.
  apply elem_of_cons in Hin as [?|Hin]; [discriminate|].
  apply list_elem_of_singleton in Hin. discriminate.
Defined.

(** Not promised: one attempt per key.  A second disconnection is reported while the
    first attempt is still in flight; the first to settle clears the mark of the second,
    and coming back from sleep starts a third. *)
Definition demo_overlap : list (Env unit * call unit) :=
  [demo_register; demo_schedule 0; demo_at 1000 (call_timer 0); demo_schedule 1100; demo_at 3100 (call_timer 2);
   demo_at 3200 (call_settled 1 true); demo_at 3300 call_systemResume; demo_at 3300 (call_timer 4)].
Lemma reconnect_can_overlap :
  (λ '(_, st), rs_key st) <$> map_to_list (awaiting (run demo_overlap initial).1) = [js "tab"; js "tab"].
Proof. vm_compute. reflexivity. Qed.

(** Not promised: a retry after a slow attempt.  The watchdog fires during the attempt
    and does nothing; when the attempt settles without an event, nothing is left
    to take the key up again. *)
Definition demo_stall : list (Env unit * call unit) :=
  [demo_register; demo_schedule 0; demo_at 1000 (call_timer 0); demo_at 31000 (call_timer 1);
   demo_at 32000 (call_settled 1 true)].
Lemma reconnect_can_stall :
  let e := (run demo_stall initial).1 in
  isReconnecting (js "tab") e = true ∧ isOffline e = false ∧ timers e = ∅ ∧ awaiting e = ∅ ∧ inFlightCount e = 0
  ∧ run_lost demo_stall initial = true.
Proof. vm_compute. done. Qed.

(** Not promised: that cancelling stops every timer of a key.  A second attempt without a
    disconnection in between overwrites the first watchdog's id, and that timer
    outlives the entry; the next disconnection of the key is scheduled anew by it. *)
Definition demo_leak : list (Env unit * call unit) :=
  [demo_register; demo_schedule 0; demo_at 1000 (call_timer 0); demo_at 1100 (call_settled 1 true);
   demo_at 1200 call_systemResume; demo_at 1200 (call_timer 2); demo_at 1300 (call_settled 3 true);
   demo_at 1400 (call_cancel (js "tab"))].
Lemma reconnect_can_leak_watchdog :
  let e := (run demo_leak initial).1 in
  isReconnecting (js "tab") e = false ∧ tm_key <$> timers e !! 1%nat = Some (js "tab")
  ∧ (λ st, rs_nextAttemptAt st) <$> lookup_state (run [demo_schedule 30000] e).1 (js "tab") = Some 31000
  ∧ (λ st, rs_nextAttemptAt st) <$> lookup_state (run [demo_schedule 30000; demo_at 31000 (call_timer 1)] e).1 (js "tab")
    = Some 32000.
Proof. vm_compute. done. Qed.
End demo.
