(* ===== verification/Base64.v ===== *)
(** * Base64 (packages/shared-core/src/base64.ts)

    The encoder by groups of three bytes, and the decoder with its 32-bit bit
    buffer, which is never masked and wraps.  The decoder is compared with a
    reference that reads its input as one big number. *)

From S2P Require Import Prelude Collections.

Open Scope Z_scope.

Definition BASE64_ALPHABET : jsstring := js "ABCDEFGHIJKLMNOPQRSTUVWXYZabcdefghijklmnopqrstuvwxyz0123456789+/".

(** [new Int16Array(128).fill(-1)], then the index of each letter. *)
Definition BASE64_LOOKUP : list Z :=
  foldl (λ lookup '(index, code), <[N.to_nat code := Z.of_nat index]> lookup) (replicate 128 (-1))
    (imap (λ i c, (i, c)) BASE64_ALPHABET).

Definition letter (sextet : Z) : N := BASE64_ALPHABET !!! Z.to_nat sextet.
Definition PAD : N := 61.

(** One round of the encoder; an absent byte counts as 0. *)
Definition encode_group (byte0 : Z) (o1 o2 : option Z) : jsstring :=
  let byte1 := default 0 o1 in
  let byte2 := default 0 o2 in
  [ letter (Z.shiftr byte0 2);
    letter (Z.lor (Z.shiftl (Z.land byte0 3) 4) (Z.shiftr byte1 4));
    match o1 with Some _ => letter (Z.lor (Z.shiftl (Z.land byte1 15) 2) (Z.shiftr byte2 6)) | None => PAD end;
    match o2 with Some _ => letter (Z.land byte2 63) | None => PAD end ].

Fixpoint bytesToBase64 (bytes : list Z) : jsstring :=
  match bytes with
  | [] => []
  | [byte0] => encode_group byte0 None None
  | [byte0; byte1] => encode_group byte0 (Some byte1) None
  | byte0 :: byte1 :: byte2 :: rest => encode_group byte0 (Some byte1) (Some byte2) ++ bytesToBase64 rest
  end.

(** The value of a 32-bit bitwise operation: the operands wrap. *)
Definition int32 (z : Z) : Z := (z + 2 ^ 31) mod 2 ^ 32 - 2 ^ 31.

(** [value.replace(/=+$/, "")] *)
Fixpoint strip_pad_start (s : jsstring) : jsstring :=
  match s with
  | c :: s' => if decide (c = PAD) then strip_pad_start s' else s
  | [] => []
  end.
Definition strip_pad (s : jsstring) : jsstring := reverse (strip_pad_start (reverse s)).

Record decoder := { d_bytes : list Z; d_byteIndex : nat; d_buffer : Z; d_bitsCollected : Z }.

(** [code < 128 ? BASE64_LOOKUP[code] : -1] *)
Definition sextet_of (code : N) : Z :=
  if (code <? 128)%N then BASE64_LOOKUP !!! N.to_nat code else -1.

Definition decode_char (d : decoder) (code : N) : result decoder :=
  let sextet := sextet_of code in
  if sextet <? 0 then Throw "invalid base64" else
  let buffer := Z.lor (int32 (Z.shiftl (d_buffer d) 6)) sextet in
  let bitsCollected := d_bitsCollected d + 6 in
  if 8 <=? bitsCollected then
    let bitsCollected := bitsCollected - 8 in
    Ok {| d_bytes := <[d_byteIndex d := Z.land (Z.shiftr buffer bitsCollected) 255]> (d_bytes d);
          d_byteIndex := S (d_byteIndex d); d_buffer := buffer; d_bitsCollected := bitsCollected |}
  else Ok {| d_bytes := d_bytes d; d_byteIndex := d_byteIndex d; d_buffer := buffer;
             d_bitsCollected := bitsCollected |}.

Fixpoint decode_loop (d : decoder) (s : jsstring) : result decoder :=
  match s with
  | [] => Ok d
  | c :: s' => let! d := decode_char d c in decode_loop d s'
  end.

Definition base64ToBytes (value : jsstring) : result (list Z) :=
  let trimmed := List.filter (λ c, negb (is_ws c)) value in
  let unpadded := strip_pad trimmed in
  if decide (length unpadded mod 4 = 1)%nat then Throw "invalid base64" else
  let byteLength := Z.to_nat (Z.of_nat (length unpadded) * 3 / 4) in
  let! d := decode_loop {| d_bytes := replicate byteLength 0; d_byteIndex := 0; d_buffer := 0; d_bitsCollected := 0 |}
              unpadded in
  Ok (d_bytes d).

(** ** The reference: numbers in base 64 and base 256 *)

(** The number a list of digits denotes, most significant first. *)
Definition number_of (base : Z) (l : list Z) : Z := foldl (λ v d, v * base + d) 0 l.

(** The last [n] base-256 digits of [v]. *)
Fixpoint be_bytes (n : nat) (v : Z) : list Z :=
  match n with
  | O => []
  | S n' => be_bytes n' (v / 256) ++ [v mod 256]
  end.

(** All the whole bytes in a sequence of sextets; the bits left over are dropped. *)
Definition reference_decode (sextets : list Z) : list Z :=
  let bits := 6 * Z.of_nat (length sextets) in
  be_bytes (Z.to_nat (bits / 8)) (number_of 64 sextets / 2 ^ (bits mod 8)).

Definition is_letter (c : N) : bool := 0 <=? sextet_of c.

Lemma number_of_app base l k : number_of base (l ++ k) = foldl (λ v d, v * base + d) (number_of base l) k.
Proof. unfold number_of. by rewrite foldl_app. Qed.
Lemma number_of_snoc base l d : number_of base (l ++ [d]) = number_of base l * base + d.
Proof. by rewrite number_of_app. Qed.

Lemma length_be_bytes n v : length (be_bytes n v) = n.
Proof. revert v. induction n as [|n IH]; intros v; cbn [be_bytes]; [done|]. rewrite length_app, IH. simpl. lia. Qed.

(** ** The bits of the buffer *)

Lemma int32_mod z : int32 z mod 2 ^ 32 = z mod 2 ^ 32.
Proof.
  unfold int32. rewrite Zminus_mod, Z.mod_mod, <- Zminus_mod by done. f_equal. lia.
Qed.

Lemma testbit_mod z w n i : z mod 2 ^ w = n mod 2 ^ w → 0 ≤ i < w → Z.testbit z i = Z.testbit n i.
Proof.
  intros E Hi. rewrite <- (Z.mod_pow2_bits_low z w i), <- (Z.mod_pow2_bits_low n w i) by lia. by rewrite E.
Qed.

(** The low byte above [k] bits is that of the number the buffer stands for. *)
Lemma low_byte buffer v k : buffer mod 2 ^ 32 = v mod 2 ^ 32 → 0 ≤ k ≤ 24 →
  Z.land (Z.shiftr buffer k) 255 = v / 2 ^ k mod 256.
Proof.
  intros E Hk. change 255 with (Z.ones 8). rewrite Z.land_ones by done. rewrite <- Z.shiftr_div_pow2 by lia.
  change 256 with (2 ^ 8). apply Z.bits_inj'. intros i Hi.
  destruct (Z.lt_ge_cases i 8).
  - rewrite !Z.mod_pow2_bits_low, !Z.shiftr_spec by lia. apply (testbit_mod _ 32 _ _ E). lia.
  - by rewrite !Z.mod_pow2_bits_high by lia.
Qed.

(** Putting [s] below [k] fresh bits. *)
Lemma lor_shiftl v s k : 0 ≤ s < 2 ^ k → 0 ≤ k → Z.lor (Z.shiftl v k) s = v * 2 ^ k + s.
Proof.
  intros Hs Hk. rewrite Z.shiftl_mul_pow2 by done. pose proof (Z.add_lor_land (v * 2 ^ k) s) as Hadd.
  enough (Z.land (v * 2 ^ k) s = 0) by lia. clear Hadd. apply Z.bits_inj'. intros j Hj.
  rewrite Z.land_spec, Z.bits_0. destruct (Z.lt_ge_cases j k).
  - by rewrite Z.mul_pow2_bits_low by lia.
  - rewrite andb_comm. destruct (decide (s = 0)) as [->|]; [by rewrite Z.bits_0|].
    rewrite (Z.bits_above_log2 s j); [done|lia|].
    apply Z.log2_lt_pow2; [lia|]. pose proof (Z.pow_le_mono_r 2 k j ltac:(lia) ltac:(lia)). lia.
Qed.

Lemma push_sextet buffer v s : buffer mod 2 ^ 32 = v mod 2 ^ 32 → 0 ≤ s < 64 →
  Z.lor (int32 (Z.shiftl buffer 6)) s mod 2 ^ 32 = (v * 64 + s) mod 2 ^ 32.
Proof.
  intros E Hs. apply Z.bits_inj'. intros i Hi. destruct (Z.lt_ge_cases i 32) as [Hlt|]; [|by rewrite !Z.mod_pow2_bits_high by lia].
  rewrite !Z.mod_pow2_bits_low, Z.lor_spec by lia.
  rewrite (testbit_mod (int32 _) 32 (Z.shiftl buffer 6)) by (apply int32_mod || lia).
  rewrite Z.shiftl_spec by lia. change (v * 64) with (v * 2 ^ 6). rewrite <- lor_shiftl by lia.
  rewrite Z.lor_spec, Z.shiftl_spec by lia. f_equal. destruct (Z.lt_ge_cases i 6).
  - by rewrite !Z.testbit_neg_r by lia.
  - apply (testbit_mod _ 32 _ _ E). lia.
Qed.

(** ** The loop *)

(** The decoder after the sextets [l]: the whole bytes are written, and the buffer
    agrees with the number read so far on its 32 bits. *)
Record decoded (n : nat) (l : list Z) (d : decoder) : Prop := {
  dc_bits : d_bitsCollected d = 6 * Z.of_nat (length l) mod 8;
  dc_index : d_byteIndex d = Z.to_nat (6 * Z.of_nat (length l) / 8);
  dc_buffer : d_buffer d mod 2 ^ 32 = number_of 64 l mod 2 ^ 32;
  dc_bytes : d_bytes d = reference_decode l ++ replicate (n - d_byteIndex d) 0;
}.

Lemma number_of_nonneg base l : 0 ≤ base → Forall (λ d, 0 ≤ d) l → 0 ≤ number_of base l.
Proof.
  intros Hb. induction l as [|d l IH] using rev_ind; intros Hl; [done|]. apply Forall_app in Hl as [Hl Hd].
  apply Forall_inv in Hd. rewrite number_of_snoc. specialize (IH Hl). nia.
Qed.

Lemma decoded_step n l d c s : decoded n l d → Forall (λ d, 0 ≤ d) l → sextet_of c = s → 0 ≤ s < 64 →
  (Z.to_nat (6 * Z.of_nat (S (length l)) / 8) ≤ n)%nat →
  ∃ d', decode_char d c = Ok d' ∧ decoded n (l ++ [s]) d'.
Proof.
  intros [Db Di Du Dy] Hl Es Hs Hn. unfold decode_char. rewrite Es. destruct (Z.ltb_spec s 0); [lia|].
  pose proof (push_sextet _ _ s Du Hs) as Hbuf. rewrite <- number_of_snoc in Hbuf.
  set (k := Z.of_nat (length l)) in *.
  assert (Hk : Z.of_nat (length (l ++ [s])) = k + 1) by (rewrite length_app; simpl; lia).
  set (q := 6 * k / 8) in *. set (r := 6 * k mod 8) in *.
  assert (Hqr : 6 * k = 8 * q + r ∧ 0 ≤ r < 8) by (unfold q, r; pose proof (Z.div_mod (6 * k) 8); pose proof (Z.mod_pos_bound (6 * k) 8); lia).
  rewrite Db. destruct (Z.leb_spec 8 (r + 6)).
  - assert (E1 : 6 * (k + 1) / 8 = q + 1) by (symmetry; apply Z.div_unique with (r - 2); lia).
    assert (E2 : 6 * (k + 1) mod 8 = r - 2) by (symmetry; apply Z.mod_unique with (q + 1); lia).
    replace (r + 6 - 8) with (r - 2) by lia. eexists. split; [done|].
    assert (Hv : number_of 64 (l ++ [s]) / 2 ^ (r - 2) / 256 = number_of 64 l / 2 ^ r).
    { rewrite number_of_snoc, Z.div_div by lia. change 256 with (2 ^ 8). rewrite <- Z.pow_add_r by lia.
      replace (r - 2 + 8) with (6 + r) by lia. rewrite Z.pow_add_r, <- Z.div_div by lia. f_equal.
      change (2 ^ 6) with 64. symmetry. apply Z.div_unique with s; lia. }
    split; cbn [d_bitsCollected d_byteIndex d_buffer d_bytes]; rewrite ?Hk, ?E1, ?E2; [done| |done|].
    + rewrite Di. lia.
    + rewrite (low_byte _ (number_of 64 (l ++ [s]))) by (done || lia).
      unfold reference_decode in Dy |- *. fold k q r in Dy. rewrite Hk, E1, E2.
      replace (Z.to_nat (q + 1)) with (S (Z.to_nat q)) by lia. cbn [be_bytes]. rewrite Hv, Dy.
      assert (Hn' : (n - d_byteIndex d = S (n - S (d_byteIndex d)))%nat).
      { rewrite Di. fold k in Hn. rewrite Nat2Z.inj_succ, <- Z.add_1_r in Hn. fold k in Hn. rewrite E1 in Hn. lia. }
      rewrite Hn'. cbn [replicate]. rewrite insert_app_r_alt by (rewrite length_be_bytes; lia).
      rewrite length_be_bytes, Di. fold k q. rewrite Nat.sub_diag. cbn [insert list_insert].
      by rewrite <- (assoc_L (++)).
  - assert (E1 : 6 * (k + 1) / 8 = q) by (symmetry; apply Z.div_unique with (r + 6); lia).
    assert (E2 : 6 * (k + 1) mod 8 = r + 6) by (symmetry; apply Z.mod_unique with q; lia).
    eexists. split; [done|]. split; cbn [d_bitsCollected d_byteIndex d_buffer d_bytes]; rewrite ?Hk, ?E1, ?E2; [done|done|done|].
    rewrite Dy. f_equal. unfold reference_decode. fold k q r. rewrite Hk, E1, E2, number_of_snoc.
    f_equal. rewrite (Z.add_comm r 6), Z.pow_add_r, <- Z.div_div by lia. f_equal.
    change (2 ^ 6) with 64. apply Z.div_unique with s; lia.
Qed.

Lemma decoded_loop n l d u : decoded n l d → Forall (λ x, 0 ≤ x) l → Forall (λ c, 0 ≤ sextet_of c < 64) u →
  (Z.to_nat (6 * Z.of_nat (length l + length u) / 8) ≤ n)%nat →
  ∃ d', decode_loop d u = Ok d' ∧ decoded n (l ++ (sextet_of <$> u)) d'.
Proof.
  revert l d. induction u as [|c u IH]; intros l d Hd Hl Hu Hn; cbn [decode_loop fmap list_fmap].
  { exists d. by rewrite app_nil_r. }
  apply Forall_cons in Hu as [Hc Hu].
  destruct (decoded_step n l d c (sextet_of c) Hd Hl eq_refl Hc) as (d1 & -> & Hd1).
  { etrans; [|exact Hn]. apply Z2Nat.inj_le; [apply Z.div_pos; lia..|]. apply Z.div_le_mono; simpl; lia. }
  cbn [rbind]. destruct (IH (l ++ [sextet_of c]) d1 Hd1) as (d' & -> & Hd'); [|done| |].
  - apply Forall_app. split; [done|]. constructor; [lia|done].
  - rewrite length_app. cbn [length] in *. by rewrite <- Nat.add_assoc.
  - exists d'. rewrite <- (assoc_L (++)) in Hd'. done.
Qed.

Lemma decode_loop_throws d u : Exists (λ c, is_letter c = false) u → ∃ m, decode_loop d u = Throw m.
Proof.
  intros Hu. revert d. induction Hu as [c u Hc|c u _ IH]; intros d; cbn [decode_loop].
  - unfold decode_char. unfold is_letter in Hc. apply Z.leb_gt in Hc. destruct (Z.ltb_spec (sextet_of c) 0); [eauto|lia].
  - destruct (decode_char d c); [apply IH|cbn; eauto].
Qed.

Lemma lookup_bounds : Forall (λ x, -1 ≤ x < 64) BASE64_LOOKUP.
Proof. apply (bool_decide_unpack (Forall (λ x, -1 ≤ x < 64) BASE64_LOOKUP)). vm_compute. exact I. Qed.

Lemma sextet_bounds c : is_letter c = true → 0 ≤ sextet_of c < 64.
Proof.
  unfold is_letter. intros Hc%Z.leb_le. split; [done|]. unfold sextet_of in *. destruct (c <? 128)%N eqn:E; [|lia].
  apply N.ltb_lt in E. assert (is_Some (BASE64_LOOKUP !! N.to_nat c)) as [x Hx].
  { apply lookup_lt_is_Some_2. change (length BASE64_LOOKUP) with 128%nat. lia. }
  rewrite (list_lookup_total_correct _ _ _ Hx). by apply (proj1 (Forall_lookup _ _) lookup_bounds _ _ Hx).
Qed.

(** What the decoder does on what is left after white space and padding. *)
Lemma base64ToBytes_decodes value u : strip_pad (List.filter (λ c, negb (is_ws c)) value) = u →
  forallb is_letter u = true → (length u mod 4 ≠ 1)%nat →
  base64ToBytes value = Ok (reference_decode (sextet_of <$> u)).
Proof.
  intros Hu Hl Hm. unfold base64ToBytes. rewrite Hu, decide_False by done.
  set (n := Z.to_nat (Z.of_nat (length u) * 3 / 4)).
  assert (E : Z.of_nat (length u) * 3 / 4 = 6 * Z.of_nat (length u) / 8).
  { replace (6 * Z.of_nat (length u)) with (Z.of_nat (length u) * 3 * 2) by lia. change 8 with (4 * 2).
    by rewrite Z.div_mul_cancel_r. }
  destruct (decoded_loop n [] {| d_bytes := replicate n 0; d_byteIndex := 0; d_buffer := 0; d_bitsCollected := 0 |} u)
    as (d & -> & Hd).
  - split; try done. cbn. by rewrite Nat.sub_0_r.
  - constructor.
  - apply Forall_forall. intros c Hc. apply sextet_bounds. by apply (proj1 (forallb_spec _ _) Hl).
  - cbn [length]. unfold n. rewrite E. cbn. lia.
  - cbn [rbind]. f_equal. rewrite (dc_bytes _ _ _ Hd), (dc_index _ _ _ Hd). cbn [app]. rewrite length_fmap, <- E.
    fold n. rewrite Nat.sub_diag. cbn. by rewrite app_nil_r.
Qed.

(** ** Encoding *)

Lemma number_of_concat base l k :
  number_of base (l ++ k) = number_of base l * base ^ Z.of_nat (length k) + number_of base k.
Proof.
  induction k as [|d k IH] using rev_ind; [rewrite app_nil_r; cbn; lia|].
  rewrite (assoc_L (++)), !number_of_snoc, IH, length_app. cbn [length].
  rewrite Nat.add_1_r, Nat2Z.inj_succ, Z.pow_succ_r by lia. lia.
Qed.

Lemma number_of_bound base l : 0 < base → Forall (λ d, 0 ≤ d < base) l →
  0 ≤ number_of base l < base ^ Z.of_nat (length l).
Proof.
  intros Hb. induction l as [|d l IH] using rev_ind; intros Hl; [cbn; lia|]. apply Forall_app in Hl as [Hl Hd].
  apply Forall_inv in Hd. specialize (IH Hl). rewrite number_of_snoc, length_app. cbn [length].
  rewrite Nat.add_1_r, Nat2Z.inj_succ, Z.pow_succ_r by lia. nia.
Qed.

Lemma be_bytes_number l : Forall (λ b, 0 ≤ b < 256) l → be_bytes (length l) (number_of 256 l) = l.
Proof.
  induction l as [|b l IH] using rev_ind; intros Hl; [done|]. apply Forall_app in Hl as [Hl Hb].
  apply Forall_inv in Hb. rewrite length_app, Nat.add_1_r. cbn [be_bytes]. rewrite number_of_snoc.
  replace ((number_of 256 l * 256 + b) / 256) with (number_of 256 l) by (apply Z.div_unique with b; lia).
  rewrite IH by done. f_equal. f_equal. symmetry. apply Z.mod_unique with (number_of 256 l); lia.
Qed.

(** The sextets of one group, and the number they are. *)
Definition sextets (b0 b1 b2 : Z) : list Z :=
  [ Z.shiftr b0 2; Z.lor (Z.shiftl (Z.land b0 3) 4) (Z.shiftr b1 4);
    Z.lor (Z.shiftl (Z.land b1 15) 2) (Z.shiftr b2 6); Z.land b2 63 ].
Lemma group_sextets b0 b1 b2 : 0 ≤ b0 < 256 → 0 ≤ b1 < 256 → 0 ≤ b2 < 256 →
  Forall (λ s, 0 ≤ s < 64) (sextets b0 b1 b2)
  ∧ sextets b0 b1 b2 = [b0 / 4; b0 mod 4 * 16 + b1 / 16; b1 mod 16 * 4 + b2 / 64; b2 mod 64].
Proof.
  intros H0 H1 H2.
  assert (Hs : sextets b0 b1 b2 = [b0 / 4; b0 mod 4 * 16 + b1 / 16; b1 mod 16 * 4 + b2 / 64; b2 mod 64]).
  { unfold sextets. change 3 with (Z.ones 2). change 15 with (Z.ones 4). change 63 with (Z.ones 6).
    rewrite !Z.land_ones, !Z.shiftr_div_pow2 by done.
    assert (0 ≤ b1 / 2 ^ 4 < 2 ^ 4) by (split; [apply Z.div_pos|apply Z.div_lt_upper_bound]; lia).
    assert (0 ≤ b2 / 2 ^ 6 < 2 ^ 2) by (split; [apply Z.div_pos|apply Z.div_lt_upper_bound]; lia).
    by rewrite !lor_shiftl by done. }
  split; [|done]. rewrite Hs. repeat constructor; Z.to_euclidean_division_equations; lia.
Qed.

(** What the encoder wrote: sextets that are the bytes followed by zero bits. *)
Record encoded (bs : list Z) (ss : list Z) (pad : nat) : Prop := {
  en_text : bytesToBase64 bs = (letter <$> ss) ++ replicate pad PAD;
  en_range : Forall (λ s, 0 ≤ s < 64) ss;
  en_number : number_of 64 ss = number_of 256 bs * 2 ^ (6 * Z.of_nat (length ss) - 8 * Z.of_nat (length bs));
  en_length : 0 ≤ 6 * Z.of_nat (length ss) - 8 * Z.of_nat (length bs) < 6;
  en_groups : ((length ss + pad) mod 4 = 0 ∧ pad ≤ 2)%nat;
}.

(** [bs] one group of three longer. *)
Lemma encoded_group b0 b1 b2 bs ss pad : 0 ≤ b0 < 256 → 0 ≤ b1 < 256 → 0 ≤ b2 < 256 →
  encoded bs ss pad → encoded (b0 :: b1 :: b2 :: bs) (sextets b0 b1 b2 ++ ss) pad.
Proof.
  intros H0 H1 H2 [T R N L [G P]]. destruct (group_sextets b0 b1 b2 H0 H1 H2) as [Hr Hg]. split.
  - cbn [bytesToBase64]. rewrite fmap_app, <- (assoc_L (++)), <- T. done.
  - by apply Forall_app.
  - rewrite number_of_concat, N, Hg. change (b0 :: b1 :: b2 :: bs) with ([b0; b1; b2] ++ bs).
    rewrite (number_of_concat 256), !length_app. cbn [length].
    replace (6 * Z.of_nat (4 + length ss) - 8 * Z.of_nat (3 + length bs))
      with (6 * Z.of_nat (length ss) - 8 * Z.of_nat (length bs)) by lia.
    set (r := 6 * Z.of_nat (length ss) - 8 * Z.of_nat (length bs)) in *.
    assert (E64 : 64 ^ Z.of_nat (length ss) = 256 ^ Z.of_nat (length bs) * 2 ^ r).
    { change 64 with (2 ^ 6). change 256 with (2 ^ 8). rewrite <- !Z.pow_mul_r, <- Z.pow_add_r by lia. f_equal. lia. }
    rewrite E64. unfold number_of. cbn [foldl]. set (n := foldl _ 0 bs).
    assert (((((0 * 64 + b0 / 4) * 64 + (b0 mod 4 * 16 + b1 / 16)) * 64 + (b1 mod 16 * 4 + b2 / 64)) * 64 + b2 mod 64)
      = ((0 * 256 + b0) * 256 + b1) * 256 + b2) as -> by (Z.to_euclidean_division_equations; lia). ring.
  - rewrite length_app. change (length (sextets b0 b1 b2)) with 4%nat. cbn [length]. lia.
  - rewrite length_app. change (length (sextets b0 b1 b2)) with 4%nat. replace (4 + length ss + pad)%nat with (length ss + pad + 1 * 4)%nat by lia.
    split; [|done]. by rewrite Nat.Div0.mod_add.
Qed.

(** The last group: one byte, or two. *)
Lemma encoded_last b0 b1 : 0 ≤ b0 < 256 → 0 ≤ b1 < 256 →
  encoded [b0] (take 2 (sextets b0 0 0)) 2 ∧ encoded [b0; b1] (take 3 (sextets b0 b1 0)) 1.
Proof.
  intros H0 H1. destruct (group_sextets b0 0 0 H0 ltac:(lia) ltac:(lia)) as [R1 G1].
  destruct (group_sextets b0 b1 0 H0 H1 ltac:(lia)) as [R2 G2]. split; split; try done; try (by apply Forall_take); try (cbn; lia).
  - rewrite G1. cbn. Z.to_euclidean_division_equations; lia.
  - rewrite G2. cbn. Z.to_euclidean_division_equations; lia.
Qed.

Lemma encoded_exists bs : Forall (λ b, 0 ≤ b < 256) bs → ∃ ss pad, encoded bs ss pad.
Proof.
  remember (length bs) as n eqn:En. revert bs En. induction n as [n IH] using lt_wf_ind. intros bs -> Hbs.
  destruct bs as [|b0 [|b1 [|b2 bs]]]; repeat (apply Forall_cons in Hbs as [? Hbs]).
  - exists [], 0%nat. split; try done. by split; [|lia].
  - eexists _, _. by apply (encoded_last b0 0).
  - eexists _, _. by apply (encoded_last b0 b1).
  - destruct (IH (length bs)) with bs as (ss & pad & Hen); [cbn; lia|done|done|].
    eexists _, _. by apply encoded_group.
Qed.

(** ** Letters *)

Lemma letters_good : Forall (λ i, sextet_of (letter (Z.of_nat i)) = Z.of_nat i ∧ is_ws (letter (Z.of_nat i)) = false
  ∧ letter (Z.of_nat i) ≠ PAD) (seq 0 64).
Proof. repeat (apply Forall_cons; split; [split_and!; [reflexivity|reflexivity|discriminate]|]). constructor. Qed.

Lemma letter_good s : 0 ≤ s < 64 → sextet_of (letter s) = s ∧ is_ws (letter s) = false ∧ letter s ≠ PAD.
Proof.
  intros Hs. assert (Z.to_nat s ∈ seq 0 64) as Hin by (apply elem_of_seq; lia).
  pose proof (proj1 (Forall_forall _ _) letters_good _ Hin) as Hl. cbn beta in Hl.
  by rewrite Z2Nat.id in Hl by lia.
Qed.

Lemma sextets_of_letters ss : Forall (λ s, 0 ≤ s < 64) ss → sextet_of <$> (letter <$> ss) = ss.
Proof. induction 1 as [|s ss Hs _ IH]; [done|]. cbn. rewrite (proj1 (letter_good s Hs)). by f_equal. Qed.

Lemma strip_pad_letters l pad : Forall (λ c, c ≠ PAD) l → strip_pad (l ++ replicate pad PAD) = l.
Proof.
  intros Hl. unfold strip_pad. rewrite reverse_app, reverse_replicate.
  assert (strip_pad_start (replicate pad PAD ++ reverse l) = reverse l) as ->; [|apply reverse_involutive].
  induction pad as [|pad IH]; cbn; [|done]. apply Forall_reverse in Hl.
  destruct (reverse l) as [|c l']; [done|]. cbn. by rewrite decide_False by (by apply Forall_inv in Hl).
Qed.

Lemma decode_encoded bs value : Forall (λ b, 0 ≤ b < 256) bs →
  List.filter (λ c, negb (is_ws c)) value = bytesToBase64 bs → base64ToBytes value = Ok bs.
Proof.
  intros Hbs Hv. destruct (encoded_exists bs Hbs) as (ss & pad & [T R N L [G P]]).
  assert (Hp : Forall (λ c, c ≠ PAD) (letter <$> ss)).
  { apply Forall_fmap. eapply Forall_impl; [exact R|]. intros s Hs. apply (letter_good s Hs). }
  assert (Hu : strip_pad (List.filter (λ c, negb (is_ws c)) value) = letter <$> ss) by (rewrite Hv, T; by apply strip_pad_letters).
  rewrite (base64ToBytes_decodes value (letter <$> ss) Hu).
  - f_equal. rewrite sextets_of_letters by done. unfold reference_decode.
    set (k := Z.of_nat (length ss)) in *. set (m := Z.of_nat (length bs)) in *.
    assert (6 * k / 8 = m) as -> by (symmetry; apply Z.div_unique with (6 * k - 8 * m); lia).
    assert (6 * k mod 8 = 6 * k - 8 * m) as -> by (symmetry; apply Z.mod_unique with m; lia).
    rewrite N, Z.div_mul by (apply Z.pow_nonzero; lia). unfold m. rewrite Nat2Z.id. by apply be_bytes_number.
  - apply forallb_spec. intros c (s & -> & Hs)%list_elem_of_fmap. rewrite Forall_forall in R. specialize (R s Hs).
    unfold is_letter. rewrite (proj1 (letter_good s R)). apply Z.leb_le. lia.
  - rewrite length_fmap. intros Hm. rewrite <- Nat.Div0.add_mod_idemp_l, Hm in G.
    destruct pad as [|[|[|]]]; [discriminate..|lia].
Qed.

(** An encoding has no white space. *)
Lemma encoded_no_ws bs : Forall (λ b, 0 ≤ b < 256) bs →
  List.filter (λ c, negb (is_ws c)) (bytesToBase64 bs) = bytesToBase64 bs.
Proof.
  intros Hbs. destruct (encoded_exists bs Hbs) as (ss & pad & [T R _ _ _]). rewrite T. apply filter_all.
  intros c [(s & -> & Hs)%list_elem_of_fmap|[-> _]%elem_of_replicate]%elem_of_app; [|done].
  rewrite Forall_forall in R. by rewrite (proj1 (proj2 (letter_good s (R s Hs)))).
Qed.

Lemma decode_encode bs : Forall (λ b, 0 ≤ b < 256) bs → base64ToBytes (bytesToBase64 bs) = Ok bs.
Proof. intros Hbs. apply decode_encoded; [done|]. by apply encoded_no_ws. Qed.

(** C21: decoding an encoding gives the bytes back, whatever white space was inserted. *)
Theorem base64_roundtrip bs value : Forall (λ b, 0 ≤ b < 256) bs →
  List.filter (λ c, negb (is_ws c)) value = bytesToBase64 bs → base64ToBytes value = Ok bs.
Proof. apply decode_encoded. Qed.

(** C22: the decoder, with its wrapping 32-bit buffer, computes on every input the
    whole bytes of the number that its letters denote, and rejects exactly the
    inputs with another character in them or a lone last letter. *)
Theorem base64ToBytes_reference value :
  let u := strip_pad (List.filter (λ c, negb (is_ws c)) value) in
  if bool_decide (length u mod 4 = 1)%nat || negb (forallb is_letter u)
  then ∃ m, base64ToBytes value = Throw m
  else base64ToBytes value = Ok (reference_decode (sextet_of <$> u)).
Proof.
  intros u. destruct (decide (length u mod 4 = 1)%nat) as [Hm|Hm].
  - rewrite bool_decide_true by done. cbn [orb]. unfold base64ToBytes. fold u. rewrite decide_True by done. eauto.
  - rewrite bool_decide_false by done. cbn [orb]. destruct (forallb is_letter u) eqn:Hl; cbn [negb].
    + by apply base64ToBytes_decodes.
    + unfold base64ToBytes. fold u. rewrite decide_False by done.
      destruct (decode_loop_throws {| d_bytes := replicate (Z.to_nat (Z.of_nat (length u) * 3 / 4)) 0;
        d_byteIndex := 0; d_buffer := 0; d_bitsCollected := 0 |} u) as [m ->]; [|cbn; eauto].
      apply Exists_exists. apply not_true_iff_false in Hl. rewrite forallb_spec in Hl.
      destruct (Exists_dec (λ c, is_letter c = false) u) as [He|Hn]; [by apply Exists_exists in He|].
      destruct Hl. intros c Hc. destruct (is_letter c) eqn:E; [done|]. destruct Hn. apply Exists_exists. eauto.
Qed.

(** Three groups, the last of one byte, written with a space and a line break. *)
Lemma base64_roundtrip_witness :
  base64ToBytes (js "/++/ AAE" ++ [10]%N ++ js "C/w==") = Ok [255; 239; 191; 0; 1; 2; 255].
Proof.
  apply base64_roundtrip; [|vm_compute; reflexivity].
  apply (bool_decide_unpack (Forall (λ b, 0 ≤ b < 256) [255; 239; 191; 0; 1; 2; 255])). vm_compute. exact I.
Defined.
