(* ===== verification/Vault.v ===== *)
(** * The end-to-end encrypted vault, the client's side
      (packages/shared-core/src/vault.ts, VaultKdfDescriptor and VaultBootstrap of api.ts)

    The wrapped data key, the cached key and the decision what to do with it when
    the server describes its vault, and the revision tags of synchronisation.  The
    ciphers and hashes are the noble library's, an interface here. *)

From S2P Require Import Prelude Collections JsNumber Json Base64.

Open Scope Z_scope.

Definition VAULT_DEK_BYTE_LENGTH : nat := 32.
Definition VAULT_KEK_BYTE_LENGTH : nat := 32.
Definition VAULT_WRAP_IV_BYTE_LENGTH : nat := 12.
Definition VAULT_KDF_ALGORITHM : jsstring := js "argon2id".
Definition VAULT_DEK_VERIFIER_LABEL : jsstring := js "dolgate-dek-verifier-v1".
Definition VAULT_PASSPHRASE_MIN_LENGTH : nat := 4.
Definition saltBytesMin : nat := 16.
Definition saltBytesMax : nat := 64.

Record VaultKdfDescriptor := {
  kdf_algorithm : jsstring;
  kdf_saltBase64 : jsstring;
  kdf_memoryKib : Z;
  kdf_timeCost : Z;
  kdf_parallelism : Z;
}.
Record VaultKdfCost := { memoryKib : Z; timeCost : Z; parallelism : Z }.
Definition VAULT_KDF_DEFAULT_COST : VaultKdfCost := {| memoryKib := 64 * 1024; timeCost := 3; parallelism := 1 |}.

Record VaultBootstrap := {
  boot_version : option Z;
  boot_keyBase64 : option jsstring;
  boot_wrappedDekBase64 : option jsstring;
  boot_e2eeRequired : option bool;
  boot_epoch : option Z;
  boot_wrapRevision : option Z;
  boot_dekVerifierBase64 : option jsstring;
  boot_kdf : option VaultKdfDescriptor;
}.

(** AES-256-GCM, HMAC-SHA256, Argon2id; text to bytes and its normalization.
    Decryption throws when the tag does not match. *)
Class VaultCrypto := {
  gcm_encrypt : list Z → list Z → list Z → list Z;
  gcm_decrypt : list Z → list Z → list Z → result (list Z);
  hmac_sha256 : list Z → list Z → list Z;
  argon2id : list Z → list Z → VaultKdfCost → nat → result (list Z);
  utf8ToBytes : jsstring → list Z;
  normalizeNFC : jsstring → jsstring;
}.

Definition bytes_ok (l : list Z) : Prop := Forall (λ b, 0 ≤ b < 256) l.

(** What the cipher is documented to do: open what was sealed with the same key and
    nonce, and append a 16-byte tag. *)
Class AeadLaws `{VaultCrypto} : Prop := {
  gcm_opens k iv m : length k = 32%nat → bytes_ok k → bytes_ok iv → bytes_ok m → gcm_decrypt k iv (gcm_encrypt k iv m) = Ok m;
  gcm_bytes k iv m : bytes_ok k → bytes_ok iv → bytes_ok m → bytes_ok (gcm_encrypt k iv m);
  gcm_length k iv m : length k = 32%nat → length (gcm_encrypt k iv m) = (length m + 16)%nat;
}.

Section vault.
Context `{VaultCrypto}.

Definition isVaultEpochRejectionCode (code : option jsstring) : bool :=
  bool_decide (code = Some (js "vault_reset")) || bool_decide (code = Some (js "vault_dek_mismatch")).

Definition computeVaultDekVerifier (dek : list Z) : result jsstring :=
  if decide (length dek = VAULT_DEK_BYTE_LENGTH)
  then Ok (bytesToBase64 (hmac_sha256 dek (utf8ToBytes VAULT_DEK_VERIFIER_LABEL)))
  else Throw "invalid DEK length".

(** [Array.from(s).length]: a surrogate pair is one character. *)
Fixpoint code_points (s : jsstring) : nat :=
  match s with
  | [] => O
  | h :: s' =>
      match s' with
      | l :: s'' =>
          if ((0xD800 <=? h) && (h <=? 0xDBFF) && (0xDC00 <=? l) && (l <=? 0xDFFF))%N
          then S (code_points s'') else S (code_points s')
      | [] => 1%nat
      end
  end.

Inductive VaultPassphraseIssue := issue_blank | issue_too_short.

Definition getNewVaultPassphraseIssue (passphrase : jsstring) : option VaultPassphraseIssue :=
  let normalized := normalizeNFC passphrase in
  if decide (js_trim normalized = []) then Some issue_blank
  else if (code_points normalized <? VAULT_PASSPHRASE_MIN_LENGTH)%nat then Some issue_too_short
  else None.

Definition default_cost (kdf : VaultKdfDescriptor) : bool :=
  (kdf_memoryKib kdf =? memoryKib VAULT_KDF_DEFAULT_COST) && (kdf_timeCost kdf =? timeCost VAULT_KDF_DEFAULT_COST)
  && (kdf_parallelism kdf =? parallelism VAULT_KDF_DEFAULT_COST).
Definition salt_length_ok (salt : list Z) : bool :=
  (saltBytesMin <=? length salt)%nat && (length salt <=? saltBytesMax)%nat.

Definition isSupportedVaultKdfDescriptor (kdf : VaultKdfDescriptor) : bool :=
  if negb (bool_decide (kdf_algorithm kdf = VAULT_KDF_ALGORITHM) && default_cost kdf) then false else
  match base64ToBytes (kdf_saltBase64 kdf) with
  | Ok salt => salt_length_ok salt
  | Throw _ => false
  end.

Definition createVaultKdfDescriptor (random : list Z) (cost : VaultKdfCost) : VaultKdfDescriptor :=
  {| kdf_algorithm := VAULT_KDF_ALGORITHM; kdf_saltBase64 := bytesToBase64 random;
     kdf_memoryKib := memoryKib cost; kdf_timeCost := timeCost cost; kdf_parallelism := parallelism cost |}.

Definition deriveVaultKek (passphrase : jsstring) (kdf : VaultKdfDescriptor) : result (list Z) :=
  if negb (bool_decide (kdf_algorithm kdf = VAULT_KDF_ALGORITHM)) then Throw "unsupported KDF algorithm" else
  if negb (default_cost kdf) then Throw "unsupported KDF parameters" else
  match base64ToBytes (kdf_saltBase64 kdf) with
  | Throw _ => Throw "invalid KDF salt"
  | Ok salt =>
      if negb (salt_length_ok salt) then Throw "invalid KDF salt" else
      argon2id (utf8ToBytes (normalizeNFC passphrase)) salt
        {| memoryKib := kdf_memoryKib kdf; timeCost := kdf_timeCost kdf; parallelism := kdf_parallelism kdf |}
        VAULT_KEK_BYTE_LENGTH
  end.

Definition wrapVaultDekWithIv (dek kek iv : list Z) : jsstring := bytesToBase64 (iv ++ gcm_encrypt kek iv dek).

(** [iv] is what [randomBytes(12)] returned. *)
Definition wrapVaultDek (iv dek kek : list Z) : result jsstring :=
  if negb (bool_decide (length dek = VAULT_DEK_BYTE_LENGTH)) then Throw "invalid DEK length"
  else if negb (bool_decide (length kek = VAULT_KEK_BYTE_LENGTH)) then Throw "invalid KEK length"
  else Ok (wrapVaultDekWithIv dek kek iv).

Definition unwrapVaultDek (wrappedDekBase64 : jsstring) (kek : list Z) : result (list Z) :=
  let! wrapped := base64ToBytes wrappedDekBase64 in
  if (length wrapped <=? VAULT_WRAP_IV_BYTE_LENGTH)%nat then Throw "invalid vault key" else
  let! dek := gcm_decrypt kek (take VAULT_WRAP_IV_BYTE_LENGTH wrapped) (drop VAULT_WRAP_IV_BYTE_LENGTH wrapped) in
  if decide (length dek = VAULT_DEK_BYTE_LENGTH) then Ok dek else Throw "invalid vault key".

(** ** Revision tags *)

Definition QUOTE : N := 34.

(** [`"${revision}"`] *)
Definition formatSyncRevisionEtag (revision : N) : jsstring := QUOTE :: show_N revision ++ [QUOTE].

(** [/^"(\d+)"$/]; a value past [MAX_SAFE_INTEGER] rounds to one that is not safe. *)
Definition parseSyncRevisionEtag (etag : option jsstring) : option N :=
  match opt_truthy etag with
  | None => None
  | Some etag =>
      match js_trim etag with
      | q :: rest =>
          let '(digits, close) := span_digits rest in
          if decide (q = QUOTE ∧ digits ≠ [] ∧ close = [QUOTE]) then
            let value := digits_value digits in
            if (Z.of_N value <=? MAX_SAFE_INTEGER) then Some value else None
          else None
      | [] => None
      end
  end.

(** ** What to do with a cached key *)

Inductive VaultAccessDecision :=
| decision_unlocked (epoch : Z)
| decision_locked
| decision_ignore_descriptor
| decision_unlocked_unverifiable (epoch : Z).

Record VaultAccessParams := {
  descriptorEpoch : option Z;
  descriptorVerifier : option jsstring;
  cachedDekVerifier : option jsstring;
  cachedEpoch : option Z;
  descriptorWrapRevision : option Z;
  cachedWrapRevision : option Z;
}.

Definition decideVaultAccess (p : VaultAccessParams) : VaultAccessDecision :=
  let epoch := default 0 (descriptorEpoch p) in
  match cachedDekVerifier p with
  | None => decision_locked
  | Some cached =>
      if match cachedEpoch p with Some c => epoch <? c | None => false end then decision_ignore_descriptor
      else if match cachedEpoch p with
              | Some c => (epoch =? c) && (default 0 (descriptorWrapRevision p) <? default 0 (cachedWrapRevision p))
              | None => false
              end then decision_ignore_descriptor
      else match opt_truthy (descriptorVerifier p) with
           | None => decision_unlocked_unverifiable epoch
           | Some v => if decide (cached = v) then decision_unlocked epoch else decision_locked
           end
  end.

Inductive VaultDescriptorState :=
| setup_required (epoch : option Z)
| legacy (keyBase64 : jsstring) (epoch : option Z) (e2eeRequired : bool)
| e2ee (wrappedDekBase64 : jsstring) (kdf : VaultKdfDescriptor) (epoch : option Z)
       (dekVerifierBase64 : option jsstring) (wrapRevision : option Z).

Definition resolveVaultDescriptorState (b : VaultBootstrap) : result VaultDescriptorState :=
  let version := match boot_version b with
                 | Some v => v
                 | None => match opt_truthy (boot_keyBase64 b) with Some _ => 1 | None => 0 end
                 end in
  if version =? 0 then Ok (setup_required (boot_epoch b))
  else if version =? 1 then
    match opt_truthy (boot_keyBase64 b) with
    | None => Throw "no key in the vault response"
    | Some k => Ok (legacy k (boot_epoch b) (bool_decide (boot_e2eeRequired b = Some true)))
    end
  else if version =? 2 then
    match opt_truthy (boot_wrappedDekBase64 b), boot_kdf b with
    | Some w, Some kdf => Ok (e2ee w kdf (boot_epoch b) (opt_truthy (boot_dekVerifierBase64 b)) (boot_wrapRevision b))
    | _, _ => Throw "no wrapped key in the vault response"
    end
  else Throw "unsupported vault version".

(** ** The cached key *)

(** [isSupportedVaultKdfDescriptor] of a value that is only known to be truthy. *)
Definition supported_kdf_json (v : JValue) : bool :=
  match as_object v with
  | None => false
  | Some kdf =>
      is_str (field "algorithm" kdf) "argon2id"
      && is_int (field "memoryKib" kdf) (memoryKib VAULT_KDF_DEFAULT_COST)
      && is_int (field "timeCost" kdf) (timeCost VAULT_KDF_DEFAULT_COST)
      && is_int (field "parallelism" kdf) (parallelism VAULT_KDF_DEFAULT_COST)
      && match field "saltBase64" kdf with
         | JStr salt => match base64ToBytes salt with Ok salt => salt_length_ok salt | Throw _ => false end
         | _ => false
         end
  end.

Definition nonempty_string (v : JValue) : bool := match v with JStr s => truthy s | _ => false end.

(** [owner]: absent, or an object that names a server and a user. *)
Definition owner_ok (v : JValue) : bool :=
  is_undefined v
  || match as_object v with
     | Some owner => nonempty_string (field "serverUrl" owner) && nonempty_string (field "userId" owner)
     | None => false
     end.

Definition descriptor_ok (value : list (jsstring * JValue)) : bool :=
  let hasAny := negb (is_undefined (field "wrappedDekBase64" value)) || negb (is_undefined (field "kdf" value))
                || negb (is_undefined (field "dekVerifierBase64" value)) in
  negb hasAny
  || is_string (field "wrappedDekBase64" value) && is_string (field "dekVerifierBase64" value)
     && supported_kdf_json (field "kdf" value).

(** [raw] is what [JSON.parse] made of the text, if it did not throw; the record that
    is returned is the value itself. *)
Definition parseVaultCacheRecord (raw : option JValue) : option (list (jsstring * JValue)) :=
  match raw ≫= as_object with
  | None => None
  | Some value =>
      match field "dekBase64" value with
      | JStr dekBase64 =>
          if negb (is_int (field "version" value) 2) || negb (is_count (field "epoch" value)) then None
          else if negb (owner_ok (field "owner" value)) then None
          else if negb (is_undefined (field "wrapRevision" value) || is_count (field "wrapRevision" value)) then None
          else if negb (descriptor_ok value) then None
          else match base64ToBytes dekBase64 with
               | Throw _ => None
               | Ok dek =>
                   match computeVaultDekVerifier dek with
                   | Throw _ => None
                   | Ok verifier =>
                       match field "dekVerifierBase64" value with
                       | JUndefined => Some value
                       | JStr v => if decide (v = verifier) then Some value else None
                       | _ => None
                       end
                   end
               end
      | _ => None
      end
  end.

(** ** The wrapped key *)

(** C24: a wrapped data key is a text of 60 bytes that the same key-encryption key
    opens, and under another key it opens only if the cipher accepts the forgery;
    a key that is accepted has 32 bytes, whatever text it came from; and the
    key-encryption key is derived, by Argon2id, from exactly the descriptors the
    client accepts. *)
Theorem vault_wrap_roundtrip `{!AeadLaws} iv dek kek passphrase kdf :
  bytes_ok iv → bytes_ok dek → bytes_ok kek → length iv = VAULT_WRAP_IV_BYTE_LENGTH →
  length dek = VAULT_DEK_BYTE_LENGTH → length kek = VAULT_KEK_BYTE_LENGTH →
  (∃ w wrapped, wrapVaultDek iv dek kek = Ok w ∧ base64ToBytes w = Ok wrapped ∧ length wrapped = 60%nat
     ∧ unwrapVaultDek w kek = Ok dek
     ∧ ∀ kek' e, gcm_decrypt kek' iv (gcm_encrypt kek iv dek) = Throw e → unwrapVaultDek w kek' = Throw e)
  ∧ (∀ text key dek', unwrapVaultDek text key = Ok dek' → length dek' = 32%nat)
  ∧ (if isSupportedVaultKdfDescriptor kdf
     then ∃ salt, base64ToBytes (kdf_saltBase64 kdf) = Ok salt ∧ (16 ≤ length salt ≤ 64)%nat
       ∧ deriveVaultKek passphrase kdf
         = argon2id (utf8ToBytes (normalizeNFC passphrase)) salt VAULT_KDF_DEFAULT_COST VAULT_KEK_BYTE_LENGTH
     else ∃ e, deriveVaultKek passphrase kdf = Throw e).
Proof.
  intros Hiv Hbd Hbk Hli Hld Hlk. split_and!.
  - exists (wrapVaultDekWithIv dek kek iv), (iv ++ gcm_encrypt kek iv dek). unfold wrapVaultDek.
    rewrite !bool_decide_true by done. cbn [negb].
    assert (Hd : base64ToBytes (wrapVaultDekWithIv dek kek iv) = Ok (iv ++ gcm_encrypt kek iv dek)).
    { apply decode_encode. apply Forall_app. split; [done|by apply gcm_bytes]. }
    assert (Hl : length (iv ++ gcm_encrypt kek iv dek) = 60%nat).
    { rewrite length_app, gcm_length, Hli, Hld; done. }
    assert (Hu : ∀ kek', unwrapVaultDek (wrapVaultDekWithIv dek kek iv) kek' =
      (let! dek := gcm_decrypt kek' iv (gcm_encrypt kek iv dek) in
       if decide (length dek = VAULT_DEK_BYTE_LENGTH) then Ok dek else Throw "invalid vault key")).
    { intros kek'. unfold unwrapVaultDek. rewrite Hd. cbn [rbind]. rewrite Hl. cbn [Nat.leb VAULT_WRAP_IV_BYTE_LENGTH].
      by rewrite <- Hli, take_app_length, drop_app_length. }
    split_and!; [done|done|done| |].
    + rewrite Hu, gcm_opens by done. cbn [rbind]. by rewrite decide_True.
    + intros kek' e He. by rewrite Hu, He.
  - intros text key dek'. unfold unwrapVaultDek. destruct (base64ToBytes text); [|done]. cbn [rbind].
    case_match; [done|]. destruct (gcm_decrypt _ _ _); [|done]. cbn [rbind]. case_decide; [|done]. by intros [= <-].
  - unfold isSupportedVaultKdfDescriptor, deriveVaultKek.
    destruct (bool_decide (kdf_algorithm kdf = _)); cbn [negb andb]; [|eauto].
    destruct (default_cost kdf) eqn:Ec; cbn [negb]; [|eauto].
    destruct (base64ToBytes (kdf_saltBase64 kdf)) as [salt|]; [|eauto].
    destruct (salt_length_ok salt) eqn:Es; cbn [negb]; [|eauto]. exists salt.
    unfold salt_length_ok, default_cost in *. rewrite !andb_true_iff, ?Z.eqb_eq, ?Nat.leb_le in *.
    destruct Ec as [[-> ->] ->]. split_and!; [done|apply Es..|done].
Qed.

(** ** Decisions *)

(** A descriptor older than the cache: of an earlier key generation, or of the same one and an
    earlier wrapping. *)
Definition older (p : VaultAccessParams) : Prop :=
  ∃ c, cachedEpoch p = Some c ∧
    (default 0 (descriptorEpoch p) < c
     ∨ default 0 (descriptorEpoch p) = c ∧ default 0 (descriptorWrapRevision p) < default 0 (cachedWrapRevision p)).

(** Past the comparison with the cache, the verifier decides. *)
Lemma decide_by_verifier p cached : cachedDekVerifier p = Some cached →
  (older p ∧ decideVaultAccess p = decision_ignore_descriptor)
  ∨ (¬ older p ∧ decideVaultAccess p =
       match opt_truthy (descriptorVerifier p) with
       | None => decision_unlocked_unverifiable (default 0 (descriptorEpoch p))
       | Some v => if decide (cached = v) then decision_unlocked (default 0 (descriptorEpoch p)) else decision_locked
       end).
Proof.
  intros E. unfold decideVaultAccess, older. rewrite E. destruct (cachedEpoch p) as [c|]; [|right; naive_solver].
  destruct (Z.ltb_spec (default 0 (descriptorEpoch p)) c); [left; split; [exists c; auto|done]|].
  destruct (Z.eqb_spec (default 0 (descriptorEpoch p)) c); cbn [andb];
    [destruct (Z.ltb_spec (default 0 (descriptorWrapRevision p)) (default 0 (cachedWrapRevision p))); [left; split; [exists c; auto|done]|]|];
    right; (split; [intros (c' & [= <-] & ?); lia|done]).
Qed.
Lemma not_older p c : ¬ older p → cachedEpoch p = Some c → c ≤ default 0 (descriptorEpoch p).
Proof. intros Hn Hc. apply Z.nlt_ge. intros Hlt. apply Hn. exists c. auto. Qed.

(** C23: a cached key stays in use only with the vault it belongs to: without one
    the vault is locked; a description older than the cache changes nothing; the
    key is taken as proven exactly when its verifier is the one described, is
    dropped exactly when another is, and is used unproven only where the server
    describes none; an epoch that is adopted is never before the cached one. *)
Theorem decideVaultAccess_spec p :
  match decideVaultAccess p with
  | decision_locked => cachedDekVerifier p = None
      ∨ (¬ older p ∧ ∃ v, descriptorVerifier p = Some v ∧ v ≠ [] ∧ cachedDekVerifier p ≠ Some v)
  | decision_ignore_descriptor => older p ∧ cachedDekVerifier p ≠ None
  | decision_unlocked e =>
      e = default 0 (descriptorEpoch p) ∧ ¬ older p ∧ (∀ c, cachedEpoch p = Some c → c ≤ e)
      ∧ ∃ v, v ≠ [] ∧ cachedDekVerifier p = Some v ∧ descriptorVerifier p = Some v
  | decision_unlocked_unverifiable e =>
      e = default 0 (descriptorEpoch p) ∧ ¬ older p ∧ (∀ c, cachedEpoch p = Some c → c ≤ e)
      ∧ cachedDekVerifier p ≠ None ∧ (descriptorVerifier p = None ∨ descriptorVerifier p = Some [])
  end.
Proof.
  destruct (cachedDekVerifier p) as [cached|] eqn:E; [|unfold decideVaultAccess; rewrite E; by left].
  destruct (decide_by_verifier p cached E) as [[Ho ->]|[Hn ->]]; [done|].
  destruct (descriptorVerifier p) as [[|x v]|]; cbn [opt_truthy]; [| |].
  - split_and!; [done|done|intros c; by apply not_older|done|auto].
  - case_decide as Hd; [subst|right; split; [done|]; exists (x :: v); naive_solver].
    split_and!; [done|done|intros c; by apply not_older|]. by exists (x :: v).
  - split_and!; [done|done|intros c; by apply not_older|done|auto].
Qed.

(** ** The cached record *)


Lemma parse_format n :
  parseSyncRevisionEtag (Some (formatSyncRevisionEtag n)) = if Z.of_N n <=? MAX_SAFE_INTEGER then Some n else None.
Proof.
  destruct (show_N_spec n) as (Hd & Hne & Hv). unfold parseSyncRevisionEtag, formatSyncRevisionEtag. cbn [opt_truthy].
  assert (Ht : js_trim (QUOTE :: show_N n ++ [QUOTE]) = QUOTE :: show_N n ++ [QUOTE]).
  { apply js_trim_no_ws. constructor; [done|]. apply Forall_app. split; [|by repeat constructor].
    eapply Forall_impl; [exact Hd|]. intros c Hc. unfold digit in Hc. apply andb_true_iff in Hc as [?%N.leb_le ?%N.leb_le].
    unfold is_ws. repeat (apply orb_false_iff; split); try (apply andb_false_iff); rewrite ?N.eqb_neq, ?N.leb_gt; lia. }
  rewrite Ht. rewrite span_digits_app by done. rewrite decide_True by done. rewrite Hv. done.
Qed.
Lemma formatSyncRevisionEtag_inj n m : formatSyncRevisionEtag n = formatSyncRevisionEtag m → n = m.
Proof. unfold formatSyncRevisionEtag. intros [= E%app_inv_tail]. by apply show_N_inj. Qed.

(** The tag the client sends is read back as its revision - for every revision
    that is a safe integer, and none beyond -, white space around it aside, and
    no two revisions have the same tag. *)
Theorem sync_revision_etag_roundtrip n m :
  parseSyncRevisionEtag (Some (formatSyncRevisionEtag n))
    = (if Z.of_N n <=? MAX_SAFE_INTEGER then Some n else None)
  ∧ (formatSyncRevisionEtag n = formatSyncRevisionEtag m → n = m)
  ∧ (∀ etag, parseSyncRevisionEtag (Some etag) = Some m →
       ∃ ds, js_trim etag = QUOTE :: ds ++ [QUOTE] ∧ Forall (λ c, digit c = true) ds ∧ digits_value ds = m
         ∧ Z.of_N m ≤ MAX_SAFE_INTEGER).
Proof.
  split_and!; [apply parse_format|apply formatSyncRevisionEtag_inj|].
  - intros etag. unfold parseSyncRevisionEtag. destruct (opt_truthy (Some etag)) as [e|] eqn:E; [|done].
    apply opt_truthy_Some in E as [[= <-] _]. destruct (js_trim etag) as [|q rest]; [done|].
    pose proof (span_digits_split rest) as Hr. pose proof (span_digits_digits rest) as Hds.
    destruct (span_digits rest) as [ds close]. cbn [fst snd] in *.
    case_decide as Hc; [|done]. destruct Hc as (-> & Hnz & ->). destruct (Z.leb_spec (Z.of_N (digits_value ds)) MAX_SAFE_INTEGER); [|done].
    intros [= <-]. exists ds. subst rest. done.
Qed.
End vault.

(** ** Concrete inputs *)

(** A cipher that appends the key's first 16 bytes as its tag, and hashes to the key. *)
#[local] Instance toy_crypto : VaultCrypto := {
  gcm_encrypt k _ m := m ++ take 16 k;
  gcm_decrypt k _ c :=
    if decide (drop (length c - 16) c = take 16 k) then Ok (take (length c - 16) c) else Throw "bad tag";
  hmac_sha256 k _ := k;
  argon2id p salt _ n := Ok (take n (p ++ salt));
  utf8ToBytes s := map Z.of_N s;
  normalizeNFC s := s;
}.
#[local] Instance toy_laws : AeadLaws (H := toy_crypto).
Proof.
  split; cbn [gcm_encrypt gcm_decrypt toy_crypto].
  - intros k iv m Hk _ _ _. rewrite length_app, length_take.
    replace (length m + 16 `min` length k - 16)%nat with (length m) by lia.
    by rewrite drop_app_length, take_app_length, decide_True.
  - intros k iv m Hk _ Hm. apply Forall_app. split; [done|]. by apply Forall_take.
  - intros k iv m Hk. rewrite length_app, length_take. lia.
Qed.

Definition demo_salt : list Z := replicate 16 7.
Definition demo_key : list Z := replicate 32 255.
Definition demo_dek : list Z := map Z.of_nat (seq 0 32).
Lemma demo_dek_ok : bytes_ok demo_dek.
Proof. vm_compute demo_dek. repeat constructor; done. Qed.
Lemma demo_salt_ok : bytes_ok demo_salt.
Proof. by apply Forall_replicate. Qed.

Lemma vault_wrap_roundtrip_witness :
  ∃ w, wrapVaultDek (replicate 12 1) demo_dek demo_key = Ok w ∧ unwrapVaultDek w demo_key = Ok demo_dek.
Proof.
  destruct (vault_wrap_roundtrip (replicate 12 1) demo_dek demo_key []
    (createVaultKdfDescriptor demo_salt VAULT_KDF_DEFAULT_COST)) as [(w & wrapped & Hw & _ & _ & Hu & _) _].
  - by apply Forall_replicate.
  - apply demo_dek_ok.
  - by apply Forall_replicate.
  - done.
  - done.
  - done.
  - by exists w.
Defined.


Lemma sync_revision_etag_roundtrip_witness :
  parseSyncRevisionEtag (Some (js " " ++ formatSyncRevisionEtag 42)) = Some 42%N ∧ 42%N = 42%N.
Proof. split; [reflexivity|]. by apply (sync_revision_etag_roundtrip 42 42). Defined.

Example unsafe_revision : parseSyncRevisionEtag (Some (formatSyncRevisionEtag 9007199254740992)) = None.
Proof. reflexivity. Qed.
