(* ===== verification/AsyncProc.v ===== *)
(** * Asynchronous functions

    An [async] function as a tree: it reads and writes the state of its object between
    two [await]s without interruption, hands a request out at every [await], and goes
    on with the answer.  [doWhile] is the statement of that name, its handler the
    surrounding [catch]; [turn] runs a function to its next [await] the way the event
    loop does; and [wp] is a program logic whose assertions must survive what
    others do during an [await] ([Rely]), whose writes must keep a promise ([Guar])
    and whose requests are made in good order ([Sent]). *)

From S2P Require Import Prelude.

Section proc.
Context {St Req Err : Type} {resp : Req → Type}.

Inductive proc (A : Type) : Type :=
| ret (a : A)
| raise (e : Err)
| get (k : St → proc A)
| put (s : St) (k : proc A)
| await (r : Req) (k : resp r → proc A)
| doWhile (body : proc bool) (h : Err → proc A) (k : proc A).
#[global] Arguments ret {A} a.
#[global] Arguments raise {A} e.
#[global] Arguments get {A} k.
#[global] Arguments put {A} s k.
#[global] Arguments await {A} r k.
#[global] Arguments doWhile {A} body h k.

(** Go on with [f] after a result, with [h] after an exception. *)
Fixpoint try_bind {A B : Type} (p : proc A) (f : A → proc B) (h : Err → proc B) : proc B :=
  match p with
  | ret a => f a
  | raise e => h e
  | get k => get (λ s, try_bind (k s) f h)
  | put s k => put s (try_bind k f h)
  | await r k => await r (λ x, try_bind (k x) f h)
  | doWhile body h' k => doWhile body (λ e, try_bind (h' e) f h) (try_bind k f h)
  end.
#[global] Instance proc_bind : MBind proc := λ A B f p, try_bind p f raise.
Definition catch {A : Type} (p : proc A) (h : Err → proc A) : proc A := try_bind p ret h.
Definition modify (f : St → St) : proc unit := get (λ s, put (f s) (ret tt)).
Definition request (r : Req) : proc (resp r) := await r ret.

(** Where a function stops: it returned, threw, waits for an answer, or is between two
    rounds of a loop (and goes on at once). *)
Inductive outcome (A : Type) : Type :=
| done_ (a : A)
| failed (e : Err)
| blocked (r : Req) (k : resp r → proc A)
| again (p : proc A).
#[global] Arguments done_ {A} a.
#[global] Arguments failed {A} e.
#[global] Arguments blocked {A} r k.
#[global] Arguments again {A} p.

Fixpoint run {A : Type} (p : proc A) (s : St) : St * outcome A :=
  match p with
  | ret a => (s, done_ a)
  | raise e => (s, failed e)
  | get k => run (k s) s
  | put s' k => run k s'
  | await r k => (s, blocked r k)
  | doWhile body h k =>
      let next (q : proc bool) := try_bind q (λ b, if b : bool then doWhile body h k else k) h in
      let '(s', o) := run body s in
      match o with
      | done_ b => if b : bool then (s', again (doWhile body h k)) else run k s'
      | failed e => run (h e) s'
      | blocked r kb => (s', blocked r (λ x, next (kb x)))
      | again q => (s', again (next q))
      end
  end.

(** One turn of the event loop. *)
Inductive turn {A : Type} : proc A → St → St → outcome A → Prop :=
| turn_stop p s s' o : run p s = (s', o) → (∀ q, o ≠ again q) → turn p s s' o
| turn_again p s s1 q s' o : run p s = (s1, again q) → turn q s1 s' o → turn p s s' o.

(** A function is productive when every round of its loops waits for something or
    throws before it can ask for another: such a function cannot spin. *)
Fixpoint productive {A : Type} (p : proc A) : Prop :=
  match p with
  | ret _ | raise _ => True
  | get k => ∀ s, productive (k s)
  | put _ k => productive k
  | await _ k => ∀ a, productive (k a)
  | doWhile body h k =>
      (∀ s, match (run body s).2 with done_ b => b = false | again _ => False | _ => True end)
      ∧ productive body ∧ (∀ e, productive (h e)) ∧ productive k
  end.

Lemma productive_try_bind {A B : Type} (p : proc A) (f : A → proc B) (h : Err → proc B) :
  productive p → (∀ a, productive (f a)) → (∀ e, productive (h e)) → productive (try_bind p f h).
Proof.
  intros Hp Hf Hh. induction p as [A a|A e|A k IH|A s' k IH|A r k IH|A body IHb h' IHh k IHk]; cbn [try_bind productive] in *.
  - apply Hf.
  - apply Hh.
  - intros s. by apply IH.
  - by apply IH.
  - intros a. by apply IH.
  - destruct Hp as (Hr & Hb & Hh' & Hk). split_and!; [done|done|intros e; by apply IHh|by apply IHk].
Qed.
Lemma productive_bind {A B : Type} (p : proc A) (f : A → proc B) :
  productive p → (∀ a, productive (f a)) → productive (p ≫= f).
Proof. intros Hp Hf. by apply (productive_try_bind p f raise). Qed.

Lemma run_productive {A : Type} (p : proc A) s :
  productive p → match (run p s).2 with again _ => False | blocked _ k => ∀ a, productive (k a) | _ => True end.
Proof.
  revert s. induction p as [A a|A e|A k IH|A s' k IH|A r k IH|A body IHb h IHh k IHk]; cbn [productive run]; intros s Hp;
    [done|done|by apply IH|by apply IH|done|].
  destruct Hp as (Hr & Hb & Hh & Hk). pose proof (Hr s) as Hrs. pose proof (IHb s Hb) as Hs.
  destruct (run body s) as [s1 [b|e|r kb|q]]; cbn [fst snd] in *.
  - rewrite Hrs. by apply IHk.
  - by apply IHh.
  - intros a. apply productive_try_bind; [done| |done]. intros [|]; by cbn.
  - done.
Qed.
(** One turn of a productive function ends. *)
Lemma productive_turn {A : Type} (p : proc A) s :
  productive p → ∃ s' o, turn p s s' o ∧ match o with blocked _ k => ∀ a, productive (k a) | _ => True end.
Proof.
  intros Hp. pose proof (run_productive p s Hp) as Hr. destruct (run p s) as [s' o] eqn:E. cbn in Hr. exists s', o. split.
  - apply turn_stop; [done|]. intros q ->. done.
  - by destruct o.
Qed.
(** A productive function's turn is one run. *)
Lemma turn_productive {A : Type} (p : proc A) s s' o : productive p → turn p s s' o →
  run p s = (s', o) ∧ match o with blocked _ k => ∀ a, productive (k a) | _ => True end.
Proof.
  intros Hp Ht. pose proof (run_productive p s Hp) as Hr. destruct Ht as [p s s' o E Hn|p s s1 q s' o E Ht]; rewrite E in Hr; [|done].
  split; [done|]. by destruct o.
Qed.

(** A function that stops at an [await] or throws, rather than return. *)
Definition waits_at {A : Type} (p : proc A) (s : St) : Prop :=
  match (run p s).2 with blocked _ _ | failed _ => True | _ => False end.
Lemma waits_at_bind_l {A B : Type} (p : proc A) (f : A → proc B) s : waits_at p s → waits_at (p ≫= f) s.
Proof.
  unfold waits_at, mbind, proc_bind. revert s.
  induction p as [A a|A e|A k IH|A s' k IH|A r k IH|A body IHb h IHh k IHk]; cbn [try_bind run]; intros s Hw; try done.
  - by apply IH.
  - by apply IH.
  - destruct (run body s) as [s1 [[|]|e|r kb|q]]; cbn [snd] in *; [done|by apply IHk|by apply IHh|done|done].
Qed.
Lemma waits_at_bind_r {A B : Type} (p : proc A) (f : A → proc B) s :
  productive p → (∀ a s, waits_at (f a) s) → waits_at (p ≫= f) s.
Proof.
  unfold waits_at, mbind, proc_bind. intros Hp Hf. revert s.
  induction p as [A a|A e|A k IH|A s' k IH|A r k IH|A body IHb h IHh k IHk]; cbn [try_bind run productive] in *; intros s; try done.
  - by apply Hf.
  - by apply IH.
  - by apply IH.
  - destruct Hp as (Hr & _ & Hh & Hk). specialize (Hr s).
    destruct (run body s) as [s1 [b|e|r kb|q]]; cbn [snd] in *; [subst b; by apply IHk|by apply IHh|done|done].
Qed.
Lemma waits_at_loop {A : Type} (body : proc bool) (h : Err → proc A) (k : proc A) :
  (∀ s, waits_at body s) → productive body → (∀ e, productive (h e)) → productive k → productive (doWhile body h k).
Proof. intros Hw Hb Hh Hk. cbn. split_and!; [|done..]. intros s. specialize (Hw s). unfold waits_at in Hw. by case_match. Qed.

(** ** The program logic *)

Section logic.
Context {X : Type}.                                   (* the world outside *)
Variable Guar : St → St → X → Prop.
Variable Rely : ∀ r : Req, St → X → resp r → St → X → Prop.
Variable Sent : Req → St → X → Prop.

Fixpoint wp {A : Type} (p : proc A) (Q : A → St → X → Prop) (E : Err → St → X → Prop) (s : St) (x : X) : Prop :=
  match p with
  | ret a => Q a s x
  | raise e => E e s x
  | get k => wp (k s) Q E s x
  | put s' k => Guar s s' x ∧ wp k Q E s' x
  | await r k => Sent r s x ∧ ∀ a s' x', Rely r s x a s' x' → wp (k a) Q E s' x'
  | doWhile body h k =>
      ∃ I : St → X → Prop, I s x ∧ ∀ s x, I s x →
        wp body (λ b s x, if b : bool then I s x else wp k Q E s x) (λ e s x, wp (h e) Q E s x) s x
  end.

Lemma wp_mono {A : Type} (p : proc A) (Q Q' : A → St → X → Prop) (E E' : Err → St → X → Prop) s x :
  wp p Q E s x → (∀ a s x, Q a s x → Q' a s x) → (∀ e s x, E e s x → E' e s x) → wp p Q' E' s x.
Proof.
  intros Hw HQ HE. revert E E' s x HE Hw.
  induction p as [A a|A e|A k IH|A s' k IH|A r k IH|A body IHb h IHh k IHk]; cbn [wp]; intros E E' s x HE Hw.
  - by apply HQ.
  - by apply HE.
  - by eapply IH.
  - destruct Hw. split; [done|]. by eapply IH.
  - destruct Hw as [Hs Hw]. split; [done|]. intros a s' x' Hr. eapply IH; [done..|]. by apply Hw.
  - destruct Hw as (I & Hi & Hstep). exists I. split; [done|]. intros s1 x1 H1.
    eapply IHb; [| |by apply Hstep].
    + intros b s2 x2 Hb. destruct b; [done|]. by eapply IHk.
    + intros e s2 x2 He. by eapply IHh.
Qed.

(** What is known of the world outside and survives every wait stays known. *)
Lemma wp_frame {A : Type} (p : proc A) (F : X → Prop) Q E s x :
  (∀ r s x a s' x', Rely r s x a s' x' → F x → F x') → F x → wp p Q E s x →
  wp p (λ a s x, Q a s x ∧ F x) (λ e s x, E e s x ∧ F x) s x.
Proof.
  intros HF. revert Q E s x. induction p as [A a|A e|A k IH|A s' k IH|A r k IH|A body IHb h IHh k IHk]; cbn [wp];
    intros Q E s x Hx Hw.
  - done.
  - done.
  - by apply IH.
  - destruct Hw. split; [done|]. by apply IH.
  - destruct Hw as [Hs Hw]. split; [done|]. intros a s' x' Hr. apply IH; [by eapply HF|]. by apply Hw.
  - destruct Hw as (I & Hi & Hstep). exists (λ s x, I s x ∧ F x). split; [done|]. intros s1 x1 [H1 Hx1].
    eapply wp_mono; [by eapply IHb, Hstep| |].
    + intros b s2 x2 [Hb Hx2]. destruct b; [done|]. by apply IHk.
    + intros e s2 x2 [He Hx2]. by apply IHh.
Qed.

Lemma wp_try_bind {A B : Type} (p : proc A) (f : A → proc B) (h : Err → proc B) Q E s x :
  wp p (λ a, wp (f a) Q E) (λ e, wp (h e) Q E) s x → wp (try_bind p f h) Q E s x.
Proof.
  revert s x. induction p as [A a|A e|A k IH|A s' k IH|A r k IH|A body IHb h' IHh k IHk]; cbn [wp try_bind]; intros s x Hw.
  - done.
  - done.
  - by apply IH.
  - destruct Hw. split; [done|]. by apply IH.
  - destruct Hw as [Hs Hw]. split; [done|]. intros a s' x' Hr. apply IH. by apply Hw.
  - destruct Hw as (I & Hi & Hstep). exists I. split; [done|]. intros s1 x1 H1.
    eapply wp_mono; [by apply Hstep| |].
    + intros b s2 x2 Hb. destruct b; [done|]. by apply IHk.
    + intros e s2 x2 He. by apply IHh.
Qed.
Lemma wp_bind {A B : Type} (p : proc A) (f : A → proc B) Q E s x :
  wp p (λ a, wp (f a) Q E) E s x → wp (p ≫= f) Q E s x.
Proof. intros H. unfold mbind, proc_bind. apply (wp_try_bind p f raise). exact H. Qed.
Lemma wp_catch {A : Type} (p : proc A) (h : Err → proc A) Q E s x :
  wp p Q (λ e, wp (h e) Q E) s x → wp (catch p h) Q E s x.
Proof. intros H. apply (wp_try_bind p ret h). exact H. Qed.
Lemma wp_modify (f : St → St) Q E s x : Guar s (f s) x → Q tt (f s) x → wp (modify f) Q E s x.
Proof. done. Qed.
Lemma wp_request r Q E s x :
  Sent r s x → (∀ a s' x', Rely r s x a s' x' → Q a s' x') → wp (request r) Q E s x.
Proof. done. Qed.

(** What [wp] says of where a turn stops. *)
Definition stopped {A : Type} (Q : A → St → X → Prop) (E : Err → St → X → Prop) (o : outcome A) (s : St) (x : X) : Prop :=
  match o with
  | done_ a => Q a s x
  | failed e => E e s x
  | blocked r k => Sent r s x ∧ ∀ a s' x', Rely r s x a s' x' → wp (k a) Q E s' x'
  | again p => wp p Q E s x
  end.

Context (Guar_refl : ∀ s x, Guar s s x).
Context (Guar_trans : ∀ s1 s2 s3 x, Guar s1 s2 x → Guar s2 s3 x → Guar s1 s3 x).

Lemma run_sound {A : Type} (p : proc A) Q E s x :
  wp p Q E s x → Guar s (run p s).1 x ∧ stopped Q E (run p s).2 (run p s).1 x.
Proof.
  revert Q E s. induction p as [A a|A e|A k IH|A s' k IH|A r k IH|A body IHb h IHh k IHk]; cbn [wp run]; intros Q E s Hw.
  - split; [apply Guar_refl|done].
  - split; [apply Guar_refl|done].
  - by apply IH.
  - destruct Hw as [Hg Hw]. destruct (IH _ _ _ Hw). split; [by eapply Guar_trans|done].
  - split; [apply Guar_refl|done].
  - destruct Hw as (I & Hi & Hstep). destruct (IHb _ _ _ (Hstep _ _ Hi)) as [Hg Ho].
    destruct (run body s) as [s1 [b|e|r kb|q]]; cbn [fst snd stopped] in *.
    + destruct b; cbn [fst snd stopped].
      * split; [done|]. cbn [wp]. exists I. done.
      * destruct (IHk _ _ _ Ho). split; [by eapply Guar_trans|done].
    + destruct (IHh _ _ _ _ Ho). split; [by eapply Guar_trans|done].
    + split; [done|]. destruct Ho as [Hs Ho]. split; [done|]. intros a s2 x2 Hr. apply wp_try_bind. eapply wp_mono; [by apply Ho| |done].
      intros b s3 x3 Hb. destruct b; [|done]. cbn [wp]. exists I. done.
    + split; [done|]. apply wp_try_bind. eapply wp_mono; [exact Ho| |done].
      intros b s3 x3 Hb. destruct b; [|done]. cbn [wp]. exists I. done.
Qed.

Lemma turn_sound {A : Type} (p : proc A) Q E s s' o x :
  turn p s s' o → wp p Q E s x → Guar s s' x ∧ stopped Q E o s' x ∧ ∀ q, o ≠ again q.
Proof.
  induction 1 as [p s s' o Hr Hn|p s s1 q s' o Hr Ht IH]; intros Hw.
  - pose proof (run_sound p Q E s x Hw) as [Hg Ho]. rewrite Hr in Hg, Ho. done.
  - pose proof (run_sound p Q E s x Hw) as [Hg Ho]. rewrite Hr in Hg, Ho. destruct (IH Ho) as (Hg' & Ho' & Hn).
    split_and!; [by eapply Guar_trans|done|done].
Qed.
End logic.
End proc.

Arguments proc St Req Err resp A : clear implicits.
Arguments outcome St Req Err resp A : clear implicits.
