(* ===== verification/SyncRecords.v ===== *)
(** * What is synchronised (packages/shared-core/src/api.ts, the types of
      apps/desktop/src/main/sync-service.ts and its store)

    The kinds of records, the encrypted record and payload as the server stores
    them, the deletions waiting to be sent, and the interface through which the
    synchronisation service reads and replaces the local records. *)

From S2P Require Import Prelude Collections.

Inductive SyncKind :=
| k_groups | k_hosts | k_secrets | k_knownHosts | k_portForwards | k_dnsOverrides
| k_snippets | k_workspaces | k_preferences | k_awsProfiles | k_tailnets.
#[export] Instance SyncKind_eq_dec : EqDecision SyncKind.
Proof. solve_decision. Defined.

Definition all_kinds : list SyncKind :=
  [k_groups; k_hosts; k_secrets; k_knownHosts; k_portForwards; k_dnsOverrides;
   k_snippets; k_workspaces; k_preferences; k_awsProfiles; k_tailnets].
Lemma all_kinds_spec k : k ∈ all_kinds.
Proof. destruct k; repeat (apply elem_of_cons; first [by left|right]); by apply elem_of_nil. Qed.

(** The literal a kind is. *)
Definition kind_name (k : SyncKind) : jsstring :=
  js match k with
     | k_groups => "groups" | k_hosts => "hosts" | k_secrets => "secrets" | k_knownHosts => "knownHosts"
     | k_portForwards => "portForwards" | k_dnsOverrides => "dnsOverrides" | k_snippets => "snippets"
     | k_workspaces => "workspaces" | k_preferences => "preferences" | k_awsProfiles => "awsProfiles"
     | k_tailnets => "tailnets"
     end.

Record SyncRecord := {
  sr_id : jsstring; encrypted_payload : jsstring; updated_at : jsstring; deleted_at : option jsstring }.

(** An object with one array per kind. *)
Definition SyncPayloadV2 : Type := SyncKind → list SyncRecord.
(** What a response carries: a field that is absent or not an array is [None]. *)
Definition PartialPayload : Type := SyncKind → option (list SyncRecord).

Definition totalRecordCount (payload : SyncPayloadV2) : nat :=
  sum_list ((λ k, length (payload k)) <$> all_kinds).

Definition normalizeSyncPayload (includeAwsProfiles : bool) (payload : PartialPayload) : SyncPayloadV2 :=
  λ k, if bool_decide (k = k_awsProfiles) && negb includeAwsProfiles then [] else default [] (payload k).

Record SyncDeletionRecord := { del_kind : SyncKind; del_recordId : jsstring; del_deletedAt : jsstring }.
#[export] Instance SyncDeletionRecord_eq_dec : EqDecision SyncDeletionRecord.
Proof. solve_decision. Defined.

(** The record a deletion is sent as. *)
Definition tombstone_record (d : SyncDeletionRecord) : SyncRecord :=
  {| sr_id := del_recordId d; encrypted_payload := []; updated_at := del_deletedAt d;
     deleted_at := Some (del_deletedAt d) |}.
(** [<kind>.push(record)] for every deletion, in order. *)
Definition with_tombstones (deletions : list SyncDeletionRecord) (payload : SyncPayloadV2) : SyncPayloadV2 :=
  λ k, payload k ++ (tombstone_record <$> List.filter (λ d, bool_decide (del_kind d = k)) deletions).

(** ** The queue of deletions (SyncOutboxRepository of apps/desktop/src/main/database.ts) *)

Section outbox.
Context `{Collator}.

Definition compareDeletedAtDesc (left right : SyncDeletionRecord) : Z :=
  localeCompare (del_deletedAt right) (del_deletedAt left).
Definition outbox_list (outbox : list SyncDeletionRecord) : list SyncDeletionRecord :=
  js_sort compareDeletedAtDesc outbox.

Definition upsertDeletion (kind : SyncKind) (recordId deletedAt : jsstring) (outbox : list SyncDeletionRecord)
    : list SyncDeletionRecord :=
  let nextRecord := {| del_kind := kind; del_recordId := recordId; del_deletedAt := deletedAt |} in
  match findIndex (λ e, bool_decide (del_kind e = kind) && bool_decide (del_recordId e = recordId)) outbox with
  | Some currentIndex => <[currentIndex := nextRecord]> outbox
  | None => outbox ++ [nextRecord]
  end.
Definition outbox_clear (kind : SyncKind) (recordId : jsstring) (outbox : list SyncDeletionRecord)
    : list SyncDeletionRecord :=
  List.filter (λ e, negb (bool_decide (del_kind e = kind) && bool_decide (del_recordId e = recordId))) outbox.

(** `${kind}:${recordId}:${deletedAt}` *)
Definition exact_key (d : SyncDeletionRecord) : jsstring :=
  kind_name (del_kind d) ++ js ":" ++ del_recordId d ++ js ":" ++ del_deletedAt d.
(** Every [SyncDeletionRecord] has a [deletedAt]: the keys without one are never used. *)
Definition clearMany (records outbox : list SyncDeletionRecord) : list SyncDeletionRecord :=
  let exactKeys := sof (exact_key <$> records) in
  List.filter (λ e, negb (shas (exact_key e) exactKeys)) outbox.
End outbox.

(** ** The store behind the service

    [Data] is the part of the desktop state the service reads and replaces.  [seed]
    numbers the random bytes an encryption draws. *)
Class SyncStore (Data : Type) := {
  Secret : Type;
  Decoded : Type;
  materialize : Data → Data;
  encode_records (seed : nat) (vaultKeyBase64 : jsstring) (shouldSyncAwsProfiles : bool) (d : Data) : SyncPayloadV2;
  secret_refs : Data → list jsstring;
  encode_secret (seed : nat) (vaultKeyBase64 secretRef : jsstring) (secret : Secret) : SyncRecord;
  data_floor : Data → N;
  decode_snapshot (vaultKeyBase64 now : jsstring) (shouldSyncAwsProfiles : bool) (payload : SyncPayloadV2) : result Decoded;
  had_conflicts : Decoded → bool;
  commit_snapshot (now : jsstring) (decoded : Decoded) (d : Data) : Data * bool;
}.
