(* ===== verification/KnownHosts.v ===== *)
(** * Trusted host keys and the way to a host (KnownHostRepository of
      apps/desktop/src/main/database.ts, ipc/coordinators/host-coordinator.ts,
      ipc/known-hosts-logs-keychain.ts)

    The stored host keys with the scope they are trusted in, what a connection
    accepts, what asking about a key answers; the chain of jump hosts, and the
    tailnet a connection takes.  Hosts, known hosts and tailnets are read from lists in
    stored order; the secrets of a hop are a parameter. *)

From S2P Require Import Prelude Collections Models SyncRecords.

Record KnownHostRecord := {
  kh_id : jsstring;
  kh_tailnetId : option jsstring;
  kh_host : jsstring;
  kh_port : Z;
  kh_algorithm : jsstring;
  kh_publicKeyBase64 : jsstring;
  kh_fingerprintSha256 : jsstring;
  kh_createdAt : jsstring;
  kh_lastSeenAt : jsstring;
  kh_updatedAt : jsstring;
}.
Record KnownHostTrustInput := {
  ti_hostId : jsstring;
  ti_hostLabel : jsstring;
  ti_tailnetId : option jsstring;
  ti_host : jsstring;
  ti_port : Z;
  ti_algorithm : jsstring;
  ti_publicKeyBase64 : jsstring;
  ti_fingerprintSha256 : jsstring;
}.
Implicit Types (known : list KnownHostRecord) (r : KnownHostRecord).

Definition normalizeTailnetScope (tailnetId : option jsstring) : jsstring := js_trim (default [] tailnetId).

(** ** The repository *)

Section repository.
Context {CO : Collator}.

Definition compareKnownHosts (left right : KnownHostRecord) : Z :=
  let hostCompare := localeCompare (kh_host left) (kh_host right) in
  if negb (hostCompare =? 0)%Z then hostCompare else
  let portCompare := (kh_port left - kh_port right)%Z in
  if negb (portCompare =? 0)%Z then portCompare else
  localeCompare (kh_algorithm left) (kh_algorithm right).
Definition kh_list known : list KnownHostRecord := js_sort compareKnownHosts known.

Definition getByHostPort (host : jsstring) (port : Z) known : option KnownHostRecord :=
  List.find (λ r, bool_decide (kh_host r = host) && (kh_port r =? port)%Z) known.

Definition in_scope (scope host : jsstring) (port : Z) r : bool :=
  bool_decide (normalizeTailnetScope (kh_tailnetId r) = scope) && bool_decide (kh_host r = host) && (kh_port r =? port)%Z.
Definition getByHostPortAlgorithm (host : jsstring) (port : Z) (algorithm : jsstring) (tailnetId : option jsstring) known
    : option KnownHostRecord :=
  let scope := normalizeTailnetScope tailnetId in
  List.find (λ r, in_scope scope host port r && bool_decide (kh_algorithm r = algorithm)) known.
Definition listByHostPort (host : jsstring) (port : Z) (tailnetId : option jsstring) known : list KnownHostRecord :=
  let scope := normalizeTailnetScope tailnetId in
  js_sort (λ left right, localeCompare (kh_algorithm left) (kh_algorithm right)) (List.filter (in_scope scope host port) known).

(** [timestamp] is [nowIso()], [newId] the id drawn when there is no record. *)
Definition trust (timestamp newId : jsstring) (input : KnownHostTrustInput) known : list KnownHostRecord :=
  let current := getByHostPortAlgorithm (ti_host input) (ti_port input) (ti_algorithm input) (ti_tailnetId input) known in
  let scope := normalizeTailnetScope (ti_tailnetId input) in
  let record := {| kh_id := default newId (kh_id <$> current); kh_tailnetId := opt_truthy (Some scope);
                   kh_host := ti_host input; kh_port := ti_port input; kh_algorithm := ti_algorithm input;
                   kh_publicKeyBase64 := ti_publicKeyBase64 input; kh_fingerprintSha256 := ti_fingerprintSha256 input;
                   kh_createdAt := default timestamp (kh_createdAt <$> current); kh_lastSeenAt := timestamp;
                   kh_updatedAt := timestamp |} in
  match current with
  | Some current => (λ entry, if decide (kh_id entry = kh_id current) then record else entry) <$> known
  | None => known ++ [record]
  end.

Definition seen (timestamp : jsstring) r : KnownHostRecord :=
  {| kh_id := kh_id r; kh_tailnetId := kh_tailnetId r; kh_host := kh_host r; kh_port := kh_port r;
     kh_algorithm := kh_algorithm r; kh_publicKeyBase64 := kh_publicKeyBase64 r;
     kh_fingerprintSha256 := kh_fingerprintSha256 r; kh_createdAt := kh_createdAt r;
     kh_lastSeenAt := timestamp; kh_updatedAt := timestamp |}.
Definition touch (timestamp host : jsstring) (port : Z) (algorithm tailnetId : option jsstring) known : list KnownHostRecord :=
  let scope := normalizeTailnetScope tailnetId in
  (λ entry,
     if negb (in_scope scope host port entry)
        || match opt_truthy algorithm with Some a => bool_decide (kh_algorithm entry ≠ a) | None => false end
     then entry else seen timestamp entry) <$> known.
Definition kh_remove (id : jsstring) known : list KnownHostRecord := List.filter (λ entry, bool_decide (kh_id entry ≠ id)) known.
Definition kh_replaceAll (records : list KnownHostRecord) : list KnownHostRecord := records.

(** ** What a connection accepts *)

Definition resolveTrustedHostKeys (timestamp hostname : jsstring) (port : Z) (tailnetId : option jsstring) known
    : list jsstring * list KnownHostRecord :=
  match listByHostPort hostname port tailnetId known with
  | [] => ([], known)
  | trusted => (kh_publicKeyBase64 <$> trusted, touch timestamp hostname port None tailnetId known)
  end.
Definition requireTrustedHostKeys (timestamp hostname : jsstring) (port : Z) (tailnetId : option jsstring) known
    : result (list jsstring) * list KnownHostRecord :=
  match resolveTrustedHostKeys timestamp hostname port tailnetId known with
  | ([], known) => (Throw "Host key is not trusted yet.", known)
  | (trusted, known) => (Ok trusted, known)
  end.

(** The end of [buildHostKeyProbeResult]: what is said of the key a host showed. *)
Inductive HostKeyStatus := key_trusted | key_untrusted | key_mismatch.
Definition key_status (existing : option KnownHostRecord) (publicKeyBase64 : jsstring) : HostKeyStatus :=
  match existing with
  | None => key_untrusted
  | Some existing => if decide (kh_publicKeyBase64 existing = publicKeyBase64) then key_trusted else key_mismatch
  end.
Definition probed (timestamp host : jsstring) (port : Z) (algorithm publicKeyBase64 : jsstring) (tailnetId : option jsstring) known
    : HostKeyStatus * option KnownHostRecord * list KnownHostRecord :=
  let existing := getByHostPortAlgorithm host port algorithm tailnetId known in
  let status := key_status existing publicKeyBase64 in
  (status, existing, match status with
                     | key_trusted => touch timestamp host port (Some algorithm) tailnetId known
                     | _ => known
                     end).

(** ** The calls of the renderer *)

Definition host_by_id (id : jsstring) (hosts : list HostRecord) : option HostRecord :=
  List.find (λ h, bool_decide (h_id (h_base h) = id)) hosts.

(** The scope of a trust is that of the stored host, whatever the renderer says. *)
Definition resolveTrustScope (hosts : list HostRecord) (input : KnownHostTrustInput) : KnownHostTrustInput :=
  {| ti_hostId := ti_hostId input; ti_hostLabel := ti_hostLabel input;
     ti_tailnetId := match host_by_id (ti_hostId input) hosts with
                     | Some h => match h_details h with HSsh r => ssh_tailnetId r | _ => None end
                     | None => None
                     end;
     ti_host := ti_host input; ti_port := ti_port input; ti_algorithm := ti_algorithm input;
     ti_publicKeyBase64 := ti_publicKeyBase64 input; ti_fingerprintSha256 := ti_fingerprintSha256 input |}.
Definition handle_trust (timestamp newId : jsstring) (hosts : list HostRecord) (rawInput : KnownHostTrustInput) known
    : list KnownHostRecord :=
  trust timestamp newId (resolveTrustScope hosts rawInput) known.
Definition handle_remove (timestamp id : jsstring) (outbox : list SyncDeletionRecord) known
    : list SyncDeletionRecord * list KnownHostRecord :=
  (upsertDeletion k_knownHosts id timestamp outbox, kh_remove id known).

(** ** The way to a host *)

(** The tailnet of the first hop of a jump chain. *)
Definition resolveEntryHopTailnetId (hosts : list HostRecord) (host : SshHostRecord) : option jsstring :=
  let chain := match ssh_jumpHostIds host with
               | Some (x :: l) => x :: l
               | _ => match opt_truthy (ssh_jumpHostId host) with Some id => [id] | None => [] end
               end in
  match List.find truthy chain with
  | None => None
  | Some entryJumpId =>
      match host_by_id entryJumpId hosts with
      | Some entryJump =>
          match h_details entryJump with HSsh r => opt_truthy (js_trim <$> ssh_tailnetId r) | _ => None end
      | None => None
      end
  end.
(** The id and the name of the tailnet a connection takes; [tailnets] are the stored ones. *)
Definition resolveTailnetRoute (hosts : list HostRecord) (tailnets : list (jsstring * jsstring)) (host : SshHostRecord)
    : result (option (jsstring * jsstring)) :=
  let tailnetId := match resolveEntryHopTailnetId hosts host with
                   | Some id => Some id
                   | None => opt_truthy (js_trim <$> ssh_tailnetId host)
                   end in
  match tailnetId with
  | None => Ok None
  | Some id => match List.find (λ t, bool_decide (t.1 = id)) tailnets with
               | Some record => Ok (Some (id, record.2))
               | None => Throw "hostIpc.tailnetMissing"
               end
  end.

(** The secrets resolved for a hop. *)
Record HostSecrets := {
  sec_password : option jsstring; sec_privateKeyPem : option jsstring;
  sec_certificateText : option jsstring; sec_passphrase : option jsstring }.
Record Hop := {
  hop_host : jsstring; hop_port : Z; hop_username : jsstring; hop_authType : AuthType; hop_secrets : HostSecrets;
  hop_trustedHostKeysBase64 : list jsstring }.
(** A [ResolvedJumpHost], the hop nearest to the target first: each hop's [jump] is the rest. *)
Abbreviation ResolvedJumpHost := (list Hop).

Definition requireConfiguredSshUsername (host : SshHostRecord) : result jsstring :=
  let username := js_trim (ssh_username host) in
  if truthy username then Ok username else Throw "hostIpc.usernameRequired".

Definition maxChain : nat := 8.

(** [secrets] stands for [resolveRuntimeSshSecrets] and [ensureCertificateAuthReady], which
    may fail. *)
Section chain.
Variable secrets : HostRecord → result HostSecrets.
Variable hosts : list HostRecord.

Fixpoint resolve_chain (timestamp : jsstring) (chain : list jsstring) (resolved : ResolvedJumpHost) known
    : result ResolvedJumpHost * list KnownHostRecord :=
  match chain with
  | [] => (Ok resolved, known)
  | jumpHostId :: chain =>
      match host_by_id jumpHostId hosts with
      | None => (Throw "hostIpc.jumpHostMissing", known)
      | Some jumpHost =>
          match h_details jumpHost with
          | HSsh r =>
              let '(keys, known) := resolveTrustedHostKeys timestamp (ssh_hostname r) (ssh_port r) (ssh_tailnetId r) known in
              match requireConfiguredSshUsername r with
              | Throw e => (Throw e, known)
              | Ok username =>
                  match secrets jumpHost with
                  | Throw e => (Throw e, known)
                  | Ok found =>
                      resolve_chain timestamp chain
                        ({| hop_host := ssh_hostname r; hop_port := ssh_port r; hop_username := username;
                            hop_authType := ssh_authType r; hop_secrets := found;
                            hop_trustedHostKeysBase64 := keys |} :: resolved) known
                  end
              end
          | _ => (Throw "hostIpc.jumpHostMustBeSsh", known)
          end
      end
  end.
Definition resolveJumpHostTarget (timestamp hostId : jsstring) (host : SshHostRecord) known
    : result ResolvedJumpHost * list KnownHostRecord :=
  let chain := normalizeJumpHostIds (option_map (List.map Some) (ssh_jumpHostIds host)) (ssh_jumpHostId host) in
  match chain with
  | [] => (Ok [], known)
  | _ => if (maxChain <? length chain)%nat then (Throw "hostIpc.jumpChainTooDeep", known)
         else if shas hostId chain then (Throw "hostIpc.jumpChainSelf", known)
         else resolve_chain timestamp chain [] known
  end.
End chain.

(** ** Identity of a key *)

Definition identity_of r : jsstring * jsstring * Z * jsstring :=
  (normalizeTailnetScope (kh_tailnetId r), kh_host r, kh_port r, kh_algorithm r).
Definition input_identity (input : KnownHostTrustInput) : jsstring * jsstring * Z * jsstring :=
  (normalizeTailnetScope (ti_tailnetId input), ti_host input, ti_port input, ti_algorithm input).
(** What a key shown by a host is said to be. *)
Definition status_of known (ident : jsstring * jsstring * Z * jsstring) (key : jsstring) : HostKeyStatus :=
  key_status (List.find (λ r, bool_decide (identity_of r = ident)) known) key.

Lemma in_scope_spec scope host port r :
  in_scope scope host port r = true ↔ normalizeTailnetScope (kh_tailnetId r) = scope ∧ kh_host r = host ∧ kh_port r = port.
Proof. unfold in_scope. rewrite !andb_true_iff, !bool_decide_eq_true, Z.eqb_eq. tauto. Qed.
Lemma lookup_identity host port algorithm tailnetId r :
  in_scope (normalizeTailnetScope tailnetId) host port r && bool_decide (kh_algorithm r = algorithm)
  = bool_decide (identity_of r = (normalizeTailnetScope tailnetId, host, port, algorithm)).
Proof.
  apply eq_iff_eq_true. rewrite andb_true_iff, in_scope_spec, !bool_decide_eq_true. unfold identity_of. split; [intros [(? & ? & ?) ?]; congruence|intros [= ? ? ? ?]; done].
Qed.
Lemma find_ext {A} (P Q : A → bool) l : (∀ x, x ∈ l → P x = Q x) → List.find P l = List.find Q l.
Proof.
  intros H. induction l as [|a l IH]; [done|]. cbn. rewrite (H a) by left. rewrite IH; [done|]. intros x Hx. apply H. by right.
Qed.
Lemma getByHostPortAlgorithm_status host port algorithm tailnetId known key :
  key_status (getByHostPortAlgorithm host port algorithm tailnetId known) key
  = status_of known (normalizeTailnetScope tailnetId, host, port, algorithm) key.
Proof. unfold status_of, getByHostPortAlgorithm. f_equal. apply find_ext. intros r _. apply lookup_identity. Qed.

(** Rewriting records without touching their identity or their key changes no answer. *)
Lemma status_of_fmap (f : KnownHostRecord → KnownHostRecord) known ident key :
  (∀ r, identity_of (f r) = identity_of r ∧ kh_publicKeyBase64 (f r) = kh_publicKeyBase64 r) →
  status_of (f <$> known) ident key = status_of known ident key.
Proof.
  intros Hf. unfold status_of. induction known as [|r known IH]; [done|]. cbn. rewrite (proj1 (Hf r)). case_bool_decide; [|done].
  cbn. by rewrite (proj2 (Hf r)).
Qed.
Lemma touch_same timestamp host port algorithm tailnetId known : ∃ f, touch timestamp host port algorithm tailnetId known = f <$> known
  ∧ ∀ r, identity_of (f r) = identity_of r ∧ kh_publicKeyBase64 (f r) = kh_publicKeyBase64 r ∧ kh_id (f r) = kh_id r.
Proof. eexists. split; [reflexivity|]. intros r. cbv beta. by destruct (_ || _). Qed.

(** ** What trusting a key does *)

Lemma trust_current input known r :
  getByHostPortAlgorithm (ti_host input) (ti_port input) (ti_algorithm input) (ti_tailnetId input) known = Some r →
  r ∈ known ∧ identity_of r = input_identity input.
Proof.
  intros [Hr Hi]%find_Some_1. split; [done|]. rewrite lookup_identity in Hi. by apply bool_decide_eq_true in Hi.
Qed.
Lemma find_app {A} (P : A → bool) l k : List.find P (l ++ k) = match List.find P l with Some x => Some x | None => List.find P k end.
Proof. induction l as [|a l IH]; [done|]. cbn. by destruct (P a). Qed.
Lemma trim_scope tailnetId : normalizeTailnetScope (opt_truthy (Some (normalizeTailnetScope tailnetId))) = normalizeTailnetScope tailnetId.
Proof.
  unfold normalizeTailnetScope at 2 3. generalize (default [] tailnetId). intros s. unfold normalizeTailnetScope, opt_truthy.
  destruct (js_trim s) as [|c l] eqn:E; [done|]. change (js_trim (c :: l) = c :: l). rewrite <- E. apply js_trim_idemp.
Qed.

(** Replacing the one record of an id. *)
Lemma status_of_replace known r0 record ident key :
  NoDup (kh_id <$> known) → r0 ∈ known → kh_id record = kh_id r0 → identity_of record = identity_of r0 →
  List.find (λ r, bool_decide (identity_of r = identity_of r0)) known = Some r0 →
  status_of ((λ entry, if decide (kh_id entry = kh_id r0) then record else entry) <$> known) ident key
  = if decide (ident = identity_of r0) then key_status (Some record) key else status_of known ident key.
Proof.
  intros Hn Hin _ Hrec Hfirst. unfold status_of.
  assert (Hone : ∀ r, r ∈ known → kh_id r = kh_id r0 → r = r0) by (intros r Hr E; by eapply NoDup_fmap_inj).
  revert Hone Hfirst. clear Hn Hin. induction known as [|r known IH]; cbn; intros Hone Hfirst; [done|].
  destruct (decide (kh_id r = kh_id r0)) as [E|E].
  - assert (r = r0) as -> by (apply Hone; [by left|done]). rewrite Hrec. destruct (decide (ident = identity_of r0)) as [->|Hne].
    + by rewrite !bool_decide_eq_true_2.
    + rewrite !bool_decide_eq_false_2 by done.
      assert (Hrest : ∀ k, (∀ r, r ∈ k → kh_id r = kh_id r0 → r = r0) →
        key_status (List.find (λ r, bool_decide (identity_of r = ident)) ((λ entry, if decide (kh_id entry = kh_id r0) then record else entry) <$> k)) key
        = key_status (List.find (λ r, bool_decide (identity_of r = ident)) k) key).
      { clear IH Hone Hfirst. induction k as [|r k IH]; intros Hk; [done|]. cbn.
        destruct (decide (kh_id r = kh_id r0)) as [E'|]; cbn.
        - rewrite (Hk r) by (done || by left). rewrite Hrec, !bool_decide_eq_false_2 by done. apply IH. intros r' Hr'. apply Hk. by right.
        - case_bool_decide; [done|]. apply IH. intros r' Hr'. apply Hk. by right. }
      apply Hrest. intros r' Hr'. apply Hone. by right.
  - cbn in Hfirst. destruct (bool_decide (identity_of r = identity_of r0)) eqn:Ei; [by injection Hfirst as ->|].
    apply bool_decide_eq_false in Ei. case_bool_decide as Hid.
    + subst ident. by rewrite decide_False.
    + apply IH; [|done]. intros r' Hr'. apply Hone. by right.
Qed.

Lemma trust_status timestamp newId input known :
  NoDup (kh_id <$> known) → newId ∉ kh_id <$> known →
  NoDup (kh_id <$> trust timestamp newId input known)
  ∧ ∀ ident key, status_of (trust timestamp newId input known) ident key =
      if decide (ident = input_identity input)
      then if decide (ti_publicKeyBase64 input = key) then key_trusted else key_mismatch
      else status_of known ident key.
Proof.
  intros Hn Hfresh. unfold trust.
  destruct (getByHostPortAlgorithm _ _ _ _ known) as [r0|] eqn:Ecur; cbn [fmap option_fmap option_map default].
  - destruct (trust_current _ _ _ Ecur) as [Hin Hid].
    assert (Hfirst : List.find (λ r, bool_decide (identity_of r = identity_of r0)) known = Some r0).
    { rewrite <- Ecur, Hid. unfold getByHostPortAlgorithm. apply find_ext. intros r _. symmetry. apply lookup_identity. }
    split.
    + match goal with |- NoDup ?l => replace l with (kh_id <$> known); [done|] end. rewrite <- list_fmap_compose.
      apply list_fmap_ext. intros i r _. cbn. by destruct (decide (kh_id r = kh_id r0)).
    + intros ident key. rewrite status_of_replace; [|done|done|done| |done].
      * by rewrite Hid.
      * rewrite Hid. unfold identity_of, input_identity. cbn [kh_tailnetId kh_host kh_port kh_algorithm]. by rewrite trim_scope.
  - split.
    + rewrite fmap_app. apply NoDup_app. split_and!; [done| |apply NoDup_singleton].
      cbn. intros x Hx ->%list_elem_of_singleton. done.
    + intros ident key. unfold status_of. rewrite find_app. cbn [List.find].
      assert (Hnone : List.find (λ r, bool_decide (identity_of r = input_identity input)) known = None).
      { rewrite <- Ecur. unfold getByHostPortAlgorithm. apply find_ext. intros r _. symmetry. apply lookup_identity. }
      assert (Hnew : identity_of {| kh_id := newId; kh_tailnetId := opt_truthy (Some (normalizeTailnetScope (ti_tailnetId input)));
        kh_host := ti_host input; kh_port := ti_port input; kh_algorithm := ti_algorithm input;
        kh_publicKeyBase64 := ti_publicKeyBase64 input; kh_fingerprintSha256 := ti_fingerprintSha256 input;
        kh_createdAt := timestamp; kh_lastSeenAt := timestamp; kh_updatedAt := timestamp |} = input_identity input).
      { unfold identity_of, input_identity. cbn [kh_tailnetId kh_host kh_port kh_algorithm]. by rewrite trim_scope. }
      destruct (decide (ident = input_identity input)) as [->|Hne].
      * rewrite Hnone, Hnew, bool_decide_eq_true_2 by done. done.
      * rewrite Hnew, bool_decide_eq_false_2 by congruence. destruct (List.find (λ r, bool_decide (identity_of r = ident)) known); done.
Qed.

(** ** What a connection accepts *)

Definition accepts (hostname : jsstring) (port : Z) (tailnetId : option jsstring) known (key : jsstring) : Prop :=
  ∃ r, r ∈ known ∧ normalizeTailnetScope (kh_tailnetId r) = normalizeTailnetScope tailnetId
    ∧ kh_host r = hostname ∧ kh_port r = port ∧ kh_publicKeyBase64 r = key.
Lemma accepts_fmap (f : KnownHostRecord → KnownHostRecord) hostname port tailnetId known key :
  (∀ r, identity_of (f r) = identity_of r ∧ kh_publicKeyBase64 (f r) = kh_publicKeyBase64 r) →
  accepts hostname port tailnetId (f <$> known) key ↔ accepts hostname port tailnetId known key.
Proof.
  intros Hf. unfold accepts. split.
  - intros (r' & (r & -> & Hr)%list_elem_of_fmap & Hs & Hh & Hp & Hk). exists r. destruct (Hf r) as [Hi Hkey].
    unfold identity_of in Hi. split_and!; [done|congruence..].
  - intros (r & Hr & Hs & Hh & Hp & Hk). exists (f r). destruct (Hf r) as [Hi Hkey]. unfold identity_of in Hi.
    split_and!; [by apply list_elem_of_fmap_2|congruence..].
Qed.
Lemma resolveTrustedHostKeys_spec timestamp hostname port tailnetId known keys known' :
  resolveTrustedHostKeys timestamp hostname port tailnetId known = (keys, known') →
  (∀ key, key ∈ keys ↔ accepts hostname port tailnetId known key)
  ∧ ∃ f, known' = f <$> known ∧ ∀ r, identity_of (f r) = identity_of r ∧ kh_publicKeyBase64 (f r) = kh_publicKeyBase64 r ∧ kh_id (f r) = kh_id r.
Proof.
  unfold resolveTrustedHostKeys. intros Hr.
  assert (Hkeys : ∀ key, key ∈ kh_publicKeyBase64 <$> listByHostPort hostname port tailnetId known ↔ accepts hostname port tailnetId known key).
  { intros key. rewrite list_elem_of_fmap. unfold accepts, listByHostPort. split.
    - intros (r & -> & [Hr' Hs]%elem_js_sort%filter_In_elem). apply in_scope_spec in Hs as (Hs & Hh & Hp). by exists r.
    - intros (r & Hr' & Hs & Hh & Hp & Hk). exists r. split; [done|]. apply elem_js_sort, filter_In_elem. by rewrite in_scope_spec. }
  destruct (listByHostPort hostname port tailnetId known) as [|r trusted]; simplify_eq.
  - split; [done|]. exists id. by rewrite list_fmap_id.
  - split; [done|]. apply touch_same.
Qed.

(** C26: Trusting a key changes the answer for exactly one thing: the same host name, port and algorithm
    in the same tailnet scope.  There the trusted key is from now on trusted and every other
    key a mismatch; what is said of any key of any other host, port, algorithm or scope is what was said before,
    and the ids stay distinct. *)
Theorem trust_spec timestamp newId input known :
  NoDup (kh_id <$> known) → newId ∉ kh_id <$> known →
  NoDup (kh_id <$> trust timestamp newId input known)
  ∧ ∀ host port algorithm tailnetId key,
      (probed timestamp host port algorithm key tailnetId (trust timestamp newId input known)).1.1 =
        if decide ((normalizeTailnetScope tailnetId, host, port, algorithm) = input_identity input)
        then if decide (ti_publicKeyBase64 input = key) then key_trusted else key_mismatch
        else (probed timestamp host port algorithm key tailnetId known).1.1.
Proof.
  intros Hn Hfresh. destruct (trust_status timestamp newId input known Hn Hfresh) as [Hn' Hs]. split; [done|].
  intros host port algorithm tailnetId key. unfold probed. cbn [fst]. rewrite !getByHostPortAlgorithm_status. apply Hs.
Qed.

(** C27: A connection accepts exactly the keys stored for its host name and port in its own tailnet
    scope - never one trusted in another tailnet or in the ordinary network - and neither asking
    nor connecting changes what anything is answered afterwards. *)
Theorem trusted_keys_scoped timestamp hostname port tailnetId known :
  let '(keys, known') := resolveTrustedHostKeys timestamp hostname port tailnetId known in
  (∀ key, key ∈ keys ↔ accepts hostname port tailnetId known key)
  ∧ (∀ host port algorithm tailnetId key,
       (probed timestamp host port algorithm key tailnetId known').1.1 = (probed timestamp host port algorithm key tailnetId known).1.1)
  ∧ (∀ host port tailnetId key, accepts host port tailnetId known' key ↔ accepts host port tailnetId known key)
  ∧ ∀ host port algorithm tailnetId shown,
      let known'' := (probed timestamp host port algorithm shown tailnetId known).2 in
      (∀ ident key, status_of known'' ident key = status_of known ident key)
      ∧ ∀ host port tailnetId key, accepts host port tailnetId known'' key ↔ accepts host port tailnetId known key.
Proof.
  destruct (resolveTrustedHostKeys _ _ _ _ known) as [keys known'] eqn:E.
  destruct (resolveTrustedHostKeys_spec _ _ _ _ _ _ _ E) as [Hkeys (f & -> & Hf)].
  assert (Hf' : ∀ r, identity_of (f r) = identity_of r ∧ kh_publicKeyBase64 (f r) = kh_publicKeyBase64 r) by (intros r; split; apply Hf).
  split_and!; [done| | |].
  - intros host p a tn key. unfold probed. cbn [fst]. rewrite !getByHostPortAlgorithm_status. by apply status_of_fmap.
  - intros host p tn key. by apply accepts_fmap.
  - intros host p a tn shown. unfold probed. cbn [snd]. destruct (key_status _ shown); [|split; done..].
    destruct (touch_same timestamp host p (Some a) tn known) as (g & -> & Hg). split.
    + intros ident key. apply status_of_fmap. intros r. split; apply Hg.
    + intros h q t key. apply accepts_fmap. intros r. split; apply Hg.
Qed.

(** ** The jump chain *)

Section chain_facts.
Variable secrets : HostRecord → result HostSecrets.
Variable hosts : list HostRecord.

(** The hop an id of the chain becomes. *)
Definition hop_for known (id : jsstring) (hop : Hop) : Prop :=
  ∃ h (r : SshHostRecord), host_by_id id hosts = Some h ∧ h_details h = HSsh r
    ∧ hop_host hop = ssh_hostname r ∧ hop_port hop = ssh_port r ∧ hop_authType hop = ssh_authType r
    ∧ hop_username hop = js_trim (ssh_username r) ∧ hop_username hop ≠ []
    ∧ secrets h = Ok (hop_secrets hop)
    ∧ ∀ key, key ∈ hop_trustedHostKeysBase64 hop ↔ accepts (ssh_hostname r) (ssh_port r) (ssh_tailnetId r) known key.
(** What a chain needs of an id. *)
Definition usable (id : jsstring) : Prop :=
  ∃ h (r : SshHostRecord) found, host_by_id id hosts = Some h ∧ h_details h = HSsh r ∧ js_trim (ssh_username r) ≠ [] ∧ secrets h = Ok found.

Lemma resolve_chain_spec timestamp chain resolved known :
  let '(res, known') := resolve_chain secrets hosts timestamp chain resolved known in
  (∀ h p t key, accepts h p t known' key ↔ accepts h p t known key)
  ∧ match res with
    | Ok hops => ∃ new, hops = reverse new ++ resolved ∧ Forall2 (hop_for known) chain new
    | Throw _ => ¬ Forall usable chain
    end.
Proof.
  revert resolved known. induction chain as [|id chain IH]; intros resolved known; cbn [resolve_chain].
  { split; [done|]. by exists []. }
  destruct (host_by_id id hosts) as [h|] eqn:Eh; [|split; [done|]; intros [(h & r & f & Hh & _) _]%Forall_cons; congruence].
  destruct (h_details h) as [r| | | | | | ] eqn:Er;
    try (split; [done|]; intros [(h' & r' & f & Hh & Hr & _) _]%Forall_cons; congruence).
  destruct (resolveTrustedHostKeys timestamp _ _ _ known) as [keys known1] eqn:Ek.
  destruct (resolveTrustedHostKeys_spec _ _ _ _ _ _ _ Ek) as [Hkeys (f & -> & Hf)].
  assert (Hacc : ∀ h p t key, accepts h p t (f <$> known) key ↔ accepts h p t known key).
  { intros h' p t key. apply accepts_fmap. intros r'. split; apply Hf. }
  unfold requireConfiguredSshUsername. destruct (truthy (js_trim (ssh_username r))) eqn:Et.
  2: { split; [done|]. intros [(h' & r' & fd & Hh & Hr & Hu & _) _]%Forall_cons. simplify_eq.
       rewrite Er in Hr. injection Hr as <-. apply not_true_iff_false in Et. by apply Et, truthy_spec. }
  apply truthy_spec in Et. destruct (secrets h) as [found|e] eqn:Es.
  2: { split; [done|]. intros [(h' & r' & fd & Hh & Hr & Hu & Hs) _]%Forall_cons. congruence. }
  match goal with |- context [resolve_chain _ _ _ _ (?hop :: _) _] => set (hop0 := hop) end.
  specialize (IH (hop0 :: resolved) (f <$> known)). destruct (resolve_chain _ _ _ chain _ _) as [res known2].
  destruct IH as [Hacc' Hres]. split; [intros h' p t key; by rewrite Hacc'|].
  destruct res as [hops|e].
  - destruct Hres as (new & -> & Hnew). exists (hop0 :: new). rewrite reverse_cons, <- app_assoc. split; [done|].
    constructor.
    + exists h, r. by split_and!.
    + eapply Forall2_impl; [exact Hnew|]. intros id' hop (h' & r' & ? & ? & ? & ? & ? & ? & ? & ? & Hk). exists h', r'.
      split_and!; try done. intros key. rewrite Hk. apply Hacc.
  - intros [_ Hall]%Forall_cons. done.
Qed.

Definition jump_chain (host : SshHostRecord) : list jsstring :=
  normalizeJumpHostIds (option_map (List.map Some) (ssh_jumpHostIds host)) (ssh_jumpHostId host).

Lemma head_jump_steps acc (l : list jsstring) :
  head (foldl jump_step acc (List.map Some l)) = match acc with x :: _ => Some x | [] => List.find truthy l end.
Proof.
  revert acc. induction l as [|a l IH]; intros acc; cbn [List.map foldl List.find]; [by destruct acc|].
  rewrite IH. destruct a as [|c a]; [by destruct acc|]. cbn [jump_step truthy].
  unfold sadd. destruct acc as [|x acc]; [by rewrite decide_False by apply not_elem_of_nil|]. by case_decide.
Qed.
(** The hop the tailnet is read from is the hop that is dialled first. *)
Lemma entry_hop_first (host : SshHostRecord) :
  resolveEntryHopTailnetId hosts host =
    match head (jump_chain host) with
    | Some id => match host_by_id id hosts with
                 | Some h => match h_details h with HSsh r => opt_truthy (js_trim <$> ssh_tailnetId r) | _ => None end
                 | None => None
                 end
    | None => None
    end.
Proof.
  unfold resolveEntryHopTailnetId, jump_chain, normalizeJumpHostIds.
  assert (Hlist : ∀ l, List.find truthy l = head (foldl jump_step [] (List.map Some l))) by (intros l; by rewrite head_jump_steps).
  destruct (ssh_jumpHostIds host) as [[|a l]|]; cbn [option_map List.map jump_source].
  - destruct (opt_truthy (ssh_jumpHostId host)) as [id|]; rewrite Hlist; done.
  - change (Some a :: List.map Some l) with (List.map Some (a :: l)). by rewrite Hlist.
  - destruct (opt_truthy (ssh_jumpHostId host)) as [id|]; rewrite Hlist; done.
Qed.

End chain_facts.
End repository.

(** ** A key that stays trusted *)

Definition stored_key (id key : jsstring) : KnownHostRecord :=
  {| kh_id := id; kh_tailnetId := None; kh_host := js "web"; kh_port := 22; kh_algorithm := js "ssh-ed25519";
     kh_publicKeyBase64 := key; kh_fingerprintSha256 := key; kh_createdAt := js "1"; kh_lastSeenAt := js "1"; kh_updatedAt := js "1" |}.
Definition replacing (key : jsstring) : KnownHostTrustInput :=
  {| ti_hostId := js "h"; ti_hostLabel := js "web"; ti_tailnetId := None; ti_host := js "web"; ti_port := 22;
     ti_algorithm := js "ssh-ed25519"; ti_publicKeyBase64 := key; ti_fingerprintSha256 := key |}.
#[local] Existing Instance unit_collator.

(** When two devices have each trusted the same host before they synchronised, its key is stored
    twice under different ids; replacing the key then rewrites one record only: the
    user is told the old key is a mismatch, yet connections still accept it. *)
Theorem replaced_key_still_accepted :
  ∃ known, NoDup (kh_id <$> known)
    ∧ let replaced := trust (js "2") (js "c") (replacing (js "new")) known in
      (probed (js "3") (js "web") 22 (js "ssh-ed25519") (js "old") None replaced).1.1 = key_mismatch
      ∧ (resolveTrustedHostKeys (js "3") (js "web") 22 None replaced).1 = [js "new"; js "old"].
Proof.
  exists (kh_replaceAll [stored_key (js "a") (js "old"); stored_key (js "b") (js "old")]).
  split; [apply (bool_decide_unpack _); vm_compute; exact I|]. by split; vm_compute.
Qed.

Lemma trust_spec_witness :
  NoDup (kh_id <$> trust (js "2") (js "c") (replacing (js "new")) [stored_key (js "a") (js "old")])
  ∧ (probed (js "2") (js "web") 22 (js "ssh-ed25519") (js "new") None
       (trust (js "2") (js "c") (replacing (js "new")) [stored_key (js "a") (js "old")])).1.1 = key_trusted.
Proof.
  destruct (trust_spec (js "2") (js "c") (replacing (js "new")) [stored_key (js "a") (js "old")]) as [H1 H2].
  - apply (bool_decide_unpack _). vm_compute. exact I.
  - apply (bool_decide_unpack _). vm_compute. exact I.
  - split; [exact H1|]. rewrite H2. vm_compute. reflexivity.
Defined.
