(* ===== verification/DnsOverrides.v ===== *)
(** * Port forwards and DNS overrides (PortForwardRepository and DnsOverrideRepository of
      apps/desktop/src/main/database.ts, ipc/port-forwards-dns.ts, and of
      hosts-override-manager.ts the entries of the hosts file)

    The stored rules and overrides, the calls that write them together, and the
    names that are redirected while forwards run. *)

From S2P Require Import Prelude Collections Models SyncRecords KnownHosts.

(** [s.toLowerCase()], and what [isIP] of [node:net] says of an address. *)
Class LowerCase := {
  toLowerCase : jsstring → jsstring;
  toLowerCase_idem s : toLowerCase (toLowerCase s) = toLowerCase s;
}.
Class NetIsIP := isIP : jsstring → N.

(** ** Port forwards *)

Inductive PortForwardMode := pf_local | pf_remote | pf_dynamic.
#[export] Instance PortForwardMode_eq_dec : EqDecision PortForwardMode.
Proof. solve_decision. Defined.
Inductive AwsSsmPortForwardTargetKind := instance_port | remote_host.
#[export] Instance AwsSsmPortForwardTargetKind_eq_dec : EqDecision AwsSsmPortForwardTargetKind.
Proof. solve_decision. Defined.
Inductive HostContainerRuntime := docker | podman.

(** What a rule says besides its id and its times; a draft has the same fields. *)
Inductive Transport :=
| tr_ssh (mode : PortForwardMode) (targetHost : option jsstring) (targetPort : option Z)
| tr_aws_ssm (targetKind : AwsSsmPortForwardTargetKind) (targetPort : Z) (remoteHost : option jsstring)
| tr_ecs_task (serviceName containerName : jsstring) (targetPort : Z)
| tr_container (containerId containerName : jsstring) (containerRuntime : HostContainerRuntime) (networkName : jsstring) (targetPort : Z).
Record PortForwardDraft := {
  pd_label : jsstring; pd_hostId : jsstring; pd_bindAddress : jsstring; pd_bindPort : Z; pd_transport : Transport }.
Record PortForwardRuleRecord := {
  pf_id : jsstring; pf_label : jsstring; pf_hostId : jsstring; pf_bindAddress : jsstring; pf_bindPort : Z;
  pf_transport : Transport; pf_createdAt : jsstring; pf_updatedAt : jsstring }.

Definition loopback : jsstring := js "127.0.0.1".
Definition pf_toRecord (id : jsstring) (draft : PortForwardDraft) (createdAt updatedAt : jsstring) : PortForwardRuleRecord :=
  let record bindAddress bindPort transport :=
    {| pf_id := id; pf_label := js_trim (pd_label draft); pf_hostId := pd_hostId draft; pf_bindAddress := bindAddress;
       pf_bindPort := bindPort; pf_transport := transport; pf_createdAt := createdAt; pf_updatedAt := updatedAt |} in
  match pd_transport draft with
  | tr_container containerId containerName containerRuntime networkName targetPort =>
      record loopback (Z.max 0 (pd_bindPort draft))
        (tr_container (js_trim containerId) (js_trim containerName) containerRuntime (js_trim networkName) targetPort)
  | tr_ecs_task serviceName containerName targetPort =>
      record loopback (pd_bindPort draft) (tr_ecs_task (js_trim serviceName) (js_trim containerName) targetPort)
  | tr_aws_ssm targetKind targetPort remoteHost =>
      record (default loopback (opt_truthy (Some (js_trim (pd_bindAddress draft))))) (pd_bindPort draft)
        (tr_aws_ssm targetKind targetPort
           (if decide (targetKind = remote_host) then js_trim <$> remoteHost else None))
  | tr_ssh mode targetHost targetPort =>
      record (js_trim (pd_bindAddress draft)) (pd_bindPort draft)
        (tr_ssh mode (if decide (mode = pf_dynamic) then None else js_trim <$> targetHost)
           (if decide (mode = pf_dynamic) then None else targetPort))
  end.

Definition pf_getById (id : jsstring) (rules : list PortForwardRuleRecord) : option PortForwardRuleRecord :=
  List.find (λ r, bool_decide (pf_id r = id)) rules.
Definition pf_create (newId timestamp : jsstring) (draft : PortForwardDraft) (rules : list PortForwardRuleRecord)
    : list PortForwardRuleRecord * PortForwardRuleRecord :=
  let record := pf_toRecord newId draft timestamp timestamp in (rules ++ [record], record).
Definition pf_update (id timestamp : jsstring) (draft : PortForwardDraft) (rules : list PortForwardRuleRecord)
    : result (list PortForwardRuleRecord * PortForwardRuleRecord) :=
  match pf_getById id rules with
  | None => Throw "Port forward rule not found"
  | Some current =>
      let record := pf_toRecord id draft (pf_createdAt current) timestamp in
      Ok ((λ entry, if decide (pf_id entry = id) then record else entry) <$> rules, record)
  end.
Definition pf_remove (id : jsstring) (rules : list PortForwardRuleRecord) : list PortForwardRuleRecord :=
  List.filter (λ entry, bool_decide (pf_id entry ≠ id)) rules.

Section overrides.
Context {CO : Collator} {LC : LowerCase} {IP : NetIsIP}.

Definition comparePortForwards (left right : PortForwardRuleRecord) : Z :=
  let updatedCompare := localeCompare (pf_updatedAt right) (pf_updatedAt left) in
  if negb (updatedCompare =? 0)%Z then updatedCompare else localeCompare (pf_label left) (pf_label right).
Definition pf_list (rules : list PortForwardRuleRecord) : list PortForwardRuleRecord := js_sort comparePortForwards rules.

Definition isLoopbackBindAddress (value : option jsstring) : bool :=
  match opt_truthy value with
  | None => false
  | Some value =>
      let normalized := toLowerCase (js_trim value) in
      bool_decide (normalized = js "localhost") || bool_decide (normalized = js "::1")
      || bool_decide (normalized = js "0:0:0:0:0:0:0:1") || startsWith normalized (js "127.")
  end.
Definition isDnsOverrideEligiblePortForwardRule (rule : PortForwardRuleRecord) : bool :=
  match pf_transport rule with
  | tr_aws_ssm _ _ _ => isLoopbackBindAddress (Some (pf_bindAddress rule))
  | tr_ssh mode _ _ => bool_decide (mode = pf_local) && isLoopbackBindAddress (Some (pf_bindAddress rule))
  | _ => false
  end.

(** ** DNS overrides *)

Inductive DnsTarget := dns_linked (portForwardRuleId : jsstring) | dns_static (address : jsstring).
Record DnsOverrideDraft := { dd_hostname : jsstring; dd_target : DnsTarget }.
Record DnsOverrideRecord := {
  dns_id : jsstring; dns_hostname : jsstring; dns_target : DnsTarget; dns_createdAt : jsstring; dns_updatedAt : jsstring }.
Implicit Types (overrides : list DnsOverrideRecord) (rules : list PortForwardRuleRecord).

Definition normalizeDnsOverrideHostname (hostname : jsstring) : jsstring := toLowerCase (js_trim hostname).
Definition normalizeDnsOverrideAddress (address : jsstring) : jsstring := js_trim address.

Definition is_alnum (c : N) : bool :=
  (((48 <=? c) && (c <=? 57)) || ((65 <=? c) && (c <=? 90)) || ((97 <=? c) && (c <=? 122)))%N.
(** [/^[a-z0-9](?:[a-z0-9-]{0,61}[a-z0-9])?$/i] *)
Definition valid_label (label : jsstring) : bool :=
  match label with
  | [] => false
  | c :: rest =>
      is_alnum c
      && match reverse rest with
         | [] => true
         | d :: middle => is_alnum d && forallb (λ c, is_alnum c || (c =? 45)%N) middle && (length middle <=? 61)%nat
         end
  end.
Definition isValidDnsOverrideHostname (hostname : jsstring) : bool :=
  if negb (truthy hostname) || includes_unit hostname 42 || includes_unit hostname 32
     || bool_decide (last hostname = Some 46%N)
  then false
  else forallb valid_label (js_split 46 hostname).

Definition compareDnsOverrides (left right : DnsOverrideRecord) : Z :=
  let hostCompare := localeCompare (dns_hostname left) (dns_hostname right) in
  if negb (hostCompare =? 0)%Z then hostCompare else
  let key r := match dns_target r with dns_linked id => js "linked:" ++ id | dns_static a => js "static:" ++ a end in
  localeCompare (key left) (key right).
Definition dns_list overrides : list DnsOverrideRecord := js_sort compareDnsOverrides overrides.
Definition dns_getById (id : jsstring) overrides : option DnsOverrideRecord :=
  List.find (λ r, bool_decide (dns_id r = id)) overrides.

Definition dns_toRecord (id : jsstring) (draft : DnsOverrideDraft) (createdAt updatedAt : jsstring) rules overrides
    : result DnsOverrideRecord :=
  let hostname := normalizeDnsOverrideHostname (dd_hostname draft) in
  let record target :=
    {| dns_id := id; dns_hostname := hostname; dns_target := target; dns_createdAt := createdAt; dns_updatedAt := updatedAt |} in
  if negb (isValidDnsOverrideHostname hostname) then Throw "DNS override hostname is invalid" else
  if existsb (λ r, bool_decide (dns_hostname r = hostname) && bool_decide (dns_id r ≠ id)) overrides
  then Throw "DNS override hostname already exists" else
  match dd_target draft with
  | dns_linked portForwardRuleId =>
      match pf_getById portForwardRuleId rules with
      | None => Throw "Linked port forward rule not found"
      | Some rule =>
          if negb (isDnsOverrideEligiblePortForwardRule rule)
          then Throw "Linked port forward rule must be a local listener with a loopback bind address"
          else Ok (record (dns_linked (pf_id rule)))
      end
  | dns_static address =>
      let address := normalizeDnsOverrideAddress address in
      if negb (truthy address) || (isIP address =? 0)%N
      then Throw "DNS override address must be a valid IPv4 or IPv6 address"
      else Ok (record (dns_static address))
  end.
Definition dns_create (newId timestamp : jsstring) (draft : DnsOverrideDraft) rules overrides
    : result (list DnsOverrideRecord * DnsOverrideRecord) :=
  let! record := dns_toRecord newId draft timestamp timestamp rules overrides in
  Ok (overrides ++ [record], record).
Definition dns_update (id timestamp : jsstring) (draft : DnsOverrideDraft) rules overrides
    : result (list DnsOverrideRecord * DnsOverrideRecord) :=
  match dns_getById id overrides with
  | None => Throw "DNS override not found"
  | Some current =>
      let! record := dns_toRecord id draft (dns_createdAt current) timestamp rules overrides in
      Ok ((λ entry, if decide (dns_id entry = id) then record else entry) <$> overrides, record)
  end.
Definition dns_remove (id : jsstring) overrides : list DnsOverrideRecord :=
  List.filter (λ entry, bool_decide (dns_id entry ≠ id)) overrides.

(** Of a well-typed record.  (A record from before the field [type] is read as linked
    when it names a rule; [DnsOverrideRecord] has no such records.) *)
Definition normalizeIncomingDnsOverrideRecord (record : DnsOverrideRecord) : option DnsOverrideRecord :=
  let hostname := normalizeDnsOverrideHostname (dns_hostname record) in
  let with_target target :=
    {| dns_id := dns_id record; dns_hostname := hostname; dns_target := target;
       dns_createdAt := dns_createdAt record; dns_updatedAt := dns_updatedAt record |} in
  if negb (isValidDnsOverrideHostname hostname) then None else
  match dns_target record with
  | dns_linked portForwardRuleId =>
      if truthy (js_trim portForwardRuleId) then Some (with_target (dns_linked portForwardRuleId)) else None
  | dns_static address =>
      let address := normalizeDnsOverrideAddress address in
      if negb (truthy address) || (isIP address =? 0)%N then None else Some (with_target (dns_static address))
  end.
Definition dns_replaceAll (records : list DnsOverrideRecord) : list DnsOverrideRecord :=
  js_sort compareDnsOverrides (omap normalizeIncomingDnsOverrideRecord records).

(** ** The names that are redirected *)

Inductive PortForwardStatus := run_stopped | run_starting | run_running | run_error.
#[export] Instance PortForwardStatus_eq_dec : EqDecision PortForwardStatus.
Proof. solve_decision. Defined.
Record PortForwardRuntimeRecord := { rt_ruleId : jsstring; rt_bindAddress : jsstring; rt_status : PortForwardStatus }.
Record ActiveDnsOverrideEntry := { en_hostname : jsstring; en_address : jsstring; en_ruleId : jsstring }.

Definition override_rule_id (r : DnsOverrideRecord) : jsstring :=
  match dns_target r with dns_linked id => id | dns_static _ => dns_id r end.
(** The address a name is to resolve to now, if any. *)
Definition active_address (ruleMap : list (jsstring * PortForwardRuleRecord)) (runtimeMap : list (jsstring * PortForwardRuntimeRecord))
    (activeStaticOverrideIds : list jsstring) (override : DnsOverrideRecord) : option jsstring :=
  match dns_target override with
  | dns_static address => if shas (dns_id override) activeStaticOverrideIds then Some (js_trim address) else None
  | dns_linked portForwardRuleId =>
      match mget portForwardRuleId ruleMap, mget portForwardRuleId runtimeMap with
      | Some rule, Some runtime =>
          if negb (bool_decide (rt_status runtime = run_running)) then None else
          if negb (isDnsOverrideEligiblePortForwardRule rule) || negb (isLoopbackBindAddress (Some (rt_bindAddress runtime)))
          then None else Some (js_trim (rt_bindAddress runtime))
      | _, _ => None
      end
  end.
Definition entry_step (ruleMap : list (jsstring * PortForwardRuleRecord)) (runtimeMap : list (jsstring * PortForwardRuntimeRecord))
    (activeStaticOverrideIds : list jsstring) (acc : list jsstring * list ActiveDnsOverrideEntry) (override : DnsOverrideRecord)
    : list jsstring * list ActiveDnsOverrideEntry :=
  let '(seen, entries) := acc in
  let hostname := toLowerCase (js_trim (dns_hostname override)) in
  match active_address ruleMap runtimeMap activeStaticOverrideIds override with
  | None => acc
  | Some address =>
      let key := hostname ++ 0%N :: address in
      if negb (truthy hostname) || negb (truthy address) || shas key seen then acc
      else (sadd key seen,
            entries ++ [{| en_hostname := hostname; en_address := address; en_ruleId := override_rule_id override |}])
  end.
Definition compareEntries (left right : ActiveDnsOverrideEntry) : Z :=
  cmp_or (λ l r, localeCompare (en_hostname l) (en_hostname r)) (λ l r, localeCompare (en_address l) (en_address r)) left right.
Definition collectActiveDnsOverrideEntries overrides rules (runtimes : list PortForwardRuntimeRecord)
    (activeStaticOverrideIds : list jsstring) : list ActiveDnsOverrideEntry :=
  let ruleMap := mof ((λ rule, (pf_id rule, rule)) <$> rules) in
  let runtimeMap := mof ((λ runtime, (rt_ruleId runtime, runtime)) <$> runtimes) in
  js_sort compareEntries (foldl (entry_step ruleMap runtimeMap activeStaticOverrideIds) ([], []) overrides).2.
Definition resolveDnsOverrideRecords overrides rules (runtimes : list PortForwardRuntimeRecord)
    (activeStaticOverrideIds : list jsstring) : list (DnsOverrideRecord * bool) :=
  let activeKeys := sof ((λ entry, en_hostname entry ++ 0%N :: en_ruleId entry)
                         <$> collectActiveDnsOverrideEntries overrides rules runtimes activeStaticOverrideIds) in
  (λ override, (override, shas (toLowerCase (js_trim (dns_hostname override)) ++ 0%N :: override_rule_id override) activeKeys))
  <$> overrides.

(** ** The calls of the renderer

    [rewritten] says whether the hosts file could be rewritten; nothing else is taken to
    run meanwhile. *)

(** The [assert...] call for the host of a rule. *)
Definition host_allows (hosts : list HostRecord) (draft : PortForwardDraft) : bool :=
  match host_by_id (pd_hostId draft) hosts with
  | None => false
  | Some host =>
      match pd_transport draft with
      | tr_aws_ssm _ _ _ => isAwsEc2HostRecord host
      | tr_ecs_task _ _ _ => isAwsEcsHostRecord host
      | tr_container _ _ _ _ _ => isSshHostRecord host || isWarpgateSshHostRecord host || isAwsEc2HostRecord host
      | tr_ssh _ _ _ => isSshHostRecord host
      end
  end.
Record DnsState := {
  st_rules : list PortForwardRuleRecord; st_overrides : list DnsOverrideRecord; st_outbox : list SyncDeletionRecord }.
Definition with_overrides overrides (s : DnsState) : DnsState :=
  {| st_rules := st_rules s; st_overrides := overrides; st_outbox := st_outbox s |}.
Definition with_rules rules (s : DnsState) : DnsState :=
  {| st_rules := rules; st_overrides := st_overrides s; st_outbox := st_outbox s |}.

(** The state after a call, and what it threw, if anything. *)
Definition handle_dns_create (rewritten : bool) (newId timestamp : jsstring) (draft : DnsOverrideDraft) (s : DnsState)
    : DnsState * option string :=
  match dns_create newId timestamp draft (st_rules s) (st_overrides s) with
  | Throw e => (s, Some e)
  | Ok (overrides, record) =>
      if rewritten then (with_overrides overrides s, None)
      else (with_overrides (dns_remove (dns_id record) overrides) s, Some "rewrite failed")
  end.
Definition handle_dns_update (rewritten : bool) (id timestamp : jsstring) (draft : DnsOverrideDraft) (s : DnsState)
    : DnsState * option string :=
  let previous := dns_list (st_overrides s) in
  match dns_update id timestamp draft (st_rules s) (st_overrides s) with
  | Throw e => (s, Some e)
  | Ok (overrides, record) =>
      if rewritten then (with_overrides overrides s, None)
      else (with_overrides (dns_replaceAll previous) s, Some "rewrite failed")
  end.
Definition handle_dns_remove (rewritten : bool) (id timestamp : jsstring) (s : DnsState) : DnsState * option string :=
  let previous := dns_list (st_overrides s) in
  if rewritten
  then ({| st_rules := st_rules s; st_overrides := dns_remove id (st_overrides s);
           st_outbox := upsertDeletion k_dnsOverrides id timestamp (st_outbox s) |}, None)
  else (with_overrides (dns_replaceAll previous) s, Some "rewrite failed").
Definition handle_pf_create (hosts : list HostRecord) (newId timestamp : jsstring) (draft : PortForwardDraft) (s : DnsState)
    : DnsState * option string :=
  if negb (host_allows hosts draft) then (s, Some "host") else (with_rules (pf_create newId timestamp draft (st_rules s)).1 s, None).
Definition handle_pf_update (hosts : list HostRecord) (id timestamp : jsstring) (draft : PortForwardDraft) (s : DnsState)
    : DnsState * option string :=
  if negb (host_allows hosts draft) then (s, Some "host") else
  match pf_update id timestamp draft (st_rules s) with
  | Throw e => (s, Some e)
  | Ok (rules, _) => (with_rules rules s, None)
  end.
Definition linked_to (id : jsstring) (override : DnsOverrideRecord) : bool :=
  match dns_target override with dns_linked rule => bool_decide (rule = id) | dns_static _ => false end.
Definition handle_pf_remove (id timestamp : jsstring) (s : DnsState) : DnsState * option string :=
  let linkedOverrides := List.filter (linked_to id) (dns_list (st_overrides s)) in
  let '(overrides, outbox) :=
    foldl (λ '(overrides, outbox) override,
             (dns_remove (dns_id override) overrides, upsertDeletion k_dnsOverrides (dns_id override) timestamp outbox))
          (st_overrides s, st_outbox s) linkedOverrides in
  ({| st_rules := pf_remove id (st_rules s); st_overrides := overrides;
      st_outbox := upsertDeletion k_portForwards id timestamp outbox |}, None).

(** ** What the stored overrides always satisfy *)

Definition valid_override (o : DnsOverrideRecord) : Prop :=
  isValidDnsOverrideHostname (dns_hostname o) = true ∧ toLowerCase (dns_hostname o) = dns_hostname o
  ∧ match dns_target o with
    | dns_static address => js_trim address = address ∧ address ≠ [] ∧ isIP address ≠ 0%N
    | dns_linked id => js_trim id ≠ []
    end.
Record DnsInv (s : DnsState) : Prop := {
  di_rules : NoDup (pf_id <$> st_rules s);
  di_rule_ids : ∀ r, r ∈ st_rules s → js_trim (pf_id r) ≠ [];
  di_ids : NoDup (dns_id <$> st_overrides s);
  di_hostnames : NoDup (dns_hostname <$> st_overrides s);
  di_valid : ∀ o, o ∈ st_overrides s → valid_override o;
  di_linked : ∀ o id, o ∈ st_overrides s → dns_target o = dns_linked id → id ∈ pf_id <$> st_rules s;
}.

Lemma is_alnum_no_ws c : is_alnum c = true ∨ c = 45%N → is_ws c = false.
Proof.
  intros H. apply not_true_iff_false. unfold is_ws. rewrite !orb_true_iff, !andb_true_iff, !N.leb_le, !N.eqb_eq. intros Hw.
  destruct H as [H| ->]; [|lia]. unfold is_alnum in H. rewrite !orb_true_iff, !andb_true_iff, !N.leb_le in H. lia.
Qed.
Lemma valid_label_no_ws label : valid_label label = true → Forall (λ c, is_ws c = false) label.
Proof.
  destruct label as [|c rest]; [done|]. cbn. intros [Hc Hr]%andb_true_iff. constructor; [apply is_alnum_no_ws; by left|].
  apply Forall_reverse. destruct (reverse rest) as [|d middle]; [constructor|].
  rewrite !andb_true_iff in Hr. destruct Hr as [[Hd Hm] _]. constructor; [apply is_alnum_no_ws; by left|].
  apply Forall_forall. intros x Hx. apply is_alnum_no_ws. pose proof (proj1 (forallb_spec _ _) Hm x Hx) as H.
  apply orb_true_iff in H as [?|?%N.eqb_eq]; auto.
Qed.
Lemma js_join_Forall (P : N → Prop) c l : P c → Forall (Forall P) l → Forall P (js_join [c] l).
Proof.
  intros Hc. induction 1 as [|x l Hx Hl IH]; [constructor|]. cbn. destruct l; [done|]. apply Forall_app. split; [done|]. by constructor.
Qed.
Lemma valid_hostname_no_ws hostname : isValidDnsOverrideHostname hostname = true → Forall (λ c, is_ws c = false) hostname.
Proof.
  unfold isValidDnsOverrideHostname. destruct (_ || _); [done|]. intros H. rewrite <- (js_join_split 46 hostname).
  apply js_join_Forall; [done|]. apply Forall_forall. intros label Hl. apply valid_label_no_ws. by eapply forallb_spec in H.
Qed.
Lemma normalize_valid o : valid_override o → normalizeIncomingDnsOverrideRecord o = Some o.
Proof.
  intros (Hv & Hl & Ht). unfold normalizeIncomingDnsOverrideRecord, normalizeDnsOverrideHostname, normalizeDnsOverrideAddress.
  rewrite (js_trim_no_ws _ (valid_hostname_no_ws _ Hv)), Hl, Hv. cbn [negb]. destruct o as [id hostname target c u]; cbn in *.
  destruct target as [rule|address].
  - apply truthy_spec in Ht. by rewrite Ht.
  - destruct Ht as (Htr & Hne & Hip). rewrite Htr. apply truthy_spec in Hne. rewrite Hne. cbn.
    by destruct (N.eqb_spec (isIP address) 0).
Qed.
Lemma omap_id_Forall {A} (f : A → option A) (l : list A) : (∀ x, x ∈ l → f x = Some x) → omap f l = l.
Proof.
  induction l as [|a l IH]; intros H; [done|]. cbn. rewrite H by left. f_equal. apply IH. intros x Hx. apply H. by right.
Qed.
(** Restoring the list read before changes nothing but the order. *)
Lemma rollback_perm overrides : (∀ o, o ∈ overrides → valid_override o) → dns_replaceAll (dns_list overrides) ≡ₚ overrides.
Proof.
  intros Hv. unfold dns_replaceAll, dns_list. rewrite omap_id_Forall; [by rewrite !js_sort_perm|].
  intros o Ho. apply normalize_valid, Hv. by rewrite <- js_sort_perm.
Qed.
Lemma DnsInv_perm overrides s : overrides ≡ₚ st_overrides s → DnsInv s → DnsInv (with_overrides overrides s).
Proof.
  intros Hp [H1 H2 H3 H4 H5 H6]. split; cbn; try done.
  - by rewrite Hp.
  - by rewrite Hp.
  - intros o Ho. apply H5. by rewrite <- Hp.
  - intros o id Ho. apply H6. by rewrite <- Hp.
Qed.
Lemma DnsInv_filter P s outbox :
  DnsInv s → DnsInv {| st_rules := st_rules s; st_overrides := List.filter P (st_overrides s); st_outbox := outbox |}.
Proof.
  intros [H1 H2 H3 H4 H5 H6]. split; cbn; try done.
  - by apply NoDup_fmap_filter.
  - by apply NoDup_fmap_filter.
  - intros o [Ho _]%filter_In_elem. by apply H5.
  - intros o id [Ho _]%filter_In_elem. by apply H6.
Qed.

(** What [toRecord] makes is new in its name, valid, and linked to a stored rule. *)
Lemma dns_toRecord_ok id draft createdAt updatedAt rules overrides record :
  (∀ r, r ∈ rules → js_trim (pf_id r) ≠ []) →
  dns_toRecord id draft createdAt updatedAt rules overrides = Ok record →
  dns_id record = id ∧ valid_override record
  ∧ (∀ r, r ∈ overrides → dns_hostname r = dns_hostname record → dns_id r = id)
  ∧ ∀ rule, dns_target record = dns_linked rule → rule ∈ pf_id <$> rules.
Proof.
  intros Hrules. unfold dns_toRecord. destruct (negb _) eqn:Ev; [done|]. apply negb_false_iff in Ev.
  destruct (existsb _ overrides) eqn:Ee; [done|].
  assert (Hname : ∀ r, r ∈ overrides → dns_hostname r = normalizeDnsOverrideHostname (dd_hostname draft) → dns_id r = id).
  { intros r Hr Hh. pose proof (proj1 (existsb_false _ _) Ee r Hr) as H. cbn in H. rewrite bool_decide_eq_true_2 in H by done.
    cbn in H. apply bool_decide_eq_false in H. by apply dec_stable in H. }
  assert (Hlow : toLowerCase (normalizeDnsOverrideHostname (dd_hostname draft)) = normalizeDnsOverrideHostname (dd_hostname draft))
    by apply toLowerCase_idem.
  destruct (dd_target draft) as [rule|address].
  - destruct (pf_getById rule rules) as [r|] eqn:Er; [|done]. apply find_Some_1 in Er as [Hr _].
    destruct (negb _); [done|]. intros [= <-]. cbn. split_and!; [done|split_and!; [done..|by apply Hrules]|done|].
    intros ? [= <-]. by apply list_elem_of_fmap_2.
  - destruct (_ || _) eqn:Ea; [done|]. apply orb_false_iff in Ea as [Ha1 Ha2]. intros [= <-]. cbn.
    apply negb_false_iff, truthy_spec in Ha1. apply N.eqb_neq in Ha2.
    split; [done|]. split; [|by split]. split; [done|]. split; [done|]. split; [apply js_trim_idemp|done].
Qed.

Lemma DnsInv_create newId timestamp draft s overrides record :
  DnsInv s → newId ∉ dns_id <$> st_overrides s → dns_create newId timestamp draft (st_rules s) (st_overrides s) = Ok (overrides, record) →
  DnsInv (with_overrides overrides s) ∧ overrides = st_overrides s ++ [record] ∧ dns_id record = newId.
Proof.
  intros [H1 H2 H3 H4 H5 H6] Hfresh. unfold dns_create.
  destruct (dns_toRecord newId draft _ _ _ _) as [r|e] eqn:Er; cbn; [|done]. intros [= <- <-].
  apply dns_toRecord_ok in Er as (Hid & Hv & Hname & Hrule); [|done]. split; [|done]. split; cbn; try done.
  - rewrite fmap_app. apply NoDup_app. split_and!; [done| |apply NoDup_singleton]. intros x Hx ->%list_elem_of_singleton. by rewrite Hid in Hx.
  - rewrite fmap_app. apply NoDup_app. split_and!; [done| |apply NoDup_singleton]. intros x Hx ->%list_elem_of_singleton.
    apply list_elem_of_fmap in Hx as (o & Ho & Hin). apply Hfresh. rewrite <- (Hname o); [|done|done]. by apply list_elem_of_fmap_2.
  - intros o [Ho| ->%list_elem_of_singleton]%elem_of_app; auto.
  - intros o id [Ho| ->%list_elem_of_singleton]%elem_of_app; [by apply H6|apply Hrule].
Qed.

(** Replacing the entry of an id keeps distinctness, if the new value is new. *)
Lemma NoDup_replace {B} (f : DnsOverrideRecord → B) record overrides :
  NoDup (dns_id <$> overrides) → NoDup (f <$> overrides) →
  (∀ r, r ∈ overrides → f r = f record → dns_id r = dns_id record) →
  NoDup (f <$> ((λ entry, if decide (dns_id entry = dns_id record) then record else entry) <$> overrides)).
Proof.
  intros Hids Hn Hnew. induction overrides as [|o overrides IH]; [constructor|].
  rewrite !fmap_cons in *. apply NoDup_cons in Hids as [Hid Hids], Hn as [Hf Hn]. apply NoDup_cons. split.
  - intros Hin. apply list_elem_of_fmap in Hin as (y & Hy & (e & -> & He)%list_elem_of_fmap).
    destruct (decide (dns_id o = dns_id record)) as [Eo|Eo], (decide (dns_id e = dns_id record)) as [Ee|Ee].
    + apply Hid. rewrite Eo, <- Ee. by apply list_elem_of_fmap_2.
    + apply Ee, Hnew; [by right|done].
    + apply Eo, Hnew; [by left|done].
    + apply Hf. rewrite Hy. by apply list_elem_of_fmap_2.
  - apply IH; [done|done|]. intros r Hr. apply Hnew. by right.
Qed.
Lemma DnsInv_update id timestamp draft s overrides record :
  DnsInv s → dns_update id timestamp draft (st_rules s) (st_overrides s) = Ok (overrides, record) → DnsInv (with_overrides overrides s).
Proof.
  intros [H1 H2 H3 H4 H5 H6]. unfold dns_update. destruct (dns_getById id _) as [current|]; [|done].
  destruct (dns_toRecord id draft _ _ _ _) as [r|e] eqn:Er; cbn; [|done]. intros [= <- <-].
  apply dns_toRecord_ok in Er as (Hid & Hv & Hname & Hrule); [|done]. rewrite <- Hid.
  assert (Helem : ∀ o, o ∈ ((λ entry, if decide (dns_id entry = dns_id r) then r else entry) <$> st_overrides s) → o = r ∨ o ∈ st_overrides s).
  { intros o (e & -> & He)%list_elem_of_fmap. case_decide; auto. }
  split; cbn; try done.
  - apply NoDup_replace; [done|done|]. done.
  - apply NoDup_replace; [done|done|]. intros o Ho E. rewrite Hid. by apply Hname.
  - intros o [-> |Ho]%Helem; auto.
  - intros o rule [-> |Ho]%Helem; [apply Hrule|by apply H6].
Qed.

Lemma DnsInv_rules rules s :
  (∀ id, id ∈ pf_id <$> st_rules s → id ∈ pf_id <$> rules) → NoDup (pf_id <$> rules) → (∀ r, r ∈ rules → js_trim (pf_id r) ≠ []) →
  DnsInv s → DnsInv (with_rules rules s).
Proof. intros Hids Hn Hb [H1 H2 H3 H4 H5 H6]. split; cbn; try done. intros o id Ho Ht. by eapply Hids, H6. Qed.

(** *** Removing a rule takes its overrides along *)

Definition queued (kind : SyncKind) (id : jsstring) (outbox : list SyncDeletionRecord) : Prop :=
  ∃ d, d ∈ outbox ∧ del_kind d = kind ∧ del_recordId d = id.
Lemma queued_upsert kind id timestamp outbox kind' id' :
  queued kind' id' (upsertDeletion kind id timestamp outbox) ↔ (kind' = kind ∧ id' = id) ∨ queued kind' id' outbox.
Proof.
  unfold upsertDeletion. set (new := {| del_kind := kind; del_recordId := id; del_deletedAt := timestamp |}).
  destruct (findIndex _ outbox) as [i|] eqn:Ei.
  - apply findIndex_Some in Ei as (old & Hold & Hk). apply andb_true_iff in Hk as [Hk%bool_decide_eq_true Hid%bool_decide_eq_true].
    split.
    + intros (d & Hd & <- & <-). apply list_elem_of_lookup in Hd as [j Hj].
      apply list_lookup_insert_Some in Hj as [(_ & <- & _)|[_ Hj]]; [by left|right]. exists d. split; [by eapply list_elem_of_lookup_2|done].
    + assert (Hnew : new ∈ <[i:=new]> outbox).
      { apply list_elem_of_lookup. exists i. apply list_lookup_insert_eq. by eapply lookup_lt_Some. }
      intros [[-> ->]|(d & Hd & <- & <-)]; [by exists new|]. apply list_elem_of_lookup in Hd as [j Hj].
      destruct (decide (j = i)) as [->|Hne]; [exists new; simplify_eq; done|].
      exists d. split; [|done]. apply list_elem_of_lookup. exists j. by rewrite list_lookup_insert_ne.
  - unfold queued. setoid_rewrite elem_of_app. setoid_rewrite list_elem_of_singleton. split.
    + intros (d & [Hd| ->] & <- & <-); [right; by exists d|by left].
    + intros [[-> ->]|(d & Hd & ? & ?)]; [exists new; split_and!; [by right|done..]|exists d; split_and!; [by left|done..]].
Qed.

Lemma remove_linked_spec timestamp (linked : list DnsOverrideRecord) overrides outbox :
  let '(overrides', outbox') :=
    foldl (λ '(overrides, outbox) override,
             (dns_remove (dns_id override) overrides, upsertDeletion k_dnsOverrides (dns_id override) timestamp outbox))
          (overrides, outbox) linked in
  overrides' = List.filter (λ o, negb (bool_decide (dns_id o ∈ dns_id <$> linked))) overrides
  ∧ ∀ kind id, queued kind id outbox' ↔ (kind = k_dnsOverrides ∧ id ∈ dns_id <$> linked) ∨ queued kind id outbox.
Proof.
  revert overrides outbox. induction linked as [|l linked IH]; intros overrides outbox; cbn [foldl].
  - split; [|set_solver]. symmetry. apply filter_all. intros o _. cbn. rewrite bool_decide_eq_false_2; [done|]. apply not_elem_of_nil.
  - specialize (IH (dns_remove (dns_id l) overrides) (upsertDeletion k_dnsOverrides (dns_id l) timestamp outbox)).
    destruct (foldl _ _ linked) as [overrides' outbox']. destruct IH as [-> Hq]. split.
    + unfold dns_remove. clear. induction overrides as [|o overrides IH]; [done|]. cbn [List.filter].
      rewrite fmap_cons. destruct (decide (dns_id o = dns_id l)) as [E|E].
      * rewrite bool_decide_eq_false_2 by (intros H; by apply H). rewrite (bool_decide_eq_true_2 (_ ∈ _)) by (rewrite E; left).
        cbn. by rewrite IH, fmap_cons.
      * rewrite bool_decide_eq_true_2 by done. cbn [List.filter].
        rewrite (bool_decide_ext (dns_id o ∈ dns_id l :: (dns_id <$> linked)) (dns_id o ∈ dns_id <$> linked)) by set_solver.
        rewrite IH, fmap_cons. done.
    + intros kind id. rewrite Hq, queued_upsert, fmap_cons, elem_of_cons. naive_solver.
Qed.

Lemma handle_pf_remove_spec id timestamp s s' :
  DnsInv s → handle_pf_remove id timestamp s = (s', None) →
  DnsInv s' ∧ st_rules s' = pf_remove id (st_rules s)
  ∧ st_overrides s' = List.filter (λ o, negb (linked_to id o)) (st_overrides s)
  ∧ ∀ kind i, queued kind i (st_outbox s') ↔
      (kind = k_portForwards ∧ i = id)
      ∨ (kind = k_dnsOverrides ∧ ∃ o, o ∈ st_overrides s ∧ linked_to id o = true ∧ dns_id o = i)
      ∨ queued kind i (st_outbox s).
Proof.
  intros Hinv. pose proof Hinv as [H1 H2 H3 H4 H5 H6]. unfold handle_pf_remove.
  set (linked := List.filter (linked_to id) (dns_list (st_overrides s))).
  pose proof (remove_linked_spec timestamp linked (st_overrides s) (st_outbox s)) as Hr.
  destruct (foldl _ _ linked) as [overrides outbox]. destruct Hr as [-> Hq]. intros [= <-].
  assert (Hlinked : ∀ o, o ∈ linked ↔ o ∈ st_overrides s ∧ linked_to id o = true).
  { intros o. unfold linked, dns_list. by rewrite filter_In_elem, elem_js_sort. }
  assert (Hf : List.filter (λ o, negb (bool_decide (dns_id o ∈ dns_id <$> linked))) (st_overrides s)
             = List.filter (λ o, negb (linked_to id o)) (st_overrides s)).
  { apply filter_ext_in. intros o Ho%list_elem_of_In. f_equal. apply eq_iff_eq_true. rewrite bool_decide_eq_true, list_elem_of_fmap. split.
    - intros (o' & E & [Ho' Hl]%Hlinked). by rewrite (NoDup_fmap_inj _ _ _ _ H3 Ho Ho' E).
    - intros Hl. exists o. by rewrite Hlinked. }
  split; [|split; [done|split; [exact Hf|]]].
  - split; cbn; rewrite ?Hf; try (by apply NoDup_fmap_filter); try (by intros o [Ho _]%filter_In_elem; apply H5).
    + intros r [Hr _]%filter_In_elem. by apply H2.
    + intros o rule [Ho Hl]%filter_In_elem Ht. specialize (H6 _ _ Ho Ht). apply list_elem_of_fmap in H6 as (r & -> & Hr).
      apply list_elem_of_fmap. exists r. split; [done|]. apply filter_In_elem. split; [done|]. apply bool_decide_eq_true.
      intros E. unfold linked_to in Hl. rewrite Ht, E, bool_decide_eq_true_2 in Hl by done. done.
  - intros kind i. cbn. rewrite queued_upsert, Hq, list_elem_of_fmap. setoid_rewrite Hlinked. naive_solver.
Qed.

(** ** The calls, in any order *)

Inductive dns_step (hosts : list HostRecord) (s : DnsState) : DnsState → Prop :=
| ds_create rewritten newId timestamp draft :
    newId ∉ dns_id <$> st_overrides s → dns_step hosts s (handle_dns_create rewritten newId timestamp draft s).1
| ds_update rewritten id timestamp draft : dns_step hosts s (handle_dns_update rewritten id timestamp draft s).1
| ds_remove rewritten id timestamp : dns_step hosts s (handle_dns_remove rewritten id timestamp s).1
| ds_pf_create newId timestamp draft :
    newId ∉ pf_id <$> st_rules s → js_trim newId ≠ [] → dns_step hosts s (handle_pf_create hosts newId timestamp draft s).1
| ds_pf_update id timestamp draft : dns_step hosts s (handle_pf_update hosts id timestamp draft s).1
| ds_pf_remove id timestamp : dns_step hosts s (handle_pf_remove id timestamp s).1.

Lemma pf_toRecord_id id draft createdAt updatedAt : pf_id (pf_toRecord id draft createdAt updatedAt) = id.
Proof. unfold pf_toRecord. by destruct (pd_transport draft). Qed.
Lemma dns_step_inv hosts s s' : DnsInv s → dns_step hosts s s' → DnsInv s'.
Proof.
  intros Hs [rewritten newId timestamp draft Hfresh|rewritten id timestamp draft|rewritten id timestamp
    |newId timestamp draft Hfresh Hblank|id timestamp draft|id timestamp].
  - unfold handle_dns_create. destruct (dns_create _ _ _ _ _) as [[overrides record]|e] eqn:E; [|done].
    destruct (DnsInv_create _ _ _ _ _ _ Hs Hfresh E) as (Hinv & -> & Hid). destruct rewritten; [exact Hinv|]. cbn.
    unfold dns_remove. rewrite List.filter_app. cbn. rewrite bool_decide_eq_false_2 by (intros H; by apply H). rewrite app_nil_r, filter_all.
    + by destruct s.
    + intros o Ho. apply bool_decide_eq_true. intros E'. apply Hfresh. rewrite <- Hid, <- E'. by apply list_elem_of_fmap_2.
  - unfold handle_dns_update. destruct (dns_update _ _ _ _ _) as [[overrides record]|e] eqn:E; [|done].
    destruct rewritten; [by eapply DnsInv_update|]. apply DnsInv_perm; [|done]. apply rollback_perm, Hs.
  - unfold handle_dns_remove. destruct rewritten; [by apply DnsInv_filter|]. apply DnsInv_perm; [|done]. apply rollback_perm, Hs.
  - unfold handle_pf_create. destruct (negb _); [done|]. cbn. destruct Hs as [H1 H2 H3 H4 H5 H6].
    assert (Hid := pf_toRecord_id newId draft timestamp timestamp). apply DnsInv_rules; [|..|by split].
    + intros id Hin. rewrite fmap_app. apply elem_of_app. by left.
    + rewrite fmap_app. apply NoDup_app. split_and!; [done| |apply NoDup_singleton]. intros x Hx ->%list_elem_of_singleton. by rewrite Hid in Hx.
    + intros r [Hr| ->%list_elem_of_singleton]%elem_of_app; [by apply H2|]. by rewrite Hid.
  - unfold handle_pf_update. destruct (negb _); [done|]. unfold pf_update. destruct (pf_getById id _) as [current|] eqn:Ec; [|done]. cbn.
    apply find_Some_1 in Ec as [Hc Hcid%bool_decide_eq_true]. destruct Hs as [H1 H2 H3 H4 H5 H6].
    set (f := λ entry : PortForwardRuleRecord, if decide (pf_id entry = id) then pf_toRecord id draft (pf_createdAt current) timestamp else entry).
    assert (Hf : ∀ r, pf_id (f r) = pf_id r) by (intros r; unfold f; case_decide; [by rewrite pf_toRecord_id|done]).
    assert (Hids : pf_id <$> (f <$> st_rules s) = pf_id <$> st_rules s).
    { rewrite <- list_fmap_compose. apply list_fmap_ext. intros ? r _. apply Hf. }
    apply DnsInv_rules; [by rewrite Hids|by rewrite Hids| |by split].
    intros r (r0 & -> & Hr0)%list_elem_of_fmap. rewrite Hf. by apply H2.
  - destruct (handle_pf_remove id timestamp s) as [s1 o] eqn:E. assert (o = None) as -> by (unfold handle_pf_remove in E; case_match; by simplify_eq).
    by eapply handle_pf_remove_spec.
Qed.

(** C29: Whatever rules and overrides are created, changed and removed, with or without the
    hosts file being rewritten, the stored overrides have distinct ids and distinct valid
    lower-case names, static ones an IP address, and every linked one a stored rule:
    removing a rule removes exactly its overrides, and queues a deletion for it and for
    each of them. *)
Theorem dns_store_invariant hosts s s' :
  DnsInv s → rtc (dns_step hosts) s s' →
  DnsInv s' ∧ ∀ id timestamp s'', handle_pf_remove id timestamp s' = (s'', None) →
    st_overrides s'' = List.filter (λ o, negb (linked_to id o)) (st_overrides s')
    ∧ ∀ kind i, queued kind i (st_outbox s'') ↔
        (kind = k_portForwards ∧ i = id)
        ∨ (kind = k_dnsOverrides ∧ ∃ o, o ∈ st_overrides s' ∧ linked_to id o = true ∧ dns_id o = i)
        ∨ queued kind i (st_outbox s').
Proof.
  intros Hs Hsteps. assert (Hs' : DnsInv s') by (induction Hsteps; eauto using dns_step_inv).
  split; [done|]. intros id timestamp s'' Hr. destruct (handle_pf_remove_spec _ _ _ _ Hs' Hr) as (_ & _ & Ho & Hq). done.
Qed.

(** *** The names redirected now *)

(** What the entries of the hosts file are to be. *)
Definition redirected (s : DnsState) (runtimes : list PortForwardRuntimeRecord) (activeStaticOverrideIds : list jsstring)
    (override : DnsOverrideRecord) (address : jsstring) : Prop :=
  match dns_target override with
  | dns_static stored => dns_id override ∈ activeStaticOverrideIds ∧ address = stored
  | dns_linked id =>
      ∃ rule runtime, rule ∈ st_rules s ∧ pf_id rule = id ∧ runtime ∈ runtimes ∧ rt_ruleId runtime = id
        ∧ rt_status runtime = run_running ∧ isDnsOverrideEligiblePortForwardRule rule = true
        ∧ isLoopbackBindAddress (Some (rt_bindAddress runtime)) = true
        ∧ address = js_trim (rt_bindAddress runtime) ∧ address ≠ []
  end.
Definition entry_of (o : DnsOverrideRecord) (address : jsstring) : ActiveDnsOverrideEntry :=
  {| en_hostname := dns_hostname o; en_address := address; en_ruleId := override_rule_id o |}.

Lemma valid_hostname_no_nul hostname : isValidDnsOverrideHostname hostname = true → 0%N ∉ hostname ∧ hostname ≠ [].
Proof.
  intros H. split; [|by intros ->].
  assert (Hf : Forall (λ c, c ≠ 0%N) hostname); [|intros Hin; by eapply Forall_forall in Hf].
  unfold isValidDnsOverrideHostname in H. destruct (_ || _); [done|]. rewrite <- (js_join_split 46 hostname).
  apply js_join_Forall; [done|]. apply Forall_forall. intros label Hl. eapply forallb_spec in H; [|exact Hl].
  assert (Ha : ∀ c, is_alnum c = true → c ≠ 0%N) by (intros c Hc ->; discriminate Hc).
  destruct label as [|c rest]; [done|]. cbn in H. apply andb_true_iff in H as [Hc Hr]. constructor; [by apply Ha|].
  apply Forall_reverse. destruct (reverse rest) as [|d middle]; [constructor|].
  rewrite !andb_true_iff in Hr. destruct Hr as [[Hd Hm] _]. constructor; [by apply Ha|].
  apply Forall_forall. intros x Hx ->. by pose proof (proj1 (forallb_spec _ _) Hm _ Hx).
Qed.
Lemma nul_key_inj (a b c d : jsstring) : 0%N ∉ a → 0%N ∉ c → a ++ 0%N :: b = c ++ 0%N :: d → a = c ∧ b = d.
Proof.
  revert c. induction a as [|x a IH]; intros [|y c] Ha Hc; cbn.
  - by intros [= ->].
  - intros [= <- _]. exfalso. apply Hc. by left.
  - intros [= -> _]. exfalso. apply Ha. by left.
  - intros [= -> H]. apply IH in H as [-> ->]; [done|set_solver..].
Qed.
Lemma mget_keyed {A} (f : A → jsstring) (l : list A) k x :
  NoDup (f <$> l) → mget k (mof ((λ x, (f x, x)) <$> l)) = Some x ↔ x ∈ l ∧ f x = k.
Proof.
  intros Hn. assert (Hk : NoDup ((λ x, (f x, x)) <$> l).*1) by (rewrite <- list_fmap_compose; exact Hn).
  rewrite mof_id by done. split.
  - intros (y & [= -> ->] & Hy)%mget_Some_elem%list_elem_of_fmap. done.
  - intros [Hx <-]. apply elem_mget; [done|]. apply list_elem_of_fmap. by exists x.
Qed.
Lemma active_address_redirected s runtimes ids o address :
  DnsInv s → NoDup (rt_ruleId <$> runtimes) → o ∈ st_overrides s → address ≠ [] →
  active_address (mof ((λ rule, (pf_id rule, rule)) <$> pf_list (st_rules s)))
    (mof ((λ runtime, (rt_ruleId runtime, runtime)) <$> runtimes)) ids o = Some address
  ↔ redirected s runtimes ids o address.
Proof.
  intros Hs Hrt Ho Hne. unfold active_address, redirected. destruct (dns_target o) as [id|stored] eqn:Et.
  - assert (Hrules : NoDup (pf_id <$> pf_list (st_rules s))) by (unfold pf_list; rewrite js_sort_perm; apply Hs).
    pose proof (λ x, mget_keyed pf_id (pf_list (st_rules s)) id x Hrules) as Hm.
    pose proof (λ x, mget_keyed rt_ruleId runtimes id x Hrt) as Hm'.
    destruct (mget id (mof (_ <$> pf_list _))) as [rule|]; destruct (mget id (mof (_ <$> runtimes))) as [runtime|].
    + destruct (proj1 (Hm _) eq_refl) as [Hr Hrid]. destruct (proj1 (Hm' _) eq_refl) as [Hu Huid]. split.
      * case_bool_decide as Hrun; [|done]. cbn. destruct (isDnsOverrideEligiblePortForwardRule rule) eqn:Ee; [|done].
        destruct (isLoopbackBindAddress _) eqn:El; [|done]. intros [= <-]. exists rule, runtime.
        split; [by apply elem_js_sort in Hr|done].
      * intros (rule' & runtime' & Hr' & Hid' & Hu' & Huid' & Hrun & He & Hl & -> & _).
        assert (Some rule = Some rule') as [= <-] by (apply Hm; split; [by apply elem_js_sort|done]).
        assert (Some runtime = Some runtime') as [= <-] by by apply Hm'.
        rewrite bool_decide_eq_true_2 by done. by rewrite He, Hl.
    + split; [done|]. intros (? & runtime' & _ & _ & Hu' & Huid' & _). by assert (None = Some runtime') by by apply Hm'.
    + split; [done|]. intros (rule' & ? & Hr' & Hid' & _).
      by assert (None = Some rule') by (apply Hm; split; [by apply elem_js_sort|done]).
    + split; [done|]. intros (? & runtime' & _ & _ & Hu' & Huid' & _). by assert (None = Some runtime') by by apply Hm'.
  - destruct (di_valid _ Hs _ Ho) as (_ & _ & Hv). rewrite Et in Hv. destruct Hv as [-> _].
    destruct (shas _ ids) eqn:Eh; [apply shas_spec in Eh|].
    + split; [by intros [= <-]|by intros [_ ->]].
    + split; [done|]. intros [Hin%shas_spec _]. congruence.
Qed.

(** The keys seen are never in the way of stored overrides, which have distinct names. *)
Lemma entry_step_fold ruleMap runtimeMap ids overrides seen entries :
  NoDup (dns_hostname <$> overrides) → (∀ o, o ∈ overrides → valid_override o) →
  (∀ key, key ∈ seen → ∃ hostname address, key = hostname ++ 0%N :: address ∧ 0%N ∉ hostname ∧ hostname ∉ dns_hostname <$> overrides) →
  (foldl (entry_step ruleMap runtimeMap ids) (seen, entries) overrides).2
  = entries ++ omap (λ o, match active_address ruleMap runtimeMap ids o with
                          | Some address => if truthy address then Some (entry_of o address) else None
                          | None => None end) overrides.
Proof.
  revert seen entries. induction overrides as [|o overrides IH]; intros seen entries Hn Hv Hs; [by rewrite app_nil_r|].
  rewrite fmap_cons in Hn. apply NoDup_cons in Hn as [Ho Hn].
  destruct (Hv o ltac:(by left)) as (Hvo & Hlow & _). destruct (valid_hostname_no_nul _ Hvo) as [Hnul Hne].
  assert (Hv' : ∀ o, o ∈ overrides → valid_override o) by (intros o' Ho'; apply Hv; by right).
  assert (Hs' : ∀ key, key ∈ seen → ∃ hostname address,
             key = hostname ++ 0%N :: address ∧ 0%N ∉ hostname ∧ hostname ∉ dns_hostname <$> overrides).
  { intros key (h & a & ? & ? & Hh)%Hs. exists h, a. rewrite fmap_cons in Hh. set_solver. }
  cbn [foldl omap list_omap]. unfold entry_step at 2.
  rewrite (js_trim_no_ws _ (valid_hostname_no_ws _ Hvo)), Hlow.
  destruct (active_address ruleMap runtimeMap ids o) as [address|]; [|by apply IH].
  apply truthy_spec in Hne. rewrite Hne. cbn [negb orb]. destruct (truthy address) eqn:Ea; cbn [negb orb]; [|by apply IH].
  destruct (shas _ seen) eqn:Eseen.
  - apply shas_spec, Hs in Eseen as (h & a & E & Hh & Hin). apply nul_key_inj in E as [<- _]; [|done..].
    exfalso. apply Hin. rewrite fmap_cons. by left.
  - rewrite IH; [by rewrite <- app_assoc|done..|]. intros key [->|Hk]%elem_sadd; [|by apply Hs']. by exists (dns_hostname o), address.
Qed.
Lemma collect_entries_perm s runtimes ids :
  DnsInv s →
  collectActiveDnsOverrideEntries (dns_list (st_overrides s)) (pf_list (st_rules s)) runtimes ids
  ≡ₚ omap (λ o, match active_address (mof ((λ rule, (pf_id rule, rule)) <$> pf_list (st_rules s)))
                        (mof ((λ runtime, (rt_ruleId runtime, runtime)) <$> runtimes)) ids o with
                | Some address => if truthy address then Some (entry_of o address) else None
                | None => None end) (dns_list (st_overrides s)).
Proof.
  intros Hs. unfold collectActiveDnsOverrideEntries. rewrite js_sort_perm, entry_step_fold; [done|..].
  - unfold dns_list. rewrite js_sort_perm. apply Hs.
  - intros o Ho%elem_js_sort. by apply Hs.
  - intros key []%elem_of_nil.
Qed.

Lemma NoDup_omap_key {A B C} (f : A → C) (g : A → option B) (h : B → C) (l : list A) :
  NoDup (f <$> l) → (∀ a b, g a = Some b → h b = f a) → NoDup (h <$> omap g l).
Proof.
  intros Hn Hg. induction l as [|a l IH]; [constructor|]. rewrite fmap_cons in Hn. apply NoDup_cons in Hn as [Ha Hn]. cbn.
  destruct (g a) as [b|] eqn:E; [|by apply IH]. rewrite fmap_cons. apply NoDup_cons. split; [|by apply IH].
  intros (b' & Hb & (a' & Ha' & E')%list_elem_of_omap)%list_elem_of_fmap. apply Ha. apply list_elem_of_fmap. exists a'.
  split; [|done]. by rewrite <- (Hg _ _ E), <- (Hg _ _ E').
Qed.

(** C30: The entries written to the hosts file are exactly the stored overrides that are to
    be redirected now, each name once: a static one that is switched on, to its address; a
    linked one only while an eligible rule runs, and only to the loopback address the
    forward listens on.  An override is shown as active exactly if it has an entry. *)
Theorem dns_entries_exact s runtimes ids :
  DnsInv s → NoDup (rt_ruleId <$> runtimes) →
  let overrides := dns_list (st_overrides s) in
  let entries := collectActiveDnsOverrideEntries overrides (pf_list (st_rules s)) runtimes ids in
  NoDup (en_hostname <$> entries)
  ∧ (∀ e, e ∈ entries ↔ ∃ o address, o ∈ st_overrides s ∧ redirected s runtimes ids o address ∧ e = entry_of o address)
  ∧ (∀ o status, (o, status) ∈ resolveDnsOverrideRecords overrides (pf_list (st_rules s)) runtimes ids ↔
       o ∈ st_overrides s ∧ (status = true ↔ ∃ address, redirected s runtimes ids o address)).
Proof.
  intros Hs Hrt overrides entries. pose proof (collect_entries_perm s runtimes ids Hs) as Hp. fold overrides entries in Hp.
  assert (Hnames : NoDup (dns_hostname <$> overrides)) by (unfold overrides, dns_list; rewrite js_sort_perm; apply Hs).
  assert (He : ∀ e, e ∈ entries ↔ ∃ o address, o ∈ st_overrides s ∧ redirected s runtimes ids o address ∧ e = entry_of o address).
  { intros e. rewrite Hp, list_elem_of_omap. split.
    - intros (o & Ho%elem_js_sort & E). destruct (active_address _ _ _ o) as [address|] eqn:Ea; [|done].
      destruct (truthy address) eqn:Et; [|done]. injection E as <-.
      apply truthy_spec in Et. exists o, address. split_and!; [done| |done]. by apply active_address_redirected.
    - intros (o & address & Ho & Hr & ->). exists o. split; [by apply elem_js_sort|].
      assert (Hne : address ≠ []).
      { unfold redirected in Hr. destruct (di_valid _ Hs _ Ho) as (_ & _ & Hv). destruct (dns_target o); [naive_solver|].
        by destruct Hr as [_ ->], Hv as (_ & ? & _). }
      apply active_address_redirected in Hr as ->; [|done..]. apply truthy_spec in Hne. by rewrite Hne. }
  split; [|split; [exact He|]].
  - rewrite Hp. apply (NoDup_omap_key dns_hostname); [done|]. intros o e E. case_match; [|done]. case_match; [|done]. by injection E as <-.
  - intros o status. unfold resolveDnsOverrideRecords. rewrite list_elem_of_fmap. fold entries.
    assert (Hact : ∀ o, o ∈ st_overrides s →
        shas (toLowerCase (js_trim (dns_hostname o)) ++ 0%N :: override_rule_id o)
          (sof ((λ entry, en_hostname entry ++ 0%N :: en_ruleId entry) <$> entries)) = true ↔ ∃ address, redirected s runtimes ids o address).
    { intros o' Ho'. destruct (di_valid _ Hs _ Ho') as (Hv & Hl & _). rewrite (js_trim_no_ws _ (valid_hostname_no_ws _ Hv)), Hl.
      rewrite shas_spec, elem_sof, list_elem_of_fmap. split.
      - intros (e & E & (o2 & address & Ho2 & Hr & ->)%He). destruct (di_valid _ Hs _ Ho2) as (Hv2 & _). cbn in E.
        apply nul_key_inj in E as [E _]; [|by apply valid_hostname_no_nul..].
        rewrite (NoDup_fmap_inj _ _ _ _ (di_hostnames _ Hs) Ho' Ho2 E). by exists address.
      - intros [address Hr]. exists (entry_of o' address). split; [done|]. apply He. by exists o', address. }
    split.
    + intros (o' & [= -> ->] & Ho%elem_js_sort). split; [done|]. by apply Hact.
    + intros [Ho Hst]. exists o. split; [|by apply elem_js_sort]. f_equal. apply eq_iff_eq_true. by rewrite Hact.
Qed.
End overrides.

(** ** On concrete stores *)

Lemma ascii_lower_idem s : ascii_lower (ascii_lower s) = ascii_lower s.
Proof.
  unfold ascii_lower. rewrite <- list_fmap_compose. apply list_fmap_ext. intros _ c _. cbn.
  destruct ((65 <=? c) && (c <=? 90))%N eqn:E; [|by rewrite E].
  apply andb_true_iff in E as [H1%N.leb_le H2%N.leb_le]. by rewrite (proj2 (N.leb_gt (c + 32) 90)), andb_false_r by lia.
Qed.
Definition ascii_lower_case : LowerCase := {| toLowerCase := ascii_lower; toLowerCase_idem := ascii_lower_idem |}.
(** An [isIP] that knows one address. *)
Definition one_address : NetIsIP := λ s, if decide (s = js "10.0.0.7") then 4%N else 0%N.
#[local] Existing Instance unit_collator.
#[local] Existing Instance ascii_lower_case.
#[local] Existing Instance one_address.

Definition db_rule : PortForwardRuleRecord :=
  pf_toRecord (js "r1") {| pd_label := js " db "; pd_hostId := js "h"; pd_bindAddress := js " 127.0.0.1"; pd_bindPort := 5432;
                           pd_transport := tr_ssh pf_local (Some (js "db.internal")) (Some 5432%Z) |} (js "1") (js "1").
Definition empty_store : DnsState := {| st_rules := [db_rule]; st_overrides := []; st_outbox := [] |}.
Definition linked_draft : DnsOverrideDraft := {| dd_hostname := js " DB.Example.com "; dd_target := dns_linked (js "r1") |}.
Definition static_draft : DnsOverrideDraft := {| dd_hostname := js "api.example.com"; dd_target := dns_static (js " 10.0.0.7 ") |}.
Definition two_overrides : DnsState :=
  (handle_dns_create true (js "o2") (js "3") static_draft (handle_dns_create true (js "o1") (js "2") linked_draft empty_store).1).1.

Lemma two_overrides_steps : rtc (dns_step []) empty_store two_overrides.
Proof.
  eapply rtc_l; [apply (ds_create _ _ true (js "o1") (js "2") linked_draft); apply (bool_decide_unpack _); vm_compute; exact I|].
  apply rtc_once. apply (ds_create _ _ true (js "o2") (js "3") static_draft). apply (bool_decide_unpack _). vm_compute. exact I.
Qed.
Lemma empty_store_inv : DnsInv empty_store.
Proof.
  split; cbn; try (apply (bool_decide_unpack _); vm_compute; exact I); try (by intros ? []%elem_of_nil); try (by intros ? ? []%elem_of_nil).
  by intros r ->%list_elem_of_singleton.
Qed.
Lemma two_overrides_inv : DnsInv two_overrides.
Proof. pose proof two_overrides_steps as H. pose proof empty_store_inv. induction H; eauto using dns_step_inv. Qed.

Lemma dns_store_invariant_witness :
  DnsInv two_overrides ∧ dns_id <$> st_overrides (handle_pf_remove (js "r1") (js "4") two_overrides).1 = [js "o2"].
Proof.
  destruct (dns_store_invariant [] empty_store two_overrides empty_store_inv two_overrides_steps) as [H1 H2]. split; [exact H1|].
  destruct (H2 (js "r1") (js "4") (handle_pf_remove (js "r1") (js "4") two_overrides).1) as [-> _]; vm_compute; reflexivity.
Defined.

Definition db_runtime : PortForwardRuntimeRecord :=
  {| rt_ruleId := js "r1"; rt_bindAddress := js "127.0.0.1"; rt_status := run_running |}.
Lemma dns_entries_exact_witness :
  NoDup (en_hostname <$> collectActiveDnsOverrideEntries (dns_list (st_overrides two_overrides))
           (pf_list (st_rules two_overrides)) [db_runtime] [js "o2"])
  ∧ (λ e, (en_hostname e, en_address e)) <$>
      collectActiveDnsOverrideEntries (dns_list (st_overrides two_overrides)) (pf_list (st_rules two_overrides)) [db_runtime] [js "o2"]
    = [(js "api.example.com", js "10.0.0.7"); (js "db.example.com", js "127.0.0.1")].
Proof.
  assert (Hn : NoDup (rt_ruleId <$> [db_runtime])) by (apply (bool_decide_unpack _); vm_compute; exact I).
  destruct (dns_entries_exact two_overrides [db_runtime] [js "o2"] two_overrides_inv Hn) as [H _].
  split; [exact H|vm_compute; reflexivity].
Defined.
