(* ===== verification/AwsIni.v ===== *)
(** * AWS profile files (apps/desktop/src/main/aws-profile-files.ts)

    The config and credentials files as documents of lines: their sections and values,
    the edits of one section, the references between profiles, and the profile whose
    sign-in a profile uses. *)

From S2P Require Import Prelude Collections.

Inductive SectionKind := sk_profile | sk_sso_session | sk_other.
#[export] Instance SectionKind_eq_dec : EqDecision SectionKind.
Proof. solve_decision. Defined.
Inductive FileKind := fk_config | fk_credentials.
#[export] Instance FileKind_eq_dec : EqDecision FileKind.
Proof. solve_decision. Defined.

Record IniSection := { se_kind : SectionKind; se_logicalName : jsstring; se_start : nat; se_end : nat }.
Record IniDocument := {
  doc_filePath : jsstring; doc_exists : bool; doc_dirty : bool; doc_lineEnding : jsstring;
  doc_hasTrailingNewline : bool; doc_lines : list jsstring }.
Record AwsProfileDocuments := { ad_rootDir : jsstring; ad_config : IniDocument; ad_credentials : IniDocument }.

(** The text of a property that every object has ([constructor], [toString], …), which
    [key in overrides] finds in any object; its text is the engine's. *)
Class ObjectPrototype := prototype_text : jsstring → option jsstring.

(** ** Lines *)

Definition LF : N := 10%N.
Definition CR : N := 13%N.
(** [raw.replace(/\r\n/g, "\n").replace(/\r/g, "\n")] *)
Fixpoint normalize_newlines (raw : jsstring) : jsstring :=
  match raw with
  | [] => []
  | c :: raw' =>
      if (c =? CR)%N
      then LF :: match raw' with
                 | [] => []
                 | d :: raw'' => if (d =? LF)%N then normalize_newlines raw'' else normalize_newlines raw'
                 end
      else c :: normalize_newlines raw'
  end.
Definition is_newline (c : N) : bool := (c =? LF)%N || (c =? CR)%N.
(** [s.replace(/\n$/, "")] *)
Definition drop_last_newline (s : jsstring) : jsstring :=
  match reverse s with c :: r => if (c =? LF)%N then reverse r else s | [] => s end.
Record DocumentLines := { dl_lines : list jsstring; dl_lineEnding : jsstring; dl_hasTrailingNewline : bool }.
Definition toDocumentLines (raw : jsstring) : DocumentLines :=
  let lineEnding := if includes raw [CR; LF] then [CR; LF] else [LF] in
  let hasTrailingNewline := match last raw with Some c => is_newline c | None => false end in
  let normalized := normalize_newlines raw in
  let trimmed := if hasTrailingNewline then drop_last_newline normalized else normalized in
  {| dl_lines := if truthy trimmed then js_split LF trimmed else [];
     dl_lineEnding := lineEnding; dl_hasTrailingNewline := hasTrailingNewline |}.
Definition serializeDocument (document : IniDocument) : jsstring :=
  match doc_lines document with
  | [] => []
  | lines =>
      let content := js_join (doc_lineEnding document) lines in
      if doc_hasTrailingNewline document then content ++ doc_lineEnding document else content
  end.
(** The file as it was read; [None] is a missing file.  (Any other error is thrown.) *)
Definition loadIniDocument (filePath : jsstring) (file : option jsstring) : IniDocument :=
  match file with
  | Some raw =>
      let d := toDocumentLines raw in
      {| doc_filePath := filePath; doc_exists := true; doc_dirty := false; doc_lineEnding := dl_lineEnding d;
         doc_hasTrailingNewline := dl_hasTrailingNewline d; doc_lines := dl_lines d |}
  | None =>
      {| doc_filePath := filePath; doc_exists := false; doc_dirty := false; doc_lineEnding := [LF];
         doc_hasTrailingNewline := false; doc_lines := [] |}
  end.

(** ** Sections *)

(** The header of a section: a line that is a text in brackets, with no closing bracket
    inside, and blanks around it. *)
Definition match_header (line : jsstring) : option jsstring :=
  match js_trim line with
  | c :: rest =>
      if negb (c =? 91)%N then None else
      match reverse rest with
      | d :: redaeh =>
          let header := reverse redaeh in
          if (d =? 93)%N && truthy header && negb (includes_unit header 93) then Some header else None
      | [] => None
      end
  | [] => None
  end.
Definition parseSectionHeader (header : jsstring) (fileKind : FileKind) : SectionKind * jsstring :=
  let trimmed := js_trim header in
  match fileKind with
  | fk_config =>
      if decide (trimmed = js "default") then (sk_profile, js "default")
      else if startsWith trimmed (js "profile ") then (sk_profile, js_trim (drop 8 trimmed))
      else if startsWith trimmed (js "sso-session ") then (sk_sso_session, js_trim (drop 12 trimmed))
      else (sk_other, trimmed)
  | fk_credentials => (sk_profile, trimmed)
  end.
(** The headers and where they are, and the sections they begin. *)
Fixpoint headers_from (index : nat) (lines : list jsstring) : list (jsstring * nat) :=
  match lines with
  | [] => []
  | line :: lines =>
      match match_header line with
      | Some header => (header, index) :: headers_from (S index) lines
      | None => headers_from (S index) lines
      end
  end.
Fixpoint sections_of (fileKind : FileKind) (len : nat) (headers : list (jsstring * nat)) : list IniSection :=
  match headers with
  | [] => []
  | (header, lineIndex) :: rest =>
      let '(kind, logicalName) := parseSectionHeader header fileKind in
      {| se_kind := kind; se_logicalName := logicalName; se_start := lineIndex;
         se_end := match rest with (_, next) :: _ => next | [] => len end |} :: sections_of fileKind len rest
  end.
Definition listSections (lines : list jsstring) (fileKind : FileKind) : list IniSection :=
  sections_of fileKind (length lines) (headers_from 0 lines).
Definition findSection (lines : list jsstring) (fileKind : FileKind) (kind : SectionKind) (logicalName : jsstring)
    : option IniSection :=
  List.find (λ s, bool_decide (se_kind s = kind) && bool_decide (se_logicalName s = logicalName))
    (listSections lines fileKind).

Definition parseKeyValueLine (line : jsstring) : option (jsstring * jsstring) :=
  let trimmed := js_trim line in
  if negb (truthy trimmed) || startsWith trimmed (js "#") || startsWith trimmed (js ";") then None else
  match indexOf 61 line with
  | None | Some 0 => None
  | Some separatorIndex =>
      let key := js_trim (take separatorIndex line) in
      if truthy key then Some (key, js_trim (drop (S separatorIndex) line)) else None
  end.
(** Whether a line is about a key, and the first that is from line [start] up to [stop]. *)
Definition is_key (key line : jsstring) : bool :=
  match parseKeyValueLine line with Some (key', _) => bool_decide (key' = key) | None => false end.
Definition find_key (key : jsstring) (lines : list jsstring) (start stop : nat) : option nat :=
  (λ i, start + i) <$> findIndex (is_key key) (take (stop - start) (drop start lines)).

(** [values[key] = value], which does nothing for the key [__proto__]. *)
Definition assign (values : list (jsstring * jsstring)) (line : jsstring) : list (jsstring * jsstring) :=
  match parseKeyValueLine line with
  | Some (key, value) => if decide (key = js "__proto__") then values else mset key value values
  | None => values
  end.
Definition values_of (body : list jsstring) : list (jsstring * jsstring) := foldl assign [] body.
Definition getSectionValues (lines : list jsstring) (fileKind : FileKind) (kind : SectionKind) (logicalName : jsstring)
    : list (jsstring * jsstring) :=
  match findSection lines fileKind kind logicalName with
  | None => []
  | Some section => values_of (take (se_end section - S (se_start section)) (drop (S (se_start section)) lines))
  end.

Definition getProfileHeaderLine (fileKind : FileKind) (profileName : jsstring) : jsstring :=
  match fileKind with
  | fk_config => if decide (profileName = js "default") then js "[default]" else js "[profile " ++ profileName ++ js "]"
  | fk_credentials => js "[" ++ profileName ++ js "]"
  end.
Definition getSectionHeaderLine (fileKind : FileKind) (kind : SectionKind) (logicalName : jsstring) : jsstring :=
  match kind with
  | sk_sso_session => js "[sso-session " ++ logicalName ++ js "]"
  | _ => getProfileHeaderLine fileKind logicalName
  end.
Definition getRawSectionLines (lines : list jsstring) (fileKind : FileKind) (kind : SectionKind) (logicalName : jsstring)
    : option (list jsstring) :=
  (λ section, take (se_end section - se_start section) (drop (se_start section) lines))
  <$> findSection lines fileKind kind logicalName.

(** ** Edits of a line

    The pattern of [replaceKeyValueLine], for a key with no blanks around it: a line is
    the text before the value (blanks, the key, the equals sign and the blanks after it),
    the value, which is as short as can be, and the text after it: blanks, and a comment
    that begins with # or ; and has no line terminator, if there is one. *)
Definition is_terminator (c : N) : bool := is_newline c || (c =? 8232)%N || (c =? 8233)%N.
Definition comment_tail (s : jsstring) : bool :=
  match trim_start s with
  | [] => true
  | c :: comment => ((c =? 35) || (c =? 59))%N && forallb (λ c, negb (is_terminator c)) comment
  end.
Fixpoint after_value (s : jsstring) : option jsstring :=
  if comment_tail s then Some s else
  match s with
  | [] => None
  | c :: s => if is_terminator c then None else after_value s
  end.
Definition match_key_value (line key : jsstring) : option (jsstring * jsstring) :=
  let rest := trim_start line in
  if negb (startsWith rest key) then None else
  match trim_start (drop (length key) rest) with
  | c :: rest =>
      if negb (c =? 61)%N then None else
      let rest := trim_start rest in
      (λ tail, (take (length line - length rest) line, tail)) <$> after_value rest
  | [] => None
  end.
Definition key_value_line (key value : jsstring) : jsstring := key ++ js " = " ++ value.
Definition replaceKeyValueLine (line key nextValue : jsstring) : jsstring :=
  match match_key_value line key with
  | None => key_value_line key nextValue
  | Some (before, tail) => before ++ nextValue ++ tail
  end.

(** ** Edits of a document *)

(** The document with other lines; it is to be written. *)
Definition edited (lines : list jsstring) (document : IniDocument) : IniDocument :=
  {| doc_filePath := doc_filePath document; doc_exists := doc_exists document; doc_dirty := true;
     doc_lineEnding := doc_lineEnding document; doc_hasTrailingNewline := doc_hasTrailingNewline document;
     doc_lines := lines |}.
(** A section was added: a new file ends in a newline. *)
Definition added (lines : list jsstring) (document : IniDocument) : IniDocument :=
  {| doc_filePath := doc_filePath document; doc_exists := doc_exists document; doc_dirty := true;
     doc_lineEnding := doc_lineEnding document;
     doc_hasTrailingNewline := if doc_exists document then doc_hasTrailingNewline document else true;
     doc_lines := lines |}.
Definition blank (line : jsstring) : bool := negb (truthy (js_trim line)).
(** An empty line before a section that is added, unless there is one. *)
Definition separated (lines : list jsstring) : list jsstring :=
  match last lines with
  | Some line => if blank line then lines else lines ++ [[]]
  | None => lines
  end.

Definition upsertSectionKeyValue (fileKind : FileKind) (kind : SectionKind) (logicalName key nextValue : jsstring)
    (document : IniDocument) : IniDocument :=
  let lines := doc_lines document in
  match findSection lines fileKind kind logicalName with
  | None =>
      added (separated lines ++ [getSectionHeaderLine fileKind kind logicalName; key_value_line key nextValue]) document
  | Some section =>
      match find_key key lines (S (se_start section)) (se_end section) with
      | Some i => edited (alter (λ line, replaceKeyValueLine line key nextValue) i lines) document
      | None => edited (insert_at (se_end section) (key_value_line key nextValue) lines) document
      end
  end.
Definition replaceProfileKeyValue (fileKind : FileKind) (profileName key nextValue : jsstring) (document : IniDocument)
    : IniDocument :=
  let lines := doc_lines document in
  match findSection lines fileKind sk_profile profileName with
  | None => document
  | Some section =>
      match find_key key lines (S (se_start section)) (se_end section) with
      | Some i => edited (alter (λ line, replaceKeyValueLine line key nextValue) i lines) document
      | None => edited (insert_at (se_end section) (key_value_line key nextValue) lines) document
      end
  end.
Definition removeProfileKey (fileKind : FileKind) (profileName key : jsstring) (document : IniDocument) : IniDocument :=
  let lines := doc_lines document in
  match findSection lines fileKind sk_profile profileName with
  | None => document
  | Some section =>
      match find_key key lines (S (se_start section)) (se_end section) with
      | Some i => edited (remove_at i lines) document
      | None => document
      end
  end.
Definition replaceSectionHeader (fileKind : FileKind) (logicalName nextLogicalName : jsstring) (document : IniDocument)
    : IniDocument :=
  match findSection (doc_lines document) fileKind sk_profile logicalName with
  | None => document
  | Some section =>
      edited (<[se_start section := getProfileHeaderLine fileKind nextLogicalName]> (doc_lines document)) document
  end.

(** The loops of [normalizeAfterSectionRemoval]: every pass removes a line. *)
Fixpoint collapse_blanks (fuel startLineIndex : nat) (lines : list jsstring) : list jsstring :=
  match fuel with
  | 0 => lines
  | S fuel =>
      if (0 <? startLineIndex) && (startLineIndex <? length lines)
         && match lines !! pred startLineIndex with Some line => blank line | None => false end
         && match lines !! startLineIndex with Some line => blank line | None => false end
      then collapse_blanks fuel startLineIndex (remove_at startLineIndex lines)
      else lines
  end.
Fixpoint drop_blanks (lines : list jsstring) : list jsstring :=
  match lines with
  | line :: rest => if blank line then drop_blanks rest else lines
  | [] => []
  end.
Definition normalizeAfterSectionRemoval (startLineIndex : nat) (lines : list jsstring) : list jsstring :=
  drop_blanks (collapse_blanks (length lines) startLineIndex lines).
Definition removeSection (fileKind : FileKind) (kind : SectionKind) (logicalName : jsstring) (document : IniDocument)
    : IniDocument :=
  let lines := doc_lines document in
  match findSection lines fileKind kind logicalName with
  | None => document
  | Some section =>
      edited (normalizeAfterSectionRemoval (se_start section) (take (se_start section) lines ++ drop (se_end section) lines))
        document
  end.

Definition upsertSectionLines (fileKind : FileKind) (kind : SectionKind) (logicalName : jsstring) (section_lines : list jsstring)
    (document : IniDocument) : IniDocument :=
  match section_lines with
  | [] => document
  | _ :: body =>
      let nextLines := getSectionHeaderLine fileKind kind logicalName :: body in
      let lines := doc_lines document in
      match findSection lines fileKind kind logicalName with
      | None => added (separated lines ++ nextLines) document
      | Some section => edited (take (se_start section) lines ++ nextLines ++ drop (se_end section) lines) document
      end
  end.

Definition update_reference (oldProfileName nextProfileName : jsstring) (document : IniDocument) (lineIndex : nat) : IniDocument :=
  match parseKeyValueLine (default [] (doc_lines document !! lineIndex)) with
  | Some (key, value) =>
      if bool_decide (key = js "source_profile") && bool_decide (js_trim value = oldProfileName)
      then edited (alter (λ line, replaceKeyValueLine line (js "source_profile") nextProfileName) lineIndex (doc_lines document)) document
      else document
  | None => document
  end.
Definition replaceSourceProfileReferences (oldProfileName nextProfileName : jsstring) (document : IniDocument) : IniDocument :=
  foldl (λ document section,
      foldl (update_reference oldProfileName nextProfileName) document
        (seq (S (se_start section)) (se_end section - S (se_start section))))
    document
    (List.filter (λ section, bool_decide (se_kind section = sk_profile)) (listSections (doc_lines document) fk_config)).

(** [overrides] in the order of [Object.entries]; [key in overrides] also finds the
    properties of every object. *)
Section copies.
Context {OP : ObjectPrototype}.
Implicit Types (overrides : list (jsstring * jsstring)) (documents : AwsProfileDocuments).

Definition override_of overrides (key : jsstring) : option jsstring :=
  match mget key overrides with Some value => Some value | None => prototype_text key end.
Definition override_line overrides (line : jsstring) : jsstring :=
  match parseKeyValueLine line with
  | None => line
  | Some (key, _) =>
      match override_of overrides key with
      | None => line
      | Some value => replaceKeyValueLine line key value
      end
  end.
Definition applied_key overrides (line : jsstring) : option jsstring :=
  match parseKeyValueLine line with
  | Some (key, _) => if override_of overrides key then Some key else None
  | None => None
  end.
Definition applyKeyValueOverridesToSectionLines (lines : list jsstring) overrides : list jsstring :=
  match overrides with
  | [] => lines
  | _ =>
      let body := drop 1 lines in
      let appliedKeys := sof (omap (applied_key overrides) body) in
      take 1 lines ++ (override_line overrides <$> body)
      ++ ((λ '(key, value), key_value_line key value)
          <$> List.filter (λ entry, negb (shas entry.1 appliedKeys)) overrides)
  end.

Definition with_config (documents : AwsProfileDocuments) (config : IniDocument) : AwsProfileDocuments :=
  {| ad_rootDir := ad_rootDir documents; ad_config := config; ad_credentials := ad_credentials documents |}.
Definition with_credentials (documents : AwsProfileDocuments) (credentials : IniDocument) : AwsProfileDocuments :=
  {| ad_rootDir := ad_rootDir documents; ad_config := ad_config documents; ad_credentials := credentials |}.
Definition file_of (documents : AwsProfileDocuments) (fileKind : FileKind) : IniDocument :=
  match fileKind with fk_config => ad_config documents | fk_credentials => ad_credentials documents end.
Definition with_file (documents : AwsProfileDocuments) (fileKind : FileKind) : IniDocument → AwsProfileDocuments :=
  match fileKind with fk_config => with_config documents | fk_credentials => with_credentials documents end.

(** The three copies between documents; [None] says that the source has no such section. *)
Definition copy_section (fileKind : FileKind) (kind : SectionKind) (sourceDocuments targetDocuments : AwsProfileDocuments)
    (name : jsstring) (nextName : option jsstring) overrides : option AwsProfileDocuments :=
  (λ lines, with_file targetDocuments fileKind
     (upsertSectionLines fileKind kind (default name nextName) (applyKeyValueOverridesToSectionLines lines overrides)
        (file_of targetDocuments fileKind)))
  <$> getRawSectionLines (doc_lines (file_of sourceDocuments fileKind)) fileKind kind name.
Definition copyAwsProfileConfigSectionBetweenDocuments := copy_section fk_config sk_profile.
Definition copyAwsProfileCredentialsSectionBetweenDocuments := copy_section fk_credentials sk_profile.
Definition copyAwsSsoSessionSectionBetweenDocuments := copy_section fk_config sk_sso_session.
End copies.

(** ** Both files *)

Definition loadAwsProfileDocuments (rootDir configPath credentialsPath : jsstring) (config credentials : option jsstring)
    : AwsProfileDocuments :=
  {| ad_rootDir := rootDir; ad_config := loadIniDocument configPath config;
     ad_credentials := loadIniDocument credentialsPath credentials |}.
(** What is written of a document, and the document after it. *)
Definition written_text (document : IniDocument) : option jsstring :=
  if doc_dirty document then Some (serializeDocument document) else None.
Definition written (document : IniDocument) : IniDocument :=
  if doc_dirty document
  then {| doc_filePath := doc_filePath document; doc_exists := true; doc_dirty := false;
          doc_lineEnding := doc_lineEnding document; doc_hasTrailingNewline := doc_hasTrailingNewline document;
          doc_lines := doc_lines document |}
  else document.
Definition writeAwsProfileDocuments (documents : AwsProfileDocuments)
    : AwsProfileDocuments * (option jsstring * option jsstring) :=
  ({| ad_rootDir := ad_rootDir documents; ad_config := written (ad_config documents);
      ad_credentials := written (ad_credentials documents) |},
   (written_text (ad_config documents), written_text (ad_credentials documents))).

Definition setAwsProfileKeyValueInDocuments (documents : AwsProfileDocuments) (fileKind : FileKind)
    (profileName key value : jsstring) : AwsProfileDocuments :=
  with_file documents fileKind
    (upsertSectionKeyValue fileKind sk_profile profileName key value (file_of documents fileKind)).
Definition setAwsSsoSessionKeyValueInDocuments (documents : AwsProfileDocuments) (sessionName key value : jsstring)
    : AwsProfileDocuments :=
  with_config documents (upsertSectionKeyValue fk_config sk_sso_session sessionName key value (ad_config documents)).
Definition getAwsSsoSessionValues (documents : AwsProfileDocuments) (sessionName : jsstring) : list (jsstring * jsstring) :=
  getSectionValues (doc_lines (ad_config documents)) fk_config sk_sso_session sessionName.
Definition removeAwsProfileKeyFromDocuments (documents : AwsProfileDocuments) (profileName key : jsstring) : AwsProfileDocuments :=
  {| ad_rootDir := ad_rootDir documents;
     ad_config := removeProfileKey fk_config profileName key (ad_config documents);
     ad_credentials := removeProfileKey fk_credentials profileName key (ad_credentials documents) |}.
Definition renameAwsProfileInDocuments (documents : AwsProfileDocuments) (profileName nextProfileName : jsstring)
    : AwsProfileDocuments :=
  {| ad_rootDir := ad_rootDir documents;
     ad_config := replaceSourceProfileReferences profileName nextProfileName
                    (replaceSectionHeader fk_config profileName nextProfileName (ad_config documents));
     ad_credentials := replaceSectionHeader fk_credentials profileName nextProfileName (ad_credentials documents) |}.

(** A value that is read: trimmed, and absent when it is empty. *)
Definition field (key : string) (values : list (jsstring * jsstring)) : option jsstring :=
  opt_truthy (js_trim <$> mget (js key) values).
(** [{ ...left, ...right }] *)
Definition merged (left right : list (jsstring * jsstring)) : list (jsstring * jsstring) :=
  foldl (λ values '(key, value), mset key value values) left right.

Section queries.
Context {CO : Collator}.
Implicit Types documents : AwsProfileDocuments.

Definition by_locale (names : list jsstring) : list jsstring := js_sort localeCompare names.
Definition findProfileReferencesByKeyValue (lines : list jsstring) (key value : jsstring) : list jsstring :=
  by_locale (sof
    (s ← List.filter (λ s, bool_decide (se_kind s = sk_profile)) (listSections lines fk_config);
     line ← take (se_end s - S (se_start s)) (drop (S (se_start s)) lines);
     match parseKeyValueLine line with
     | Some (key', value') =>
         if bool_decide (key' = key) && bool_decide (js_trim value' = value) then [se_logicalName s] else []
     | None => []
     end)).
Definition profile_names (lines : list jsstring) (fileKind : FileKind) : list jsstring :=
  se_logicalName <$> List.filter (λ s, bool_decide (se_kind s = sk_profile)) (listSections lines fileKind).
Definition listAwsProfileNames documents : list jsstring :=
  by_locale (sof (profile_names (doc_lines (ad_config documents)) fk_config
                  ++ profile_names (doc_lines (ad_credentials documents)) fk_credentials)).

Record Snapshot := {
  sn_hasConfigSection : bool; sn_hasCredentialsSection : bool;
  sn_configValues : list (jsstring * jsstring); sn_credentialValues : list (jsstring * jsstring);
  sn_mergedValues : list (jsstring * jsstring); sn_referencedByProfileNames : list jsstring;
  sn_sharedSsoSessionProfileNames : list jsstring; sn_orphanedSsoSessionName : option jsstring }.
Definition inspectAwsProfileDocuments documents (profileName : jsstring) : Snapshot :=
  let config := doc_lines (ad_config documents) in
  let credentials := doc_lines (ad_credentials documents) in
  let configValues := getSectionValues config fk_config sk_profile profileName in
  let credentialValues := getSectionValues credentials fk_credentials sk_profile profileName in
  let mergedValues := merged configValues credentialValues in
  let others := List.filter (λ name, bool_decide (name ≠ profileName)) in
  let ssoSessionName := field "sso_session" mergedValues in
  let shared :=
    match ssoSessionName with
    | Some name => others (findProfileReferencesByKeyValue config (js "sso_session") name)
    | None => []
    end in
  {| sn_hasConfigSection := bool_decide (findSection config fk_config sk_profile profileName ≠ None);
     sn_hasCredentialsSection := bool_decide (findSection credentials fk_credentials sk_profile profileName ≠ None);
     sn_configValues := configValues; sn_credentialValues := credentialValues; sn_mergedValues := mergedValues;
     sn_referencedByProfileNames := others (findProfileReferencesByKeyValue config (js "source_profile") profileName);
     sn_sharedSsoSessionProfileNames := shared;
     sn_orphanedSsoSessionName := match shared with [] => ssoSessionName | _ => None end |}.

Definition deleteAwsProfileFromDocuments documents (profileName : jsstring) : AwsProfileDocuments :=
  let snapshot := inspectAwsProfileDocuments documents profileName in
  let config := removeSection fk_config sk_profile profileName (ad_config documents) in
  {| ad_rootDir := ad_rootDir documents;
     ad_config := match sn_orphanedSsoSessionName snapshot with
                  | Some session => removeSection fk_config sk_sso_session session config
                  | None => config
                  end;
     ad_credentials := removeSection fk_credentials sk_profile profileName (ad_credentials documents) |}.

(** ** The profile that signs in *)

Record AwsSsoChainResolution := {
  ch_profileName : jsstring; ch_ssoSessionName : option jsstring; ch_startUrl : jsstring; ch_ssoRegion : jsstring;
  ch_hopCount : nat }.
Definition MAX_SOURCE_PROFILE_HOPS : nat := 8.
Definition chain_end documents (current : jsstring) (hop : nat) (values : list (jsstring * jsstring))
    : option AwsSsoChainResolution :=
  let ssoSessionName := field "sso_session" values in
  let inlineStartUrl := field "sso_start_url" values in
  match ssoSessionName, inlineStartUrl with
  | None, None => None
  | _, _ =>
      let sessionValues := match ssoSessionName with Some name => getAwsSsoSessionValues documents name | None => [] end in
      let first_of (a b : option jsstring) := default [] (match a with Some _ => a | None => b end) in
      Some {| ch_profileName := current; ch_ssoSessionName := ssoSessionName;
              ch_startUrl := first_of inlineStartUrl (field "sso_start_url" sessionValues);
              ch_ssoRegion := first_of (field "sso_region" values) (field "sso_region" sessionValues);
              ch_hopCount := hop |}
  end.
Fixpoint chain_loop (n : nat) documents (visited : list jsstring) (current : jsstring) (hop : nat)
    : option AwsSsoChainResolution :=
  match n with
  | 0 => None
  | S n =>
      if negb (truthy current) || shas current visited then None else
      let values := sn_mergedValues (inspectAwsProfileDocuments documents current) in
      match chain_end documents current hop values with
      | Some resolution => Some resolution
      | None => chain_loop n documents (sadd current visited) (default [] (field "source_profile" values)) (S hop)
      end
  end.
(** [for (hop = 0; hop <= MAX_SOURCE_PROFILE_HOPS; hop += 1)] *)
Definition resolveAwsSsoChain documents (profileName : jsstring) : option AwsSsoChainResolution :=
  chain_loop (S MAX_SOURCE_PROFILE_HOPS) documents [] (js_trim profileName) 0.
End queries.
