(* ===== verification/AwsIniFacts.v ===== *)
(** * The sections of AWS profile files

    A file is read as its sections in order, each with its keys and values; the lookups
    by line numbers of [AwsIni] are lookups there, and the edits of the lines are edits
    of one section. *)

From S2P Require Import Prelude Collections AwsIni.

Implicit Types (line key value name : jsstring) (lines body : list jsstring) (fk : FileKind) (kind : SectionKind).

(** ** What a line says *)

Definition section_id fk line : option (SectionKind * jsstring) :=
  (λ header, parseSectionHeader header fk) <$> match_header line.

Lemma section_id_None fk line : section_id fk line = None ↔ match_header line = None.
Proof. unfold section_id. by destruct (match_header line). Qed.

Lemma match_header_spec line header :
  match_header line = Some header ↔ js_trim line = 91%N :: header ++ [93%N] ∧ header ≠ [] ∧ 93%N ∉ header.
Proof.
  unfold match_header. destruct (js_trim line) as [|c rest]; [naive_solver|].
  destruct (N.eqb_spec c 91) as [->|Hc]; cbn [negb]; [|naive_solver].
  destruct (reverse rest) as [|d r] eqn:E.
  { rewrite <- (reverse_involutive rest), E. split; [done|]. intros ([= E'] & _). by destruct header. }
  rewrite <- (reverse_involutive rest), E, reverse_cons.
  destruct (N.eqb_spec d 93) as [->|Hd]; cbn [andb].
  - destruct (truthy (reverse r)) eqn:Ht; cbn [andb];
      [apply truthy_spec in Ht|apply not_true_iff_false in Ht; rewrite truthy_spec in Ht].
    + unfold includes_unit. case_bool_decide; cbn [negb]; split; try done.
      * intros ([= E'%app_inj_tail] & _ & Hn). by destruct E' as [<- _].
      * by intros [= <-].
      * intros ([= E'%app_inj_tail] & _ & _). by destruct E' as [<- _].
    + split; [done|]. intros ([= E'%app_inj_tail] & Hn & _). destruct E' as [<- _]. done.
  - split; [done|]. intros ([= E'%app_inj_tail] & _). by destruct E' as [_ ->].
Qed.

(** The line written for a section, with a name that has no blanks around it and no
    closing bracket. *)
Definition name_ok name : Prop := trimmed name ∧ 93%N ∉ name.
(** A name of the config file that its header is read back as. *)
Definition plain_name fk kind name : Prop :=
  name_ok name ∧ match fk, kind with fk_config, sk_other => False | fk_credentials, sk_profile => True
                 | fk_credentials, _ => False | _, _ => True end.

Lemma match_bracketed prefix name : Forall (λ c, c ≠ 93%N) prefix → name_ok name →
  match_header (91%N :: prefix ++ name ++ [93%N]) = Some (prefix ++ name).
Proof.
  intros Hp [[Hn _] Hb]. apply match_header_spec. rewrite js_trim_ends.
  - split; [by rewrite (assoc_L (++))|]. split; [by destruct prefix|].
    rewrite elem_of_app. intros [H|H]; [|done]. by apply (proj1 (Forall_forall _ _) Hp) in H.
  - done.
  - intros d. rewrite (assoc_L (++)), app_comm_cons, last_snoc. by intros [= <-].
Qed.

Lemma js_trim_prefixed prefix name c rest : prefix = c :: rest → is_ws c = false → trimmed name →
  js_trim (prefix ++ name) = prefix ++ name.
Proof.
  intros -> Hc Hn. cbn [app]. apply js_trim_ends; [done|].
  destruct (trimmed_last _ Hn) as (d & Hd & Hw). rewrite app_comm_cons, last_app, Hd. by intros e [= <-].
Qed.

Lemma startsWith_app p s : startsWith (p ++ s) p = true.
Proof. apply startsWith_spec. by exists s. Qed.

Lemma section_id_header fk kind name : plain_name fk kind name →
  section_id fk (getSectionHeaderLine fk kind name) = Some (kind, name).
Proof.
  intros [Hok Hk]. destruct (Hok) as [Ht Hb]. pose proof (proj2 Ht) as Etrim. unfold section_id, getSectionHeaderLine, getProfileHeaderLine.
  assert (Hp : Forall (λ c, c ≠ 93%N) (js "profile ") ∧ Forall (λ c, c ≠ 93%N) (js "sso-session ")).
  { split; apply (bool_decide_unpack _); vm_compute; done. }
  destruct fk, kind; try done.
  - case_decide as Hd; [by subst|].
    change (js "[profile " ++ name ++ js "]") with (91%N :: js "profile " ++ name ++ [93%N]).
    rewrite match_bracketed by (done || apply Hp). cbn [fmap option_fmap option_map]. unfold parseSectionHeader.
    rewrite (js_trim_prefixed (js "profile ") name 112 (js "rofile ")) by done.
    rewrite decide_False by done. rewrite startsWith_app.
    rewrite (drop_app_length' _ name 8) by done. by rewrite Etrim.
  - change (js "[sso-session " ++ name ++ js "]") with (91%N :: js "sso-session " ++ name ++ [93%N]).
    rewrite match_bracketed by (done || apply Hp). cbn [fmap option_fmap option_map]. unfold parseSectionHeader.
    rewrite (js_trim_prefixed (js "sso-session ") name 115 (js "so-session ")) by done.
    rewrite decide_False by done. rewrite startsWith_app.
    replace (startsWith _ (js "profile ")) with false by done.
    rewrite (drop_app_length' _ name 12) by done. by rewrite Etrim.
  - change (js "[" ++ name ++ js "]") with (91%N :: [] ++ name ++ [93%N]).
    rewrite match_bracketed by (done || by constructor). cbn [fmap option_fmap option_map]. unfold parseSectionHeader. cbn [app]. by rewrite Etrim.
Qed.

(** The keys and values of a section, and of the whole file. *)
Definition pairs_of body : list (jsstring * jsstring) := omap parseKeyValueLine body.
Fixpoint body_of lines : list jsstring :=
  match lines with
  | [] => []
  | line :: lines => if match_header line then [] else line :: body_of lines
  end.
Definition Sections := list ((SectionKind * jsstring) * list (jsstring * jsstring)).
Fixpoint sections fk lines : Sections :=
  match lines with
  | [] => []
  | line :: lines =>
      match section_id fk line with
      | Some id => (id, pairs_of (body_of lines)) :: sections fk lines
      | None => sections fk lines
      end
  end.
Definition starts_section lines : Prop := match lines with [] => True | line :: _ => match_header line ≠ None end.
Definition no_header lines : Prop := Forall (λ line, match_header line = None) lines.

Lemma body_of_app a b : starts_section b → body_of (a ++ b) = body_of a.
Proof.
  intros Hb. induction a as [|line a IH]; cbn.
  - destruct b as [|line b]; [done|]. cbn in *. by destruct (match_header line).
  - destruct (match_header line); [done|]. by rewrite IH.
Qed.
Lemma body_of_no_header body : no_header body → body_of body = body.
Proof. induction 1 as [|line body E _ IH]; [done|]. cbn. by rewrite E, IH. Qed.
Lemma sections_no_header fk body : no_header body → sections fk body = [].
Proof. induction 1 as [|line body E _ IH]; [done|]. cbn. unfold section_id. by rewrite E. Qed.
Lemma sections_app fk a b : starts_section b → sections fk (a ++ b) = sections fk a ++ sections fk b.
Proof.
  intros Hb. induction a as [|line a IH]; [done|]. cbn. rewrite IH.
  destruct (section_id fk line); [|done]. by rewrite body_of_app.
Qed.
Lemma sections_section fk header body id : section_id fk header = Some id → no_header body →
  sections fk (header :: body) = [(id, pairs_of body)].
Proof. intros E Hb. cbn. by rewrite E, body_of_no_header, sections_no_header. Qed.
Lemma body_split lines : ∃ body after, lines = body ++ after ∧ no_header body ∧ starts_section after.
Proof.
  induction lines as [|line lines (body & after & -> & Hb & Ha)]; [by exists [], []; repeat split; constructor|].
  destruct (match_header line) eqn:E.
  - exists [], (line :: body ++ after). split; [done|]. split; [constructor|]. cbn. by rewrite E.
  - exists (line :: body), after. split; [done|]. split; [by constructor|done].
Qed.
(** Blank lines and comments do not count. *)
Lemma pairs_of_app a b : pairs_of (a ++ b) = pairs_of a ++ pairs_of b.
Proof. apply omap_app. Qed.
Definition silent line : Prop := match_header line = None ∧ parseKeyValueLine line = None.
Lemma blank_silent line : blank line = true → silent line.
Proof.
  unfold blank, silent, match_header, parseKeyValueLine. intros Hb. rewrite negb_true_iff in Hb. rewrite Hb. cbn [negb orb].
  split; [|done]. apply not_true_iff_false in Hb. rewrite truthy_spec in Hb.
  destruct (js_trim line); [done|]. exfalso. by apply Hb.
Qed.
Lemma pairs_of_cons line body :
  pairs_of (line :: body) = option_list (parseKeyValueLine line) ++ pairs_of body.
Proof. unfold pairs_of. cbn. by destruct (parseKeyValueLine line). Qed.
Lemma body_of_silent a line b : silent line → pairs_of (body_of (a ++ line :: b)) = pairs_of (body_of (a ++ b)).
Proof.
  intros [Hh Hk]. induction a as [|l a IH]; cbn [app body_of].
  - by rewrite Hh, pairs_of_cons, Hk.
  - destruct (match_header l); [done|]. by rewrite !pairs_of_cons, IH.
Qed.
Lemma sections_silent fk a line b : silent line → sections fk (a ++ line :: b) = sections fk (a ++ b).
Proof.
  intros Hl. induction a as [|l a IH]; cbn.
  - unfold section_id. by rewrite (proj1 Hl).
  - destruct (section_id fk l); [|done]. by rewrite IH, body_of_silent.
Qed.

(** ** Where a section is

    The lines before its header, where no section has this name, the header, its lines,
    and the lines from the next header on. *)
Definition cut fk kind name lines (before : list jsstring) header body (after : list jsstring) : Prop :=
  lines = before ++ header :: body ++ after ∧ section_id fk header = Some (kind, name)
  ∧ Forall (λ line, section_id fk line ≠ Some (kind, name)) before ∧ no_header body ∧ starts_section after.

Lemma cut_or_none fk kind name lines :
  Forall (λ line, section_id fk line ≠ Some (kind, name)) lines
  ∨ ∃ before header body after, cut fk kind name lines before header body after.
Proof.
  induction lines as [|line lines IH]; [by left|].
  destruct (decide (section_id fk line = Some (kind, name))) as [E|E].
  - right. destruct (body_split lines) as (body & after & -> & Hb & Ha). by exists [], line, body, after.
  - destruct IH as [IH|(before & header & body & after & -> & H & Hf & Hr)]; [left; by constructor|].
    right. exists (line :: before), header, body, after. split_and!; [done|done|by constructor|apply Hr..].
Qed.

Lemma headers_from_app i a b : headers_from i (a ++ b) = headers_from i a ++ headers_from (i + length a) b.
Proof.
  revert i. induction a as [|line a IH]; intros i; cbn [app headers_from length]; [by rewrite Nat.add_0_r|].
  rewrite !IH. replace (S i + length a) with (i + S (length a)) by lia. by destruct (match_header line).
Qed.
Lemma headers_from_no_header i body : no_header body → headers_from i body = [].
Proof. intros Hb. revert i. induction Hb as [|line body E _ IH]; intros i; [done|]. cbn. by rewrite E. Qed.
Lemma find_sections_skip fk kind name len (hs rest : list (jsstring * nat)) :
  Forall (λ h, parseSectionHeader h.1 fk ≠ (kind, name)) hs →
  List.find (λ s, bool_decide (se_kind s = kind) && bool_decide (se_logicalName s = name)) (sections_of fk len (hs ++ rest))
  = List.find (λ s, bool_decide (se_kind s = kind) && bool_decide (se_logicalName s = name)) (sections_of fk len rest).
Proof.
  induction 1 as [|[header i] hs Hh _ IH]; [done|]. cbn [app sections_of]. cbn [fst] in Hh.
  destruct (parseSectionHeader header fk) as [k n]. cbn [List.find se_kind se_logicalName].
  case_bool_decide as Ek; cbn [andb]; [|apply IH]. case_bool_decide as En; [|apply IH]. by subst.
Qed.
Lemma headers_other fk kind name i lines : Forall (λ line, section_id fk line ≠ Some (kind, name)) lines →
  Forall (λ h, parseSectionHeader h.1 fk ≠ (kind, name)) (headers_from i lines).
Proof.
  intros H. revert i. induction H as [|line lines Hl _ IH]; intros i; cbn; [done|].
  unfold section_id in Hl. destruct (match_header line); [|done]. constructor; [|done]. cbn in *. congruence.
Qed.

Lemma findSection_cut fk kind name lines before header body after : cut fk kind name lines before header body after →
  findSection lines fk kind name
  = Some {| se_kind := kind; se_logicalName := name; se_start := length before;
            se_end := length before + S (length body) |}.
Proof.
  intros (-> & Hid & Hf & Hb & Ha). unfold findSection, listSections.
  rewrite headers_from_app. rewrite (find_sections_skip fk kind name) by by apply headers_other.
  cbn [headers_from Nat.add]. unfold section_id in Hid. destruct (match_header header) as [h|]; [|done]. injection Hid as Hid.
  cbn [sections_of]. rewrite Hid. cbn [List.find se_kind se_logicalName]. rewrite !bool_decide_true by done. cbn [andb].
  do 2 f_equal. rewrite headers_from_app, headers_from_no_header by done. cbn [app].
  destruct after as [|line after]; cbn [headers_from].
  - rewrite app_nil_r, length_app. cbn. lia.
  - cbn in Ha. destruct (match_header line); [|done]. lia.
Qed.
Lemma findSection_none fk kind name lines : Forall (λ line, section_id fk line ≠ Some (kind, name)) lines →
  findSection lines fk kind name = None.
Proof.
  intros H. unfold findSection, listSections. rewrite <- (app_nil_r (headers_from 0 lines)).
  rewrite (find_sections_skip fk kind name) by by apply headers_other. done.
Qed.

Lemma sections_keys_other fk kind name lines : Forall (λ line, section_id fk line ≠ Some (kind, name)) lines →
  (kind, name) ∉ (sections fk lines).*1.
Proof.
  induction 1 as [|line lines Hl _ IH]; cbn; [set_solver|]. destruct (section_id fk line) as [id|]; [|done].
  cbn. set_solver.
Qed.
Lemma sections_cut fk kind name lines before header body after : cut fk kind name lines before header body after →
  sections fk lines = sections fk before ++ ((kind, name), pairs_of body) :: sections fk after.
Proof.
  intros (-> & Hid & _ & Hb & Ha). rewrite sections_app.
  - rewrite (app_comm_cons body after header), sections_app by done. by rewrite (sections_section fk header body (kind, name)).
  - cbn. intros E. unfold section_id in Hid. by rewrite E in Hid.
Qed.

(** The values of a section are the last ones of its keys. *)
Definition values_of_pairs (pairs : list (jsstring * jsstring)) : list (jsstring * jsstring) :=
  foldl (λ values '(key, value), if decide (key = js "__proto__") then values else mset key value values) [] pairs.
Lemma values_of_spec body : values_of body = values_of_pairs (pairs_of body).
Proof.
  unfold values_of, values_of_pairs. generalize (@nil (jsstring * jsstring)).
  induction body as [|line body IH]; intros values; [done|]. rewrite pairs_of_cons, foldl_app. cbn [foldl]. rewrite IH. f_equal.
  unfold assign. by destruct (parseKeyValueLine line) as [[]|].
Qed.
Definition section_values (s : Sections) (id : SectionKind * jsstring) : list (jsstring * jsstring) :=
  values_of_pairs (default [] (mget id s)).

Lemma cut_mget fk kind name lines before header body after : cut fk kind name lines before header body after →
  mget (kind, name) (sections fk lines) = Some (pairs_of body).
Proof.
  intros H. rewrite (sections_cut _ _ _ _ _ _ _ _ H). rewrite mget_app by (apply sections_keys_other, H). apply mget_here.
Qed.
(** The lookups by line numbers are lookups of sections. *)
Lemma getSectionValues_spec fk kind name lines :
  getSectionValues lines fk kind name = section_values (sections fk lines) (kind, name).
Proof.
  unfold getSectionValues, section_values. destruct (cut_or_none fk kind name lines) as [H|(before & header & body & after & H)].
  - rewrite findSection_none by done. by rewrite (proj2 (mget_None _ _)) by by apply sections_keys_other.
  - rewrite (findSection_cut _ _ _ _ _ _ _ _ H), (cut_mget _ _ _ _ _ _ _ _ H). cbn [se_start se_end default].
    destruct H as (-> & _). rewrite values_of_spec. f_equal. f_equal.
    rewrite (cons_middle header before (body ++ after)), (assoc_L (++)).
    rewrite (drop_app_length' (before ++ [header])) by (rewrite length_app; cbn; lia).
    by rewrite take_app_length' by lia.
Qed.
Lemma findSection_spec fk kind name lines :
  bool_decide (findSection lines fk kind name ≠ None) = mhas (kind, name) (sections fk lines).
Proof.
  destruct (cut_or_none fk kind name lines) as [H|(before & header & body & after & H)].
  - rewrite findSection_none by done. symmetry. rewrite bool_decide_false by by intros [].
    apply mhas_false. by apply sections_keys_other.
  - rewrite (findSection_cut _ _ _ _ _ _ _ _ H). rewrite bool_decide_true by done. symmetry. apply mhas_spec.
    apply cut_mget in H. apply mget_Some_elem in H. apply list_elem_of_fmap. by eexists (_, _).
Qed.

(** ** Setting a key *)

(** A key that its line is read back as. *)
Definition key_ok key : Prop :=
  trimmed key ∧ 61%N ∉ key ∧ ∀ c rest, key = c :: rest → c ≠ 35%N ∧ c ≠ 59%N ∧ c ≠ 91%N.
(** A value with no comment in it, as [replaceKeyValueLine] sees comments. *)
Definition plain_value value : Prop := 35%N ∉ value ∧ 59%N ∉ value.

Lemma ws_no_eq w : ws w → 61%N ∉ w.
Proof. intros Hw Hc. by apply (proj1 (Forall_forall _ _) Hw) in Hc. Qed.
Lemma trim_start_trimmed key s : trimmed key → trim_start (key ++ s) = key ++ s.
Proof. intros H. destruct (trimmed_head _ H) as (c & t & -> & Hc). cbn. by rewrite Hc. Qed.

(** A line about a key: blanks, the key, blanks, an equals sign, and the rest. *)
Lemma parse_line w key w' rest : key_ok key → ws w → ws w' →
  parseKeyValueLine (w ++ key ++ w' ++ 61%N :: rest) = Some (key, js_trim rest)
  ∧ match_header (w ++ key ++ w' ++ 61%N :: rest) = None.
Proof.
  intros (Hk & Heq & Hhead) Hw Hw'. set (line := w ++ _).
  destruct (trimmed_head _ Hk) as (c & key' & Ek & Hc). destruct (Hhead c key' Ek) as (H35 & H59 & H91).
  assert (Ht : ∃ t, js_trim line = c :: t).
  { unfold line. rewrite js_trim_ws_l by done. rewrite Ek. by apply js_trim_head. }
  destruct Ht as [t Ht]. split.
  - unfold parseKeyValueLine. rewrite Ht. cbn [truthy]. unfold truthy. rewrite bool_decide_true by done.
    assert (Hs : ∀ d, c ≠ d → startsWith (c :: t) [d] = false).
    { intros d Hd. apply not_true_iff_false. rewrite startsWith_spec. intros Hp. by apply prefix_cons_inv_1 in Hp. }
    change (js "#") with [35%N]. change (js ";") with [59%N]. rewrite !Hs by done. cbn [negb orb].
    unfold line. rewrite (assoc_L (++) key), (assoc_L (++) w).
    rewrite indexOf_app by (rewrite !elem_of_app; intros Hin; destruct_or! Hin; [by apply (ws_no_eq w)|done|by apply (ws_no_eq w')]).
    destruct (length (w ++ key ++ w')) as [|n] eqn:El.
    { rewrite Ek in El. rewrite length_app in El. cbn in El. lia. }
    rewrite <- El. rewrite (take_app_length (w ++ key ++ w')).
    rewrite js_trim_ws_l, js_trim_ws_r by done. rewrite (proj2 Hk). rewrite bool_decide_true by apply Hk.
    set (L := w ++ key ++ w'). rewrite (cons_middle 61%N L rest), (assoc_L (++) L). rewrite drop_app_length' by (rewrite length_app; cbn; lia). done.
  - unfold match_header. rewrite Ht. rewrite (proj2 (N.eqb_neq c 91)) by done. done.
Qed.
Lemma parse_key_value_line key value : key_ok key →
  parseKeyValueLine (key_value_line key value) = Some (key, js_trim value) ∧ match_header (key_value_line key value) = None.
Proof.
  intros Hk. unfold key_value_line. change (js " = " ++ value) with ([32%N] ++ 61%N :: 32%N :: value).
  destruct (parse_line [] key [32%N] (32%N :: value)) as [E1 E2]; [done|by repeat constructor..|].
  split; [|done]. cbn [app] in E1 |- *. rewrite E1. change (32%N :: value) with ([32%N] ++ value).
  by rewrite js_trim_ws_l by (by repeat constructor).
Qed.

(** Every line that is read as a key and a value has that form. *)
Lemma parse_inv line key value : parseKeyValueLine line = Some (key, value) →
  ∃ w w' rest, line = w ++ key ++ w' ++ 61%N :: rest ∧ ws w ∧ ws w' ∧ value = js_trim rest ∧ trimmed key ∧ 61%N ∉ key.
Proof.
  unfold parseKeyValueLine. destruct (negb _ || _ || _); [done|].
  destruct (indexOf 61 line) as [[|i]|] eqn:E; [done| |done]. destruct (truthy _) eqn:Ht; [|done]. intros [= <- <-].
  apply truthy_spec in Ht. apply indexOf_Some in E as [E Hn].
  destruct (js_trim_split (take (S i) line)) as (w & w' & Es & Hw & Hw').
  exists w, w', (drop (S (S i)) line). split_and!; [|done|done|done| |].
  - rewrite E at 1. rewrite Es at 1. by rewrite <- !(assoc_L (++)).
  - split; [done|apply js_trim_idemp].
  - intros Hc. by apply js_trim_subset in Hc.
Qed.

Lemma after_value_tail s tail : after_value s = Some tail → ∃ value, s = value ++ tail ∧ comment_tail tail = true.
Proof.
  induction s as [|c s IH]; cbn [after_value]; intros H.
  - injection H as <-. by exists [].
  - destruct (comment_tail (c :: s)) eqn:E; [injection H as <-; by exists []|].
    destruct (is_terminator c); [done|]. destruct (IH H) as (value & -> & Ht). by exists (c :: value).
Qed.
Lemma comment_tail_plain s : plain_value s → comment_tail s = true → ws s.
Proof.
  unfold comment_tail, plain_value. intros [H35 H59] H. destruct (trim_start_suffix s) as (w & E & Hw).
  destruct (trim_start s) as [|c t]; [by rewrite E, app_nil_r|].
  exfalso. apply andb_true_iff in H as [H _]. apply orb_true_iff in H as [H|H]; apply N.eqb_eq in H as ->; set_solver.
Qed.

(** A line that is set to another value keeps its key; the text after the old value
    stays, so the value is read back when there was no comment. *)
Lemma replace_line line key value next : key_ok key → parseKeyValueLine line = Some (key, value) →
  match_header (replaceKeyValueLine line key next) = None
  ∧ ∃ tail, parseKeyValueLine (replaceKeyValueLine line key next) = Some (key, js_trim (next ++ tail))
    ∧ (plain_value value → ws tail).
Proof.
  intros Hk E. apply parse_inv in E as (w & w' & rest & -> & Hw & Hw' & -> & Ht & _).
  unfold replaceKeyValueLine, match_key_value.
  rewrite trim_start_ws, trim_start_trimmed by done. rewrite startsWith_app. cbn [negb].
  rewrite drop_app_length, trim_start_ws by done. cbn [trim_start]. change (is_ws 61) with false. cbn beta iota.
  change (negb (61 =? 61)%N) with false. cbn beta iota.
  destruct (trim_start_suffix rest) as (w'' & Er & Hw''). set (r := trim_start rest) in *.
  destruct (after_value r) as [tail|] eqn:Ea; cbn [fmap option_fmap option_map].
  - replace (take _ (w ++ _)) with (w ++ key ++ w' ++ 61%N :: w'').
    2:{ rewrite Er at 2. rewrite (app_comm_cons w'' r), !(assoc_L (++)). rewrite take_app_length'; [done|].
        rewrite Er at 1. rewrite !length_app. cbn. rewrite !length_app. lia. }
    rewrite <- !(assoc_L (++)). cbn [app]. destruct (parse_line w key w' (w'' ++ next ++ tail)) as [E1 E2]; [done..|].
    split; [done|]. exists tail. split; [by rewrite E1, js_trim_ws_l|]. intros Hp.
    apply after_value_tail in Ea as (v & Ev & Hc). apply comment_tail_plain; [|done].
    assert (Hsub : ∀ d, is_ws d = false → d ∈ tail → d ∈ js_trim rest).
    { intros d Hd Hin. destruct (js_trim_split rest) as (w1 & w2 & Es & H1 & H2).
      assert (Hin' : d ∈ rest) by (rewrite Er, Ev; set_solver). rewrite Es, !elem_of_app in Hin'.
      destruct Hin' as [Hin'|[?|Hin']]; [|done|]; by eapply (proj1 (Forall_forall _ _)) in Hin'; [|done]; cbn in *; congruence. }
    destruct Hp as [H35 H59]. split; intros Hin; apply Hsub in Hin; done.
  - destruct (parse_key_value_line key next Hk) as [E1 E2]. split; [done|]. exists []. rewrite app_nil_r. split; [done|constructor].
Qed.

(** The lines of a section with a key set. *)
Fixpoint set_body key value body : list jsstring :=
  match body with
  | [] => [key_value_line key value]
  | line :: body =>
      if is_key key line then replaceKeyValueLine line key value :: body else line :: set_body key value body
  end.
Lemma set_body_spec key value body :
  set_body key value body
  = match findIndex (is_key key) body with
    | Some i => alter (λ line, replaceKeyValueLine line key value) i body
    | None => body ++ [key_value_line key value]
    end.
Proof.
  induction body as [|line body IH]; [done|]. cbn [set_body]. rewrite IH. rewrite findIndex_cons.
  destruct (is_key key line); [done|]. by destruct (findIndex _ body).
Qed.
(** No line of the section about this key has a comment. *)
Definition plain_key key (pairs : list (jsstring * jsstring)) : Prop := ∀ value, (key, value) ∈ pairs → plain_value value.

Lemma set_body_pairs key value body : key_ok key → js_trim value = value → plain_key key (pairs_of body) →
  pairs_of (set_body key value body) = mset key value (pairs_of body).
Proof.
  intros Hk Hv Hp. induction body as [|line body IH]; cbn [set_body].
  - rewrite pairs_of_cons. destruct (parse_key_value_line key value Hk) as [-> _]. by rewrite Hv.
  - unfold is_key. destruct (parseKeyValueLine line) as [[key' value']|] eqn:E.
    + rewrite pairs_of_cons, E in Hp |- *. case_bool_decide as Hkk; [subst key'|].
      * destruct (replace_line line key value' value Hk E) as (_ & tail & Et & Htail).
        rewrite pairs_of_cons, Et. cbn. rewrite decide_True by done.
        rewrite js_trim_ws_r, Hv; [done|]. apply Htail, Hp. left.
      * rewrite pairs_of_cons, E. cbn. rewrite decide_False by done. rewrite IH; [done|].
        intros v Hin. apply Hp. cbn. by right.
    + rewrite pairs_of_cons, E in Hp. rewrite !pairs_of_cons, E. cbn [option_list app] in *.
      apply IH, Hp.
Qed.
Lemma set_body_no_header key value body : key_ok key → no_header body → no_header (set_body key value body).
Proof.
  intros Hk. induction 1 as [|line body Hl Hb IH]; cbn [set_body].
  - repeat constructor. by apply parse_key_value_line.
  - unfold is_key. destruct (parseKeyValueLine line) as [[key' v]|] eqn:E; [|by constructor].
    case_bool_decide; [subst|by constructor]. constructor; [|done]. by apply (replace_line line key v value).
Qed.

Lemma find_key_cut fk kind name lines before header body after key : cut fk kind name lines before header body after →
  find_key key lines (S (length before)) (length before + S (length body))
  = (λ i, S (length before) + i) <$> findIndex (is_key key) body.
Proof.
  intros (-> & _). unfold find_key. f_equal. f_equal.
  rewrite (cons_middle header before (body ++ after)), (assoc_L (++)).
  rewrite drop_app_length' by (rewrite length_app; cbn; lia). by rewrite take_app_length' by lia.
Qed.
Lemma header_assoc (before : list jsstring) header :
  ∃ front : list jsstring, (∀ rest, before ++ header :: rest = front ++ rest) ∧ length front = S (length before).
Proof.
  exists (before ++ [header]). split; [intros rest; by rewrite <- (assoc_L (++))|]. rewrite length_app. cbn. lia.
Qed.
(** A section that is there is changed in place; the other lines stay. *)
Lemma upsert_cut fk kind name key value doc before header body after :
  cut fk kind name (doc_lines doc) before header body after →
  upsertSectionKeyValue fk kind name key value doc
  = edited (before ++ header :: set_body key value body ++ after) doc.
Proof.
  intros H. unfold upsertSectionKeyValue. rewrite (findSection_cut _ _ _ _ _ _ _ _ H). cbn [se_start se_end].
  rewrite (find_key_cut _ _ _ _ _ _ _ _ key H), set_body_spec. destruct H as (E & _).
  rewrite E. destruct (header_assoc before header) as (front & Hf & Hl). rewrite !Hf.
  destruct (findIndex _ body) as [i|] eqn:Ei; cbn [fmap option_fmap option_map]; f_equal.
  - apply findIndex_Some in Ei as (x & Hx & _). apply lookup_lt_Some in Hx.
    rewrite alter_app_r_alt by lia. replace (S (length before) + i - length front) with i by lia.
    by rewrite alter_app_l.
  - unfold insert_at. rewrite (assoc_L (++) front), take_app_length', drop_app_length' by (rewrite length_app; lia).
    by rewrite <- !(assoc_L (++)).
Qed.

(** ** The edits, as edits of sections *)

(** Setting a key of the first section of a name; a new section comes last. *)
Definition put_value (id : SectionKind * jsstring) key value (s : Sections) : Sections :=
  mset id (mset key value (default [] (mget id s))) s.
Fixpoint drop_section (id : SectionKind * jsstring) (s : Sections) : Sections :=
  match s with
  | [] => []
  | (id', pairs) :: s => if decide (id = id') then s else (id', pairs) :: drop_section id s
  end.
Lemma drop_section_app id (s t : Sections) : id ∉ s.*1 → drop_section id (s ++ t) = s ++ drop_section id t.
Proof.
  induction s as [|[id' pairs] s IH]; [done|]. cbn. intros H. rewrite decide_False by set_solver. rewrite IH by set_solver. done.
Qed.
Lemma drop_section_none id (s : Sections) : id ∉ s.*1 → drop_section id s = s.
Proof. intros H. rewrite <- (app_nil_r s) at 1. rewrite drop_section_app by done. by rewrite app_nil_r. Qed.

Lemma sections_separated fk lines tail : sections fk (separated lines ++ tail) = sections fk (lines ++ tail).
Proof.
  unfold separated. destruct (last lines) as [line|]; [|done]. destruct (blank line); [done|].
  rewrite <- (assoc_L (++)). cbn [app]. by apply sections_silent, blank_silent.
Qed.

Lemma upsert_sections fk kind name key value doc : plain_name fk kind name → key_ok key → js_trim value = value →
  plain_key key (default [] (mget (kind, name) (sections fk (doc_lines doc)))) →
  sections fk (doc_lines (upsertSectionKeyValue fk kind name key value doc))
  = put_value (kind, name) key value (sections fk (doc_lines doc)).
Proof.
  intros Hn Hk Hv Hp. destruct (cut_or_none fk kind name (doc_lines doc)) as [H|(before & header & body & after & H)].
  - pose proof (sections_keys_other _ _ _ _ H) as Hkey. unfold upsertSectionKeyValue. rewrite findSection_none by done.
    cbn [doc_lines added]. rewrite sections_separated.
    destruct (parse_key_value_line key value Hk) as [E1 E2]. pose proof (section_id_header fk kind name Hn) as Eh.
    rewrite sections_app by (cbn; intros E; by apply (section_id_None fk) in E; rewrite E in Eh).
    rewrite (sections_section _ _ _ _ Eh) by by repeat constructor.
    rewrite pairs_of_cons, E1, Hv. unfold put_value. rewrite (proj2 (mget_None _ _)) by done.
    by rewrite mset_fresh.
  - rewrite (upsert_cut _ _ _ _ _ _ _ _ _ _ H). cbn [doc_lines edited].
    pose proof (cut_mget _ _ _ _ _ _ _ _ H) as Hm. pose proof (sections_cut _ _ _ _ _ _ _ _ H) as Hs.
    destruct H as (E & Hid & Hf & Hb & Ha). rewrite Hm in Hp. cbn [default] in Hp.
    assert (H' : cut fk kind name (before ++ header :: set_body key value body ++ after) before header (set_body key value body) after).
    { split_and!; try done. by apply set_body_no_header. }
    rewrite (sections_cut _ _ _ _ _ _ _ _ H'), set_body_pairs by done.
    unfold put_value. rewrite Hm, Hs. cbn [default].
    by rewrite mset_app, mset_here by by apply sections_keys_other.
Qed.

(** *** Removing a section *)

Lemma sections_drop_blanks fk lines : sections fk (drop_blanks lines) = sections fk lines.
Proof.
  induction lines as [|line lines IH]; [done|]. cbn [drop_blanks]. destruct (blank line) eqn:E; [|done].
  rewrite IH. symmetry. by apply (sections_silent fk [] line lines), blank_silent.
Qed.
Lemma sections_collapse fk fuel i lines : sections fk (collapse_blanks fuel i lines) = sections fk lines.
Proof.
  revert lines. induction fuel as [|fuel IH]; intros lines; [done|]. cbn [collapse_blanks].
  destruct (_ && _ && _ && _) eqn:E; [|done]. rewrite IH. apply andb_true_iff in E as [_ E].
  destruct (lines !! i) as [line|] eqn:El; [|done]. unfold remove_at.
  rewrite <- (sections_silent fk (take i lines) line) by by apply blank_silent.
  by rewrite take_drop_middle.
Qed.
(** The loop has an end: it stops where its condition does not hold. *)
Lemma collapse_blanks_stops fuel i lines : length lines <= fuel →
  let lines' := collapse_blanks fuel i lines in
  0 < i → ∀ before line, lines' !! pred i = Some before → lines' !! i = Some line →
  blank before = true → blank line = false.
Proof.
  revert lines. induction fuel as [|fuel IH]; intros lines Hl; cbn [collapse_blanks].
  { intros Hi before line Hb. apply lookup_lt_Some in Hb. lia. }
  destruct (_ && _ && _ && _) eqn:E.
  - apply IH. apply andb_true_iff in E as [_ E]. destruct (lines !! i) eqn:Ei; [|done]. apply lookup_lt_Some in Ei.
    unfold remove_at. rewrite length_app, length_take, length_drop. lia.
  - intros Hi before line Hb Hline Hbb. rewrite Hb, Hline, Hbb in E. pose proof (lookup_lt_Some _ _ _ Hline).
    rewrite (proj2 (Nat.ltb_lt _ _)), (proj2 (Nat.ltb_lt _ _)) in E by lia. by cbn in E.
Qed.
Lemma removeSection_sections fk kind name doc :
  sections fk (doc_lines (removeSection fk kind name doc)) = drop_section (kind, name) (sections fk (doc_lines doc)).
Proof.
  unfold removeSection. destruct (cut_or_none fk kind name (doc_lines doc)) as [H|(before & header & body & after & H)].
  - rewrite findSection_none by done. by rewrite drop_section_none by by apply sections_keys_other.
  - rewrite (findSection_cut _ _ _ _ _ _ _ _ H), (sections_cut _ _ _ _ _ _ _ _ H). cbn [se_start se_end doc_lines edited].
    rewrite drop_section_app by (apply sections_keys_other, H). cbn [drop_section]. rewrite decide_True by done.
    destruct H as (-> & _ & _ & _ & Ha). unfold normalizeAfterSectionRemoval. rewrite sections_drop_blanks, sections_collapse.
    rewrite take_app_length. destruct (header_assoc before header) as (front & Hf & Hl). rewrite Hf, (assoc_L (++)).
    rewrite drop_app_length' by (rewrite length_app; lia). by rewrite sections_app.
Qed.

(** ** Reading and writing a file *)

Definition clean_line line : Prop := Forall (λ c, is_newline c = false) line.

Lemma normalize_clean s rest : clean_line s → normalize_newlines (s ++ rest) = s ++ normalize_newlines rest.
Proof.
  induction 1 as [|c s Hc _ IH]; [done|]. cbn. unfold is_newline in Hc. apply orb_false_iff in Hc as [_ Hc].
  by rewrite Hc, IH.
Qed.
Definition line_ending (s : jsstring) : Prop := s = [LF] ∨ s = [CR; LF].
Lemma normalize_ending ending rest : line_ending ending → normalize_newlines (ending ++ rest) = LF :: normalize_newlines rest.
Proof. by intros [-> | ->]. Qed.
Lemma normalize_join ending lines rest : line_ending ending → Forall clean_line lines →
  normalize_newlines (js_join ending lines ++ rest) = js_join [LF] lines ++ normalize_newlines rest.
Proof.
  intros He. induction 1 as [|line lines Hl Hls IH]; [done|]. destruct lines as [|line' lines].
  - cbn [js_join]. by rewrite normalize_clean.
  - rewrite (js_join_cons ending), (js_join_cons [LF]) by done. rewrite <- !(assoc_L (++)).
    rewrite normalize_clean, normalize_ending by done. by rewrite IH.
Qed.
Lemma clean_no_LF line : clean_line line → LF ∉ line.
Proof. intros H Hin. by apply (proj1 (Forall_forall _ _) H) in Hin. Qed.
Lemma last_join ending lines line c : last lines = Some line → last line = Some c → last (js_join ending lines) = Some c.
Proof.
  induction lines as [|l lines IH]; [done|]. destruct lines as [|l' lines].
  - cbn. by intros [= ->].
  - rewrite last_cons_cons, js_join_cons by done. intros Hl Hc. rewrite last_app, last_app. by rewrite (IH Hl Hc).
Qed.

(** A file that is written is read back as its lines, unless its last line would be
    taken for the end of the one before. *)
Definition readable doc : Prop :=
  line_ending (doc_lineEnding doc) ∧ Forall clean_line (doc_lines doc)
  ∧ (doc_lines doc ≠ [] → if doc_hasTrailingNewline doc then doc_lines doc ≠ [[]]
                         else ∃ line c, last (doc_lines doc) = Some line ∧ last line = Some c).

Lemma serialize_roundtrip doc : readable doc → dl_lines (toDocumentLines (serializeDocument doc)) = doc_lines doc.
Proof.
  intros (He & Hc & Hr). unfold serializeDocument, toDocumentLines.
  destruct (decide (doc_lines doc = [])) as [E|E]; [by rewrite E|]. specialize (Hr E).
  assert (Hs : js_split LF (js_join [LF] (doc_lines doc)) = doc_lines doc).
  { apply js_split_join; [done|]. eapply Forall_impl; [exact Hc|]. intros line. apply clean_no_LF. }
  set (lines := doc_lines doc) in *.
  replace (match lines with [] => [] | _ :: _ => _ end)
    with (if doc_hasTrailingNewline doc then js_join (doc_lineEnding doc) lines ++ doc_lineEnding doc else js_join (doc_lineEnding doc) lines)
    by by destruct lines.
  destruct (doc_hasTrailingNewline doc); cbn [dl_lines].
  - assert (Hl : last (js_join (doc_lineEnding doc) lines ++ doc_lineEnding doc) = Some LF) by (rewrite last_app; by destruct He as [-> | ->]).
    rewrite Hl. change (is_newline LF) with true. cbn beta iota.
    replace (normalize_newlines _) with (js_join [LF] lines ++ [LF]).
    + unfold drop_last_newline. rewrite reverse_snoc. change (LF =? LF)%N with true. cbn beta iota.
      rewrite reverse_involutive, Hs. destruct (truthy _) eqn:Ht; [done|]. exfalso. apply not_true_iff_false in Ht.
      rewrite truthy_spec in Ht. destruct (js_join [LF] lines) eqn:Ej; [|by apply Ht]. apply Hr. by rewrite <- Hs.
    + rewrite normalize_join by done. f_equal. by destruct He as [-> | ->].
  - destruct Hr as (line & c & Hl & Hlc). rewrite (last_join _ _ _ _ Hl Hlc).
    assert (Hnl : is_newline c = false).
    { apply last_Some_elem_of in Hl, Hlc. eapply (proj1 (Forall_forall _ _)) in Hl; [|exact Hc]. by eapply (proj1 (Forall_forall _ _)) in Hlc; [|exact Hl]. }
    rewrite Hnl. rewrite <- (app_nil_r (js_join _ lines)). rewrite normalize_join by done. cbn [normalize_newlines].
    rewrite app_nil_r, Hs. pose proof (last_join [LF] _ _ _ Hl Hlc) as Hj.
    unfold truthy. rewrite bool_decide_true; [done|]. intros Ej. by rewrite Ej in Hj.
Qed.

(** ** The profile that signs in *)

Section chain.
Context {CO : Collator}.
Implicit Types documents : AwsProfileDocuments.

Definition merged_values documents (current : jsstring) : list (jsstring * jsstring) :=
  sn_mergedValues (inspectAwsProfileDocuments documents current).
Definition next_profile documents (current : jsstring) : jsstring :=
  default [] (field "source_profile" (merged_values documents current)).
(** The walk along [source_profile], with no record of the profiles seen. *)
Fixpoint walk (n : nat) documents (current : jsstring) (hop : nat) : option AwsSsoChainResolution :=
  match n with
  | 0 => None
  | S n =>
      if truthy current
      then match chain_end documents current hop (merged_values documents current) with
           | Some resolution => Some resolution
           | None => walk n documents (next_profile documents current) (S hop)
           end
      else None
  end.

Definition declares documents (current : jsstring) : Prop :=
  ∃ resolution, chain_end documents current 0 (merged_values documents current) = Some resolution.
Lemma chain_end_hop documents current hop hop' values :
  chain_end documents current hop values = None → chain_end documents current hop' values = None.
Proof. unfold chain_end. by destruct (field "sso_session" values), (field "sso_start_url" values). Qed.

(** Among profiles that do not sign in, and only name each other, nothing is found. *)
Lemma walk_closed (seen : list jsstring) documents n current hop :
  (∀ name, name ∈ seen → chain_end documents name 0 (merged_values documents name) = None) →
  (∀ name, name ∈ seen → next_profile documents name ∈ seen) →
  current ∈ seen → walk n documents current hop = None.
Proof.
  intros Hend Hnext. revert current hop. induction n as [|n IH]; intros current hop Hc; [done|]. cbn [walk].
  destruct (truthy current); [|done]. rewrite (chain_end_hop _ _ 0 hop _ (Hend current Hc)). by apply IH, Hnext.
Qed.
Lemma chain_loop_walk n documents seen current hop :
  (∀ name, name ∈ seen → chain_end documents name 0 (merged_values documents name) = None) →
  (∀ name, name ∈ seen → next_profile documents name ∈ seen ∨ next_profile documents name = current) →
  chain_loop n documents seen current hop = walk n documents current hop.
Proof.
  revert seen current hop. induction n as [|n IH]; intros seen current hop Hend Hnext; [done|]. cbn [chain_loop].
  destruct (truthy current) eqn:Ht; cbn [negb orb walk]; rewrite Ht; [|done]. destruct (shas current seen) eqn:Hs.
  - apply shas_spec in Hs. symmetry.
    assert (W : walk (S n) documents current hop = None).
    { apply (walk_closed seen); [done| |done]. intros name Hn. by destruct (Hnext name Hn) as [| ->]. }
    cbn [walk] in W. by rewrite Ht in W.
  - fold (merged_values documents current).
    destruct (chain_end documents current hop _) eqn:E; [done|]. apply IH.
    + intros name [->|Hn]%elem_sadd; [by apply (chain_end_hop _ _ hop)|by apply Hend].
    + intros name [->|Hn]%elem_sadd; [by right|]. destruct (Hnext name Hn) as [H| ->]; left; apply elem_sadd; by auto.
Qed.
(** The profiles that were seen only end a walk that would find nothing. *)
Lemma resolveAwsSsoChain_walk documents profileName :
  resolveAwsSsoChain documents profileName = walk (S MAX_SOURCE_PROFILE_HOPS) documents (js_trim profileName) 0.
Proof. apply chain_loop_walk; intros name Hn; by apply elem_of_nil in Hn. Qed.
End chain.
