(* ===== verification/AwsProfiles.v ===== *)
(** * Managed AWS profiles (AwsProfileRepository of apps/desktop/src/main/database.ts, and
      the managed profiles of apps/desktop/src/main/aws-service.ts)

    The stored profiles, the handlers that create, change, rename and delete them, the
    files they are written out to for the AWS tools, and the import of the profiles of
    the user's own files. *)

From S2P Require Import Prelude Collections AwsIni.

Inductive ManagedAwsProfileKind := mk_static | mk_sso | mk_role.
#[export] Instance ManagedAwsProfileKind_eq_dec : EqDecision ManagedAwsProfileKind.
Proof. solve_decision. Defined.
Record AwsProfileMetadataRecord := {
  md_id : jsstring; md_name : jsstring; md_kind : ManagedAwsProfileKind; md_updatedAt : jsstring }.
Inductive ProfileFields :=
| pf_static (accessKeyId secretAccessKey : jsstring)
| pf_sso (ssoStartUrl ssoRegion ssoAccountId ssoRoleName : jsstring)
| pf_role (sourceProfileId roleArn : jsstring).
Record ManagedAwsProfilePayload := {
  mp_id : jsstring; mp_name : jsstring; mp_kind : ManagedAwsProfileKind; mp_region : option jsstring;
  mp_updatedAt : jsstring; mp_fields : ProfileFields }.
Definition kind_of (fields : ProfileFields) : ManagedAwsProfileKind :=
  match fields with pf_static _ _ => mk_static | pf_sso _ _ _ _ => mk_sso | pf_role _ _ => mk_role end.

(** Sealing a payload: its JSON text, encrypted by the system ([encodeSecretForStorage],
    which throws where there is no secure storage), and reading it back. *)
Class PayloadSealing := {
  sealed : Type;
  seal : ManagedAwsProfilePayload → option sealed;
  unseal : sealed → option ManagedAwsProfilePayload;
  unseal_seal payload value : seal payload = Some value → unseal value = Some payload;
}.
(** [createHash("sha1").update(s).digest("hex")] *)
Class Sha1 := {
  sha1_hex : jsstring → jsstring;
  sha1_hex_length s : length (sha1_hex s) = 40;
  sha1_hex_digits s : Forall (λ c, digit c = true ∨ (97 ≤ c ≤ 102)%N) (sha1_hex s);
}.

(** ** The repository *)

Section repository.
Context {CO : Collator} {PS : PayloadSealing}.

Record ProfileStore := {
  ps_awsProfiles : list AwsProfileMetadataRecord; ps_managedAwsProfilesById : list (jsstring * sealed) }.
Implicit Types (store : ProfileStore) (payload : ManagedAwsProfilePayload).

Definition compareAwsProfileMetadata (left right : AwsProfileMetadataRecord) : Z :=
  cmp_or (λ l r, localeCompare (md_name l) (md_name r)) (λ l r, localeCompare (md_id l) (md_id r)) left right.
Definition toMetadata payload : AwsProfileMetadataRecord :=
  {| md_id := mp_id payload; md_name := js_trim (mp_name payload); md_kind := mp_kind payload;
     md_updatedAt := mp_updatedAt payload |}.
Definition listMetadata store : list AwsProfileMetadataRecord := js_sort compareAwsProfileMetadata (ps_awsProfiles store).
Definition getMetadataById (id : jsstring) store : option AwsProfileMetadataRecord :=
  List.find (λ record, bool_decide (md_id record = id)) (ps_awsProfiles store).
Definition getMetadataByName (name : jsstring) store : option AwsProfileMetadataRecord :=
  List.find (λ record, bool_decide (md_name record = name)) (ps_awsProfiles store).
Definition getPayloadById (id : jsstring) store : option ManagedAwsProfilePayload :=
  match getMetadataById id store with
  | None => None
  | Some metadata =>
      match mget id (ps_managedAwsProfilesById store) with
      | None => None
      | Some record =>
          (λ payload, {| mp_id := md_id metadata; mp_name := md_name metadata; mp_kind := md_kind metadata;
                         mp_region := mp_region payload; mp_updatedAt := mp_updatedAt payload;
                         mp_fields := mp_fields payload |})
          <$> unseal record
      end
  end.
Definition comparePayloads (left right : ManagedAwsProfilePayload) : Z :=
  compareAwsProfileMetadata (toMetadata left) (toMetadata right).
Definition listPayloads store : list ManagedAwsProfilePayload :=
  js_sort comparePayloads (omap (λ metadata, getPayloadById (md_id metadata) store) (listMetadata store)).
Definition resolveNameById (id : option jsstring) store : option jsstring :=
  match opt_truthy id with Some id => md_name <$> getMetadataById id store | None => None end.

Definition renamed_payload (name : jsstring) payload : ManagedAwsProfilePayload :=
  {| mp_id := mp_id payload; mp_name := name; mp_kind := mp_kind payload; mp_region := mp_region payload;
     mp_updatedAt := mp_updatedAt payload; mp_fields := mp_fields payload |}.
Definition dated (now : jsstring) payload : ManagedAwsProfilePayload :=
  {| mp_id := mp_id payload; mp_name := mp_name payload; mp_kind := mp_kind payload; mp_region := mp_region payload;
     mp_updatedAt := if truthy (mp_updatedAt payload) then mp_updatedAt payload else now; mp_fields := mp_fields payload |}.
(** The first loop-free half of [upsert]: the metadata. *)
Definition upsert_metadata (record : AwsProfileMetadataRecord) store : ProfileStore :=
  {| ps_awsProfiles :=
       match findIndex (λ r, bool_decide (md_id r = md_id record)) (ps_awsProfiles store) with
       | Some currentIndex => <[currentIndex := record]> (ps_awsProfiles store)
       | None => ps_awsProfiles store ++ [record]
       end;
     ps_managedAwsProfilesById := ps_managedAwsProfilesById store |}.
(** [None] is the error of the secure storage, which is thrown when the metadata is
    already stored. *)
Definition ap_upsert (now : jsstring) payload store : ProfileStore * option ManagedAwsProfilePayload :=
  let nextPayload := dated now (renamed_payload (js_trim (mp_name payload)) payload) in
  let store := upsert_metadata (toMetadata nextPayload) store in
  match seal nextPayload with
  | None => (store, None)
  | Some value =>
      ({| ps_awsProfiles := ps_awsProfiles store;
          ps_managedAwsProfilesById := mset (mp_id nextPayload) value (ps_managedAwsProfilesById store) |}, Some nextPayload)
  end.
Definition ap_remove (id : jsstring) store : ProfileStore :=
  {| ps_awsProfiles := List.filter (λ record, bool_decide (md_id record ≠ id)) (ps_awsProfiles store);
     ps_managedAwsProfilesById := mdelete id (ps_managedAwsProfilesById store) |}.
(** Nothing is stored when a payload cannot be sealed. *)
Definition ap_replaceAll (payloads : list ManagedAwsProfilePayload) store : option ProfileStore :=
  let nextPayloads := (λ payload, renamed_payload (js_trim (mp_name payload)) payload) <$> payloads in
  let nextMetadata := toMetadata <$> nextPayloads in
  let nextIds := md_id <$> nextMetadata in
  (λ values,
     {| ps_awsProfiles := nextMetadata;
        ps_managedAwsProfilesById :=
          foldl (λ m '(id, value), mset id value m)
            (List.filter (λ entry, bool_decide (entry.1 ∈ nextIds)) (ps_managedAwsProfilesById store))
            (zip nextIds values) |})
  <$> mapM seal nextPayloads.
End repository.
#[global] Arguments ProfileStore {PS}.

(** ** The files for the AWS tools *)

Section files.
Context {CO : Collator} {PS : PayloadSealing} {SH : Sha1}.
Implicit Types (store : ProfileStore) (payload : ManagedAwsProfilePayload).

(** The fields of a payload; one that its kind does not have is [undefined]. *)
Definition undefined_text : jsstring := js "undefined".
Definition accessKeyId payload := match mp_fields payload with pf_static a _ => a | _ => undefined_text end.
Definition secretAccessKey payload := match mp_fields payload with pf_static _ s => s | _ => undefined_text end.
Definition roleArn payload := match mp_fields payload with pf_role _ arn => arn | _ => undefined_text end.
Definition sourceProfileId payload := match mp_fields payload with pf_role id _ => Some id | _ => None end.
Definition sso_field (n : nat) payload :=
  match mp_fields payload with
  | pf_sso startUrl region accountId roleName => nth n [startUrl; region; accountId; roleName] undefined_text
  | _ => undefined_text
  end.
Definition region_of payload : option jsstring := opt_truthy (js_trim <$> mp_region payload).

Definition buildManagedSsoSessionKey (startUrl ssoRegion : jsstring) : jsstring :=
  js "dolssh-" ++ take 12 (sha1_hex (js_trim startUrl ++ js "|" ++ js_trim ssoRegion)).
Definition AWS_SSO_REGISTRATION_SCOPES : jsstring := js "sso:account:access".

Definition config_header payload : jsstring :=
  if decide (mp_name payload = js "default") then js "[default]" else js "[profile " ++ mp_name payload ++ js "]".
Definition entry (key : string) (value : jsstring) : jsstring := js key ++ js " = " ++ value.
Definition region_lines payload : list jsstring :=
  match region_of payload with Some region => [entry "region" region] | None => [] end.

Record Materialized := { ma_config : list jsstring; ma_credentials : list jsstring; ma_writtenSsoSessions : list jsstring }.
(** What one profile adds. *)
Definition materialize_step (profileNameById : list (jsstring * jsstring)) (acc : Materialized) payload : Materialized :=
  match mp_kind payload with
  | mk_static =>
      {| ma_credentials := ma_credentials acc
           ++ [js "[" ++ mp_name payload ++ js "]"; entry "aws_access_key_id" (accessKeyId payload);
               entry "aws_secret_access_key" (secretAccessKey payload); []];
         ma_config := match region_of payload with
                      | Some region => ma_config acc ++ [config_header payload; entry "region" region; []]
                      | None => ma_config acc
                      end;
         ma_writtenSsoSessions := ma_writtenSsoSessions acc |}
  | mk_role =>
      match opt_truthy (sourceProfileId payload ≫= λ id, mget id profileNameById) with
      | None => acc
      | Some sourceProfileName =>
          {| ma_config := ma_config acc
               ++ [config_header payload; entry "role_arn" (roleArn payload); entry "source_profile" sourceProfileName]
               ++ region_lines payload ++ [[]];
             ma_credentials := ma_credentials acc; ma_writtenSsoSessions := ma_writtenSsoSessions acc |}
      end
  | mk_sso =>
      let ssoSessionName := buildManagedSsoSessionKey (sso_field 0 payload) (sso_field 1 payload) in
      let config := ma_config acc
        ++ [config_header payload; entry "sso_session" ssoSessionName; entry "sso_account_id" (sso_field 2 payload);
            entry "sso_role_name" (sso_field 3 payload)]
        ++ region_lines payload ++ [[]] in
      if shas ssoSessionName (ma_writtenSsoSessions acc)
      then {| ma_config := config; ma_credentials := ma_credentials acc; ma_writtenSsoSessions := ma_writtenSsoSessions acc |}
      else {| ma_config := config
                ++ [js "[sso-session " ++ ssoSessionName ++ js "]"; entry "sso_region" (sso_field 1 payload);
                    entry "sso_start_url" (sso_field 0 payload);
                    entry "sso_registration_scopes" AWS_SSO_REGISTRATION_SCOPES; []];
              ma_credentials := ma_credentials acc;
              ma_writtenSsoSessions := sadd ssoSessionName (ma_writtenSsoSessions acc) |}
  end.
Definition materialize_order : ManagedAwsProfilePayload → ManagedAwsProfilePayload → Z :=
  cmp_or (λ l r, localeCompare (mp_name l) (mp_name r)) (λ l r, localeCompare (mp_id l) (mp_id r)).
Definition materialize (payloads : list ManagedAwsProfilePayload) : Materialized :=
  let sortedPayloads := js_sort materialize_order payloads in
  let profileNameById := mof ((λ p, (mp_id p, mp_name p)) <$> sortedPayloads) in
  foldl (materialize_step profileNameById) {| ma_config := []; ma_credentials := []; ma_writtenSsoSessions := [] |} sortedPayloads.
Definition file_text (lines : list jsstring) : jsstring :=
  match lines with [] => [] | _ => trim_end (js_join [LF] lines) ++ [LF] end.
(** The texts of the config and the credentials file that are written. *)
Definition materializeManagedProfiles store : jsstring * jsstring :=
  let m := materialize (listPayloads store) in (file_text (ma_config m), file_text (ma_credentials m)).
(** The files as the service reads them afterwards. *)
Definition managed_documents (rootDir configPath credentialsPath : jsstring) (files : jsstring * jsstring) : AwsProfileDocuments :=
  loadAwsProfileDocuments rootDir configPath credentialsPath (Some files.1) (Some files.2).

(** ** The handlers

    Each one is given the answer of the AWS services where it asks for one, the time, and
    a fresh id; it writes the files out again when it has stored something.  The result is
    the store and the error, if any. *)

Definition normalizeAwsProfileName (input : jsstring) : result jsstring :=
  let trimmed := js_trim input in
  if negb (truthy trimmed) then Throw "required" else
  if existsb (λ c, is_newline c || (c =? 93)%N) trimmed then Throw "invalid characters" else Ok trimmed.
Definition getManagedProfileByName (profileName : jsstring) store : option ManagedAwsProfilePayload :=
  getMetadataByName profileName store ≫= λ metadata, getPayloadById (md_id metadata) store.
Definition resolveManagedProfileId (profileName : option jsstring) store : option jsstring :=
  match opt_truthy (js_trim <$> profileName) with
  | Some name => md_id <$> getMetadataByName name store
  | None => None
  end.
Definition stored (r : ProfileStore * option ManagedAwsProfilePayload) : ProfileStore * option string :=
  (r.1, match r.2 with Some _ => None | None => Some "secure storage unavailable" end).

(** [saveStaticProfileValues], [saveSsoProfileValues] and [saveRoleProfileValues]: the id
    of the profile of that name is kept. *)
Definition save_profile (newId now profileName : jsstring) (region : option jsstring) (fields : ProfileFields) store
    : ProfileStore * option string :=
  stored (ap_upsert now
    {| mp_id := match getManagedProfileByName profileName store with Some existing => mp_id existing | None => newId end;
       mp_name := profileName; mp_kind := kind_of fields; mp_region := opt_truthy (js_trim <$> region);
       mp_updatedAt := now; mp_fields := fields |} store).
Definition saveStaticProfileValues (newId now profileName access secret : jsstring) (region : option jsstring) store :=
  save_profile newId now profileName region (pf_static (js_trim access) (js_trim secret)) store.
Definition saveSsoProfileValues (newId now profileName startUrl ssoRegion accountId roleName : jsstring) (region : option jsstring) store :=
  save_profile newId now profileName region
    (pf_sso (js_trim startUrl) (js_trim ssoRegion) (js_trim accountId) (js_trim roleName)) store.
Definition saveRoleProfileValues (newId now profileName sourceId arn : jsstring) (region : option jsstring) store :=
  save_profile newId now profileName region (pf_role sourceId (js_trim arn)) store.
Definition profileNameAvailable (profileName : jsstring) store : bool :=
  match getMetadataByName profileName store with Some _ => false | None => true end.

(** A handler that waits for the AWS services reads the store before ([checked]) and
    changes it after ([saved]); other handlers may have run in between. *)
Definition Handled : Type := ProfileStore * option string.
Definition refuse (error : string) store : Handled := (store, Some error).

Record StaticInput := {
  si_profileName : jsstring; si_accessKeyId : jsstring; si_secretAccessKey : jsstring; si_region : option jsstring }.
Definition createStatic (validated : bool) (newId now : jsstring) (input : StaticInput) (checked saved : ProfileStore) : Handled :=
  match normalizeAwsProfileName (si_profileName input) with
  | Throw e => refuse e saved
  | Ok profileName =>
      let access := js_trim (si_accessKeyId input) in
      let secret := js_trim (si_secretAccessKey input) in
      let region := opt_truthy (js_trim <$> si_region input) in
      if negb (truthy access) then refuse "access key required" saved else
      if negb (truthy secret) then refuse "secret required" saved else
      if negb (profileNameAvailable profileName checked) then refuse "duplicate name" saved else
      if negb validated then refuse "credentials" saved else
      saveStaticProfileValues newId now profileName access secret region saved
  end.
Record RoleInput := {
  ri_profileName : jsstring; ri_sourceProfileId : option jsstring; ri_sourceProfileName : jsstring;
  ri_roleArn : jsstring; ri_region : option jsstring }.
Definition role_source (input : RoleInput) store : result (option ManagedAwsProfilePayload) :=
  match opt_truthy (ri_sourceProfileId input) ≫= λ id, getPayloadById id store with
  | Some source => Ok (Some source)
  | None =>
      let! name := normalizeAwsProfileName (ri_sourceProfileName input) in
      Ok (getManagedProfileByName name store)
  end.
Definition createRole (validated : bool) (newId now : jsstring) (input : RoleInput) (checked saved : ProfileStore) : Handled :=
  match normalizeAwsProfileName (ri_profileName input) with
  | Throw e => refuse e saved
  | Ok profileName =>
      let arn := js_trim (ri_roleArn input) in
      let region := opt_truthy (js_trim <$> ri_region input) in
      match role_source input checked with
      | Throw e => refuse e saved
      | Ok sourceProfile =>
          if negb (truthy arn) then refuse "role ARN required" saved else
          if negb (profileNameAvailable profileName checked) then refuse "duplicate name" saved else
          match sourceProfile with
          | None => refuse "source profile not found" saved
          | Some sourceProfile =>
              if negb validated then refuse "role" saved else
              saveRoleProfileValues newId now profileName (mp_id sourceProfile) arn region saved
          end
      end
  end.
Definition updateProfile (validated : bool) (newId now : jsstring) (input : StaticInput) (checked saved : ProfileStore) : Handled :=
  match normalizeAwsProfileName (si_profileName input) with
  | Throw e => refuse e saved
  | Ok profileName =>
      let access := js_trim (si_accessKeyId input) in
      let secret := js_trim (si_secretAccessKey input) in
      let region := opt_truthy (js_trim <$> si_region input) in
      if negb (truthy access) then refuse "access key required" saved else
      if negb (truthy secret) then refuse "secret required" saved else
      match getManagedProfileByName profileName checked with
      | Some currentProfile =>
          if negb (bool_decide (mp_kind currentProfile = mk_static)) then refuse "access keys only" saved else
          if negb validated then refuse "credentials" saved else
          saveStaticProfileValues newId now profileName access secret region saved
      | None => refuse "access keys only" saved
      end
  end.

Definition AWS_PROFILE_REGION_OPTIONS : list jsstring :=
  js <$> ["af-south-1"; "ap-east-1"; "ap-east-2"; "ap-northeast-1"; "ap-northeast-2"; "ap-northeast-3"; "ap-south-1";
          "ap-south-2"; "ap-southeast-1"; "ap-southeast-2"; "ap-southeast-3"; "ap-southeast-4"; "ap-southeast-5";
          "ap-southeast-6"; "ap-southeast-7"; "ca-central-1"; "ca-west-1"; "eu-central-1"; "eu-central-2"; "eu-north-1";
          "eu-south-1"; "eu-south-2"; "eu-west-1"; "eu-west-2"; "eu-west-3"; "il-central-1"; "me-central-1"; "me-south-1";
          "mx-central-1"; "sa-east-1"; "us-east-1"; "us-east-2"; "us-west-1"; "us-west-2"]%string.
Definition with_region (region : option jsstring) (now : jsstring) payload : ManagedAwsProfilePayload :=
  {| mp_id := mp_id payload; mp_name := mp_name payload; mp_kind := mp_kind payload; mp_region := region;
     mp_updatedAt := now; mp_fields := mp_fields payload |}.
Definition with_name (name now : jsstring) payload : ManagedAwsProfilePayload :=
  {| mp_id := mp_id payload; mp_name := name; mp_kind := mp_kind payload; mp_region := mp_region payload;
     mp_updatedAt := now; mp_fields := mp_fields payload |}.
Definition updateProfileRegion (now profileName : jsstring) (region : option jsstring) store : Handled :=
  match normalizeAwsProfileName profileName with
  | Throw e => refuse e store
  | Ok profileName =>
      let region := opt_truthy (js_trim <$> region) in
      if match region with Some region => negb (bool_decide (region ∈ AWS_PROFILE_REGION_OPTIONS)) | None => false end
      then refuse "unsupported region" store else
      match getManagedProfileByName profileName store with
      | None => refuse "not found" store
      | Some currentProfile => stored (ap_upsert now (with_region region now currentProfile) store)
      end
  end.
Definition renameProfile (now profileName nextProfileName : jsstring) store : Handled :=
  match normalizeAwsProfileName profileName, normalizeAwsProfileName nextProfileName with
  | Throw e, _ | _, Throw e => refuse e store
  | Ok profileName, Ok nextProfileName =>
      if bool_decide (profileName = nextProfileName) then refuse "same name" store else
      match getManagedProfileByName profileName store with
      | None => refuse "not found" store
      | Some currentProfile =>
          if getManagedProfileByName nextProfileName store then refuse "duplicate name" store else
          stored (ap_upsert now (with_name nextProfileName now currentProfile) store)
      end
  end.
Definition deleteProfile (profileName : jsstring) store : Handled :=
  match normalizeAwsProfileName profileName with
  | Throw e => refuse e store
  | Ok profileName =>
      match getManagedProfileByName profileName store with
      | None => refuse "not found" store
      | Some existingProfile => (ap_remove (mp_id existingProfile) store, None)
      end
  end.
End files.

(** ** Signing in with SSO, before the profile is stored *)

Section preparation.
Context {CO : Collator} {PS : PayloadSealing} {SH : Sha1}.

(** The names of the SSO sessions in the config file, and the first of [base], [base-2],
    [base-3], … that is none of them.  (The source also reads them with a pattern of its
    own, a section header whose text begins with [sso-session ].) *)
Definition sso_session_of (line : jsstring) : option jsstring :=
  match match_header line with
  | Some header => if startsWith header (js "sso-session ") && truthy (drop 12 header) then opt_truthy (Some (js_trim (drop 12 header))) else None
  | None => None
  end.
Definition existingSessionNames (documents : AwsProfileDocuments) : list jsstring :=
  sof (omap sso_session_of (doc_lines (ad_config documents))).
Fixpoint unique_loop (fuel : nat) (existing : list jsstring) (base next : jsstring) (suffix : N) : jsstring :=
  match fuel with
  | 0 => next
  | S fuel =>
      if shas next existing then unique_loop fuel existing base (base ++ js "-" ++ show_N suffix) (suffix + 1)%N
      else next
  end.
Definition buildUniqueSsoSessionNameForDocuments (documents : AwsProfileDocuments) (baseName : jsstring) : jsstring :=
  let existing := existingSessionNames documents in
  unique_loop (S (length existing)) existing baseName baseName 2.

Record SsoPreparation := {
  pp_profileName : jsstring; pp_ssoSessionName : jsstring; pp_ssoStartUrl : jsstring; pp_ssoRegion : jsstring;
  pp_region : option jsstring; pp_expiresAt : Z }.
Definition SSO_PREPARATION_TTL_MS : Z := 600000.
Definition Pending := list (jsstring * SsoPreparation).

(** The files of the temporary root: first to sign in, then to check the role. *)
Definition preparation_documents (documents : AwsProfileDocuments) (p : SsoPreparation) : AwsProfileDocuments :=
  let documents := setAwsProfileKeyValueInDocuments documents fk_config (pp_profileName p) (js "sso_session") (pp_ssoSessionName p) in
  let documents :=
    match pp_region p with
    | Some region => setAwsProfileKeyValueInDocuments documents fk_config (pp_profileName p) (js "region") region
    | None => documents
    end in
  let documents := setAwsSsoSessionKeyValueInDocuments documents (pp_ssoSessionName p) (js "sso_region") (pp_ssoRegion p) in
  let documents := setAwsSsoSessionKeyValueInDocuments documents (pp_ssoSessionName p) (js "sso_start_url") (pp_ssoStartUrl p) in
  setAwsSsoSessionKeyValueInDocuments documents (pp_ssoSessionName p) (js "sso_registration_scopes") AWS_SSO_REGISTRATION_SCOPES.
Definition final_documents (documents : AwsProfileDocuments) (profileName accountId roleName : jsstring) : AwsProfileDocuments :=
  setAwsProfileKeyValueInDocuments
    (setAwsProfileKeyValueInDocuments documents fk_config profileName (js "sso_account_id") accountId)
    fk_config profileName (js "sso_role_name") roleName.

Record SsoPrepareInput := {
  ni_profileName : jsstring; ni_ssoStartUrl : jsstring; ni_ssoRegion : jsstring; ni_region : option jsstring }.
(** The checks, and the preparation that is kept when the sign-in has gone through at [now];
    [documents] are the managed files when the session gets its name. *)
Definition prepareSsoProfile (documents : AwsProfileDocuments) (now : Z) (input : SsoPrepareInput) (checked : ProfileStore)
    : result SsoPreparation :=
  let! profileName := normalizeAwsProfileName (ni_profileName input) in
  let startUrl := js_trim (ni_ssoStartUrl input) in
  let ssoRegion := js_trim (ni_ssoRegion input) in
  if negb (truthy startUrl) then Throw "start URL required" else
  if negb (truthy ssoRegion) then Throw "SSO region required" else
  if negb (profileNameAvailable profileName checked) then Throw "duplicate name" else
  Ok {| pp_profileName := profileName; pp_ssoSessionName := buildUniqueSsoSessionNameForDocuments documents profileName;
        pp_ssoStartUrl := startUrl; pp_ssoRegion := ssoRegion; pp_region := opt_truthy (js_trim <$> ni_region input);
        pp_expiresAt := (now + SSO_PREPARATION_TTL_MS)%Z |}.
Definition pruneExpiredSsoPreparations (now : Z) (pending : Pending) : Pending :=
  List.filter (λ entry, (now <? pp_expiresAt entry.2)%Z) pending.
Definition consumeSsoPreparation (token : jsstring) (now : Z) (pending : Pending) : Pending * result SsoPreparation :=
  let pending := pruneExpiredSsoPreparations now pending in
  match mget token pending with
  | None => (pending, Throw "no preparation")
  | Some preparation =>
      (mdelete token pending,
       if (pp_expiresAt preparation <=? now)%Z then Throw "preparation expired" else Ok preparation)
  end.

Record SsoInput := {
  oi_profileName : jsstring; oi_preparationToken : jsstring; oi_ssoSessionName : jsstring; oi_ssoStartUrl : jsstring;
  oi_ssoRegion : jsstring; oi_ssoAccountId : jsstring; oi_ssoRoleName : jsstring; oi_region : option jsstring }.
(** [validated] is the answer for the temporary root, [saved] the store when it is there. *)
Definition createSso (validated : bool) (newId nowIso : jsstring) (now : Z) (input : SsoInput) (checked saved : ProfileStore)
    (pending : Pending) : Pending * Handled :=
  match normalizeAwsProfileName (oi_profileName input) with
  | Throw e => (pending, refuse e saved)
  | Ok profileName =>
      let accountId := js_trim (oi_ssoAccountId input) in
      let roleName := js_trim (oi_ssoRoleName input) in
      if negb (truthy accountId) then (pending, refuse "account required" saved) else
      if negb (truthy roleName) then (pending, refuse "role required" saved) else
      if negb (profileNameAvailable profileName checked) then (pending, refuse "duplicate name" saved) else
      match consumeSsoPreparation (oi_preparationToken input) now pending with
      | (pending, Throw e) => (pending, refuse e saved)
      | (pending, Ok p) =>
          (pending,
           if bool_decide (pp_profileName p ≠ profileName) then refuse "other profile" saved else
           if bool_decide (pp_ssoSessionName p ≠ oi_ssoSessionName input)
              || bool_decide (pp_ssoStartUrl p ≠ js_trim (oi_ssoStartUrl input))
              || bool_decide (pp_ssoRegion p ≠ js_trim (oi_ssoRegion input))
              || bool_decide (pp_region p ≠ opt_truthy (js_trim <$> oi_region input))
           then refuse "other input" saved else
           if negb validated then refuse "sign-in" saved else
           saveSsoProfileValues newId nowIso profileName (pp_ssoStartUrl p) (pp_ssoRegion p) accountId roleName (pp_region p) saved)
      end
  end.
End preparation.

(** ** Importing the profiles of the user's files *)

Section import.
Context {CO : Collator} {PS : PayloadSealing} {SH : Sha1} {UU : UuidSupply}.

Record ImportState := {
  im_payloadsByName : list (jsstring * ManagedAwsProfilePayload); im_importedProfileNames : list jsstring;
  im_skippedProfileNames : list jsstring; im_visiting : list jsstring; im_nextUuid : nat }.
Definition skip_if (explicit : bool) (profileName : jsstring) (st : ImportState) : ImportState :=
  if explicit then {| im_payloadsByName := im_payloadsByName st; im_importedProfileNames := im_importedProfileNames st;
                      im_skippedProfileNames := sadd profileName (im_skippedProfileNames st); im_visiting := im_visiting st;
                      im_nextUuid := im_nextUuid st |} else st.
Definition set_visiting (visiting : list jsstring) (st : ImportState) : ImportState :=
  {| im_payloadsByName := im_payloadsByName st; im_importedProfileNames := im_importedProfileNames st;
     im_skippedProfileNames := im_skippedProfileNames st; im_visiting := visiting; im_nextUuid := im_nextUuid st |}.
Definition take_uuid (st : ImportState) : ImportState :=
  {| im_payloadsByName := im_payloadsByName st; im_importedProfileNames := im_importedProfileNames st;
     im_skippedProfileNames := im_skippedProfileNames st; im_visiting := im_visiting st; im_nextUuid := S (im_nextUuid st) |}.
Definition add_payload (profileName : jsstring) (payload : ManagedAwsProfilePayload) (st : ImportState) : ImportState :=
  {| im_payloadsByName := mset profileName payload (im_payloadsByName st);
     im_importedProfileNames := sadd profileName (im_importedProfileNames st);
     im_skippedProfileNames := im_skippedProfileNames st; im_visiting := im_visiting st; im_nextUuid := im_nextUuid st |}.

(** What the values of a profile make of it. *)
Inductive ImportKind :=
| ik_sso (startUrl region accountId roleName : jsstring)
| ik_role (roleArn sourceProfileName : jsstring)
| ik_static (accessKeyId secretAccessKey : jsstring)
| ik_nothing.
Definition import_kind (sourceDocuments : AwsProfileDocuments) (values : list (jsstring * jsstring)) : ImportKind :=
  let ssoSessionValues :=
    match field "sso_session" values with Some session => getAwsSsoSessionValues sourceDocuments session | None => [] end in
  let either (key : string) := match field key values with Some v => Some v | None => field key ssoSessionValues end in
  match either "sso_start_url", either "sso_region", field "sso_account_id" values, field "sso_role_name" values with
  | Some startUrl, Some region, Some accountId, Some roleName => ik_sso startUrl region accountId roleName
  | _, _, _, _ =>
      match field "role_arn" values, field "source_profile" values with
      | Some arn, Some source => ik_role arn source
      | _, _ =>
          match field "aws_access_key_id" values, field "aws_secret_access_key" values with
          | Some access, Some secret => ik_static access secret
          | _, _ => ik_nothing
          end
      end
  end.

(** [visitProfile]; the fuel bounds the profiles that are being visited. *)
Definition out_of_fuel : string := "out of fuel".
Fixpoint visitProfile (fuel : nat) (store : ProfileStore) (sourceDocuments : AwsProfileDocuments) (now : jsstring)
    (requestedProfileName : jsstring) (explicit : bool) (st : ImportState) : result (option jsstring * ImportState) :=
  match fuel with
  | 0 => Throw out_of_fuel
  | S fuel =>
      let! profileName := normalizeAwsProfileName requestedProfileName in
      match mget profileName (im_payloadsByName st) with
      | Some payload => Ok (Some (mp_id payload), st)
      | None =>
          match getMetadataByName profileName store with
          | Some existing => Ok (Some (md_id existing), skip_if explicit profileName st)
          | None =>
              if shas profileName (im_visiting st) then Ok (None, st) else
              let st := set_visiting (sadd profileName (im_visiting st)) st in
              let leave (r : option jsstring * ImportState) :=
                Ok (r.1, set_visiting (filter (λ name, name ≠ profileName) (im_visiting r.2)) r.2) in
              let snapshot := inspectAwsProfileDocuments sourceDocuments profileName in
              if negb (sn_hasConfigSection snapshot) && negb (sn_hasCredentialsSection snapshot)
              then leave (None, skip_if explicit profileName st) else
              let values := sn_mergedValues snapshot in
              let id := uuid (im_nextUuid st) in
              let st := take_uuid st in
              let payload fields :=
                {| mp_id := id; mp_name := profileName; mp_kind := kind_of fields; mp_region := field "region" values;
                   mp_updatedAt := now; mp_fields := fields |} in
              let import fields st := leave (Some id, add_payload profileName (payload fields) st) in
              match import_kind sourceDocuments values with
              | ik_sso startUrl region accountId roleName => import (pf_sso startUrl region accountId roleName) st
              | ik_role arn source =>
                  let! (sourceId, st) := visitProfile fuel store sourceDocuments now source false st in
                  match opt_truthy sourceId with
                  | None => leave (None, skip_if explicit profileName st)
                  | Some sourceId => import (pf_role sourceId arn) st
                  end
              | ik_static access secret => import (pf_static access secret) st
              | ik_nothing => leave (None, skip_if explicit profileName st)
              end
          end
      end
  end.

Definition import_start (nextUuid : nat) : ImportState :=
  {| im_payloadsByName := []; im_importedProfileNames := []; im_skippedProfileNames := []; im_visiting := [];
     im_nextUuid := nextUuid |}.
(** The profiles of a file and the ones they name, one after the other: none is visited
    inside a visit of itself. *)
Definition import_fuel (sourceDocuments : AwsProfileDocuments) : nat :=
  S (S (length (listAwsProfileNames sourceDocuments))).
Fixpoint visit_all (store : ProfileStore) (sourceDocuments : AwsProfileDocuments) (now : jsstring) (names : list jsstring)
    (st : ImportState) : result ImportState :=
  match names with
  | [] => Ok st
  | name :: names =>
      let! (_, st) := visitProfile (import_fuel sourceDocuments) store sourceDocuments now name true st in
      visit_all store sourceDocuments now names st
  end.
Definition imported_payloads (st : ImportState) : list ManagedAwsProfilePayload :=
  js_sort (λ l r, localeCompare (mp_name l) (mp_name r)) (mvalues (im_payloadsByName st)).
Definition buildImportedPayloadsFromExternalDocuments (store : ProfileStore) (sourceDocuments : AwsProfileDocuments)
    (now : jsstring) (requestedProfileNames : list jsstring) (nextUuid : nat)
    : result (list ManagedAwsProfilePayload * list jsstring * list jsstring) :=
  let! st := visit_all store sourceDocuments now requestedProfileNames (import_start nextUuid) in
  Ok (imported_payloads st, by_locale (im_importedProfileNames st), by_locale (im_skippedProfileNames st)).
(** The loop of [upsert] calls; it stops at the first that fails. *)
Fixpoint upsert_all (now : jsstring) (payloads : list ManagedAwsProfilePayload) (store : ProfileStore) : ProfileStore * option string :=
  match payloads with
  | [] => (store, None)
  | payload :: payloads =>
      match stored (ap_upsert now payload store) with
      | (store, None) => upsert_all now payloads store
      | r => r
      end
  end.
Record ImportResult := { ir_store : ProfileStore; ir_imported : list jsstring; ir_skipped : list jsstring; ir_error : option string }.
Definition importExternalProfiles (store : ProfileStore) (sourceDocuments : AwsProfileDocuments) (now : jsstring)
    (profileNames : list jsstring) (nextUuid : nat) : ImportResult :=
  let requestedProfileNames := sof (List.filter truthy (js_trim <$> profileNames)) in
  match requestedProfileNames with
  | [] => {| ir_store := store; ir_imported := []; ir_skipped := []; ir_error := None |}
  | _ =>
      match buildImportedPayloadsFromExternalDocuments store sourceDocuments now requestedProfileNames nextUuid with
      | Throw e => {| ir_store := store; ir_imported := []; ir_skipped := []; ir_error := Some e |}
      | Ok (payloads, imported, skipped) =>
          let r := upsert_all now payloads store in
          {| ir_store := r.1; ir_imported := imported; ir_skipped := skipped; ir_error := r.2 |}
      end
  end.
End import.
