(* ===== verification/AwsProfileFiles.v ===== *)
(** * The files of the managed AWS profiles are read back

    What is written out for the stored profiles says, section by section, what they
    are: the values found for a profile are its own, and the profile whose sign-in it
    uses is the one the stored references lead to. *)

From S2P Require Import Prelude Collections AwsIni AwsIniFacts AwsProfiles.

(** ** Texts of lines that end in an empty line *)

(** Every line that is written before the last, empty one ends in a visible character. *)
Definition tidy (lines : list jsstring) : Prop :=
  Forall clean_line lines
  ∧ (lines = [] ∨ ∃ body line c, lines = body ++ [[]] ∧ last body = Some line ∧ last line = Some c ∧ is_ws c = false).

Lemma tidy_app (a b : list jsstring) : tidy a → tidy b → tidy (a ++ b).
Proof.
  intros [Ha Ha'] [Hb Hb']. split; [by apply Forall_app|]. destruct Hb' as [->|(body & line & c & -> & Hl & Hc)].
  - by rewrite app_nil_r.
  - right. exists (a ++ body), line, c. split_and!; [by rewrite (assoc_L (++))|by rewrite last_app, Hl|apply Hc..].
Qed.
Lemma read_file_text (lines : list jsstring) fk : tidy lines →
  sections fk (dl_lines (toDocumentLines (file_text lines))) = sections fk lines.
Proof.
  intros [Hc [->|(body & line & c & E & Hl & Hlc)]]; [done|]. subst lines. apply Forall_app in Hc as [Hc _].
  destruct Hlc as [Hlc Hw]. assert (Hne : body ≠ []) by (intros ->; done).
  pose proof (last_join [LF] body line c Hl Hlc) as Hjoin.
  assert (E : file_text (body ++ [[]]) = serializeDocument
    {| doc_filePath := []; doc_exists := true; doc_dirty := true; doc_lineEnding := [LF]; doc_hasTrailingNewline := true; doc_lines := body |}).
  { unfold file_text, serializeDocument. cbn [doc_lines doc_lineEnding doc_hasTrailingNewline].
    destruct (body ++ [[]]) as [|x1 x2] eqn:Eb; [by destruct body|]. rewrite <- Eb. destruct body as [|y1 y2] eqn:Ebody; [done|]. rewrite <- Ebody in *.
    rewrite js_join_app by done. cbn [js_join]. rewrite trim_end_ws by (by repeat constructor). f_equal.
    apply last_Some in Hjoin as [s Es]. rewrite Es. unfold trim_end. rewrite reverse_snoc. cbn [trim_start]. rewrite Hw.
    by rewrite <- reverse_snoc, reverse_involutive. }
  rewrite E, serialize_roundtrip.
  - cbn [doc_lines]. rewrite <- (app_nil_r body) at 1. symmetry. by apply sections_silent, blank_silent.
  - split_and!; [by left|done|]. intros _ Eb. cbn in Eb. subst body. cbn in Hl. injection Hl as <-. done.
Qed.

(** ** One section *)

Section chunks.
Implicit Types (l : list (string * jsstring)).

(** A value that is written as it is, and read back. *)
Definition value_ok (value : jsstring) : Prop := trimmed value ∧ clean_line value.
Definition entries l : list jsstring := (λ '(key, value), entry key value) <$> l.
Definition read l : list (jsstring * jsstring) := (λ '(key, value), (js key, value)) <$> l.
Definition literal_key (key : string) : bool :=
  bool_decide (js_trim (js key) = js key)
  && match js key with c :: _ => negb (c =? 35)%N && negb (c =? 59)%N && negb (c =? 91)%N | [] => false end
  && forallb (λ c, negb (c =? 61)%N && negb (is_newline c)) (js key) && bool_decide (js key ≠ js "__proto__").

Lemma literal_key_ok key : literal_key key = true → key_ok (js key) ∧ clean_line (js key).
Proof.
  unfold literal_key. intros H. apply andb_true_iff in H as [H _]. apply andb_true_iff in H as [H Hall].
  apply andb_true_iff in H as [Htrim Hhead]. apply bool_decide_eq_true in Htrim. rewrite forallb_spec in Hall.
  destruct (js key) as [|c rest] eqn:E; [done|]. rewrite !andb_true_iff, !negb_true_iff, !N.eqb_neq in Hhead.
  split.
  - split_and!; [by split| |].
    + intros Hin. specialize (Hall _ Hin). done.
    + intros d r [= <- <-]. naive_solver.
  - apply Forall_forall. intros d Hd. specialize (Hall _ Hd). rewrite andb_true_iff, !negb_true_iff in Hall. apply Hall.
Qed.

Definition entries_ok l : Prop := Forall (λ kv, literal_key kv.1 = true ∧ value_ok kv.2) l.
Lemma entries_spec l : entries_ok l → no_header (entries l) ∧ pairs_of (entries l) = read l ∧ Forall clean_line (entries l).
Proof.
  induction 1 as [|[key value] l [Hk [Hv Hc]] _ (IH1 & IH2 & IH3)]; [by repeat constructor|]. cbn [fst snd] in *.
  apply literal_key_ok in Hk as [Hk Hkc]. destruct (parse_key_value_line (js key) value Hk) as [E1 E2]. cbn [entries fmap list_fmap].
  split_and!.
  - by constructor.
  - fold (entries l). rewrite pairs_of_cons. unfold entry. fold (key_value_line (js key) value). rewrite E1, IH2. cbn. by rewrite (proj2 Hv).
  - constructor; [|done]. unfold entry. apply Forall_app. split; [done|]. apply Forall_app. split; [by repeat constructor|done].
Qed.

(** A section as it is written: its header, its entries and an empty line. *)
Definition chunk (header : jsstring) l : list jsstring := header :: entries l ++ [[]].
Lemma sections_chunk fk header id l : section_id fk header = Some id → entries_ok l →
  sections fk (chunk header l) = [(id, read l)].
Proof.
  intros Hid Hl. destruct (entries_spec l Hl) as (H1 & H2 & _). unfold chunk.
  rewrite (sections_section _ _ _ id) by (done || (apply Forall_app; split; [done|by repeat constructor])).
  by rewrite pairs_of_app, H2, app_nil_r.
Qed.
Lemma chunk_starts fk header id l : section_id fk header = Some id → starts_section (chunk header l).
Proof. intros Hid. cbn. intros E. apply (section_id_None fk) in E. by rewrite E in Hid. Qed.
Lemma tidy_chunk header l : clean_line header → l ≠ [] → entries_ok l → tidy (chunk header l).
Proof.
  intros Hh Hne Hl. destruct (entries_spec l Hl) as (_ & _ & H3). split.
  - constructor; [done|]. apply Forall_app. split; [done|by repeat constructor].
  - right. destruct (last l) as [[key value]|] eqn:El; [|by apply last_None in El].
    pose proof (last_Some_elem_of _ _ El) as Hin. eapply (proj1 (Forall_forall _ _)) in Hin; [|exact Hl].
    destruct Hin as [_ [Hv _]]. destruct (trimmed_last _ Hv) as (c & Hc & Hw). cbn [snd] in *.
    exists (header :: entries l), (entry key value), c. split_and!; [done| | |done].
    + rewrite last_cons. unfold entries. by rewrite fmap_last, El.
    + unfold entry. by rewrite !last_app, Hc.
Qed.
End chunks.

(** ** What is written of the stored profiles *)

Section managed.
Context {CO : Collator} {PS : PayloadSealing} {SH : Sha1}.
Implicit Types (p q : ManagedAwsProfilePayload) (names : list (jsstring * jsstring)).

Definition region_entries p : list (string * jsstring) :=
  match region_of p with Some region => [("region"%string, region)] | None => [] end.
Definition session_key p : jsstring := buildManagedSsoSessionKey (sso_field 0 p) (sso_field 1 p).
Definition source_name names p : option jsstring := opt_truthy (sourceProfileId p ≫= λ id, mget id names).
(** The entries of a profile in the config and in the credentials file, and of its SSO session. *)
Definition config_entries names p : list (string * jsstring) :=
  match mp_kind p with
  | mk_static => region_entries p
  | mk_role =>
      match source_name names p with
      | Some source => [("role_arn"%string, roleArn p); ("source_profile"%string, source)] ++ region_entries p
      | None => []
      end
  | mk_sso =>
      [("sso_session"%string, session_key p); ("sso_account_id"%string, sso_field 2 p); ("sso_role_name"%string, sso_field 3 p)]
      ++ region_entries p
  end.
Definition credential_entries p : list (string * jsstring) :=
  match mp_kind p with
  | mk_static => [("aws_access_key_id"%string, accessKeyId p); ("aws_secret_access_key"%string, secretAccessKey p)]
  | _ => []
  end.
Definition session_entries p : list (string * jsstring) :=
  [("sso_region"%string, sso_field 1 p); ("sso_start_url"%string, sso_field 0 p);
   ("sso_registration_scopes"%string, AWS_SSO_REGISTRATION_SCOPES)].
Definition new_session (seen : list jsstring) p : bool :=
  bool_decide (mp_kind p = mk_sso) && negb (shas (session_key p) seen).
Definition chunk_if (header : jsstring) (l : list (string * jsstring)) : list jsstring :=
  match l with [] => [] | _ => chunk header l end.
Definition session_chunk (seen : list jsstring) p : list jsstring :=
  if new_session seen p then chunk (js "[sso-session " ++ session_key p ++ js "]") (session_entries p) else [].
Definition see (seen : list jsstring) p : list jsstring := if new_session seen p then sadd (session_key p) seen else seen.

Lemma entries_app l l' : entries (l ++ l') = entries l ++ entries l'.
Proof. apply fmap_app. Qed.
Lemma region_lines_spec p : region_lines p = entries (region_entries p).
Proof. unfold region_lines, region_entries. by destruct (region_of p). Qed.
Lemma materialize_step_spec names acc p :
  materialize_step names acc p
  = {| ma_config := ma_config acc ++ chunk_if (config_header p) (config_entries names p) ++ session_chunk (ma_writtenSsoSessions acc) p;
       ma_credentials := ma_credentials acc ++ chunk_if (js "[" ++ mp_name p ++ js "]") (credential_entries p);
       ma_writtenSsoSessions := see (ma_writtenSsoSessions acc) p |}.
Proof.
  unfold materialize_step, config_entries, credential_entries, session_chunk, see, new_session, source_name.
  fold (session_key p). destruct (mp_kind p) eqn:Ek; cbn [bool_decide andb].
  - rewrite !bool_decide_false by done. cbn [andb]. unfold region_entries. rewrite app_nil_r.
    destruct (region_of p); cbn [chunk_if app]; [done|]. by rewrite app_nil_r.
  - rewrite !bool_decide_true by done. cbn [andb chunk_if app]. rewrite app_nil_r. unfold chunk.
    cbn [entries fmap list_fmap]. fold (entries (region_entries p)). rewrite <- region_lines_spec.
    destruct (shas _ _); cbn [negb]; f_equal.
    + rewrite app_nil_r. done.
    + rewrite <- (assoc_L (++)). f_equal.
  - rewrite !bool_decide_false by done. cbn [andb]. rewrite !app_nil_r.
    destruct (opt_truthy _) as [source|]; cbn [chunk_if app]; [|by destruct acc; rewrite app_nil_r].
    unfold chunk. cbn [entries fmap list_fmap]. fold (entries (region_entries p)). by rewrite <- region_lines_spec.
Qed.

(** *** Profiles whose files can be read back *)

Ltac solve_entries :=
  repeat first [apply Forall_nil_2 | apply Forall_cons_2; [split; [reflexivity|cbn [snd]; try assumption; try tauto]|]].

Definition fields_ok p : Prop :=
  match mp_fields p with
  | pf_static access secret => value_ok access ∧ value_ok secret
  | pf_sso startUrl region accountId roleName => value_ok startUrl ∧ value_ok region ∧ value_ok accountId ∧ value_ok roleName
  | pf_role _ arn => value_ok arn
  end.
Definition label_ok (name : jsstring) : Prop := name_ok name ∧ clean_line name.
Record profile_ok p : Prop := {
  po_name : label_ok (mp_name p);
  po_kind : kind_of (mp_fields p) = mp_kind p;
  po_fields : fields_ok p;
  po_region : ∀ region, region_of p = Some region → clean_line region;
}.

Lemma region_entries_ok p : profile_ok p → entries_ok (region_entries p).
Proof.
  intros H. unfold region_entries. destruct (region_of p) as [region|] eqn:E; [|constructor].
  constructor; [|constructor]. split; [done|]. cbn [snd]. split; [|by apply (po_region p H)].
  unfold region_of in E. apply opt_truthy_Some in E as [E Hne]. split; [done|].
  destruct (mp_region p); [|done]. injection E as <-. apply js_trim_idemp.
Qed.

Lemma session_key_ok p : label_ok (session_key p).
Proof.
  unfold session_key, buildManagedSsoSessionKey. set (digits := take 12 _).
  assert (Hd : Forall (λ c, is_ws c = false ∧ c ≠ 93%N ∧ is_newline c = false) (js "dolssh-" ++ digits)).
  { apply Forall_app. split; [apply (bool_decide_unpack _); vm_compute; done|]. apply Forall_take.
    eapply Forall_impl; [apply sha1_hex_digits|]. intros c [Hc|Hc].
    - unfold digit in Hc. apply andb_true_iff in Hc as [H1 H2]. apply N.leb_le in H1, H2.
      unfold is_ws, is_newline, LF, CR. split_and!; [|lia|].
      + repeat (apply orb_false_iff; split); try apply N.eqb_neq; try apply andb_false_iff; rewrite ?N.leb_gt; lia.
      + apply orb_false_iff. rewrite !N.eqb_neq. lia.
    - unfold is_ws, is_newline, LF, CR. split_and!; [|lia|].
      + repeat (apply orb_false_iff; split); try apply N.eqb_neq; try apply andb_false_iff; rewrite ?N.leb_gt; lia.
      + apply orb_false_iff. rewrite !N.eqb_neq. lia. }
  split; [split; [split; [done|]|]|].
  - apply js_trim_no_ws. eapply Forall_impl; [exact Hd|]. by intros c (H & _).
  - intros Hin. apply (proj1 (Forall_forall _ _) Hd) in Hin as (_ & ? & _). done.
  - eapply Forall_impl; [exact Hd|]. by intros c (_ & _ & H).
Qed.

Definition names_ok names : Prop := Forall (λ entry, label_ok entry.2) names.
Lemma mget_names_ok names id name : names_ok names → mget id names = Some name → value_ok name.
Proof.
  intros Hn Hm. apply mget_Some_elem in Hm. eapply (proj1 (Forall_forall _ _)) in Hm; [|exact Hn].
  destruct Hm as [[Ht _] Hc]. by split.
Qed.
Lemma value_of_label (name : jsstring) : label_ok name → value_ok name.
Proof. by intros [[Ht _] Hc]. Qed.

Lemma config_entries_ok names p : names_ok names → profile_ok p → entries_ok (config_entries names p).
Proof.
  intros Hn H. pose proof (region_entries_ok p H) as Hr. pose proof (po_kind p H) as Hk. pose proof (po_fields p H) as Hf.
  unfold config_entries, fields_ok in *. rewrite <- Hk. unfold roleArn, sso_field, source_name, sourceProfileId.
  pose proof (value_of_label _ (session_key_ok p)) as Hs.
  destruct (mp_fields p) as [a s|u r a n|id arn] eqn:Ef; cbn [kind_of nth] in *; [done| |].
  - apply Forall_app. split; [|done]. solve_entries.
  - destruct (opt_truthy _) as [source|] eqn:E; [|constructor]. apply opt_truthy_Some in E as [E _]. cbn in E.
    apply Forall_app. split; [|done]. solve_entries. by eapply mget_names_ok.
Qed.
Lemma credential_entries_ok p : profile_ok p → entries_ok (credential_entries p).
Proof.
  intros H. pose proof (po_kind p H) as Hk. pose proof (po_fields p H) as Hf. unfold credential_entries, fields_ok in *.
  rewrite <- Hk. unfold accessKeyId, secretAccessKey. destruct (mp_fields p); cbn [kind_of]; solve_entries.
Qed.
Lemma session_entries_ok p : profile_ok p → mp_kind p = mk_sso → entries_ok (session_entries p).
Proof.
  intros H Hs. pose proof (po_kind p H) as Hk. pose proof (po_fields p H) as Hf. unfold session_entries, fields_ok, sso_field in *.
  destruct (mp_fields p) eqn:Ef; cbn [kind_of nth] in *; try congruence. solve_entries.
  split; [by split|]. by repeat constructor.
Qed.

Lemma config_header_spec p : config_header p = getSectionHeaderLine fk_config sk_profile (mp_name p).
Proof. done. Qed.
Lemma config_header_id p : label_ok (mp_name p) → section_id fk_config (config_header p) = Some (sk_profile, mp_name p).
Proof. intros [Hn _]. rewrite config_header_spec. by apply section_id_header. Qed.
Lemma credential_header_id (name : jsstring) : label_ok name → section_id fk_credentials (js "[" ++ name ++ js "]") = Some (sk_profile, name).
Proof. intros [Hn _]. by apply (section_id_header fk_credentials sk_profile). Qed.
Lemma session_header_id p : section_id fk_config (js "[sso-session " ++ session_key p ++ js "]") = Some (sk_sso_session, session_key p).
Proof. destruct (session_key_ok p) as [Hn _]. by apply (section_id_header fk_config sk_sso_session). Qed.
Lemma clean_bracketed prefix name suffix : clean_line prefix → clean_line name → clean_line suffix → clean_line (prefix ++ name ++ suffix).
Proof. intros. apply Forall_app. split; [done|]. by apply Forall_app. Qed.
Lemma clean_config_header p : label_ok (mp_name p) → clean_line (config_header p).
Proof.
  intros [_ Hc]. unfold config_header. case_decide; [by repeat constructor|]. apply clean_bracketed; [by repeat constructor|done|by repeat constructor].
Qed.

(** *** The sections of the files *)

Definition section_if (id : SectionKind * jsstring) (l : list (string * jsstring)) : Sections :=
  match l with [] => [] | _ => [(id, read l)] end.
Definition session_section (seen : list jsstring) p : Sections :=
  if new_session seen p then [((sk_sso_session, session_key p), read (session_entries p))] else [].
Definition config_section names p : Sections := section_if (sk_profile, mp_name p) (config_entries names p).
Fixpoint config_sections names (seen : list jsstring) (ps : list ManagedAwsProfilePayload) : Sections :=
  match ps with
  | [] => []
  | p :: ps => config_section names p ++ session_section seen p ++ config_sections names (see seen p) ps
  end.
Definition credential_sections (ps : list ManagedAwsProfilePayload) : Sections :=
  p ← ps; section_if (sk_profile, mp_name p) (credential_entries p).

(** A section that may be left out. *)
Lemma chunk_if_spec fk header id l : clean_line header → section_id fk header = Some id → entries_ok l →
  tidy (chunk_if header l) ∧ starts_section (chunk_if header l) ∧ sections fk (chunk_if header l) = section_if id l.
Proof.
  intros Hc Hid Hl. unfold chunk_if, section_if. destruct l as [|kv rest] eqn:E; [split_and!; [split; [constructor|by left]|done|done]|].
  rewrite <- E in *. split_and!; [apply tidy_chunk; [done|by rewrite E|done]|by apply (chunk_starts fk _ id)|by apply sections_chunk].
Qed.
Lemma session_chunk_spec seen p : profile_ok p →
  tidy (session_chunk seen p) ∧ starts_section (session_chunk seen p)
  ∧ sections fk_config (session_chunk seen p) = session_section seen p.
Proof.
  intros H. unfold session_chunk, session_section. destruct (new_session seen p) eqn:E; [|split_and!; [split; [constructor|by left]|done|done]].
  unfold new_session in E. apply andb_true_iff in E as [E _]. apply bool_decide_eq_true in E.
  pose proof (session_header_id p) as Hid. pose proof (session_entries_ok p H E) as He.
  split_and!; [|by apply (chunk_starts fk_config _ _ _ Hid)|by apply sections_chunk].
  apply tidy_chunk; [|done|done]. destruct (session_key_ok p) as [_ Hc].
  apply clean_bracketed; [by repeat constructor|done|by repeat constructor].
Qed.
Lemma starts_section_app a b : starts_section a → starts_section b → starts_section (a ++ b).
Proof. by destruct a. Qed.

Lemma materialize_fold names ps acc : names_ok names → Forall profile_ok ps →
  tidy (ma_config acc) → tidy (ma_credentials acc) →
  let m := foldl (materialize_step names) acc ps in
  (tidy (ma_config m) ∧ sections fk_config (ma_config m)
     = sections fk_config (ma_config acc) ++ config_sections names (ma_writtenSsoSessions acc) ps)
  ∧ (tidy (ma_credentials m) ∧ sections fk_credentials (ma_credentials m)
     = sections fk_credentials (ma_credentials acc) ++ credential_sections ps).
Proof.
  intros Hn Hps. revert acc. induction Hps as [|p ps Hp _ IH]; intros acc Hc Hr; cbn [foldl].
  { split; (split; [done|]); cbn; by rewrite app_nil_r. }
  rewrite materialize_step_spec. set (acc' := Build_Materialized _ _ _).
  pose proof (po_name p Hp) as Hl.
  destruct (chunk_if_spec fk_config (config_header p) _ (config_entries names p)
              (clean_config_header p Hl) (config_header_id p Hl) (config_entries_ok names p Hn Hp)) as (T1 & S1 & E1).
  destruct (session_chunk_spec (ma_writtenSsoSessions acc) p Hp) as (T2 & S2 & E2).
  assert (Hcl : clean_line (js "[" ++ mp_name p ++ js "]")).
  { destruct Hl as [_ Hcl]. apply clean_bracketed; [by repeat constructor|done|by repeat constructor]. }
  destruct (chunk_if_spec fk_credentials _ _ _ Hcl (credential_header_id _ Hl) (credential_entries_ok p Hp)) as (T3 & S3 & E3).
  destruct (IH acc') as [[IC EC] [IR ER]]; [by repeat apply tidy_app|by apply tidy_app|].
  split; (split; [done|]).
  - rewrite EC. cbn [ma_config ma_writtenSsoSessions acc' config_sections].
    rewrite sections_app by by apply starts_section_app. rewrite (sections_app _ _ _ S2), E1, E2. by rewrite <- !(assoc_L (++)).
  - rewrite ER. cbn [ma_credentials acc']. rewrite sections_app by done. rewrite E3. by rewrite <- (assoc_L (++)).
Qed.

(** *** What is found in them *)

Lemma section_if_key id l (id' : SectionKind * jsstring) : id' ∈ (section_if id l).*1 → id' = id.
Proof. unfold section_if. destruct l; cbn; set_solver. Qed.
Lemma session_section_key seen p (id : SectionKind * jsstring) : id ∈ (session_section seen p).*1 → id.1 = sk_sso_session.
Proof. unfold session_section. destruct (new_session seen p); cbn; set_solver. Qed.
Lemma mget_section_if id l : l ≠ [] → mget id (section_if id l) = Some (read l).
Proof. unfold section_if. destruct l; [done|]. intros _. apply mget_here. Qed.

Lemma config_sections_other names seen ps (name : jsstring) : (∀ q, q ∈ ps → mp_name q ≠ name) →
  (sk_profile, name) ∉ (config_sections names seen ps).*1.
Proof.
  revert seen. induction ps as [|p ps IH]; intros seen H; cbn [config_sections]; [by apply not_elem_of_nil|].
  rewrite !fmap_app, !elem_of_app. intros [Hin|[Hin|Hin]].
  - apply section_if_key in Hin as [= E]. apply (H p); [by left|done].
  - by apply session_section_key in Hin.
  - revert Hin. apply IH. intros q Hq. apply H. by right.
Qed.
Lemma mget_config_section names seen ps p : NoDup (mp_name <$> ps) → p ∈ ps →
  default [] (mget (sk_profile, mp_name p) (config_sections names seen ps)) = read (config_entries names p).
Proof.
  revert seen. induction ps as [|q ps IH]; intros seen Hnd Hp; [by apply elem_of_nil in Hp|].
  cbn [config_sections]. apply NoDup_cons in Hnd as [Hq Hnd]. apply elem_of_cons in Hp as [->|Hp].
  - destruct (decide (config_entries names q = [])) as [E|E].
    + unfold config_section. rewrite E. cbn [section_if app]. rewrite mget_app by (intros Hin; by apply session_section_key in Hin).
      rewrite (proj2 (mget_None _ _)); [done|]. apply config_sections_other. intros q' Hq' En. apply Hq.
      rewrite <- En. by apply list_elem_of_fmap_2.
    + unfold config_section, section_if. destruct (config_entries names q); [done|]. cbn [app]. by rewrite mget_here.
  - assert (Hne : mp_name p ≠ mp_name q) by (intros E; apply Hq; rewrite <- E; by apply list_elem_of_fmap_2).
    rewrite mget_app by (intros Hin; apply section_if_key in Hin; congruence).
    rewrite mget_app by (intros Hin; by apply session_section_key in Hin). by apply IH.
Qed.
Lemma mget_credential_section ps p : NoDup (mp_name <$> ps) → p ∈ ps →
  default [] (mget (sk_profile, mp_name p) (credential_sections ps)) = read (credential_entries p).
Proof.
  induction ps as [|q ps IH]; intros Hnd Hp; [by apply elem_of_nil in Hp|].
  unfold credential_sections. cbn [mbind list_bind]. fold (credential_sections ps).
  apply NoDup_cons in Hnd as [Hq Hnd]. apply elem_of_cons in Hp as [->|Hp].
  - destruct (decide (credential_entries q = [])) as [E|E].
    + rewrite E. cbn [section_if app]. rewrite (proj2 (mget_None _ _)); [done|]. intros Hin.
      apply list_elem_of_fmap in Hin as ([id l] & E' & Hin). apply list_elem_of_bind in Hin as (q' & Hin & Hq').
      assert (Hk : id ∈ (section_if (sk_profile, mp_name q') (credential_entries q')).*1) by (apply list_elem_of_fmap; by exists (id, l)).
      apply section_if_key in Hk. cbn in E'. subst id. injection Hk as En. apply Hq. rewrite En. by apply list_elem_of_fmap_2.
    + unfold section_if at 1. destruct (credential_entries q); [done|]. cbn [app]. by rewrite mget_here.
  - assert (Hne : mp_name p ≠ mp_name q) by (intros E; apply Hq; rewrite <- E; by apply list_elem_of_fmap_2).
    rewrite mget_app by (intros Hin; apply section_if_key in Hin; congruence). by apply IH.
Qed.
Lemma mget_session_section names seen ps p : p ∈ ps → mp_kind p = mk_sso → session_key p ∉ seen →
  (∀ q, q ∈ ps → mp_kind q = mk_sso → session_key q = session_key p → session_entries q = session_entries p) →
  mget (sk_sso_session, session_key p) (config_sections names seen ps) = Some (read (session_entries p)).
Proof.
  revert seen. induction ps as [|q ps IH]; intros seen Hp Hk Hs Hsame; [by apply elem_of_nil in Hp|].
  cbn [config_sections]. rewrite mget_app by (intros Hin; apply section_if_key in Hin; congruence).
  unfold session_section, see, new_session. destruct (decide (mp_kind q = mk_sso ∧ session_key q = session_key p)) as [[Hkq Eq]|Hne].
  - rewrite bool_decide_true by done. unfold shas. rewrite bool_decide_false by by rewrite Eq. cbn [andb negb app].
    rewrite Eq, mget_here. by rewrite (Hsame q ltac:(left) Hkq Eq).
  - assert (Hp' : p ∈ ps) by (apply elem_of_cons in Hp as [->|Hp]; [by destruct Hne|done]).
    assert (Hrest : ∀ seen', session_key p ∉ seen' →
      mget (sk_sso_session, session_key p) (config_sections names seen' ps) = Some (read (session_entries p))).
    { intros seen' Hs'. apply IH; [done..|]. intros q' Hq'. apply Hsame. by right. }
    case_bool_decide as Hkq; cbn [andb app]; [|by apply Hrest]. destruct (shas (session_key q) seen); cbn [negb app]; [by apply Hrest|].
    rewrite mget_skip by (apply bool_decide_eq_false; intros E%(f_equal snd); by apply Hne).
    apply Hrest. intros Hin%elem_sadd. destruct Hin as [E|Hin]; [|done]. by apply Hne.
Qed.

(** *** The values of a profile *)

Definition distinct_keys l : bool :=
  bool_decide (NoDup (read l).*1) && forallb (λ kv, literal_key kv.1) l.
Lemma values_read l : distinct_keys l = true → values_of_pairs (read l) = read l.
Proof.
  unfold distinct_keys. intros [Hnd%bool_decide_eq_true Hk]%andb_true_iff. unfold values_of_pairs.
  assert (H : ∀ acc, foldl (λ values '(key, value), if decide (key = js "__proto__") then values else mset key value values) acc (read l)
    = foldl (λ m kv, mset kv.1 kv.2 m) acc (read l)).
  { clear Hnd. induction l as [|[key value] l IH]; intros acc; [done|]. cbn in Hk. apply andb_true_iff in Hk as [Hkey Hk].
    change (read ((key, value) :: l)) with ((js key, value) :: read l). cbn [foldl fst snd]. rewrite decide_False; [by apply IH|].
    unfold literal_key in Hkey. apply andb_true_iff in Hkey as [_ Hkey]. by apply bool_decide_eq_true in Hkey. }
  rewrite H. by apply mof_id.
Qed.

Definition expected_values names p : list (jsstring * jsstring) := read (config_entries names p ++ credential_entries p).
Lemma expected_values_spec names p :
  merged (values_of_pairs (read (config_entries names p))) (values_of_pairs (read (credential_entries p)))
  = expected_values names p.
Proof.
  unfold expected_values. rewrite !values_read.
  - unfold config_entries, credential_entries, region_entries. destruct (mp_kind p), (region_of p), (source_name names p); reflexivity.
  - unfold credential_entries. by destruct (mp_kind p).
  - unfold config_entries, region_entries. by destruct (mp_kind p), (region_of p), (source_name names p).
Qed.

(** *** Reading the files back *)

(** Two profiles that share a session key share the session: the digests of different
    sessions differ. *)
Definition sessions_apart (ps : list ManagedAwsProfilePayload) : Prop :=
  ∀ p q, p ∈ ps → q ∈ ps → mp_kind p = mk_sso → mp_kind q = mk_sso → session_key p = session_key q →
    session_entries p = session_entries q.
Record exportable (ps : list ManagedAwsProfilePayload) : Prop := {
  ex_ok : Forall profile_ok ps;
  ex_names : NoDup (mp_name <$> ps);
  ex_ids : NoDup (mp_id <$> ps);
  ex_sessions : sessions_apart ps;
}.

Section read_back.
Variables (store : ProfileStore) (rootDir configPath credentialsPath : jsstring).
Let ps := listPayloads store.
Hypothesis Hex : exportable ps.
Let sorted := js_sort materialize_order ps.
Let names := mof ((λ p, (mp_id p, mp_name p)) <$> sorted).
Let documents := managed_documents rootDir configPath credentialsPath (materializeManagedProfiles store).

Lemma elem_sorted p : p ∈ sorted ↔ p ∈ ps.
Proof. apply elem_js_sort. Qed.
Lemma names_eq : names = (λ p, (mp_id p, mp_name p)) <$> sorted.
Proof.
  apply mof_id. rewrite <- list_fmap_compose. change (NoDup (mp_id <$> sorted)).
  unfold sorted. rewrite (js_sort_perm materialize_order ps). apply Hex.
Qed.
Lemma names_spec id name : mget id names = Some name ↔ ∃ q, q ∈ ps ∧ mp_id q = id ∧ mp_name q = name.
Proof.
  rewrite names_eq. split.
  - intros Hm. apply mget_Some_elem, list_elem_of_fmap in Hm as (q & [= -> ->] & Hq). exists q. by rewrite <- elem_sorted.
  - intros (q & Hq & <- & <-). apply elem_mget.
    + rewrite <- list_fmap_compose. change (NoDup (mp_id <$> sorted)). unfold sorted. rewrite (js_sort_perm materialize_order ps). apply Hex.
    + apply list_elem_of_fmap. exists q. by rewrite elem_sorted.
Qed.
Lemma names_are_ok : names_ok names.
Proof.
  rewrite names_eq. apply Forall_forall. intros [id name] Hin. apply list_elem_of_fmap in Hin as (q & [= -> ->] & Hq).
  rewrite elem_sorted in Hq. apply po_name. by apply (proj1 (Forall_forall _ _) (ex_ok ps Hex)).
Qed.
Lemma managed_sections :
  sections fk_config (doc_lines (ad_config documents)) = config_sections names [] sorted
  ∧ sections fk_credentials (doc_lines (ad_credentials documents)) = credential_sections sorted.
Proof.
  assert (Hok : Forall profile_ok sorted) by (unfold sorted; rewrite (js_sort_perm materialize_order ps); apply Hex).
  destruct (materialize_fold names sorted {| ma_config := []; ma_credentials := []; ma_writtenSsoSessions := [] |}
    names_are_ok Hok) as [[T1 E1] [T2 E2]]; [by split; [constructor|left]..|].
  unfold documents, managed_documents, materializeManagedProfiles, materialize, loadAwsProfileDocuments, loadIniDocument.
  cbn [fst snd ad_config ad_credentials doc_lines]. fold ps. fold sorted. fold names.
  split; (rewrite read_file_text by done; done).
Qed.
Lemma managed_values p : p ∈ ps → merged_values documents (mp_name p) = expected_values names p.
Proof.
  intros Hp. destruct managed_sections as [E1 E2]. unfold merged_values, inspectAwsProfileDocuments. cbn [sn_mergedValues].
  rewrite !getSectionValues_spec, E1, E2. unfold section_values.
  assert (Hnd : NoDup (mp_name <$> sorted)) by (unfold sorted; rewrite (js_sort_perm materialize_order ps); apply Hex).
  rewrite mget_config_section, mget_credential_section by (done || by apply elem_sorted).
  apply expected_values_spec.
Qed.
Lemma managed_session p : p ∈ ps → mp_kind p = mk_sso → getAwsSsoSessionValues documents (session_key p) = read (session_entries p).
Proof.
  intros Hp Hk. unfold getAwsSsoSessionValues. rewrite getSectionValues_spec, (proj1 managed_sections). unfold section_values.
  rewrite mget_session_section; [apply values_read; done|by apply elem_sorted|done|by apply not_elem_of_nil|].
  intros q Hq%elem_sorted Hkq E. by apply (ex_sessions ps Hex).
Qed.
End read_back.
End managed.
