(* ===== verification/AwsProfileStore.v ===== *)
(** * The stored AWS profiles stay well formed

    Ids and names are unique, every listed profile has values that fit its kind, and the
    values can be written to the files; every handler keeps it so, whatever ran while it
    waited. *)

From S2P Require Import Prelude Collections AwsIni AwsIniFacts AwsProfiles AwsProfileFiles.

(** ** Replacing or adding by key *)

Lemma replace_or_add_perm {A} (f : A → jsstring) (x : A) (l : list A) : NoDup (f <$> l) →
  match findIndex (λ y, bool_decide (f y = f x)) l with
  | Some i => <[i := x]> l
  | None => l ++ [x]
  end ≡ₚ x :: List.filter (λ y, bool_decide (f y ≠ f x)) l.
Proof.
  induction l as [|y l IH]; intros Hnd; [done|]. cbn [fmap list_fmap] in Hnd. apply NoDup_cons in Hnd as [Hy Hnd].
  rewrite findIndex_cons. case_bool_decide as E; cbn [List.filter].
  - rewrite bool_decide_false by tauto. cbn. f_equiv. symmetry. apply eq_perm, filter_all. intros z Hz. apply bool_decide_eq_true.
    intros Ez. apply Hy. rewrite E, <- Ez. by apply list_elem_of_fmap_2.
  - rewrite bool_decide_true by done. specialize (IH Hnd). destruct (findIndex _ l) as [i|]; cbn; rewrite IH; apply Permutation_swap.
Qed.

Section store.
Context {CO : Collator} {PS : PayloadSealing} {SH : Sha1}.
Implicit Types (store : ProfileStore) (p : ManagedAwsProfilePayload) (m : AwsProfileMetadataRecord).

(** What is stored of a listed profile. *)
Definition backed store m : Prop :=
  ∃ value p, mget (md_id m) (ps_managedAwsProfilesById store) = Some value ∧ unseal value = Some p
    ∧ profile_ok (renamed_payload (md_name m) p) ∧ mp_kind p = md_kind m.
Record store_ok store : Prop := {
  so_ids : NoDup (md_id <$> ps_awsProfiles store);
  so_names : NoDup (md_name <$> ps_awsProfiles store);
  so_backed : ∀ m, m ∈ ps_awsProfiles store → backed store m;
}.

Lemma find_by {A} (f : A → jsstring) (key : jsstring) (l : list A) x : NoDup (f <$> l) →
  List.find (λ y, bool_decide (f y = key)) l = Some x ↔ x ∈ l ∧ f x = key.
Proof.
  intros Hnd. split.
  - intros H. apply find_Some_1 in H as [Hx E]. by apply bool_decide_eq_true in E.
  - intros [Hx <-]. destruct (List.find _ l) as [y|] eqn:E.
    + apply find_Some_1 in E as [Hy Ey]. apply bool_decide_eq_true in Ey. f_equal. by apply (NoDup_fmap_inj f l).
    + eapply find_None_1 in E; [|exact Hx]. by apply bool_decide_eq_false in E.
Qed.
Lemma payload_of store m : store_ok store → m ∈ ps_awsProfiles store →
  ∃ p, getPayloadById (md_id m) store = Some p ∧ profile_ok p ∧ mp_id p = md_id m ∧ mp_name p = md_name m ∧ mp_kind p = md_kind m.
Proof.
  intros Hs Hm. destruct (so_backed store Hs m Hm) as (value & p & Hv & Hu & Hok & Hk).
  unfold getPayloadById, getMetadataById. rewrite (proj2 (find_by md_id _ _ m (so_ids store Hs))) by done.
  rewrite Hv, Hu. cbn [fmap option_fmap option_map]. eexists. split; [done|]. split; [|done].
  destruct Hok as [H1 H2 H3 H4]. cbn in *. split; cbn; [done|by rewrite H2|exact H3|exact H4].
Qed.

(** The payloads are those of the listed profiles. *)
Lemma listPayloads_spec store : store_ok store →
  Forall profile_ok (listPayloads store)
  ∧ mp_name <$> listPayloads store ≡ₚ md_name <$> ps_awsProfiles store
  ∧ mp_id <$> listPayloads store ≡ₚ md_id <$> ps_awsProfiles store.
Proof.
  intros Hs. unfold listPayloads. rewrite (js_sort_perm comparePayloads). unfold listMetadata.
  assert (Hsub : ∀ l, (∀ m, m ∈ l → m ∈ ps_awsProfiles store) →
    let ps := omap (λ m, getPayloadById (md_id m) store) l in
    Forall profile_ok ps ∧ mp_name <$> ps = md_name <$> l ∧ mp_id <$> ps = md_id <$> l).
  { intros l. induction l as [|m l IH]; intros Hl; [done|]. cbn [omap list_omap].
    destruct (payload_of store m Hs) as (p & -> & Hok & Hid & Hname & _); [apply Hl; by left|].
    destruct IH as (H1 & H2 & H3); [intros m' Hm'; apply Hl; by right|]. cbn [fmap list_fmap] in *.
    split_and!; [by constructor|by rewrite H2, Hname|by rewrite H3, Hid]. }
  destruct (Hsub (js_sort compareAwsProfileMetadata (ps_awsProfiles store))) as (H1 & H2 & H3); [intros m; apply elem_js_sort|].
  cbv zeta in H1, H2, H3. rewrite H2, H3. split; [done|]. split; by rewrite (js_sort_perm compareAwsProfileMetadata).
Qed.
Lemma store_exportable store : store_ok store → sessions_apart (listPayloads store) → exportable (listPayloads store).
Proof.
  intros Hs Hd. destruct (listPayloads_spec store Hs) as (H1 & H2 & H3).
  split; [done|rewrite H2; apply Hs|rewrite H3; apply Hs|done].
Qed.
Lemma by_name store (name : jsstring) : store_ok store →
  match getManagedProfileByName name store with
  | Some p => profile_ok p ∧ mp_name p = name ∧ ∃ m, m ∈ ps_awsProfiles store ∧ md_id m = mp_id p ∧ md_name m = name ∧ mp_kind p = md_kind m
  | None => name ∉ md_name <$> ps_awsProfiles store
  end.
Proof.
  intros Hs. unfold getManagedProfileByName, getMetadataByName.
  destruct (List.find _ _) as [m|] eqn:E; cbn [mbind option_bind].
  - apply (find_by md_name) in E as [Hm Hn]; [|apply Hs]. destruct (payload_of store m Hs Hm) as (p & -> & Hok & Hid & Hname & Hk).
    split; [done|]. split; [congruence|]. by exists m.
  - intros (m & -> & Hm)%list_elem_of_fmap. eapply find_None_1 in E; [|exact Hm]. by apply bool_decide_eq_false in E.
Qed.

(** ** Storing and removing *)

Lemma upsert_ok (now : jsstring) p store value : store_ok store → profile_ok p →
  seal (dated now p) = Some value →
  (∀ m, m ∈ ps_awsProfiles store → md_name m = mp_name p → md_id m = mp_id p) →
  store_ok (ap_upsert now p store).1 ∧ (ap_upsert now p store).2 = Some (dated now p).
Proof.
  intros Hs Hp Hseal Hname. destruct (po_name p Hp) as [[[_ Ht] _] _].
  assert (Er : renamed_payload (js_trim (mp_name p)) p = p) by (rewrite Ht; by destruct p).
  unfold ap_upsert. rewrite Er, Hseal. cbn [fst snd]. split; [|done].
  set (record := toMetadata (dated now p)).
  assert (Hid : md_id record = mp_id p) by done. assert (Hn : md_name record = mp_name p) by exact Ht.
  assert (Hperm : ps_awsProfiles (upsert_metadata record store)
    ≡ₚ record :: List.filter (λ m, bool_decide (md_id m ≠ mp_id p)) (ps_awsProfiles store)).
  { apply (replace_or_add_perm md_id record). apply Hs. }
  assert (Hother : ∀ m, m ∈ List.filter (λ m, bool_decide (md_id m ≠ mp_id p)) (ps_awsProfiles store) →
    m ∈ ps_awsProfiles store ∧ md_id m ≠ mp_id p).
  { intros m Hm. apply filter_In_elem in Hm as [Hm E]. by apply bool_decide_eq_true in E. }
  split; cbn [ps_awsProfiles].
  - rewrite Hperm. cbn [fmap list_fmap]. apply NoDup_cons. split; [|apply NoDup_fmap_filter, Hs].
    intros (m & E & Hm)%list_elem_of_fmap. apply Hother in Hm as [_ Hm]. by rewrite Hid in E.
  - rewrite Hperm. cbn [fmap list_fmap]. apply NoDup_cons. split; [|apply NoDup_fmap_filter, Hs].
    intros (m & E & Hm)%list_elem_of_fmap. apply Hother in Hm as [Hm Hne]. apply Hne, Hname; [done|]. by rewrite <- E.
  - intros m Hm. rewrite Hperm in Hm. apply elem_of_cons in Hm as [->|Hm].
    + exists value, (dated now p). cbn [ps_managedAwsProfilesById mp_id dated]. rewrite Hid, mget_mset_eq.
      split; [done|]. split; [by apply unseal_seal|]. split; [|done]. rewrite Hn.
      destruct Hp as [H1 H2 H3 H4]. by split.
    + apply Hother in Hm as [Hm Hne]. destruct (so_backed store Hs m Hm) as (v & q & Hv & Hq).
      exists v, q. cbn [ps_managedAwsProfilesById mp_id dated]. by rewrite mget_mset_ne.
Qed.
Lemma remove_ok (id : jsstring) store : store_ok store → store_ok (ap_remove id store).
Proof.
  intros Hs. split; cbn [ps_awsProfiles ap_remove].
  - apply NoDup_fmap_filter, Hs.
  - apply NoDup_fmap_filter, Hs.
  - intros m Hm. apply filter_In_elem in Hm as [Hm E]. apply bool_decide_eq_true in E.
    destruct (so_backed store Hs m Hm) as (v & q & Hv & Hq). exists v, q. cbn [ps_managedAwsProfilesById ap_remove].
    rewrite mget_mdelete. by rewrite decide_False.
Qed.
End store.

(** ** The handlers *)

Section handlers.
Context {CO : Collator} {PS : PayloadSealing} {SH : Sha1}.
Implicit Types (store checked saved : ProfileStore) (p : ManagedAwsProfilePayload).
(** The secure storage is there. *)
Hypothesis sealing : ∀ p, ∃ value, seal p = Some value.

Lemma normalizeAwsProfileName_ok (input name : jsstring) : normalizeAwsProfileName input = Ok name → label_ok name.
Proof.
  unfold normalizeAwsProfileName. destruct (truthy _) eqn:Ht; cbn [negb]; [|done]. destruct (existsb _ _) eqn:E; [done|].
  intros [= <-]. apply truthy_spec in Ht. rewrite existsb_false in E.
  split; [split; [split; [done|apply js_trim_idemp]|]|].
  - intros Hin. apply E in Hin. done.
  - apply Forall_forall. intros c Hc. apply E in Hc. by apply orb_false_iff in Hc as [Hc _].
Qed.
Lemma trim_value_ok (value : jsstring) : truthy (js_trim value) = true → clean_line value → value_ok (js_trim value).
Proof.
  intros Ht Hc. apply truthy_spec in Ht. split; [split; [done|apply js_trim_idemp]|].
  apply Forall_forall. intros c Hin. apply js_trim_subset in Hin. by apply (proj1 (Forall_forall _ _) Hc).
Qed.
Lemma value_ok_trim (value : jsstring) : value_ok value → js_trim value = value.
Proof. intros [[_ H] _]. exact H. Qed.
Definition region_clean (region : option jsstring) : Prop := match region with Some value => clean_line value | None => True end.
Lemma region_clean_trim region : region_clean region → region_clean (opt_truthy (js_trim <$> region)).
Proof.
  intros H. destruct (opt_truthy _) as [value|] eqn:E; [|done]. apply opt_truthy_Some in E as [E _].
  destruct region as [region|]; [|done]. injection E as <-. apply Forall_forall. intros c Hin. apply js_trim_subset in Hin.
  by apply (proj1 (Forall_forall _ _) H).
Qed.
Lemma region_of_clean p : region_clean (mp_region p) → ∀ region, region_of p = Some region → clean_line region.
Proof.
  intros H region E. pose proof (region_clean_trim _ H) as Hr. unfold region_of in E. by rewrite E in Hr.
Qed.

Lemma stored_ok now p store : store_ok store → profile_ok p →
  (∀ m, m ∈ ps_awsProfiles store → md_name m = mp_name p → md_id m = mp_id p) →
  store_ok (stored (ap_upsert now p store)).1.
Proof.
  intros Hs Hp Hn. destruct (sealing (dated now p)) as [value Hv]. by apply (upsert_ok now p store value).
Qed.
Lemma save_profile_ok newId now (name : jsstring) region (fields : ProfileFields) store :
  store_ok store → label_ok name → region_clean region →
  match fields with
  | pf_static a s => value_ok a ∧ value_ok s
  | pf_sso u r a n => value_ok u ∧ value_ok r ∧ value_ok a ∧ value_ok n
  | pf_role _ arn => value_ok arn
  end → store_ok (save_profile newId now name region fields store).1.
Proof.
  intros Hs Hl Hr Hf. unfold save_profile. apply stored_ok; [done| |].
  - split; [done|done|by destruct fields|]. apply region_of_clean. by apply region_clean_trim.
  - cbn [mp_name mp_id]. intros m Hm Hmn. pose proof (by_name store name Hs) as H.
    destruct (getManagedProfileByName name store) as [q|].
    + destruct H as (_ & _ & m' & Hm' & <- & Hn' & _). f_equal. apply (NoDup_fmap_inj md_name (ps_awsProfiles store)); [apply Hs|done|done|congruence].
    + exfalso. apply H. rewrite <- Hmn. by apply list_elem_of_fmap_2.
Qed.

(** The inputs of a form are single lines. *)
Definition static_lines (input : StaticInput) : Prop :=
  clean_line (si_accessKeyId input) ∧ clean_line (si_secretAccessKey input) ∧ region_clean (si_region input).
Lemma saveStatic_ok newId now (name access secret : jsstring) region store : store_ok store → label_ok name → region_clean region →
  truthy (js_trim access) = true → truthy (js_trim secret) = true → clean_line access → clean_line secret →
  store_ok (saveStaticProfileValues newId now name (js_trim access) (js_trim secret) (opt_truthy (js_trim <$> region)) store).1.
Proof.
  intros Hs Hl Hr Ha Hse Hca Hcs. apply save_profile_ok; [done|done|by apply region_clean_trim|].
  rewrite !js_trim_idemp. split; by apply trim_value_ok.
Qed.

Ltac refused := match goal with |- store_ok (refuse _ _).1 => done end.
Lemma createStatic_ok validated newId now input checked saved : store_ok saved → static_lines input →
  store_ok (createStatic validated newId now input checked saved).1.
Proof.
  intros Hs (Ha & Hse & Hr). unfold createStatic. destruct (normalizeAwsProfileName _) as [name|] eqn:En; [|refused].
  destruct (truthy (js_trim (si_accessKeyId input))) eqn:E1; cbn [negb]; [|refused].
  destruct (truthy (js_trim (si_secretAccessKey input))) eqn:E2; cbn [negb]; [|refused].
  destruct (profileNameAvailable _ _); cbn [negb]; [|refused]. destruct validated; cbn [negb]; [|refused].
  apply saveStatic_ok; try done. by eapply normalizeAwsProfileName_ok.
Qed.
Lemma updateProfile_ok validated newId now input checked saved : store_ok saved → static_lines input →
  store_ok (updateProfile validated newId now input checked saved).1.
Proof.
  intros Hs (Ha & Hse & Hr). unfold updateProfile. destruct (normalizeAwsProfileName _) as [name|] eqn:En; [|refused].
  destruct (truthy (js_trim (si_accessKeyId input))) eqn:E1; cbn [negb]; [|refused].
  destruct (truthy (js_trim (si_secretAccessKey input))) eqn:E2; cbn [negb]; [|refused].
  destruct (getManagedProfileByName _ _); [|refused]. case_bool_decide; cbn [negb]; [|refused]. destruct validated; cbn [negb]; [|refused].
  apply saveStatic_ok; try done. by eapply normalizeAwsProfileName_ok.
Qed.
Definition role_lines (input : RoleInput) : Prop := clean_line (ri_roleArn input) ∧ region_clean (ri_region input).
Lemma createRole_ok validated newId now input checked saved : store_ok saved → role_lines input →
  store_ok (createRole validated newId now input checked saved).1.
Proof.
  intros Hs (Ha & Hr). unfold createRole. destruct (normalizeAwsProfileName _) as [name|] eqn:En; [|refused].
  destruct (role_source input checked) as [source|]; [|refused].
  destruct (truthy (js_trim (ri_roleArn input))) eqn:E1; cbn [negb]; [|refused].
  destruct (profileNameAvailable _ _); cbn [negb]; [|refused]. destruct source as [source|]; [|refused].
  destruct validated; cbn [negb]; [|refused]. unfold saveRoleProfileValues. rewrite js_trim_idemp.
  apply save_profile_ok; [done|by eapply normalizeAwsProfileName_ok|by apply region_clean_trim|by apply trim_value_ok].
Qed.
Lemma updateProfileRegion_ok now name region store : store_ok store → store_ok (updateProfileRegion now name region store).1.
Proof.
  intros Hs. unfold updateProfileRegion. destruct (normalizeAwsProfileName _) as [n|] eqn:En; [|refused].
  set (r := opt_truthy _). assert (Hr : r = None ∨ ∃ v, r = Some v) by (destruct r; eauto).
  destruct (match r with Some v => _ | None => false end) eqn:Er; [refused|].
  pose proof (by_name store n Hs) as H. destruct (getManagedProfileByName n store) as [p|]; [|refused].
  destruct H as (Hok & Hname & m & Hm & Hid & Hmn & _). apply stored_ok; [done| |].
  - destruct Hok as [H1 H2 H3 _]. split; [done|done|done|]. apply region_of_clean. cbn [mp_region with_region].
    destruct r as [v|]; [|done]. rewrite negb_false_iff, bool_decide_eq_true in Er. cbn.
    assert (Hall : Forall clean_line AWS_PROFILE_REGION_OPTIONS) by (apply (bool_decide_unpack _); vm_compute; done).
    by apply (proj1 (Forall_forall _ _) Hall).
  - cbn [mp_name mp_id with_region]. intros m' Hm' E. rewrite <- Hid. f_equal.
    apply (NoDup_fmap_inj md_name (ps_awsProfiles store)); [apply Hs|done|done|congruence].
Qed.
Lemma renameProfile_ok now name next store : store_ok store → store_ok (renameProfile now name next store).1.
Proof.
  intros Hs. unfold renameProfile. destruct (normalizeAwsProfileName name) as [n|] eqn:En, (normalizeAwsProfileName next) as [n'|] eqn:En';
    try refused.
  case_bool_decide; [refused|]. pose proof (by_name store n Hs) as H1. destruct (getManagedProfileByName n store) as [p|]; [|refused].
  pose proof (by_name store n' Hs) as H2. destruct (getManagedProfileByName n' store) as [q|]; [refused|].
  destruct H1 as (Hok & _). apply stored_ok; [done| |].
  - destruct Hok as [_ K2 K3 K4]. split; [by eapply normalizeAwsProfileName_ok|done|done|done].
  - cbn [mp_name mp_id with_name]. intros m Hm E. exfalso. apply H2. rewrite <- E. by apply list_elem_of_fmap_2.
Qed.
Lemma deleteProfile_ok name store : store_ok store → store_ok (deleteProfile name store).1.
Proof.
  intros Hs. unfold deleteProfile. destruct (normalizeAwsProfileName name) as [n|]; [|refused].
  destruct (getManagedProfileByName n store) as [p|]; [|refused]. by apply remove_ok.
Qed.
End handlers.
