(* ===== verification/ReplayData.v ===== *)
(** * Recorded sessions: the data that the recorder, the files and the player share
      (SessionReplaySegment and SessionReplaySegmentInfo of packages/shared-core/src/models.ts)

    A recording is a list of segments, a segment a list of timed operations on a
    terminal.  The screen at a time is what the operations up to that time make of an
    empty terminal; everything the player does is compared to that. *)

From S2P Require Import Prelude Collections.

(** ** Segments *)

Record SessionReplaySegmentInfo := {
  si_startAtMs : Z; si_endAtMs : Z; si_entryCount : nat; si_outputBytes : N }.

(** The four arrays [atMs], [dataEnd], [cols] and [rows], read across. *)
Record SegmentItem := { it_atMs : Z; it_dataEnd : nat; it_cols : N; it_rows : N }.
Record SessionReplaySegment := { sg_items : list SegmentItem; sg_data : list N }.

Definition EMPTY_SEGMENT : SessionReplaySegment := {| sg_items := []; sg_data := [] |}.

(** [data.subarray(from, to)] *)
Definition subarray (data : list N) (from to : nat) : list N := take (to - from) (drop from data).
(** [index === 0 ? 0 : dataEnd[index - 1]] *)
Definition end_before (items : list SegmentItem) (index : nat) : nat :=
  match index with O => 0 | S i => default 0 (it_dataEnd <$> items !! i) end.

(** ** What the items of a segment do to a terminal *)

Inductive TermOp := op_output (bytes : list N) | op_resize (cols rows : N).

Fixpoint item_ops (data : list N) (from : nat) (items : list SegmentItem) : list (Z * TermOp) :=
  match items with
  | [] => []
  | i :: items =>
      (it_atMs i, if (it_cols i =? 0)%N then op_output (subarray data from (it_dataEnd i)) else op_resize (it_cols i) (it_rows i))
      :: item_ops data (it_dataEnd i) items
  end.
Definition segment_ops (s : SessionReplaySegment) : list (Z * TermOp) := item_ops (sg_data s) 0 (sg_items s).

(** A resize item adds no data; times do not go back and start at the time of the table. *)
Fixpoint items_ok (clock : Z) (from : nat) (items : list SegmentItem) (size : nat) : Prop :=
  match items with
  | [] => True
  | i :: items =>
      (clock <= it_atMs i)%Z ∧ from <= it_dataEnd i <= size ∧ (it_cols i ≠ 0%N → it_dataEnd i = from)
      ∧ items_ok (it_atMs i) (it_dataEnd i) items size
  end.
Definition segment_ok (info : SessionReplaySegmentInfo) (s : SessionReplaySegment) : Prop :=
  items_ok (si_startAtMs info) 0 (sg_items s) (length (sg_data s))
  ∧ (∀ op, op ∈ segment_ops s → (op.1 <= si_endAtMs info)%Z).
(** The table of the segments: each starts when the one before has ended. *)
Fixpoint table_ok (clock : Z) (infos : list SessionReplaySegmentInfo) : Prop :=
  match infos with
  | [] => True
  | info :: infos => (clock <= si_startAtMs info <= si_endAtMs info)%Z ∧ table_ok (si_endAtMs info) infos
  end.
Lemma table_ok_start clock infos i info : table_ok clock infos → infos !! i = Some info → (clock <= si_startAtMs info)%Z.
Proof.
  revert clock i. induction infos as [|a infos IH]; intros clock i Hok Hi; [done|]. destruct Hok as [Ha Hok], i as [|i].
  - by simplify_eq/=; lia.
  - specialize (IH _ _ Hok Hi). lia.
Qed.
Lemma table_ok_later clock infos i j a b :
  table_ok clock infos → infos !! i = Some a → infos !! j = Some b → i < j → (si_endAtMs a <= si_startAtMs b)%Z.
Proof.
  revert clock i j. induction infos as [|c infos IH]; intros clock i j Hok Hi Hj Hij; [done|]. destruct Hok as [_ Hok].
  destruct j as [|j]; [lia|]. destruct i as [|i]; [simplify_eq/=; by eapply table_ok_start|]. eapply IH; [done..|lia].
Qed.
Lemma table_ok_le clock infos i a : table_ok clock infos → infos !! i = Some a → (si_startAtMs a <= si_endAtMs a)%Z.
Proof.
  revert clock i. induction infos as [|c infos IH]; intros clock i Hok Hi; [done|]. destruct Hok as [Hc Hok], i as [|i]; [simplify_eq/=; lia|by eapply IH].
Qed.

(** ** Screens

    A terminal is an automaton over the bytes it is given; the text of a snapshot is
    another input. *)
Class Screen (S : Type) := {
  blank : S;
  feed_byte : S → N → S;
  feed_unit : S → N → S;
  set_size : S → N → N → S;
}.
Section screens.
Context {S : Type} {SC : Screen S}.

Definition feed (s : S) (bytes : list N) : S := foldl feed_byte s bytes.
Definition feed_text (s : S) (text : jsstring) : S := foldl feed_unit s text.
Lemma feed_app s a b : feed s (a ++ b) = feed (feed s a) b.
Proof. apply foldl_app. Qed.

Definition apply_op (s : S) (op : TermOp) : S :=
  match op with op_output bytes => feed s bytes | op_resize cols rows => set_size s cols rows end.
Definition render (ops : list (Z * TermOp)) (s : S) : S := foldl (λ s op, apply_op s op.2) s ops.
Lemma render_app a b s : render (a ++ b) s = render b (render a s).
Proof. apply foldl_app. Qed.

(** The screen of a recording at a time: everything up to it, from an empty terminal. *)
Definition screen_at (t : Z) (segments : list SessionReplaySegment) : S :=
  render (List.filter (λ op, (op.1 <=? t)%Z) (segments ≫= segment_ops)) blank.
End screens.

(** ** Cutting a segment in two *)

Definition last_end (from : nat) (items : list SegmentItem) : nat := default from (it_dataEnd <$> last items).
Definition last_time (clock : Z) (items : list SegmentItem) : Z := default clock (it_atMs <$> last items).
Lemma last_end_cons from i items : last_end from (i :: items) = last_end (it_dataEnd i) items.
Proof. unfold last_end. rewrite last_cons. by destruct (last items). Qed.
Lemma last_time_cons clock i items : last_time clock (i :: items) = last_time (it_atMs i) items.
Proof. unfold last_time. rewrite last_cons. by destruct (last items). Qed.
Lemma end_before_app a b : end_before (a ++ b) (length a) = last_end 0 a.
Proof.
  unfold end_before, last_end. rewrite last_lookup. destruct (length a) as [|n] eqn:E; [by destruct a|]. cbn.
  rewrite lookup_app_l by lia. destruct (lookup_lt_is_Some_2 a n) as [i Hi]; [lia|]. by rewrite Hi.
Qed.

Lemma item_ops_length data from items : length (item_ops data from items) = length items.
Proof. revert from. induction items as [|i items IH]; intros from; [done|]. cbn. by rewrite IH. Qed.
Lemma item_ops_app data from a b :
  item_ops data from (a ++ b) = item_ops data from a ++ item_ops data (last_end from a) b.
Proof.
  revert from. induction a as [|i a IH]; intros from; [done|]. cbn [app item_ops]. by rewrite last_end_cons, IH.
Qed.
Lemma items_ok_app clock from a b size :
  items_ok clock from (a ++ b) size ↔ items_ok clock from a size ∧ items_ok (last_time clock a) (last_end from a) b size.
Proof.
  revert clock from. induction a as [|i a IH]; intros clock from; [cbn; tauto|]. cbn [app items_ok].
  rewrite last_end_cons, last_time_cons, IH. tauto.
Qed.
Lemma items_ok_times clock from items size data op :
  items_ok clock from items size → op ∈ item_ops data from items → (clock <= op.1 <= last_time clock items)%Z.
Proof.
  revert clock from. induction items as [|i items IH]; intros clock from Hok; cbn [item_ops]; [by intros []%elem_of_nil|].
  destruct Hok as (Hc & _ & _ & Hok). rewrite last_time_cons.
  assert (Hle : (it_atMs i <= last_time (it_atMs i) items)%Z).
  { clear -Hok. revert Hok. generalize (it_dataEnd i). generalize (it_atMs i). induction items as [|j items IH]; intros c f Hok; [done|].
    destruct Hok as (Hc & _ & _ & Hok). rewrite last_time_cons. specialize (IH _ _ Hok). lia. }
  intros [->|Hin]%elem_of_cons; [cbn; lia|]. specialize (IH _ _ Hok Hin). lia.
Qed.
Lemma items_ok_last_end clock from items size : items_ok clock from items size → from <= size → from <= last_end from items <= size.
Proof.
  revert clock from. induction items as [|i items IH]; intros clock from; [cbn; unfold last_end; cbn; lia|].
  intros (_ & Hd & _ & Hok) _. rewrite last_end_cons. specialize (IH _ _ Hok ltac:(lia)). lia.
Qed.

(** Output items in a row are one piece of output. *)
Lemma subarray_app data a b c : a <= b <= c → subarray data a b ++ subarray data b c = subarray data a c.
Proof.
  intros H. unfold subarray. replace (drop b data) with (drop (b - a) (drop a data)) by (rewrite drop_drop; f_equal; lia).
  replace (c - b) with ((c - a) - (b - a)) by lia. generalize (drop a data). intros l.
  rewrite <- (take_drop (b - a) (take (c - a) l)) at 1. f_equal; [rewrite take_take; f_equal; lia|]. by rewrite skipn_firstn_comm.
Qed.
Lemma subarray_nil data a b : b <= a → subarray data a b = [].
Proof. intros H. unfold subarray. by replace (b - a) with 0 by lia. Qed.
