(* ===== verification/ReplayPlayer.v ===== *)
(** * The player of recorded sessions (apps/desktop/src/renderer/lib/replay-player.ts)

    [ReplayPlayer] fetches the segments of a recording as it needs them, forgets those
    it has passed, and hands their contents to a terminal that draws when it can.  Seeking back
    starts again from a screen saved by the scan of the recording ([ReplaySnapshotStore]).

    Times are only compared: they are integers here.  A promise that settles, the terminal
    drawing, the scan adding a snapshot and the calls of the window are events. *)

From stdpp Require Import gmap.
From S2P Require Import Prelude Collections ReplayData.

Definition PREFETCH_SEGMENTS : nat := 3.
Definition KEEP_BEHIND_SEGMENTS : nat := 1.
Definition SNAPSHOT_SEEK_MIN_BYTES : N := 4 * 1024 * 1024.
Definition REPLAY_PENDING_LIMIT_BYTES : N := 1024 * 1024.
Definition SNAPSHOT_SPACING_BYTES : N := 8 * 1024 * 1024.
Definition SNAPSHOT_BUDGET_CHARS : N := 48 * 1024 * 1024.

(** ** Saved screens *)

Record ReplaySnapshot := { sn_segment : nat; sn_atMs : Z; sn_cols : N; sn_rows : N; sn_data : jsstring }.
Record ReplaySnapshotStore := { rs_snapshots : list ReplaySnapshot; rs_totalChars : N; rs_spacing : N; rs_budgetChars : N }.

Definition chars (s : ReplaySnapshot) : N := N.of_nat (length (sn_data s)).
Definition new_store (budgetChars spacingBytes : N) : ReplaySnapshotStore :=
  {| rs_snapshots := []; rs_totalChars := 0; rs_spacing := spacingBytes; rs_budgetChars := budgetChars |}.
(** [snapshots.filter((_, index) => index % 2 === 1)] *)
Fixpoint every_other {A} (l : list A) : list A :=
  match l with _ :: x :: l => x :: every_other l | _ => [] end.
(** The loop of [add]; it ends because the list gets shorter. *)
Fixpoint thin_out (fuel : nat) (st : ReplaySnapshotStore) : ReplaySnapshotStore :=
  match fuel with
  | O => st
  | S fuel =>
      if (rs_budgetChars st <? rs_totalChars st)%N && negb (length (rs_snapshots st) =? 0)
      then
        let snapshots := if length (rs_snapshots st) =? 1 then [] else every_other (rs_snapshots st) in
        thin_out fuel {| rs_snapshots := snapshots; rs_totalChars := foldl (λ sum kept, sum + chars kept)%N 0%N snapshots;
                         rs_spacing := rs_spacing st * 2; rs_budgetChars := rs_budgetChars st |}
      else st
  end.
Definition add (snapshot : ReplaySnapshot) (st : ReplaySnapshotStore) : ReplaySnapshotStore :=
  let snapshots := rs_snapshots st ++ [snapshot] in
  thin_out (length snapshots)
    {| rs_snapshots := snapshots; rs_totalChars := rs_totalChars st + chars snapshot;
       rs_spacing := rs_spacing st; rs_budgetChars := rs_budgetChars st |}.
Definition latest (atMs : Z) (st : ReplaySnapshotStore) : option ReplaySnapshot :=
  List.find (λ s, (sn_atMs s <=? atMs)%Z) (reverse (rs_snapshots st)).

Definition total (l : list ReplaySnapshot) : N := foldl (λ sum kept, sum + chars kept)%N 0%N l.
Lemma every_other_sublist {A} (l : list A) : every_other l `sublist_of` l.
Proof.
  cut (every_other l `sublist_of` l ∧ ∀ x, every_other (x :: l) `sublist_of` x :: l); [by intros []|].
  induction l as [|y l [IH1 IH2]]; [split; [done|intros x; apply sublist_nil_l]|]. split; [apply IH2|].
  intros x. cbn. by apply sublist_cons, sublist_skip.
Qed.
Lemma every_other_length {A} (l : list A) : 2 <= length l → length (every_other l) < length l.
Proof.
  intros Hl. destruct l as [|x [|y l]]; [cbn in Hl; lia..|]. cbn [every_other length].
  pose proof (sublist_length _ _ (every_other_sublist l)). lia.
Qed.
(** The loop of [add]: it has an end, it drops snapshots only, and only as many as the
    budget asks for. *)
Lemma thin_out_spec fuel st :
  length (rs_snapshots st) <= fuel → rs_totalChars st = total (rs_snapshots st) →
  let st' := thin_out fuel st in
  rs_snapshots st' `sublist_of` rs_snapshots st ∧ rs_totalChars st' = total (rs_snapshots st')
  ∧ (rs_totalChars st' <= rs_budgetChars st')%N ∧ rs_budgetChars st' = rs_budgetChars st
  ∧ ((rs_totalChars st <= rs_budgetChars st)%N → st' = st) ∧ ∃ k, rs_spacing st' = (rs_spacing st * 2 ^ k)%N.
Proof.
  revert st. induction fuel as [|fuel IH]; intros st Hf Ht; cbn [thin_out].
  - assert (E : rs_snapshots st = []) by (apply length_zero_iff_nil; lia). rewrite E in Ht. cbn in Ht.
    split_and!; [done|by rewrite E|lia|done|done|]. exists 0%N. cbn. lia.
  - destruct (N.ltb_spec (rs_budgetChars st) (rs_totalChars st)) as [Hb|Hb]; cbn [andb].
    2:{ split_and!; [done..|]. exists 0%N. lia. }
    destruct (Nat.eqb_spec (length (rs_snapshots st)) 0) as [E0|E0]; cbn [negb].
    { apply length_zero_iff_nil in E0. rewrite Ht, E0 in Hb. cbn in Hb. lia. }
    set (l := if _ =? 1 then [] else _).
    assert (Hl : l `sublist_of` rs_snapshots st ∧ length l < length (rs_snapshots st)).
    { unfold l. destruct (Nat.eqb_spec (length (rs_snapshots st)) 1); [split; [apply sublist_nil_l|cbn; lia]|].
      split; [apply every_other_sublist|apply every_other_length; lia]. }
    destruct Hl as [Hsub Hlt].
    destruct (IH {| rs_snapshots := l; rs_totalChars := total l; rs_spacing := rs_spacing st * 2; rs_budgetChars := rs_budgetChars st |})
      as (H1 & H2 & H3 & H4 & _ & k & H5); [cbn; lia|done|]. cbn [rs_snapshots rs_totalChars rs_spacing rs_budgetChars] in *.
    split_and!; [by etrans|done|done|done|lia|]. exists (k + 1)%N. etrans; [exact H5|]. rewrite N.pow_add_r. cbn. lia.
Qed.
Lemma total_app a b : total (a ++ b) = (total a + total b)%N.
Proof.
  unfold total. rewrite foldl_app. generalize (foldl (λ sum kept, sum + chars kept)%N 0%N a). intros n.
  revert n. induction b as [|x b IH]; intros n; cbn [foldl]; [lia|]. rewrite IH, (IH (0 + chars x)%N). lia.
Qed.
Lemma add_spec snapshot st :
  rs_totalChars st = total (rs_snapshots st) →
  let st' := add snapshot st in
  rs_snapshots st' `sublist_of` rs_snapshots st ++ [snapshot] ∧ rs_totalChars st' = total (rs_snapshots st')
  ∧ (rs_totalChars st' <= rs_budgetChars st')%N ∧ rs_budgetChars st' = rs_budgetChars st
  ∧ ((total (rs_snapshots st) + chars snapshot <= rs_budgetChars st)%N → rs_snapshots st' = rs_snapshots st ++ [snapshot])
  ∧ ∃ k, rs_spacing st' = (rs_spacing st * 2 ^ k)%N.
Proof.
  intros Ht. unfold add.
  destruct (thin_out_spec (length (rs_snapshots st ++ [snapshot]))
    {| rs_snapshots := rs_snapshots st ++ [snapshot]; rs_totalChars := rs_totalChars st + chars snapshot;
       rs_spacing := rs_spacing st; rs_budgetChars := rs_budgetChars st |}) as (H1 & H2 & H3 & H4 & H5 & H6); [done| |].
  { cbn. rewrite total_app, Ht. done. }
  cbn [rs_snapshots rs_totalChars rs_spacing rs_budgetChars] in *. split_and!; try done.
  intros Hle. rewrite H5; [done|]. by rewrite Ht.
Qed.
Lemma latest_elem t st s : latest t st = Some s → s ∈ rs_snapshots st ∧ (sn_atMs s <= t)%Z.
Proof. unfold latest. intros [Hs Ht%Z.leb_le]%find_Some_1. by rewrite elem_of_reverse in Hs. Qed.

(** ** The terminal, as the player sees it

    Output that was written is drawn later; a change of size or a reset takes effect at
    once, so both are asked for only when nothing waits to be drawn.  [t_shown] is the screen
    there will be when everything written has been drawn. *)
Class ReplayTerminal (S T : Type) {SC : Screen S} := {
  t_write : T → list N → T;
  t_write_text : T → jsstring → T;
  t_resize : T → N → N → T;
  t_reset : T → T;
  t_pending : T → N;
  t_draw : N → T → T;
  t_shown : T → S;
  shown_write t bytes : t_shown (t_write t bytes) = feed (t_shown t) bytes;
  shown_write_text t text : t_shown (t_write_text t text) = feed_text (t_shown t) text;
  shown_resize t cols rows : t_pending t = 0%N → t_shown (t_resize t cols rows) = set_size (t_shown t) cols rows;
  pending_resize t cols rows : t_pending (t_resize t cols rows) = t_pending t;
  shown_reset t : t_pending t = 0%N → t_shown (t_reset t) = blank;
  shown_reset_resize t cols rows : t_pending t = 0%N → t_shown (t_resize (t_reset t) cols rows) = set_size blank cols rows;
  shown_draw n t : t_shown (t_draw n t) = t_shown t;
  pending_draw t : t_pending (t_draw (t_pending t) t) = 0%N;
}.

(** ** The player *)

Inductive RestartPoint := rp_start | rp_snapshot (s : ReplaySnapshot).

Section player.
Context {Scr T : Type} {SC : Screen Scr} {RT : ReplayTerminal Scr T}.
Variable segments : list SessionReplaySegmentInfo.

(** [viewports]: the calls of [onViewport]; [awaiting]: [onWritesDrained] is to be called when
    the terminal has drawn everything. *)
Record ReplayPlayer := {
  rp_cache : gmap nat SessionReplaySegment;
  rp_loading : gset nat;
  rp_segment : nat;
  rp_entry : nat;
  rp_drawnAtMs : option Z;
  rp_restartPoint : option RestartPoint;
  rp_disposed : bool;
  rp_terminal : T;
  rp_viewports : list (N * N);
  rp_awaiting : bool;
}.
Implicit Types p : ReplayPlayer.

Definition set_cache cache p : ReplayPlayer :=
  {| rp_cache := cache; rp_loading := rp_loading p; rp_segment := rp_segment p; rp_entry := rp_entry p;
     rp_drawnAtMs := rp_drawnAtMs p; rp_restartPoint := rp_restartPoint p; rp_disposed := rp_disposed p;
     rp_terminal := rp_terminal p; rp_viewports := rp_viewports p; rp_awaiting := rp_awaiting p |}.
Definition set_loading loading p : ReplayPlayer :=
  {| rp_cache := rp_cache p; rp_loading := loading; rp_segment := rp_segment p; rp_entry := rp_entry p;
     rp_drawnAtMs := rp_drawnAtMs p; rp_restartPoint := rp_restartPoint p; rp_disposed := rp_disposed p;
     rp_terminal := rp_terminal p; rp_viewports := rp_viewports p; rp_awaiting := rp_awaiting p |}.
(** The position: the next item, and the time of the last one drawn. *)
Definition set_position segment entry drawnAtMs p : ReplayPlayer :=
  {| rp_cache := rp_cache p; rp_loading := rp_loading p; rp_segment := segment; rp_entry := entry;
     rp_drawnAtMs := drawnAtMs; rp_restartPoint := rp_restartPoint p; rp_disposed := rp_disposed p;
     rp_terminal := rp_terminal p; rp_viewports := rp_viewports p; rp_awaiting := rp_awaiting p |}.
Definition set_restartPoint restartPoint p : ReplayPlayer :=
  {| rp_cache := rp_cache p; rp_loading := rp_loading p; rp_segment := rp_segment p; rp_entry := rp_entry p;
     rp_drawnAtMs := rp_drawnAtMs p; rp_restartPoint := restartPoint; rp_disposed := rp_disposed p;
     rp_terminal := rp_terminal p; rp_viewports := rp_viewports p; rp_awaiting := rp_awaiting p |}.
Definition set_disposed disposed p : ReplayPlayer :=
  {| rp_cache := rp_cache p; rp_loading := rp_loading p; rp_segment := rp_segment p; rp_entry := rp_entry p;
     rp_drawnAtMs := rp_drawnAtMs p; rp_restartPoint := rp_restartPoint p; rp_disposed := disposed;
     rp_terminal := rp_terminal p; rp_viewports := rp_viewports p; rp_awaiting := rp_awaiting p |}.
Definition set_terminal terminal p : ReplayPlayer :=
  {| rp_cache := rp_cache p; rp_loading := rp_loading p; rp_segment := rp_segment p; rp_entry := rp_entry p;
     rp_drawnAtMs := rp_drawnAtMs p; rp_restartPoint := rp_restartPoint p; rp_disposed := rp_disposed p;
     rp_terminal := terminal; rp_viewports := rp_viewports p; rp_awaiting := rp_awaiting p |}.
Definition set_awaiting awaiting p : ReplayPlayer :=
  {| rp_cache := rp_cache p; rp_loading := rp_loading p; rp_segment := rp_segment p; rp_entry := rp_entry p;
     rp_drawnAtMs := rp_drawnAtMs p; rp_restartPoint := rp_restartPoint p; rp_disposed := rp_disposed p;
     rp_terminal := rp_terminal p; rp_viewports := rp_viewports p; rp_awaiting := awaiting |}.
Definition onViewport (viewport : option (N * N)) p : ReplayPlayer :=
  {| rp_cache := rp_cache p; rp_loading := rp_loading p; rp_segment := rp_segment p; rp_entry := rp_entry p;
     rp_drawnAtMs := rp_drawnAtMs p; rp_restartPoint := rp_restartPoint p; rp_disposed := rp_disposed p;
     rp_terminal := rp_terminal p; rp_viewports := rp_viewports p ++ option_list viewport; rp_awaiting := rp_awaiting p |}.

Definition isWanted (segmentIndex : nat) p : bool :=
  (rp_segment p - KEEP_BEHIND_SEGMENTS <=? segmentIndex) && (segmentIndex <=? rp_segment p + PREFETCH_SEGMENTS).
Definition request (segmentIndex : nat) p : ReplayPlayer :=
  if rp_disposed p || (length segments <=? segmentIndex) || bool_decide (is_Some (rp_cache p !! segmentIndex))
     || bool_decide (segmentIndex ∈ rp_loading p)
  then p else set_loading ({[segmentIndex]} ∪ rp_loading p) p.
Definition prefetch p : ReplayPlayer :=
  foldl (λ p segmentIndex, request segmentIndex p) p (seq (rp_segment p) (S PREFETCH_SEGMENTS)).
Definition evict p : ReplayPlayer :=
  set_cache (filter (λ '(segmentIndex, _), isWanted segmentIndex p = true) (rp_cache p)) p.
(** The promise of a segment settles: with its content, or, if it could not be read, with an
    empty one. *)
Definition load_settled (segmentIndex : nat) (content : option SessionReplaySegment) p : ReplayPlayer :=
  let segment := default EMPTY_SEGMENT content in
  let p := set_loading (rp_loading p ∖ {[segmentIndex]}) p in
  if negb (rp_disposed p) && isWanted segmentIndex p then set_cache (<[segmentIndex := segment]> (rp_cache p)) p else p.

Definition new_player (terminal : T) : ReplayPlayer :=
  prefetch {| rp_cache := ∅; rp_loading := ∅; rp_segment := 0; rp_entry := 0; rp_drawnAtMs := None;
              rp_restartPoint := Some rp_start; rp_disposed := false; rp_terminal := terminal;
              rp_viewports := []; rp_awaiting := false |}.
Definition whenReady p : ReplayPlayer :=
  if (length segments <=? rp_segment p) || bool_decide (is_Some (rp_cache p !! rp_segment p)) then p
  else request (rp_segment p) p.
Definition dispose p : ReplayPlayer := set_cache ∅ (set_disposed true p).

Definition scheduleRestart (point : RestartPoint) p : ReplayPlayer :=
  let p := set_restartPoint (Some point) p in
  let p := match point with
           | rp_start => set_position 0 0 None p
           | rp_snapshot s => set_position (sn_segment s) 0 (Some (sn_atMs s)) p
           end in
  prefetch (evict p).
Definition restart (point : RestartPoint) p : ReplayPlayer :=
  let p := set_terminal (t_reset (rp_terminal p)) p in
  match point with
  | rp_start => p
  | rp_snapshot s =>
      let terminal := t_resize (rp_terminal p) (sn_cols s) (sn_rows s) in
      onViewport (Some (sn_cols s, sn_rows s)) (set_terminal (t_write_text terminal (sn_data s)) p)
  end.
Definition outputBytesBetween (fromSegment toSegment : nat) : N :=
  foldl (λ bytes index, (bytes + default 0 (si_outputBytes <$> segments !! index))%N) 0%N
        (seq fromSegment (toSegment - fromSegment)).

Definition before (targetMs : Z) (drawnAtMs : option Z) : bool :=
  match drawnAtMs with None => false | Some d => (targetMs <? d)%Z end.
Definition seek (snapshots : ReplaySnapshotStore) (targetMs : Z) p : ReplayPlayer :=
  if rp_disposed p then p else
  let snapshot := latest targetMs snapshots in
  if before targetMs (rp_drawnAtMs p)
  then scheduleRestart (match snapshot with Some s => rp_snapshot s | None => rp_start end) p
  else match snapshot with
       | Some s =>
           if (rp_segment p <? sn_segment s) && (SNAPSHOT_SEEK_MIN_BYTES <=? outputBytesBetween (rp_segment p) (sn_segment s))%N
           then scheduleRestart (rp_snapshot s) p else p
       | None => p
       end.

(** *** One segment

    The loop over the items from [index] on, and the output handed over after it: where it
    stopped, the terminal, the last size, whether it waits for the terminal to draw. *)
Record Run := { rn_index : nat; rn_terminal : T; rn_viewport : option (N * N); rn_waiting : bool }.
Fixpoint draw_items (targetMs : Z) (data : list N) (items : list SegmentItem) (index prevEnd runStart : nat) (t : T)
    (viewport : option (N * N)) : Run :=
  let finish := {| rn_index := index; rn_terminal := if runStart <? prevEnd then t_write t (subarray data runStart prevEnd) else t;
                   rn_viewport := viewport; rn_waiting := false |} in
  match items with
  | [] => finish
  | i :: items =>
      if (targetMs <? it_atMs i)%Z then finish
      else if (it_cols i =? 0)%N then draw_items targetMs data items (S index) (it_dataEnd i) runStart t viewport
      else
        let t := if runStart <? prevEnd then t_write t (subarray data runStart prevEnd) else t in
        if (0 <? t_pending t)%N
        then {| rn_index := index; rn_terminal := t; rn_viewport := viewport; rn_waiting := true |}
        else draw_items targetMs data items (S index) (it_dataEnd i) (it_dataEnd i) (t_resize t (it_cols i) (it_rows i))
               (Some (it_cols i, it_rows i))
  end.
Definition draw_segment (targetMs : Z) (segment : SessionReplaySegment) (entry : nat) (t : T) (viewport : option (N * N)) : Run :=
  let prevEnd := end_before (sg_items segment) entry in
  draw_items targetMs (sg_data segment) (drop entry (sg_items segment)) entry prevEnd prevEnd t viewport.

(** *** Up to a time

    [None]: out of fuel, which one more than the segments left never is
    ([advance_loop_total]). *)
Fixpoint advance_loop (fuel : nat) (targetMs : Z) (viewport : option (N * N)) p : option (ReplayPlayer * option (N * N) * bool) :=
  match fuel with
  | O => None
  | S fuel =>
      if (REPLAY_PENDING_LIMIT_BYTES <? t_pending (rp_terminal p))%N then Some (p, viewport, false) else
      match segments !! rp_segment p with
      | None => Some (p, viewport, true)
      | Some info =>
          if (rp_entry p =? 0) && (targetMs <? si_startAtMs info)%Z then Some (p, viewport, true) else
          match rp_cache p !! rp_segment p with
          | None => Some (request (rp_segment p) p, viewport, false)
          | Some segment =>
              let run := draw_segment targetMs segment (rp_entry p) (rp_terminal p) viewport in
              let drawnAtMs := if rp_entry p <? rn_index run
                               then it_atMs <$> sg_items segment !! (rn_index run - 1) else rp_drawnAtMs p in
              let p := set_position (rp_segment p) (rn_index run) drawnAtMs (set_terminal (rn_terminal run) p) in
              if rn_waiting run then Some (set_awaiting true p, rn_viewport run, false)
              else if rn_index run <? length (sg_items segment) then Some (p, rn_viewport run, true)
              else advance_loop fuel targetMs (rn_viewport run) (evict (set_position (S (rp_segment p)) 0 drawnAtMs p))
          end
      end
  end.
Definition advance_fuel p : nat := S (length segments - rp_segment p).
(** What comes before the loop: the restart, if one is due. [inl]: not yet. *)
Definition advance_restart (targetMs : Z) p : ReplayPlayer + ReplayPlayer :=
  match rp_restartPoint p with
  | None => inr p
  | Some point =>
      if (0 <? t_pending (rp_terminal p))%N then inl p else
      match segments !! rp_segment p with
      | Some first =>
          if (si_startAtMs first <=? targetMs)%Z && bool_decide (rp_cache p !! rp_segment p = None)
          then inl (request (rp_segment p) p)
          else inr (set_restartPoint None (restart point p))
      | None => inr (set_restartPoint None (restart point p))
      end
  end.
Definition advance (targetMs : Z) p : option (ReplayPlayer * bool) :=
  if rp_disposed p then Some (p, true) else
  match advance_restart targetMs p with
  | inl p => Some (p, false)
  | inr p =>
      '(p, viewport, caughtUp) ← advance_loop (advance_fuel p) targetMs None p;
      Some (prefetch (onViewport viewport p), caughtUp)
  end.

(** ** A segment is drawn in order *)

Lemma finish_shown (t : T) data runStart prevEnd :
  t_shown (if runStart <? prevEnd then t_write t (subarray data runStart prevEnd) else t) = feed (t_shown t) (subarray data runStart prevEnd).
Proof.
  destruct (Nat.ltb_spec runStart prevEnd) as [H|H]; [apply shown_write|]. by rewrite subarray_nil.
Qed.
(** What a run has done: the items it passed are those up to the time, and the terminal
    shows their effect. *)
Lemma draw_items_spec targetMs data items index clock prevEnd runStart t viewport :
  items_ok clock prevEnd items (length data) → runStart <= prevEnd <= length data →
  let run := draw_items targetMs data items index prevEnd runStart t viewport in
  ∃ passed rest, items = passed ++ rest ∧ rn_index run = index + length passed
    ∧ t_shown (rn_terminal run) = render (item_ops data prevEnd passed) (feed (t_shown t) (subarray data runStart prevEnd))
    ∧ Forall (λ i, it_atMs i <= targetMs)%Z passed
    ∧ (if rn_waiting run then (0 < t_pending (rn_terminal run))%N ∧ rest ≠ [] else ∀ i, head rest = Some i → (targetMs < it_atMs i)%Z).
Proof.
  revert index clock prevEnd runStart t viewport.
  induction items as [|i items IH]; intros index clock prevEnd runStart t viewport Hok Hle; cbn [draw_items].
  - exists [], []. cbn [rn_terminal rn_index rn_waiting item_ops render foldl length head]. rewrite finish_shown. split_and!; [done|lia|done|constructor|done].
  - destruct Hok as (Hc & Hd & Hr & Hok). destruct (Z.ltb_spec targetMs (it_atMs i)) as [Ht|Ht]; cbv zeta.
    + exists [], (i :: items). cbn [rn_terminal rn_index rn_waiting item_ops render foldl length head]. rewrite finish_shown. split_and!; [done|lia|done|constructor|]. by intros ? [= <-].
    + destruct (N.eqb_spec (it_cols i) 0) as [Ez|Ez].
      * destruct (IH (S index) _ (it_dataEnd i) runStart t viewport Hok ltac:(lia)) as (passed & rest & -> & Hi & Hs & Hf & Hw).
        exists (i :: passed), rest. split_and!; [done|cbn; lia| |by constructor|exact Hw].
        rewrite Hs. cbn [item_ops render foldl snd]. rewrite (proj2 (N.eqb_eq _ _) Ez). cbn [apply_op].
        unfold render. f_equal. by rewrite <- feed_app, subarray_app by lia.
      * set (t' := if runStart <? prevEnd then _ else t).
        assert (Ht' : t_shown t' = feed (t_shown t) (subarray data runStart prevEnd)) by apply finish_shown.
        destruct (N.ltb_spec 0 (t_pending t')) as [Hp|Hp].
        -- exists [], (i :: items). cbn [rn_terminal rn_index rn_waiting item_ops render foldl length head]. rewrite Ht'. split_and!; [done|lia|done|constructor|done|done].
        -- specialize (Hr Ez).
           destruct (IH (S index) _ (it_dataEnd i) (it_dataEnd i) (t_resize t' (it_cols i) (it_rows i)) (Some (it_cols i, it_rows i)) Hok ltac:(lia))
             as (passed & rest & -> & Hi & Hs & Hf & Hw).
           exists (i :: passed), rest. split_and!; [done|cbn; lia| |by constructor|exact Hw].
           rewrite Hs. cbn [item_ops render foldl snd]. rewrite (proj2 (N.eqb_neq _ _) Ez). cbn [apply_op].
           unfold render. f_equal. rewrite subarray_nil by done. cbn [feed foldl]. rewrite shown_resize by lia. by rewrite Ht'.
Qed.
Lemma draw_items_progress targetMs data items index prevEnd t viewport i :
  head items = Some i → (it_atMs i <= targetMs)%Z → t_pending t = 0%N →
  index < rn_index (draw_items targetMs data items index prevEnd prevEnd t viewport).
Proof.
  assert (Hge : ∀ items index prevEnd runStart t viewport, index <= rn_index (draw_items targetMs data items index prevEnd runStart t viewport)).
  { clear. induction items as [|i items IH]; intros; cbn [draw_items]; [done|]. case_match; [done|]. case_match; [etrans; [|apply IH]; lia|].
    cbv zeta. case_match; [done|]. etrans; [|apply IH]. lia. }
  destruct items as [|i' items]; [done|]. intros [= ->] Ht Hp. cbn [draw_items].
  rewrite (proj2 (Z.ltb_ge _ _) Ht). case_match; [apply Hge|]. cbv zeta. rewrite Nat.ltb_irrefl, Hp. cbn. apply Hge.
Qed.

(** ** The player and what surrounds it *)

Variable recording : list SessionReplaySegment.

(** The table describes the recording. *)
Definition recording_ok : Prop :=
  length recording = length segments ∧ (∃ clock, table_ok clock segments)
  ∧ ∀ i info s, segments !! i = Some info → recording !! i = Some s → segment_ok info s.

(** What reading a segment may have given: its content, or nothing, if reading it has
    failed. *)
Definition content_of (failed : gset nat) (i : nat) (s : SessionReplaySegment) : Prop :=
  recording !! i = Some s ∨ (i ∈ failed ∧ i < length recording ∧ s = EMPTY_SEGMENT).
(** The contents of the first segments, as they were read. *)
Definition contents_of (failed : gset nat) (contents : list SessionReplaySegment) : Prop :=
  ∀ i s, contents !! i = Some s → content_of failed i s.
Definition within (drawnAtMs : option Z) (ops : list (Z * TermOp)) : Prop :=
  ∀ op, op ∈ ops → ∃ d, drawnAtMs = Some d ∧ (op.1 <= d)%Z.
(** The scan saves what everything before a segment has drawn. *)
Definition snapshot_ok (failed : gset nat) (s : ReplaySnapshot) : Prop :=
  sn_segment s <= length recording
  ∧ ∃ contents, length contents = sn_segment s ∧ contents_of failed contents
      ∧ feed_text (set_size blank (sn_cols s) (sn_rows s)) (sn_data s) = render (contents ≫= segment_ops) blank
      ∧ within (Some (sn_atMs s)) (contents ≫= segment_ops).

Record World := { w_player : ReplayPlayer; w_store : ReplaySnapshotStore; w_goal : Z; w_failed : gset nat }.
Implicit Types w : World.

(** The window moves its goal back only with [seek]; everything else happens whenever it
    likes. *)
Inductive step w : World → Prop :=
| st_loaded i s :
    i ∈ rp_loading (w_player w) → recording !! i = Some s →
    step w {| w_player := load_settled i (Some s) (w_player w); w_store := w_store w; w_goal := w_goal w; w_failed := w_failed w |}
| st_load_failed i :
    i ∈ rp_loading (w_player w) →
    step w {| w_player := load_settled i None (w_player w); w_store := w_store w; w_goal := w_goal w; w_failed := {[i]} ∪ w_failed w |}
| st_scan_failed i :
    step w {| w_player := w_player w; w_store := w_store w; w_goal := w_goal w; w_failed := {[i]} ∪ w_failed w |}
| st_snapshot s :
    snapshot_ok (w_failed w) s →
    step w {| w_player := w_player w; w_store := add s (w_store w); w_goal := w_goal w; w_failed := w_failed w |}
| st_draw n :
    step w {| w_player := set_terminal (t_draw n (rp_terminal (w_player w))) (w_player w); w_store := w_store w;
              w_goal := w_goal w; w_failed := w_failed w |}
| st_drained :
    step w {| w_player := set_awaiting false (w_player w); w_store := w_store w; w_goal := w_goal w; w_failed := w_failed w |}
| st_ready : step w {| w_player := whenReady (w_player w); w_store := w_store w; w_goal := w_goal w; w_failed := w_failed w |}
| st_seek t : step w {| w_player := seek (w_store w) t (w_player w); w_store := w_store w; w_goal := t; w_failed := w_failed w |}
| st_advance t p caughtUp :
    (w_goal w <= t)%Z → advance t (w_player w) = Some (p, caughtUp) →
    step w {| w_player := p; w_store := w_store w; w_goal := t; w_failed := w_failed w |}
| st_dispose : step w {| w_player := dispose (w_player w); w_store := w_store w; w_goal := w_goal w; w_failed := w_failed w |}.
Definition start_world (terminal : T) (budgetChars spacingBytes : N) : World :=
  {| w_player := new_player terminal; w_store := new_store budgetChars spacingBytes; w_goal := 0; w_failed := ∅ |}.

(** ** What always holds of a player that is not disposed *)

Definition current_ops p : list (Z * TermOp) :=
  match rp_cache p !! rp_segment p with
  | Some s => take (rp_entry p) (segment_ops s)
  | None => []
  end.
(** The terminal shows, or will when it has drawn, everything before the position. *)
Definition drawn (failed : gset nat) p : Prop :=
  ∃ contents, length contents = rp_segment p ∧ contents_of failed contents
    ∧ t_shown (rp_terminal p) = render ((contents ≫= segment_ops) ++ current_ops p) blank
    ∧ within (rp_drawnAtMs p) ((contents ≫= segment_ops) ++ current_ops p).
Record Cached (failed : gset nat) p : Prop := {
  ca_cache : ∀ i s, rp_cache p !! i = Some s → content_of failed i s ∧ isWanted i p = true;
  ca_loading : ∀ i, i ∈ rp_loading p → i < length segments ∧ rp_cache p !! i = None;
  ca_segment : rp_segment p <= length segments;
  ca_entry : rp_entry p ≠ 0 → ∃ s, rp_cache p !! rp_segment p = Some s ∧ rp_entry p < length (sg_items s);
}.
Definition ready p : Prop :=
  rp_segment p < length segments → is_Some (rp_cache p !! rp_segment p) ∨ rp_segment p ∈ rp_loading p.
Definition restart_due (failed : gset nat) p : Prop :=
  match rp_restartPoint p with
  | None => drawn failed p
  | Some rp_start => rp_segment p = 0 ∧ rp_entry p = 0 ∧ rp_drawnAtMs p = None
  | Some (rp_snapshot s) =>
      snapshot_ok failed s ∧ rp_segment p = sn_segment s ∧ rp_entry p = 0 ∧ rp_drawnAtMs p = Some (sn_atMs s)
  end.
Definition behind (goal : Z) p : Prop := ∀ d, rp_drawnAtMs p = Some d → (d <= goal)%Z.
Record PlayerInv (failed : gset nat) (goal : Z) p : Prop := {
  pi_cached : Cached failed p;
  pi_ready : ready p;
  pi_restart : restart_due failed p;
  pi_behind : behind goal p;
}.
Definition WorldInv w : Prop :=
  (∀ s, s ∈ rs_snapshots (w_store w) → snapshot_ok (w_failed w) s)
  ∧ (rp_disposed (w_player w) = true → rp_cache (w_player w) = ∅)
  ∧ (rp_disposed (w_player w) = false → PlayerInv (w_failed w) (w_goal w) (w_player w)).

(** *** Failures only accumulate *)

Lemma content_of_mono failed failed' i s : failed ⊆ failed' → content_of failed i s → content_of failed' i s.
Proof. unfold content_of. set_solver. Qed.
Lemma contents_of_mono failed failed' l : failed ⊆ failed' → contents_of failed l → contents_of failed' l.
Proof. intros Hf H i s Hi. eapply content_of_mono; eauto. Qed.
Lemma snapshot_ok_mono failed failed' s : failed ⊆ failed' → snapshot_ok failed s → snapshot_ok failed' s.
Proof. intros Hf (Hl & l & H1 & H2 & H3). split; [done|]. exists l. eauto using contents_of_mono. Qed.
Lemma PlayerInv_mono failed failed' goal p : failed ⊆ failed' → PlayerInv failed goal p → PlayerInv failed' goal p.
Proof.
  intros Hf [[H1 H2 H3 H4] Hr Hd Hb]. split; [split; [|done..]|done| |done].
  - intros i s Hi. destruct (H1 i s Hi). split; [by eapply content_of_mono|done].
  - unfold restart_due in *. destruct (rp_restartPoint p) as [[|s]|]; [done| |].
    + destruct Hd as (Hs & ?). split; [by eapply snapshot_ok_mono|done].
    + destruct Hd as (l & Hl & Hc & ?). exists l. eauto using contents_of_mono.
Qed.

(** *** Requests and evictions *)

Lemma request_frame i p :
  rp_cache (request i p) = rp_cache p ∧ rp_segment (request i p) = rp_segment p ∧ rp_entry (request i p) = rp_entry p
  ∧ rp_drawnAtMs (request i p) = rp_drawnAtMs p ∧ rp_restartPoint (request i p) = rp_restartPoint p
  ∧ rp_disposed (request i p) = rp_disposed p ∧ rp_terminal (request i p) = rp_terminal p.
Proof. unfold request. by destruct (_ || _). Qed.
Lemma request_loading i p :
  rp_disposed p = false →
  ∀ j, j ∈ rp_loading (request i p) ↔ j ∈ rp_loading p ∨ (j = i ∧ i < length segments ∧ rp_cache p !! i = None).
Proof.
  intros Hd j. unfold request. rewrite Hd. cbn [orb].
  destruct (Nat.leb_spec (length segments) i); cbn [orb]; [split; [auto|intros [?|?]; [done|lia]]|].
  case_bool_decide as Hc; cbn [orb]; [split; [auto|intros [?|(_ & _ & E)]; [done|rewrite E in Hc; by destruct Hc]]|].
  apply eq_None_not_Some in Hc. case_bool_decide as Hl; cbn [rp_loading set_loading].
  - split; [auto|]. intros [?|[-> _]]; done.
  - rewrite elem_of_union, elem_of_singleton. naive_solver.
Qed.

(** [p'] differs from [p] in what is being loaded only. *)
Definition same_but_loading p p' : Prop :=
  rp_cache p' = rp_cache p ∧ rp_segment p' = rp_segment p ∧ rp_entry p' = rp_entry p ∧ rp_drawnAtMs p' = rp_drawnAtMs p
  ∧ rp_restartPoint p' = rp_restartPoint p ∧ rp_disposed p' = rp_disposed p ∧ rp_terminal p' = rp_terminal p.
Lemma requests_spec (l : list nat) p :
  rp_disposed p = false →
  let p' := foldl (λ p i, request i p) p l in
  same_but_loading p p'
  ∧ ∀ j, j ∈ rp_loading p' ↔ j ∈ rp_loading p ∨ (j ∈ l ∧ j < length segments ∧ rp_cache p !! j = None).
Proof.
  revert p. induction l as [|i l IH]; intros p Hd; cbn [foldl]; [split; [by repeat split|set_solver]|].
  pose proof (request_frame i p) as (F1 & F2 & F3 & F4 & F5 & F6 & F7).
  destruct (IH (request i p) ltac:(congruence)) as [(G1 & G2 & G3 & G4 & G5 & G6 & G7) Hl]. split.
  - repeat split; congruence.
  - intros j. rewrite Hl, request_loading by done. rewrite F1, elem_of_cons. naive_solver.
Qed.
Lemma requests_Cached failed p p' (l : list nat) :
  Cached failed p → same_but_loading p p' →
  (∀ j, j ∈ rp_loading p' ↔ j ∈ rp_loading p ∨ (j ∈ l ∧ j < length segments ∧ rp_cache p !! j = None)) → Cached failed p'.
Proof.
  intros [H1 H2 H3 H4] (E1 & E2 & E3 & _) Hl. split; rewrite ?E1, ?E2, ?E3; try done.
  - intros i s Hi. destruct (H1 i s Hi) as [Hc Hw]. split; [done|]. unfold isWanted in *. by rewrite E2.
  - intros i Hi%Hl. destruct Hi as [Hi|(_ & ? & ?)]; [by apply H2|done].
Qed.
Lemma restart_due_same failed p p' : same_but_loading p p' → restart_due failed p → restart_due failed p'.
Proof.
  intros (E1 & E2 & E3 & E4 & E5 & E6 & E7). unfold restart_due, drawn, current_ops. by rewrite E1, E2, E3, E4, E5, E7.
Qed.
Lemma behind_same goal p p' : same_but_loading p p' → behind goal p → behind goal p'.
Proof. intros (_ & _ & _ & E & _). unfold behind. by rewrite E. Qed.
Lemma request_inv failed goal i p : rp_disposed p = false → PlayerInv failed goal p → PlayerInv failed goal (request i p).
Proof.
  intros Hd [H1 H2 H3 H4]. destruct (requests_spec [i] p Hd) as [Hs Hl]. cbn [foldl] in Hs, Hl.
  split; [by eapply requests_Cached| |by eapply restart_due_same|by eapply behind_same].
  unfold ready. destruct Hs as (-> & -> & _). intros Hlt. destruct (H2 Hlt) as [?|?]; [by left|right]. apply Hl. by left.
Qed.
(** Fetching ahead makes the position ready. *)
Lemma prefetch_inv failed goal p :
  rp_disposed p = false → Cached failed p → restart_due failed p → behind goal p → PlayerInv failed goal (prefetch p).
Proof.
  intros Hd H1 H3 H4. destruct (requests_spec (seq (rp_segment p) (S PREFETCH_SEGMENTS)) p Hd) as [Hs Hl]. fold (prefetch p) in Hs, Hl.
  split; [by eapply requests_Cached| |by eapply restart_due_same|by eapply behind_same].
  unfold ready. pose proof Hs as (Ec & Es & _). rewrite Ec, Es. intros Hlt.
  destruct (rp_cache p !! rp_segment p) eqn:E; [by left|right]. apply Hl. right. split_and!; [by left|done|done].
Qed.
Lemma prefetch_same p : rp_disposed p = false → same_but_loading p (prefetch p).
Proof. intros Hd. by destruct (requests_spec (seq (rp_segment p) (S PREFETCH_SEGMENTS)) p Hd). Qed.
Lemma evict_Cached failed segment drawnAtMs p :
  (∀ i s, rp_cache p !! i = Some s → content_of failed i s ∧ isWanted i p = true) →
  (∀ i, i ∈ rp_loading p → i < length segments ∧ rp_cache p !! i = None) →
  segment <= length segments → Cached failed (evict (set_position segment 0 drawnAtMs p)).
Proof.
  intros H1 H2 Hle. split; cbn [evict set_cache set_position rp_cache rp_loading rp_segment rp_entry]; try done.
  - intros i s (Hi & Hw)%map_lookup_filter_Some. split; [by apply (H1 i s)|]. exact Hw.
  - intros i Hi. destruct (H2 i Hi) as [? Hn]. split; [done|]. apply map_lookup_filter_None. by left.
Qed.

(** *** The events *)

Lemma load_settled_inv failed goal i content p :
  rp_disposed p = false → PlayerInv failed goal p → i ∈ rp_loading p → content_of failed i (default EMPTY_SEGMENT content) →
  PlayerInv failed goal (load_settled i content p).
Proof.
  intros Hd [[H1 H2 H3 H4] Hr Hs Hb] Hi Hc. unfold load_settled. cbn [rp_disposed set_loading]. rewrite Hd. cbn [negb andb].
  change (isWanted i (set_loading _ p)) with (isWanted i p). destruct (H2 i Hi) as [Hin Hnone].
  destruct (isWanted i p) eqn:Ew.
  - set (p' := set_cache _ _). assert (Hcur : current_ops p' = current_ops p).
    { unfold current_ops. cbn [p' rp_cache rp_segment rp_entry set_cache set_loading]. destruct (decide (rp_segment p = i)) as [<-|Hne].
      - rewrite lookup_insert_eq, Hnone. destruct (rp_entry p) eqn:Ee; [done|]. destruct (H4 ltac:(lia)) as (s & Hs' & _). congruence.
      - by rewrite lookup_insert_ne. }
    split; [split| |unfold restart_due, drawn; by rewrite Hcur|done]; cbn [p' rp_cache rp_loading rp_segment rp_entry set_cache set_loading].
    + intros j s [[<- <-]|[Hne Hj]]%lookup_insert_Some; [done|by apply H1].
    + intros j [Hj Hne]%elem_of_difference. rewrite lookup_insert_ne by set_solver. by apply H2.
    + done.
    + intros Hne. destruct (H4 Hne) as (s & Hs' & Hlt). exists s. split; [|done]. rewrite lookup_insert_ne; [done|]. intros ->. congruence.
    + intros Hlt. cbn [p' rp_cache rp_loading rp_segment set_cache set_loading] in *. destruct (decide (rp_segment p = i)) as [<-|Hne].
      * left. by rewrite lookup_insert_eq.
      * destruct (Hr Hlt); [left; by rewrite lookup_insert_ne|right; set_solver].
  - split; [split| |done|done]; cbn [rp_cache rp_loading rp_segment rp_entry set_loading]; try done.
    + intros j [Hj _]%elem_of_difference. by apply H2.
    + intros Hlt. cbn [rp_cache rp_loading rp_segment set_loading] in *. destruct (Hr Hlt) as [?|Hl]; [by left|right].
      apply elem_of_difference. split; [done|]. intros <-%elem_of_singleton. unfold isWanted in Ew.
      apply andb_false_iff in Ew as [Ew|Ew]; apply Nat.leb_gt in Ew; unfold KEEP_BEHIND_SEGMENTS, PREFETCH_SEGMENTS in Ew; lia.
Qed.
Lemma terminal_inv failed goal terminal p :
  t_shown terminal = t_shown (rp_terminal p) → PlayerInv failed goal p → PlayerInv failed goal (set_terminal terminal p).
Proof.
  intros E [[H1 H2 H3 H4] Hr Hs Hb]. split; [by split|done| |done].
  unfold restart_due, drawn in *. cbn [rp_restartPoint rp_terminal set_terminal]. rewrite E. exact Hs.
Qed.
Lemma scheduleRestart_inv failed goal point p :
  rp_disposed p = false → Cached failed p → length recording = length segments →
  (match point with rp_start => True | rp_snapshot s => snapshot_ok failed s ∧ (sn_atMs s <= goal)%Z end) →
  PlayerInv failed goal (scheduleRestart point p).
Proof.
  intros Hd Hc Hlen Hp. unfold scheduleRestart. destruct point as [|s]; apply prefetch_inv; try done.
  - destruct Hc. apply evict_Cached; [done|done|lia].
  - destruct Hp as [[Hle _] _]. destruct Hc. apply evict_Cached; [done|done|by rewrite <- Hlen].
  - cbn. by destruct Hp.
  - intros d [= <-]. by destruct Hp.
Qed.
Lemma seek_inv failed goal t st p :
  rp_disposed p = false → length recording = length segments → (∀ s, s ∈ rs_snapshots st → snapshot_ok failed s) →
  PlayerInv failed goal p → PlayerInv failed t (seek st t p).
Proof.
  intros Hd Hlen Hst [H1 H2 H3 H4]. unfold seek. rewrite Hd.
  assert (Hb : before t (rp_drawnAtMs p) = false → PlayerInv failed t p).
  { intros Hb. split; try done. intros d E. unfold before in Hb. rewrite E in Hb. by apply Z.ltb_ge. }
  assert (Hl : ∀ s, latest t st = Some s → snapshot_ok failed s ∧ (sn_atMs s <= t)%Z).
  { intros s [Hs Ht]%latest_elem. split; [by apply Hst|done]. }
  destruct (before t (rp_drawnAtMs p)) eqn:Eb.
  - apply scheduleRestart_inv; [done..|]. destruct (latest t st) as [s|] eqn:El; [by apply Hl|done].
  - destruct (latest t st) as [s|] eqn:El; [|by apply Hb]. destruct (_ && _); [|by apply Hb].
    apply scheduleRestart_inv; [done..|]. by apply Hl.
Qed.

(** *** Advancing *)

Definition LoopInv failed goal p : Prop := Cached failed p ∧ drawn failed p ∧ behind goal p.
(** Nothing at or after the position is due. *)
Definition caught_up targetMs p : Prop :=
  ∀ info, segments !! rp_segment p = Some info →
    (rp_entry p = 0 ∧ (targetMs < si_startAtMs info)%Z)
    ∨ ∃ s i, rp_cache p !! rp_segment p = Some s ∧ sg_items s !! rp_entry p = Some i ∧ (targetMs < it_atMs i)%Z.
(** What a player that has not caught up waits for: the terminal, or a segment. *)
Definition stalled p : Prop :=
  (0 < t_pending (rp_terminal p))%N ∨ (rp_segment p < length segments ∧ rp_segment p ∈ rp_loading p).

Lemma content_items_ok failed i info s :
  recording_ok → segments !! i = Some info → content_of failed i s →
  items_ok (si_startAtMs info) 0 (sg_items s) (length (sg_data s)) ∧ ∀ op, op ∈ segment_ops s → (si_startAtMs info <= op.1 <= si_endAtMs info)%Z.
Proof.
  intros (_ & _ & Hok) Hi [Hs|(_ & _ & ->)]; [|by split; [|intros ? []%elem_of_nil]].
  destruct (Hok _ _ _ Hi Hs) as (H1 & H2). split; [done|]. intros op Hop. split; [by eapply items_ok_times|by apply H2].
Qed.
Lemma elem_of_contents op (l : list SessionReplaySegment) : op ∈ l ≫= segment_ops ↔ ∃ i s, l !! i = Some s ∧ op ∈ segment_ops s.
Proof.
  rewrite list_elem_of_bind. split.
  - intros (s & Hop & [i Hi]%list_elem_of_lookup). eauto.
  - intros (i & s & Hi & Hop). exists s. split; [done|]. by eapply list_elem_of_lookup_2.
Qed.
(** What was read of earlier segments is not later than a segment starts. *)
Lemma contents_before failed contents i info op :
  recording_ok → contents_of failed contents → length contents <= i → segments !! i = Some info →
  op ∈ contents ≫= segment_ops → (op.1 <= si_startAtMs info)%Z.
Proof.
  intros Hrec Hc Hle Hi (j & s & Hj & Hop)%elem_of_contents. pose proof (lookup_lt_Some _ _ _ Hj) as Hlt.
  pose proof Hrec as (_ & [clock Ht] & _). destruct (lookup_lt_is_Some_2 segments j) as [info' Hi'].
  { apply lookup_lt_Some in Hi. lia. }
  destruct (content_items_ok _ _ _ _ Hrec Hi' (Hc _ _ Hj)) as [_ Hb]. specialize (Hb _ Hop).
  pose proof (table_ok_later _ _ _ _ _ _ Ht Hi' Hi ltac:(lia)). lia.
Qed.
Lemma segment_ops_cut s n :
  n <= length (sg_items s) →
  segment_ops s = take n (segment_ops s) ++ item_ops (sg_data s) (end_before (sg_items s) n) (drop n (sg_items s))
  ∧ end_before (sg_items s) n = last_end 0 (take n (sg_items s)).
Proof.
  intros Hn. pose proof (end_before_app (take n (sg_items s)) (drop n (sg_items s))) as E. rewrite take_drop, length_take_le in E by done.
  split; [|done]. rewrite E. pose proof (item_ops_app (sg_data s) 0 (take n (sg_items s)) (drop n (sg_items s))) as Ha. rewrite take_drop in Ha.
  unfold segment_ops. rewrite Ha. f_equal. rewrite take_app_length'; [done|]. rewrite item_ops_length. by rewrite length_take_le.
Qed.

Lemma draw_segment_spec failed info targetMs s entry t viewport i :
  recording_ok → segments !! i = Some info → content_of failed i s → entry <= length (sg_items s) →
  let run := draw_segment targetMs s entry t viewport in
  ∃ passed rest, drop entry (sg_items s) = passed ++ rest ∧ rn_index run = entry + length passed
    ∧ take (rn_index run) (segment_ops s) = take entry (segment_ops s) ++ item_ops (sg_data s) (end_before (sg_items s) entry) passed
    ∧ t_shown (rn_terminal run) = render (item_ops (sg_data s) (end_before (sg_items s) entry) passed) (t_shown t)
    ∧ Forall (λ i, it_atMs i <= targetMs)%Z passed
    ∧ (if rn_waiting run then (0 < t_pending (rn_terminal run))%N ∧ rest ≠ [] else ∀ i, head rest = Some i → (targetMs < it_atMs i)%Z).
Proof.
  intros Hrec Hi Hc Hle. destruct (content_items_ok _ _ _ _ Hrec Hi Hc) as [Hok _].
  destruct (segment_ops_cut s entry Hle) as [Hcut Hend]. unfold draw_segment.
  rewrite <- (take_drop entry (sg_items s)) in Hok. apply items_ok_app in Hok as [Hok1 Hok2]. rewrite <- Hend in Hok2.
  pose proof (items_ok_last_end _ _ _ _ Hok1 ltac:(lia)) as Hb. rewrite <- Hend in Hb.
  destruct (draw_items_spec targetMs (sg_data s) _ entry _ _ (end_before (sg_items s) entry) t viewport Hok2 ltac:(lia))
    as (passed & rest & E & Hidx & Hs & Hf & Hw).
  exists passed, rest. rewrite subarray_nil in Hs by done. split_and!; try done.
  rewrite Hidx. rewrite Hcut at 1. rewrite E, item_ops_app, take_app_ge by (rewrite length_take; unfold segment_ops; rewrite item_ops_length; lia).
  f_equal. rewrite length_take_le by (unfold segment_ops; by rewrite item_ops_length).
  replace (entry + length passed - entry) with (length passed) by lia. apply take_app_length'. by rewrite item_ops_length.
Qed.
Lemma segment_ops_take s n : take n (segment_ops s) = item_ops (sg_data s) 0 (take n (sg_items s)).
Proof.
  unfold segment_ops. pose proof (item_ops_app (sg_data s) 0 (take n (sg_items s)) (drop n (sg_items s))) as Ha. rewrite take_drop in Ha.
  destruct (decide (n <= length (sg_items s))) as [H|H].
  - rewrite Ha, take_app_length'; [done|]. rewrite item_ops_length. by rewrite length_take_le.
  - rewrite !take_ge; [done|lia|rewrite item_ops_length; lia].
Qed.
Lemma last_time_take clock items n i : items !! n = Some i → last_time clock (take (S n) items) = it_atMs i.
Proof.
  intros Hi. pose proof (lookup_lt_Some _ _ _ Hi). unfold last_time. rewrite last_lookup, length_take_le by lia. cbn [pred].
  by rewrite lookup_take_lt, Hi by lia.
Qed.

Lemma current_ops_0 p : rp_entry p = 0 → current_ops p = [].
Proof. unfold current_ops. intros ->. by destruct (_ !! _). Qed.

(** One segment is drawn: the invariant holds at the new position. *)
Definition drawn_run targetMs s viewport p : ReplayPlayer :=
  let run := draw_segment targetMs s (rp_entry p) (rp_terminal p) viewport in
  set_position (rp_segment p) (rn_index run)
    (if rp_entry p <? rn_index run then it_atMs <$> sg_items s !! (rn_index run - 1) else rp_drawnAtMs p)
    (set_terminal (rn_terminal run) p).
Lemma drawn_run_within failed info targetMs s viewport p :
  recording_ok → segments !! rp_segment p = Some info → content_of failed (rp_segment p) s → rp_entry p <= length (sg_items s) →
  (∃ contents, length contents = rp_segment p ∧ contents_of failed contents
    ∧ t_shown (rp_terminal p) = render ((contents ≫= segment_ops) ++ take (rp_entry p) (segment_ops s)) blank
    ∧ within (rp_drawnAtMs p) ((contents ≫= segment_ops) ++ take (rp_entry p) (segment_ops s))) →
  behind targetMs p →
  let p' := drawn_run targetMs s viewport p in
  (∃ contents, length contents = rp_segment p ∧ contents_of failed contents
    ∧ t_shown (rp_terminal p') = render ((contents ≫= segment_ops) ++ take (rp_entry p') (segment_ops s)) blank
    ∧ within (rp_drawnAtMs p') ((contents ≫= segment_ops) ++ take (rp_entry p') (segment_ops s)))
  ∧ behind targetMs p'.
Proof.
  intros Hrec Hi Hc Hle (contents & Hlen & Hcs & Hs & Hw) Hb p'.
  destruct (draw_segment_spec failed info targetMs s (rp_entry p) (rp_terminal p) viewport _ Hrec Hi Hc Hle)
    as (passed & rest & E & Hidx & Htake & Hsh & Hf & _).
  unfold p', drawn_run. cbn [rp_terminal rp_entry rp_drawnAtMs set_position set_terminal].
  set (run := draw_segment _ _ _ _ _) in *.
  assert (Hshown : t_shown (rn_terminal run) = render ((contents ≫= segment_ops) ++ take (rn_index run) (segment_ops s)) blank).
  { rewrite Hsh, Hs, Htake, app_assoc. by rewrite (render_app (_ ++ _)). }
  destruct (Nat.ltb_spec (rp_entry p) (rn_index run)) as [Hlt|Hge].
  - destruct (lookup_lt_is_Some_2 passed (length passed - 1)) as [i Hip]; [lia|].
    assert (Hit : sg_items s !! (rn_index run - 1) = Some i).
    { rewrite Hidx. replace (rp_entry p + length passed - 1) with (rp_entry p + (length passed - 1)) by lia.
      rewrite <- lookup_drop, E, lookup_app_l by lia. done. }
    assert (Ht : (it_atMs i <= targetMs)%Z) by by eapply Forall_lookup_1 in Hf.
    rewrite Hit. cbn [fmap option_fmap option_map]. split; [|by intros d [= <-]].
    exists contents. split_and!; [done|done|done|]. intros op [Hop|Hop]%elem_of_app; (eexists; split; [done|]).
    + pose proof (contents_before _ _ _ _ _ Hrec Hcs (Nat.eq_le_incl _ _ Hlen) Hi Hop) as H1.
      destruct (content_items_ok _ _ _ _ Hrec Hi Hc) as [Hok _]. rewrite <- (take_drop (S (rn_index run - 1)) (sg_items s)) in Hok.
      apply items_ok_app in Hok as [Hok _].
      assert (Hin : (item_ops (sg_data s) 0 (take (S (rn_index run - 1)) (sg_items s))) ≠ []).
      { intros En. apply (f_equal length) in En. rewrite item_ops_length, length_take in En. change (@length (Z * TermOp) []) with 0 in En. apply lookup_lt_Some in Hit. lia. }
      destruct (item_ops (sg_data s) 0 _) as [|op' ops] eqn:Eo; [done|].
      pose proof (items_ok_times _ _ _ _ (sg_data s) op' Hok ltac:(rewrite Eo; by left)) as H2.
      rewrite (last_time_take _ _ _ _ Hit) in H2. lia.
    + replace (rn_index run) with (S (rn_index run - 1)) in Hop by lia. rewrite segment_ops_take in Hop.
      destruct (content_items_ok _ _ _ _ Hrec Hi Hc) as [Hok _]. rewrite <- (take_drop (S (rn_index run - 1)) (sg_items s)) in Hok.
      apply items_ok_app in Hok as [Hok _]. apply (items_ok_times _ _ _ _ _ _ Hok) in Hop. rewrite (last_time_take _ _ _ _ Hit) in Hop. lia.
  - assert (passed = []) as -> by (destruct passed; [done|cbn in Hidx; lia]). cbn in Hidx. rewrite Nat.add_0_r in Hidx.
    split; [|exact Hb]. exists contents. rewrite Hidx. rewrite Hidx in Hshown. done.
Qed.

Lemma drawn_run_LoopInv failed info targetMs s viewport p :
  recording_ok → segments !! rp_segment p = Some info → rp_cache p !! rp_segment p = Some s → LoopInv failed targetMs p →
  let run := draw_segment targetMs s (rp_entry p) (rp_terminal p) viewport in
  let p' := drawn_run targetMs s viewport p in
  (rn_waiting run = true → (0 < t_pending (rp_terminal p'))%N ∧ rn_index run < length (sg_items s))
  ∧ (rn_index run < length (sg_items s) → LoopInv failed targetMs p' ∧ (rn_waiting run = false → caught_up targetMs p'))
  ∧ (length (sg_items s) <= rn_index run → LoopInv failed targetMs (evict (set_position (S (rp_segment p)) 0 (rp_drawnAtMs p') p'))).
Proof.
  intros Hrec Hi Hs (Hca & Hd & Hb) run p'. destruct Hca as [H1 H2 H3 H4]. destruct (H1 _ _ Hs) as [Hc _].
  assert (Hle : rp_entry p <= length (sg_items s)).
  { destruct (decide (rp_entry p = 0)) as [->|Hne]; [lia|]. destruct (H4 Hne) as (s' & Hs' & ?). simplify_eq. lia. }
  unfold drawn, current_ops in Hd. rewrite Hs in Hd.
  destruct (drawn_run_within failed info targetMs s viewport p Hrec Hi Hc Hle Hd Hb) as [(contents & Hlen & Hcs & Hsh & Hw) Hb'].
  destruct (draw_segment_spec failed info targetMs s (rp_entry p) (rp_terminal p) viewport _ Hrec Hi Hc Hle)
    as (passed & rest & E & Hidx & _ & _ & _ & Hwait). fold run in Hidx, Hwait. fold p' in Hsh, Hw, Hb'.
  assert (Hrest : length (sg_items s) = rn_index run + length rest).
  { apply (f_equal length) in E. rewrite length_drop, length_app in E. lia. }
  split_and!.
  - intros Ew. rewrite Ew in Hwait. destruct Hwait as [Hp Hne]. split; [exact Hp|]. destruct rest; [done|cbn in Hrest; lia].
  - intros Hlt. split.
    + split; [|split; [|exact Hb']].
      * split; [exact H1|exact H2|exact H3|]. intros _. by exists s.
      * exists contents. unfold current_ops. change (rp_cache p') with (rp_cache p). change (rp_segment p') with (rp_segment p). rewrite Hs. done.
    + intros Ew. rewrite Ew in Hwait. intros ? _. right. destruct rest as [|i rest]; [cbn in Hrest; lia|]. exists s, i.
      split; [exact Hs|]. split; [|by apply Hwait]. change (rp_entry p') with (rn_index run). rewrite Hidx, <- lookup_drop, E.
      rewrite lookup_app_r by lia. by rewrite Nat.sub_diag.
  - intros Hge. assert (Hx : rn_index run = length (sg_items s)) by lia.
    assert (Hn : rp_segment p < length segments) by by eapply lookup_lt_Some.
    split; [|split; [|exact Hb']].
    + by apply evict_Cached.
    + exists (contents ++ [s]). rewrite length_app, Hlen. cbn [length]. split_and!; [cbn; lia| | |].
      * intros j s' [Hj|[Hjl Hj]]%lookup_app_Some; [by apply Hcs|]. apply list_lookup_singleton_Some in Hj as [Hj <-].
        by replace j with (rp_segment p) by lia.
      * change (rp_terminal (evict _)) with (rp_terminal p').
        rewrite current_ops_0, app_nil_r, bind_app by done. cbn [mbind list_bind]. rewrite app_nil_r.
        rewrite Hsh. change (rp_entry p') with (rn_index run). rewrite Hx, take_ge; [done|]. unfold segment_ops. by rewrite item_ops_length.
      * change (rp_drawnAtMs (evict _)) with (rp_drawnAtMs p').
        rewrite current_ops_0, app_nil_r, bind_app by done. cbn [mbind list_bind]. rewrite app_nil_r.
        change (rp_entry p') with (rn_index run) in Hw. rewrite Hx, take_ge in Hw; [done|]. unfold segment_ops. by rewrite item_ops_length.
Qed.

Lemma Cached_ext failed p p' :
  rp_cache p' = rp_cache p → rp_loading p' = rp_loading p → rp_segment p' = rp_segment p → rp_entry p' = rp_entry p →
  Cached failed p → Cached failed p'.
Proof.
  intros E1 E2 E3 E4 [H1 H2 H3 H4]. split; rewrite ?E1, ?E2, ?E3, ?E4; try done.
  intros i s Hi. destruct (H1 i s Hi). split; [done|]. unfold isWanted in *. by rewrite E3.
Qed.
Lemma advance_loop_spec failed fuel targetMs viewport p p' viewport' caughtUp :
  recording_ok → rp_disposed p = false → LoopInv failed targetMs p →
  advance_loop fuel targetMs viewport p = Some (p', viewport', caughtUp) →
  LoopInv failed targetMs p' ∧ rp_disposed p' = false ∧ rp_restartPoint p' = rp_restartPoint p
  ∧ (if caughtUp then caught_up targetMs p' else stalled p').
Proof.
  intros Hrec. revert viewport p. induction fuel as [|fuel IH]; intros viewport p Hd Hinv; cbn [advance_loop]; [done|].
  destruct (N.ltb_spec REPLAY_PENDING_LIMIT_BYTES (t_pending (rp_terminal p))) as [Hl|Hl].
  { intros [= <- <- <-]. split_and!; [done..|]. left. lia. }
  destruct (segments !! rp_segment p) as [info|] eqn:Hi.
  2:{ intros [= <- <- <-]. split_and!; [done..|]. intros info Hi'. congruence. }
  destruct ((rp_entry p =? 0) && (targetMs <? si_startAtMs info)%Z) eqn:Es.
  { intros [= <- <- <-]. apply andb_true_iff in Es as [E1%Nat.eqb_eq E2%Z.ltb_lt]. split_and!; [done..|].
    intros info' Hi'. simplify_eq. by left. }
  assert (Hn : rp_segment p < length segments) by by eapply lookup_lt_Some.
  destruct (rp_cache p !! rp_segment p) as [s|] eqn:Hs.
  2:{ intros [= <- <- <-]. destruct (requests_spec [rp_segment p] p Hd) as [Hsame Hload]. cbn [foldl] in Hsame, Hload.
      pose proof Hsame as (E1 & E2 & E3 & E4 & E5 & E6 & E7). destruct Hinv as (Hc & Hdr & Hb). split_and!; [|congruence|done|].
      - split_and!; [by eapply requests_Cached| |by eapply behind_same].
        unfold drawn, current_ops in *. by rewrite E1, E2, E3, E4, E7.
      - right. rewrite E2. split; [done|]. apply Hload. right. split_and!; [by left|done|done]. }
  destruct (drawn_run_LoopInv failed info targetMs s viewport p Hrec Hi Hs Hinv) as (Hw & Hlt & Hge).
  fold (drawn_run targetMs s viewport p). set (run := draw_segment _ _ _ _ _) in *. set (p1 := drawn_run _ _ _ _) in *.
  destruct (rn_waiting run) eqn:Ew.
  { intros [= <- <- <-]. destruct (Hw eq_refl) as [Hp Hidx]. destruct (Hlt Hidx) as [(Hc & Hdr & Hb) _].
    split_and!; [|done|done|by left]. split; [by eapply Cached_ext, Hc|done]. }
  destruct (Nat.ltb_spec (rn_index run) (length (sg_items s))) as [Hx|Hx].
  { intros [= <- <- <-]. destruct (Hlt Hx) as [Hinv' Hcu]. split_and!; [done|done|done|]. by apply Hcu. }
  intros Hrun. apply IH in Hrun; [exact Hrun|exact Hd|]. by apply Hge.
Qed.
(** The fuel of [advance] is enough. *)
Lemma advance_loop_total fuel targetMs viewport p :
  length segments - rp_segment p < fuel → is_Some (advance_loop fuel targetMs viewport p).
Proof.
  revert viewport p. induction fuel as [|fuel IH]; intros viewport p Hf; [lia|]. cbn [advance_loop].
  destruct (_ <? _)%N; [by eexists|]. destruct (segments !! rp_segment p) as [info|] eqn:Hi; [|by eexists].
  destruct (_ && _); [by eexists|]. destruct (rp_cache p !! rp_segment p) as [s|]; [|by eexists].
  cbv zeta. destruct (rn_waiting _); [by eexists|]. destruct (_ <? _); [by eexists|].
  apply IH. cbn. apply lookup_lt_Some in Hi. lia.
Qed.
Lemma advance_total targetMs p : is_Some (advance targetMs p).
Proof.
  unfold advance. destruct (rp_disposed p); [by eexists|]. destruct (advance_restart targetMs p) as [p1|p1]; [by eexists|].
  destruct (advance_loop_total (advance_fuel p1) targetMs None p1) as [[[p2 viewport] caughtUp] ->]; [unfold advance_fuel; lia|]. by eexists.
Qed.

Lemma restart_drawn failed point p :
  t_pending (rp_terminal p) = 0%N → rp_restartPoint p = Some point → restart_due failed p → drawn failed (set_restartPoint None (restart point p)).
Proof.
  intros Hp Hr Hd. unfold restart_due in Hd. rewrite Hr in Hd. destruct point as [|s].
  - destruct Hd as (Hseg & He & _). exists []. cbn [restart set_restartPoint set_terminal rp_terminal rp_segment rp_drawnAtMs length mbind list_bind app].
    rewrite current_ops_0 by done. split_and!; [done|done| |by intros ? []%elem_of_nil].
    by apply shown_reset.
  - destruct Hd as ((_ & contents & Hl & Hc & Hsh & Hw) & Hseg & He & Ht). exists contents.
    rewrite current_ops_0, app_nil_r by done.
    cbn [restart set_restartPoint onViewport set_terminal rp_terminal rp_segment rp_drawnAtMs]. rewrite Hseg, Ht.
    split_and!; [done|done| |done]. rewrite shown_write_text, shown_reset_resize by done. done.
Qed.
Lemma advance_restart_inv failed goal targetMs p :
  rp_disposed p = false → PlayerInv failed goal p → (goal <= targetMs)%Z →
  match advance_restart targetMs p with
  | inl p' => PlayerInv failed targetMs p' ∧ rp_disposed p' = false ∧ stalled p'
  | inr p' => LoopInv failed targetMs p' ∧ rp_disposed p' = false ∧ rp_restartPoint p' = None
  end.
Proof.
  intros Hd Hinv Hg.
  assert (Hinv' : PlayerInv failed targetMs p).
  { destruct Hinv as [H1 H2 H3 H4]. split; [done..|]. intros d E. specialize (H4 d E). lia. }
  clear Hinv. pose proof Hinv' as [H1 H2 H3 H4]. unfold advance_restart. destruct (rp_restartPoint p) as [point|] eqn:Er.
  2:{ split_and!; [|done|done]. unfold restart_due in H3. by rewrite Er in H3. }
  destruct (N.ltb_spec 0 (t_pending (rp_terminal p))) as [Hp|Hp]; [split_and!; [done|done|by left]|].
  assert (Hloop : LoopInv failed targetMs (set_restartPoint None (restart point p))
                  ∧ rp_disposed (set_restartPoint None (restart point p)) = false ∧ rp_restartPoint (set_restartPoint None (restart point p)) = None).
  { split_and!; [|by destruct point|done]. split_and!; [by destruct point; eapply Cached_ext, H1|apply restart_drawn; [lia|done..]|by destruct point]. }
  destruct (segments !! rp_segment p) as [first|] eqn:Hi; [|exact Hloop].
  destruct (_ <=? _)%Z; [|exact Hloop]. case_bool_decide as Hc; [|exact Hloop]. cbn [andb].
  assert (Hn : rp_segment p < length segments) by by eapply lookup_lt_Some.
  destruct (request_frame (rp_segment p) p) as (_ & Es & _ & _ & _ & Ed & _). split_and!; [by apply request_inv|congruence|].
  right. rewrite Es. split; [done|]. apply request_loading; [done|]. by right.
Qed.
Lemma onViewport_LoopInv failed goal viewport p : LoopInv failed goal p → LoopInv failed goal (onViewport viewport p).
Proof. intros (Hc & ? & ?). split; [by eapply Cached_ext, Hc|done]. Qed.
Lemma caught_up_same targetMs p p' : same_but_loading p p' → caught_up targetMs p → caught_up targetMs p'.
Proof. intros (E1 & E2 & E3 & _). unfold caught_up. by rewrite E1, E2, E3. Qed.
Lemma drawn_same failed p p' : same_but_loading p p' → drawn failed p → drawn failed p'.
Proof. intros (E1 & E2 & E3 & E4 & _ & _ & E7). unfold drawn, current_ops. by rewrite E1, E2, E3, E4, E7. Qed.
Lemma advance_inv failed goal targetMs p p' caughtUp :
  recording_ok → rp_disposed p = false → PlayerInv failed goal p → (goal <= targetMs)%Z → advance targetMs p = Some (p', caughtUp) →
  PlayerInv failed targetMs p' ∧ rp_disposed p' = false
  ∧ (if caughtUp then drawn failed p' ∧ caught_up targetMs p' else stalled p').
Proof.
  intros Hrec Hd Hinv Hg. unfold advance. rewrite Hd. pose proof (advance_restart_inv failed goal targetMs p Hd Hinv Hg) as Hr.
  destruct (advance_restart targetMs p) as [p1|p1]; [by intros [= <- <-]|]. destruct Hr as (Hl & Hd1 & Hr1).
  destruct (advance_loop _ _ _ p1) as [[[p2 viewport] caughtUp2]|] eqn:E; [|done]. intros [= <- <-].
  destruct (advance_loop_spec _ _ _ _ _ _ _ _ Hrec Hd1 Hl E) as (Hl2 & Hd2 & Hr2 & Hc2).
  pose proof (onViewport_LoopInv _ _ viewport _ Hl2) as (Hc & Hdr & Hb).
  assert (Hd3 : rp_disposed (onViewport viewport p2) = false) by done.
  pose proof (prefetch_same _ Hd3) as Hsame. split_and!.
  - apply prefetch_inv; try done. unfold restart_due. cbn [rp_restartPoint onViewport]. by rewrite Hr2, Hr1.
  - by destruct Hsame as (_ & _ & _ & _ & _ & -> & _).
  - destruct caughtUp2.
    + split; [by eapply drawn_same|by eapply caught_up_same].
    + destruct Hc2 as [Hp|[Hlt Hin]]; [left; by destruct Hsame as (_ & _ & _ & _ & _ & _ & ->)|right].
      pose proof Hsame as (_ & E2 & _). rewrite E2. split; [done|].
      destruct (requests_spec (seq (rp_segment p2) (S PREFETCH_SEGMENTS)) (onViewport viewport p2) Hd3) as [_ Hload]. apply Hload. by left.
Qed.

(** *** The screen of a player that has caught up *)

(** Of the segment at the position, what comes after the position is later. *)
Lemma current_later failed targetMs info s p op :
  recording_ok → segments !! rp_segment p = Some info → content_of failed (rp_segment p) s →
  (rp_entry p = 0 ∧ (targetMs < si_startAtMs info)%Z) ∨ (∃ i, sg_items s !! rp_entry p = Some i ∧ (targetMs < it_atMs i)%Z) →
  (op ∈ drop (rp_entry p) (segment_ops s) → (targetMs < op.1)%Z) ∧ (targetMs < si_endAtMs info)%Z.
Proof.
  intros Hrec Hi Hc Hcu. destruct (content_items_ok _ _ _ _ Hrec Hi Hc) as [Hok Hb]. pose proof Hrec as (_ & [clock Ht] & _).
  destruct Hcu as [[-> Hlt]|(i & Hit & Hlt)].
  - pose proof (table_ok_le _ _ _ _ Ht Hi). split; [|lia]. intros Hop. specialize (Hb _ Hop). lia.
  - pose proof (lookup_lt_Some _ _ _ Hit) as Hle. destruct (segment_ops_cut s (rp_entry p) ltac:(lia)) as [Hcut _].
    rewrite <- (take_drop (rp_entry p) (sg_items s)) in Hok. apply items_ok_app in Hok as [_ Hok].
    assert (Hdrop : drop (rp_entry p) (segment_ops s) = item_ops (sg_data s) (end_before (sg_items s) (rp_entry p)) (drop (rp_entry p) (sg_items s))).
    { rewrite Hcut at 1. rewrite drop_app_length'; [done|]. rewrite length_take_le; [done|]. unfold segment_ops. rewrite item_ops_length. lia. }
    rewrite Hdrop. rewrite (drop_S _ _ _ Hit) in *. destruct Hok as (_ & _ & _ & Hok). split.
    + intros [->|Hop]%elem_of_cons; [cbn; lia|]. apply (items_ok_times _ _ _ _ _ _ Hok) in Hop. lia.
    + assert (Hin : (it_atMs i, _) ∈ segment_ops s) by (rewrite Hcut; apply elem_of_app; right; by left). specialize (Hb _ Hin). cbn in Hb. lia.
Qed.
Lemma caught_up_screen failed targetMs p :
  recording_ok → Cached failed p → drawn failed p → behind targetMs p → caught_up targetMs p →
  ∃ contents, length contents = length recording ∧ contents_of failed contents ∧ t_shown (rp_terminal p) = screen_at targetMs contents.
Proof.
  intros Hrec [H1 H2 H3 H4] (contents & Hlen & Hcs & Hsh & Hw) Hb Hcu. pose proof Hrec as (Hl & [clock Ht] & Hok).
  assert (Hpast : ∀ ops, within (rp_drawnAtMs p) ops → List.filter (λ op, (op.1 <=? targetMs)%Z) ops = ops).
  { intros ops Ho. apply filter_all. intros op Hop%Ho. destruct Hop as (d & Hd & Hle). specialize (Hb d Hd). apply Z.leb_le. lia. }
  unfold screen_at. destruct (segments !! rp_segment p) as [info|] eqn:Hi.
  - pose proof (lookup_lt_Some _ _ _ Hi) as Hlt. destruct (lookup_lt_is_Some_2 recording (rp_segment p)) as [s0 Hs0]; [lia|].
    set (s := default s0 (rp_cache p !! rp_segment p)).
    assert (Hc : content_of failed (rp_segment p) s).
    { unfold s. destruct (_ !! _) eqn:E; [by apply H1|by left]. }
    assert (Hcur : current_ops p = take (rp_entry p) (segment_ops s)).
    { unfold current_ops, s. destruct (_ !! _) eqn:E; [done|]. destruct (decide (rp_entry p = 0)) as [->|Hne]; [done|].
      destruct (H4 Hne) as (? & ? & _). congruence. }
    exists (contents ++ s :: drop (S (rp_segment p)) recording). split_and!.
    + rewrite length_app. cbn. rewrite length_drop. lia.
    + intros j x [Hj|[Hjl Hj]]%lookup_app_Some; [by apply Hcs|]. rewrite Hlen in Hj, Hjl.
      destruct (j - rp_segment p) as [|k] eqn:Ek; rewrite lookup_cons in Hj; cbv iota in Hj.
      * injection Hj as <-. by replace j with (rp_segment p) by lia.
      * left. rewrite lookup_drop in Hj. rewrite <- Hj. f_equal. lia.
    + rewrite Hsh, Hcur. f_equal. rewrite bind_app, bind_cons, List.filter_app.
      rewrite <- (take_drop (rp_entry p) (segment_ops s)) at 2. rewrite !List.filter_app.
      rewrite Hcur in Hw. rewrite (Hpast (_ ≫= _)) by (intros op Hop; apply Hw, elem_of_app; by left).
      rewrite (Hpast (take _ _)) by (intros op Hop; apply Hw, elem_of_app; by right).
      assert (Hcu' := Hcu _ Hi).
      assert (Hlater : ∀ op, (op ∈ drop (rp_entry p) (segment_ops s) → (targetMs < op.1)%Z) ∧ (targetMs < si_endAtMs info)%Z).
      { intros op. eapply current_later; [done..|]. destruct Hcu' as [?|(s' & i & Hs' & Hit & Hlt')]; [by left|right].
        exists i. unfold s. rewrite Hs'. done. }
      rewrite (filter_none _ (drop _ _)) by (intros op Hop; apply Z.leb_gt; by apply Hlater).
      rewrite (filter_none _ (drop _ _ ≫= _)); [by rewrite !app_nil_r|].
      intros op (j & x & Hj & Hop)%elem_of_contents. rewrite lookup_drop in Hj.
      destruct (lookup_lt_is_Some_2 segments (S (rp_segment p) + j)) as [info' Hi']; [apply lookup_lt_Some in Hj; lia|].
      destruct (content_items_ok failed _ _ _ Hrec Hi' (or_introl Hj)) as [_ Hbx]. specialize (Hbx _ Hop).
      pose proof (table_ok_later _ _ _ _ _ _ Ht Hi Hi' ltac:(lia)). destruct (Hlater op) as [_ He]. apply Z.leb_gt. lia.
  - apply lookup_ge_None in Hi. exists contents. split_and!; [lia|done|]. rewrite Hsh.
    assert (Hcur : current_ops p = []).
    { unfold current_ops. destruct (_ !! _) as [s|] eqn:E; [|done]. destruct (H1 _ _ E) as [[Hr|(_ & Hr & _)] _]; [apply lookup_lt_Some in Hr|]; lia. }
    rewrite Hcur, app_nil_r in *. f_equal. symmetry. by apply Hpast.
Qed.

(** *** Every event keeps the invariant *)

Lemma whenReady_inv failed goal p : rp_disposed p = false → PlayerInv failed goal p → PlayerInv failed goal (whenReady p).
Proof. intros Hd Hi. unfold whenReady. destruct (_ || _); [done|]. by apply request_inv. Qed.
Lemma whenReady_frame p : rp_disposed (whenReady p) = rp_disposed p ∧ rp_cache (whenReady p) = rp_cache p.
Proof.
  unfold whenReady. destruct (_ || _); [done|]. by destruct (request_frame (rp_segment p) p) as (-> & _ & _ & _ & _ & -> & _).
Qed.
Lemma requests_disposed (l : list nat) p : rp_disposed (foldl (λ p i, request i p) p l) = rp_disposed p.
Proof.
  revert p. induction l as [|i l IH]; intros p; cbn; [done|]. rewrite IH. by destruct (request_frame i p) as (_ & _ & _ & _ & _ & -> & _).
Qed.
Lemma seek_disposed st t p : rp_disposed (seek st t p) = rp_disposed p.
Proof.
  unfold seek, scheduleRestart, prefetch. destruct (rp_disposed p) eqn:E; [done|]. repeat case_match; rewrite ?requests_disposed; done.
Qed.
Lemma step_inv w w' :
  recording_ok → rs_totalChars (w_store w) = total (rs_snapshots (w_store w)) → WorldInv w → step w w' → WorldInv w'.
Proof.
  intros Hrec Ht (Hst & Hdis & Hinv) Hstep. pose proof Hrec as (Hlen & _).
  assert (Hgo : ∀ p st goal failed, w_failed w ⊆ failed →
    (∀ s, s ∈ rs_snapshots st → snapshot_ok failed s) → rp_disposed p = rp_disposed (w_player w) →
    (rp_disposed p = true → rp_cache p = ∅) → (rp_disposed (w_player w) = false → PlayerInv (w_failed w) (w_goal w) (w_player w) → PlayerInv failed goal p) →
    WorldInv {| w_player := p; w_store := st; w_goal := goal; w_failed := failed |}).
  { intros p st goal failed Hf Hs Hd Hc Hp. split_and!; cbn; [done|done|]. rewrite Hd. auto. }
  assert (Hmono : ∀ failed, w_failed w ⊆ failed → ∀ s, s ∈ rs_snapshots (w_store w) → snapshot_ok failed s) by eauto using snapshot_ok_mono.
  destruct Hstep as [i s Hi Hs|i Hi|i|s Hs|n| | |t|t p b Hg Ha|].
  - apply Hgo; auto.
    + unfold load_settled. by destruct (_ && _).
    + unfold load_settled. cbn [rp_disposed set_loading]. destruct (rp_disposed (w_player w)) eqn:E; cbn [negb andb]; [auto|].
      destruct (isWanted _ _); cbn [rp_disposed set_loading set_cache]; congruence.
    + intros Hd Hp. apply load_settled_inv; [done..|by left].
  - apply Hgo; [set_solver|apply Hmono; set_solver| | |].
    + unfold load_settled. by destruct (_ && _).
    + unfold load_settled. cbn [rp_disposed set_loading]. destruct (rp_disposed (w_player w)) eqn:E; cbn [negb andb]; [auto|].
      destruct (isWanted _ _); cbn [rp_disposed set_loading set_cache]; congruence.
    + intros Hd Hp. apply load_settled_inv; [done|by eapply PlayerInv_mono, Hp; set_solver|done|]. right.
      destruct Hp as [[_ H2 _ _] _ _ _]. destruct (H2 _ Hi). split_and!; [set_solver|lia|done].
  - apply Hgo; [set_solver|apply Hmono; set_solver|done|done|]. intros _ Hp. by eapply PlayerInv_mono, Hp; set_solver.
  - apply Hgo; [done| |done|done|done]. intros s' Hs'. destruct (add_spec s (w_store w) Ht) as [Hsub _].
    eapply elem_of_submseteq in Hs'; [|by apply sublist_submseteq]. apply elem_of_app in Hs' as [Hs'| ->%list_elem_of_singleton]; auto.
  - apply Hgo; auto. intros _ Hp. apply terminal_inv; [apply shown_draw|done].
  - apply Hgo; auto. intros _ [H1 H2 H3 H4]. split; [by eapply Cached_ext, H1|done..].
  - destruct (whenReady_frame (w_player w)) as [Hd Hc]. apply Hgo; auto; [by rewrite Hd, Hc|]. intros Hd' Hp. by apply whenReady_inv.
  - apply Hgo; auto; [apply seek_disposed| |].
    + rewrite seek_disposed. intros Hd. unfold seek. rewrite Hd. auto.
    + intros Hd Hp. by eapply seek_inv.
  - destruct (rp_disposed (w_player w)) eqn:E.
    + unfold advance in Ha. rewrite E in Ha. injection Ha as <- <-. apply Hgo; auto. intros Hd. congruence.
    + destruct (advance_inv _ _ _ _ _ _ Hrec E (Hinv eq_refl) Hg Ha) as (Hp & Hd & _). split_and!; cbn; [done|congruence|done].
  - split_and!; cbn; [done|done|done].
Qed.

(** ** What the terminal shows *)

Definition reachable terminal budgetChars spacingBytes w : Prop := rtc step (start_world terminal budgetChars spacingBytes) w.
Definition store_ok (st : ReplaySnapshotStore) : Prop :=
  rs_totalChars st = total (rs_snapshots st) ∧ (rs_totalChars st <= rs_budgetChars st)%N.

Lemma start_inv terminal budgetChars spacingBytes : WorldInv (start_world terminal budgetChars spacingBytes).
Proof.
  assert (Hd : rp_disposed (new_player terminal) = false) by (unfold new_player, prefetch; by rewrite requests_disposed).
  split_and!; cbn [start_world w_player w_store w_failed w_goal].
  - intros s []%elem_of_nil.
  - by rewrite Hd.
  - intros _. apply prefetch_inv; [done| |by repeat split|done].
    split; cbn [rp_cache rp_loading rp_segment rp_entry]; [by intros i s ?%lookup_empty_Some|set_solver|lia|done].
Qed.
Lemma step_store w w' : store_ok (w_store w) → step w w' → store_ok (w_store w') ∧ rs_budgetChars (w_store w') = rs_budgetChars (w_store w).
Proof.
  intros Hst Hstep. destruct Hstep as [| | |s Hs| | | | | |]; cbn; try done.
  destruct Hst as [Ht _]. destruct (add_spec s (w_store w) Ht) as (_ & H2 & H3 & H4 & _). by repeat split.
Qed.
Lemma steps_inv w w' :
  recording_ok → rtc step w w' → WorldInv w → store_ok (w_store w) →
  WorldInv w' ∧ store_ok (w_store w') ∧ rs_budgetChars (w_store w') = rs_budgetChars (w_store w).
Proof.
  intros Hrec. induction 1 as [w|w1 w2 w3 Hs _ IH]; intros Hinv Hst; [done|].
  destruct (step_store _ _ Hst Hs) as [Hst2 <-]. apply IH; [|done]. eapply step_inv; [done| |done..]. apply Hst.
Qed.
Lemma replay_reachable_inv terminal budgetChars spacingBytes w :
  recording_ok → reachable terminal budgetChars spacingBytes w →
  WorldInv w ∧ store_ok (w_store w) ∧ rs_budgetChars (w_store w) = budgetChars.
Proof.
  intros Hrec Hr. destruct (steps_inv _ _ Hrec Hr) as (H1 & H2 & H3); [apply start_inv| |done].
  split; [done|cbn; lia].
Qed.

Lemma shows_recording terminal budgetChars spacingBytes w t :
  recording_ok → reachable terminal budgetChars spacingBytes w → rp_disposed (w_player w) = false → (w_goal w <= t)%Z →
  ∃ p caughtUp, advance t (w_player w) = Some (p, caughtUp) ∧
    if caughtUp
    then (∃ contents, length contents = length recording ∧ contents_of (w_failed w) contents
            ∧ t_shown (rp_terminal p) = screen_at t contents)
         ∧ (w_failed w = ∅ → t_shown (rp_terminal p) = screen_at t recording)
    else stalled p.
Proof.
  intros Hrec Hr Hd Hg. destruct (replay_reachable_inv _ _ _ _ Hrec Hr) as ((_ & _ & Hinv) & _).
  destruct (advance_total t (w_player w)) as [[p b] Ha]. exists p, b. split; [done|].
  destruct (advance_inv _ _ _ _ _ _ Hrec Hd (Hinv Hd) Hg Ha) as (Hp & _ & Hres). destruct b; [|done]. destruct Hres as [Hdr Hcu].
  destruct (caught_up_screen _ _ _ Hrec (pi_cached _ _ _ Hp) Hdr (pi_behind _ _ _ Hp) Hcu) as (contents & Hl & Hc & Hs).
  split; [by exists contents|]. intros Hf. rewrite Hs. f_equal. apply list_eq_same_length with (length recording); [done|done|].
  intros i x y _ Hx Hy. destruct (Hc _ _ Hx) as [?|(Hin & _)]; [congruence|]. rewrite Hf in Hin. set_solver.
Qed.

(** C18: However segments arrive, fail to arrive, are evicted, or are sought in, and whenever the
    terminal draws: once the player says that it has caught up with a time, the terminal
    shows - as soon as it has drawn what it was given - exactly the screen of the recording
    at that time, made of every segment that could be read.  As long as it has not caught up,
    it waits for the terminal or for a segment that is being fetched. *)
Theorem replay_shows_recording terminal budgetChars spacingBytes w t :
  recording_ok → reachable terminal budgetChars spacingBytes w → rp_disposed (w_player w) = false → (w_goal w <= t)%Z →
  ∃ p caughtUp, advance t (w_player w) = Some (p, caughtUp) ∧
    if caughtUp
    then (∃ contents, length contents = length recording ∧ contents_of (w_failed w) contents
            ∧ t_shown (rp_terminal p) = screen_at t contents)
         ∧ (w_failed w = ∅ → t_shown (rp_terminal p) = screen_at t recording)
    else stalled p.
Proof. apply shows_recording. Qed.

(** C20: The player holds at most five segments, all around the position, and only ever asks for
    segments of the recording that it does not hold; the saved screens stay within their
    budget: adding one only drops others, in order, and none while all fit. *)
Theorem replay_memory_bounded terminal budgetChars spacingBytes w :
  recording_ok → reachable terminal budgetChars spacingBytes w →
  size (rp_cache (w_player w)) <= KEEP_BEHIND_SEGMENTS + 1 + PREFETCH_SEGMENTS
  ∧ (rp_disposed (w_player w) = false → ∀ i, i ∈ rp_loading (w_player w) → i < length recording ∧ rp_cache (w_player w) !! i = None)
  ∧ (total (rs_snapshots (w_store w)) <= budgetChars)%N
  ∧ ∀ s, let st := add s (w_store w) in
      rs_snapshots st `sublist_of` rs_snapshots (w_store w) ++ [s]
      ∧ (total (rs_snapshots (w_store w)) + chars s <= budgetChars → rs_snapshots st = rs_snapshots (w_store w) ++ [s])%N.
Proof.
  intros Hrec Hr. destruct (replay_reachable_inv _ _ _ _ Hrec Hr) as ((_ & Hdis & Hinv) & [Ht Hle] & Hb). pose proof Hrec as (Hlen & _).
  split_and!.
  - destruct (rp_disposed (w_player w)) eqn:Hd; [rewrite Hdis, map_size_empty by done; lia|].
    destruct (Hinv eq_refl) as [[H1 _ _ _] _ _ _]. rewrite <- size_dom.
    assert (Hsub : dom (rp_cache (w_player w)) ⊆@{gset nat} list_to_set (seq (rp_segment (w_player w) - KEEP_BEHIND_SEGMENTS) 5)).
    { intros i [s Hi]%elem_of_dom. destruct (H1 _ _ Hi) as [_ Hw]. unfold isWanted in Hw.
      apply andb_true_iff in Hw as [Hw1%Nat.leb_le Hw2%Nat.leb_le]. unfold KEEP_BEHIND_SEGMENTS, PREFETCH_SEGMENTS in *.
      apply elem_of_list_to_set, elem_of_seq. lia. }
    apply subseteq_size in Hsub. etrans; [exact Hsub|]. rewrite size_list_to_set by apply NoDup_seq. by rewrite length_seq.
  - intros Hd i Hi. rewrite Hlen. destruct (Hinv Hd) as [[_ H2 _ _] _ _ _]. by apply H2.
  - rewrite <- Ht, <- Hb. done.
  - intros s. destruct (add_spec s (w_store w) Ht) as (H1 & _ & _ & _ & H5 & _). split; [done|]. by rewrite <- Hb.
Qed.

(** ** It gets there *)

(** Everything being fetched arrives: read, or not. *)
Definition settle_loads (reads : nat → option SessionReplaySegment) p : ReplayPlayer :=
  foldl (λ p i, load_settled i (reads i) p) p (elements (rp_loading p)).
(** The terminal draws, what is being fetched arrives, the window calls again. *)
Definition round reads targetMs p : option (ReplayPlayer * bool) :=
  advance targetMs (settle_loads reads (set_terminal (t_draw (t_pending (rp_terminal p)) (rp_terminal p)) p)).
Fixpoint rounds reads targetMs (n : nat) p : option (ReplayPlayer * bool) :=
  match n with
  | O => Some (p, false)
  | S n => '(p, caughtUp) ← round reads targetMs p; if caughtUp : bool then Some (p, true) else rounds reads targetMs n p
  end.

(** What is left to draw. *)
Definition weight (l : list SessionReplaySegment) : nat := foldr (λ s n, S (length (sg_items s)) + n) 0 l.
Definition left_at (segment entry : nat) : nat := weight (drop segment recording) - entry.
Definition left p : nat := left_at (rp_segment p) (rp_entry p) + (if rp_restartPoint p then 1 else 0).
Definition everything : gset nat := list_to_set (seq 0 (length recording)).

Lemma left_at_in segment r a b : recording !! segment = Some r → a <= b <= length (sg_items r) → left_at segment b + (b - a) = left_at segment a.
Proof. intros Hr Hle. unfold left_at. rewrite (drop_S _ _ _ Hr). cbn [weight foldr]. lia. Qed.
Lemma left_at_next segment r a : recording !! segment = Some r → a <= length (sg_items r) → left_at (S segment) 0 < left_at segment a.
Proof. intros Hr Hle. unfold left_at. rewrite (drop_S _ _ _ Hr). cbn [weight foldr]. unfold weight. lia. Qed.

(** The loop draws, or has nothing to draw, or cannot. *)
Lemma advance_loop_left failed fuel targetMs viewport p p' viewport' caughtUp :
  recording_ok → rp_disposed p = false → LoopInv failed targetMs p →
  advance_loop fuel targetMs viewport p = Some (p', viewport', caughtUp) →
  left_at (rp_segment p') (rp_entry p') <= left_at (rp_segment p) (rp_entry p)
  ∧ (t_pending (rp_terminal p) = 0%N → (rp_segment p < length segments → is_Some (rp_cache p !! rp_segment p)) → caughtUp = false →
     left_at (rp_segment p') (rp_entry p') < left_at (rp_segment p) (rp_entry p)).
Proof.
  intros Hrec. revert viewport p. induction fuel as [|fuel IH]; intros viewport p Hd Hinv; cbn [advance_loop]; [done|].
  destruct (N.ltb_spec REPLAY_PENDING_LIMIT_BYTES (t_pending (rp_terminal p))) as [Hl|Hl].
  { intros [= <- <- <-]. split; [done|lia]. }
  destruct (segments !! rp_segment p) as [info|] eqn:Hi; [|by intros [= <- <- <-]].
  destruct (_ && _); [by intros [= <- <- <-]|].
  assert (Hn : rp_segment p < length segments) by by eapply lookup_lt_Some.
  destruct (rp_cache p !! rp_segment p) as [s|] eqn:Hs.
  2:{ intros [= <- <- <-]. destruct (request_frame (rp_segment p) p) as (_ & -> & -> & _). split; [done|].
      intros _ Hc _. by destruct (Hc Hn). }
  destruct (drawn_run_LoopInv failed info targetMs s viewport p Hrec Hi Hs Hinv) as (_ & Hlt & Hge).
  destruct Hinv as ([H1 _ _ H4] & Hdr & Hb). destruct (H1 _ _ Hs) as [Hc _].
  assert (Hle : rp_entry p <= length (sg_items s) ∧ (sg_items s ≠ [] → rp_entry p < length (sg_items s))).
  { destruct (decide (rp_entry p = 0)) as [->|Hne].
    - split; [lia|]. intros Hne. destruct (sg_items s); [done|cbn; lia].
    - destruct (H4 Hne) as (s' & Hs' & ?). simplify_eq. lia. }
  destruct Hle as [Hle Hlt0].
  destruct (draw_segment_spec failed info targetMs s (rp_entry p) (rp_terminal p) viewport _ Hrec Hi Hc Hle)
    as (passed & rest & E & Hidx & _ & _ & _ & Hw).
  fold (drawn_run targetMs s viewport p). set (run := draw_segment _ _ _ _ _) in *. set (p1 := drawn_run _ _ _ _) in *.
  assert (Hlen : length (sg_items s) - rp_entry p = length passed + length rest) by (by rewrite <- length_drop, E, length_app).
  destruct (lookup_lt_is_Some_2 recording (rp_segment p)) as [r Hr]; [by destruct Hrec as (-> & _)|].
  assert (Hbound : length (sg_items s) <= length (sg_items r)).
  { destruct Hc as [Hc|(_ & _ & ->)]; [by simplify_eq|cbn; lia]. }
  pose proof (left_at_in (rp_segment p) r (rp_entry p) (rn_index run) Hr ltac:(lia)) as Hleft.
  assert (Hmove : t_pending (rp_terminal p) = 0%N → rn_index run < length (sg_items s) → (rn_waiting run = true ∨ passed ≠ []) →
                  rp_entry p < rn_index run).
  { intros Hp0 Hx [Hwt|Hne]; [|destruct passed; [done|cbn in Hidx; lia]].
    rewrite Hwt in Hw. destruct Hw as [Hpend Hrest]. destruct passed as [|i passed]; [|cbn in Hidx; lia].
    destruct rest as [|i rest]; [done|]. exfalso.
    assert (Hh : head (drop (rp_entry p) (sg_items s)) = Some i) by by rewrite E.
    destruct (Z.le_gt_cases (it_atMs i) targetMs) as [Ht|Ht].
    - pose proof (draw_items_progress targetMs (sg_data s) _ (rp_entry p) (end_before (sg_items s) (rp_entry p)) (rp_terminal p) viewport i Hh Ht Hp0) as Hpr.
      change (rp_entry p < rn_index run) in Hpr. cbn in Hidx. lia.
    - assert (Hfin : rn_waiting run = false); [|congruence]. unfold run, draw_segment. rewrite E. cbn [app draw_items].
      by rewrite (proj2 (Z.ltb_lt _ _) Ht). }
  destruct (rn_waiting run) eqn:Ew.
  { intros [= <- <- <-]. change (rp_segment (set_awaiting true p1)) with (rp_segment p). change (rp_entry (set_awaiting true p1)) with (rn_index run).
    split; [lia|]. intros Hp0 _ _. destruct Hw as [_ Hrest].
    assert (rn_index run < length (sg_items s)) by (destruct rest; [done|cbn in Hlen; lia]). specialize (Hmove Hp0 ltac:(done) ltac:(by left)). lia. }
  destruct (Nat.ltb_spec (rn_index run) (length (sg_items s))) as [Hx|Hx].
  { intros [= <- <- <-]. change (rp_segment p1) with (rp_segment p). change (rp_entry p1) with (rn_index run). split; [lia|done]. }
  intros Hrun. apply IH in Hrun as [H _]; [|exact Hd|by apply Hge].
  change (rp_segment (evict _)) with (S (rp_segment p)) in H. change (rp_entry (evict _)) with 0 in H.
  pose proof (left_at_next (rp_segment p) r (rp_entry p) Hr ltac:(lia)). split; [lia|]. intros _ _ _. lia.
Qed.

Lemma advance_left failed goal targetMs p p' :
  recording_ok → rp_disposed p = false → PlayerInv failed goal p → (goal <= targetMs)%Z → t_pending (rp_terminal p) = 0%N →
  (rp_segment p < length segments → is_Some (rp_cache p !! rp_segment p)) → advance targetMs p = Some (p', false) → left p' < left p.
Proof.
  intros Hrec Hd Hinv Hg Hp0 Hcached. unfold advance. rewrite Hd.
  pose proof (advance_restart_inv failed goal targetMs p Hd Hinv Hg) as Hr.
  destruct (advance_restart targetMs p) as [p1|p1] eqn:Er.
  { exfalso. unfold advance_restart in Er. rewrite Hp0 in Er. destruct (rp_restartPoint p); [|done]. cbn [N.ltb N.compare] in Er.
    destruct (segments !! rp_segment p) as [first|] eqn:Hi; [|done]. destruct (Hcached ltac:(by eapply lookup_lt_Some)) as [s Hs].
    rewrite Hs in Er. by rewrite bool_decide_eq_false_2, andb_false_r in Er by done. }
  destruct Hr as (Hl & Hd1 & Hr1).
  destruct (advance_loop _ _ _ p1) as [[[p2 viewport] caughtUp2]|] eqn:E; [|done]. intros [= <- ->].
  destruct (advance_loop_left _ _ _ _ _ _ _ _ Hrec Hd1 Hl E) as [Hle Hlt].
  destruct (advance_loop_spec _ _ _ _ _ _ _ _ Hrec Hd1 Hl E) as (_ & Hd2 & Hr2 & _).
  assert (Hd3 : rp_disposed (onViewport viewport p2) = false) by done.
  destruct (prefetch_same _ Hd3) as (_ & Es & Ee & _ & Erp & _). unfold left at 1. rewrite Es, Ee, Erp.
  cbn [rp_segment rp_entry rp_restartPoint onViewport]. rewrite Hr2, Hr1. unfold left.
  unfold advance_restart in Er. destruct (rp_restartPoint p) as [point|] eqn:Ep.
  - rewrite Hp0 in Er. cbn [N.ltb N.compare] in Er.
    assert (p1 = set_restartPoint None (restart point p)) as -> by (repeat case_match; by simplify_eq).
    change (rp_segment (set_restartPoint _ _)) with (rp_segment (restart point p)) in Hle.
    change (rp_entry (set_restartPoint _ _)) with (rp_entry (restart point p)) in Hle.
    assert (rp_segment (restart point p) = rp_segment p ∧ rp_entry (restart point p) = rp_entry p) as [E1 E2] by (by destruct point).
    rewrite E1, E2 in Hle. lia.
  - injection Er as ->. specialize (Hlt Hp0 Hcached eq_refl). lia.
Qed.

Lemma settle_loads_spec failed goal reads (l : list nat) p :
  everything ⊆ failed →
  rp_disposed p = false → length recording = length segments → (∀ i s, reads i = Some s → recording !! i = Some s) →
  NoDup l → (∀ i, i ∈ l → i ∈ rp_loading p) → PlayerInv failed goal p →
  let p' := foldl (λ p i, load_settled i (reads i) p) p l in
  PlayerInv failed goal p' ∧ (∀ i, i ∈ rp_loading p' ↔ i ∈ rp_loading p ∧ i ∉ l)
  ∧ rp_segment p' = rp_segment p ∧ rp_entry p' = rp_entry p ∧ rp_restartPoint p' = rp_restartPoint p
  ∧ rp_disposed p' = false ∧ rp_terminal p' = rp_terminal p.
Proof.
  intros Hfail Hd Hlen Hreads. revert p Hd. induction l as [|i l IH]; intros p Hd Hn Hin Hinv; cbn [foldl]; [split_and!; set_solver|].
  apply NoDup_cons in Hn as [Hil Hn].
  assert (Hframe : rp_loading (load_settled i (reads i) p) = rp_loading p ∖ {[i]} ∧ rp_segment (load_settled i (reads i) p) = rp_segment p
    ∧ rp_entry (load_settled i (reads i) p) = rp_entry p ∧ rp_restartPoint (load_settled i (reads i) p) = rp_restartPoint p
    ∧ rp_disposed (load_settled i (reads i) p) = rp_disposed p ∧ rp_terminal (load_settled i (reads i) p) = rp_terminal p).
  { unfold load_settled. by destruct (_ && _). }
  destruct Hframe as (El & Es & Ee & Er & Ed & Et).
  destruct (IH (load_settled i (reads i) p)) as (H1 & H2 & H3 & H4 & H5 & H6 & H7).
  - congruence.
  - done.
  - intros j Hj. rewrite El. set_solver.
  - apply load_settled_inv; [done|done|apply Hin; by left|]. destruct (reads i) as [s|] eqn:E; [left; by apply Hreads|].
    right. destruct Hinv as [[_ Hl _ _] _ _ _]. destruct (Hl i) as [? _]; [apply Hin; by left|].
    split_and!; [apply Hfail, elem_of_list_to_set, elem_of_seq; lia|lia|done].
  - split_and!; try congruence. intros j. rewrite H2, El. set_solver.
Qed.

Lemma round_progress failed goal reads targetMs p :
  recording_ok → everything ⊆ failed → (∀ i s, reads i = Some s → recording !! i = Some s) →
  rp_disposed p = false → PlayerInv failed goal p → (goal <= targetMs)%Z →
  ∃ p' caughtUp, round reads targetMs p = Some (p', caughtUp)
    ∧ rp_disposed p' = false ∧ PlayerInv failed targetMs p' ∧ (caughtUp = false → left p' < left p).
Proof.
  intros Hrec Hfail Hreads Hd Hinv Hg. unfold round. set (p0 := set_terminal _ p).
  assert (Hinv0 : PlayerInv failed goal p0) by (apply terminal_inv; [apply shown_draw|done]).
  destruct (settle_loads_spec failed goal reads (elements (rp_loading p0)) p0 Hfail Hd (proj1 Hrec) Hreads)
    as (Hinv1 & Hload & Es & Ee & Er & Hd1 & Et); [apply NoDup_elements|by intros i ?%elem_of_elements|done|].
  fold (settle_loads reads p0) in *. set (p1 := settle_loads reads p0) in *.
  destruct (advance_total targetMs p1) as [[p2 b] Ha]. exists p2, b. split; [done|].
  destruct (advance_inv _ _ _ _ _ _ Hrec Hd1 Hinv1 Hg Ha) as (Hinv2 & Hd2 & _). split_and!; [done|done|]. intros ->.
  assert (Hleft : left p1 = left p) by (unfold left; by rewrite Es, Ee, Er). rewrite <- Hleft.
  eapply advance_left; [done|done|exact Hinv1|done| | |done].
  - rewrite Et. apply pending_draw.
  - intros Hlt. destruct (pi_ready _ _ _ Hinv1 Hlt) as [?|Hin]; [done|]. apply Hload in Hin as [Hin Hno]. exfalso. apply Hno. by apply elem_of_elements.
Qed.
Lemma rounds_catch_up failed goal reads targetMs n p :
  recording_ok → everything ⊆ failed → (∀ i s, reads i = Some s → recording !! i = Some s) →
  rp_disposed p = false → PlayerInv failed goal p → (goal <= targetMs)%Z → left p < n →
  ∃ p', rounds reads targetMs n p = Some (p', true).
Proof.
  intros Hrec Hfail Hreads. revert goal p. induction n as [|n IH]; intros goal p Hd Hinv Hg Hn; [lia|]. cbn [rounds].
  destruct (round_progress failed goal reads targetMs p Hrec Hfail Hreads Hd Hinv Hg) as (p1 & b & -> & Hd1 & Hinv1 & Hl). cbn [mbind option_bind].
  destruct b; [by exists p1|]. eapply IH; [done|exact Hinv1|lia|]. specialize (Hl eq_refl). lia.
Qed.

(** C19: The player always gets there: if the terminal draws and what is being fetched arrives -
    read or not - then after as many more calls as there are items and segments left to
    draw it has caught up. *)
Theorem replay_catches_up terminal budgetChars spacingBytes w reads t :
  recording_ok → (∀ i s, reads i = Some s → recording !! i = Some s) →
  reachable terminal budgetChars spacingBytes w → rp_disposed (w_player w) = false → (w_goal w <= t)%Z →
  ∃ p, rounds reads t (S (left (w_player w))) (w_player w) = Some (p, true).
Proof.
  intros Hrec Hreads Hr Hd Hg. destruct (replay_reachable_inv _ _ _ _ Hrec Hr) as ((_ & _ & Hinv) & _). specialize (Hinv Hd).
  eapply (rounds_catch_up (everything ∪ w_failed w)); [done|set_solver|done|done| |exact Hg|lia].
  eapply PlayerInv_mono, Hinv. set_solver.
Qed.
End player.

(** ** A terminal that logs *)

Module Log.
Inductive entry := log_byte (b : N) | log_unit (u : N) | log_size (cols rows : N).
Definition log_screen : Screen (list entry) :=
  {| blank := []; feed_byte s b := s ++ [log_byte b]; feed_unit s u := s ++ [log_unit u]; set_size s cols rows := s ++ [log_size cols rows] |}.
#[export] Existing Instance log_screen.
(** What is drawn, and what is written but not drawn. *)
Record terminal := { drawn_part : list entry; queue : list entry }.
Lemma feed_log (s : list entry) bytes : feed s bytes = s ++ (log_byte <$> bytes).
Proof.
  unfold feed. revert s. induction bytes as [|b bytes IH]; intros s; [by rewrite app_nil_r|]. cbn. rewrite IH. cbn. by rewrite <- app_assoc.
Qed.
Lemma feed_text_log (s : list entry) text : feed_text s text = s ++ (log_unit <$> text).
Proof.
  unfold feed_text. revert s. induction text as [|b text IH]; intros s; [by rewrite app_nil_r|]. cbn. rewrite IH. cbn. by rewrite <- app_assoc.
Qed.
Lemma no_queue t : N.of_nat (length (queue t)) = 0%N → queue t = [].
Proof. destruct (queue t); [done|cbn; lia]. Qed.
#[export] Program Instance log_terminal : ReplayTerminal (list entry) terminal := {|
  t_write t bytes := {| drawn_part := drawn_part t; queue := queue t ++ (log_byte <$> bytes) |};
  t_write_text t text := {| drawn_part := drawn_part t; queue := queue t ++ (log_unit <$> text) |};
  t_resize t cols rows := {| drawn_part := drawn_part t ++ [log_size cols rows]; queue := queue t |};
  t_reset t := {| drawn_part := []; queue := queue t |};
  t_pending t := N.of_nat (length (queue t));
  t_draw n t := {| drawn_part := drawn_part t ++ take (N.to_nat n) (queue t); queue := drop (N.to_nat n) (queue t) |};
  t_shown t := drawn_part t ++ queue t;
|}.
Next Obligation. intros t bytes. cbn. by rewrite feed_log, app_assoc. Qed.
Next Obligation. intros t text. cbn. by rewrite feed_text_log, app_assoc. Qed.
Next Obligation. intros t cols rows H%no_queue. cbn. by rewrite H, !app_nil_r. Qed.
Next Obligation. done. Qed.
Next Obligation. intros t H%no_queue. cbn. by rewrite H. Qed.
Next Obligation. intros t cols rows H%no_queue. cbn. by rewrite H. Qed.
Next Obligation. intros n t. cbn. by rewrite <- app_assoc, take_drop. Qed.
Next Obligation. intros t. cbn. by rewrite Nat2N.id, length_drop, Nat.sub_diag. Qed.

(** A recording of two segments, with a change of size in the first. *)
Definition infos : list SessionReplaySegmentInfo :=
  [{| si_startAtMs := 0; si_endAtMs := 4; si_entryCount := 3; si_outputBytes := 3 |};
   {| si_startAtMs := 7; si_endAtMs := 7; si_entryCount := 1; si_outputBytes := 1 |}].
Definition first_segment : SessionReplaySegment :=
  {| sg_items := [{| it_atMs := 0; it_dataEnd := 2; it_cols := 0; it_rows := 0 |};
                  {| it_atMs := 3; it_dataEnd := 2; it_cols := 80; it_rows := 24 |};
                  {| it_atMs := 4; it_dataEnd := 3; it_cols := 0; it_rows := 0 |}]; sg_data := [104; 105; 33]%N |}.
Definition second_segment : SessionReplaySegment :=
  {| sg_items := [{| it_atMs := 7; it_dataEnd := 1; it_cols := 0; it_rows := 0 |}]; sg_data := [36]%N |}.
Definition recorded : list SessionReplaySegment := [first_segment; second_segment].
Lemma recorded_ok : recording_ok infos recorded.
Proof.
  split; [done|]. split; [exists 0%Z; cbn; lia|]. intros [|[|i]] info s; cbn; intros; simplify_eq; (split; [cbn; lia|]);
    intros op; cbn; rewrite ?elem_of_cons; intros H; repeat (destruct H as [->|H]); cbn; try lia; by apply elem_of_nil in H.
Qed.

Definition started : World := start_world (T := terminal) infos {| drawn_part := []; queue := [] |} 100 8.
Definition arrive (i : nat) (s : SessionReplaySegment) (w : World (T := terminal)) : World :=
  {| w_player := load_settled i (Some s) (w_player w); w_store := w_store w; w_goal := w_goal w; w_failed := w_failed w |}.
(** Both segments have arrived. *)
Definition loaded : World := arrive 1 second_segment (arrive 0 first_segment started).
Lemma loaded_reachable : reachable infos recorded {| drawn_part := []; queue := [] |} 100 8 loaded.
Proof.
  apply (rtc_l _ started (arrive 0 first_segment started)).
  - apply (st_loaded infos recorded started 0 first_segment); [apply (bool_decide_unpack _); vm_compute; exact I|done].
  - apply rtc_once. apply (st_loaded infos recorded (arrive 0 first_segment started) 1 second_segment); [|done].
    apply (bool_decide_unpack _). vm_compute. exact I.
Qed.
End Log.
#[local] Existing Instance Log.log_screen.
#[local] Existing Instance Log.log_terminal.

Lemma replay_shows_recording_witness :
  ∃ p caughtUp, advance Log.infos 2 (w_player Log.loaded) = Some (p, caughtUp)
    ∧ if caughtUp then t_shown (rp_terminal p) = [Log.log_byte 104; Log.log_byte 105] else stalled Log.infos p.
Proof.
  destruct (replay_shows_recording Log.infos Log.recorded {| Log.drawn_part := []; Log.queue := [] |} 100 8 Log.loaded 2
              Log.recorded_ok Log.loaded_reachable) as (p & b & Ha & H); [vm_compute; reflexivity|vm_compute; discriminate|].
  exists p, b. split; [exact Ha|]. destruct b; [|exact H]. destruct H as [_ H]. etrans; [apply H; reflexivity|]. vm_compute. reflexivity.
Defined.
Lemma replay_memory_bounded_witness : size (rp_cache (w_player Log.loaded)) <= 5.
Proof.
  exact (proj1 (replay_memory_bounded Log.infos Log.recorded {| Log.drawn_part := []; Log.queue := [] |} 100 8 Log.loaded
                  Log.recorded_ok Log.loaded_reachable)).
Defined.
Lemma replay_catches_up_witness :
  left Log.recorded (w_player Log.loaded) = 7
  ∧ ∃ p, rounds Log.infos (λ i, Log.recorded !! i) 9 (S (left Log.recorded (w_player Log.loaded))) (w_player Log.loaded) = Some (p, true).
Proof.
  split; [vm_compute; reflexivity|].
  apply (replay_catches_up Log.infos Log.recorded {| Log.drawn_part := []; Log.queue := [] |} 100 8 Log.loaded
           (λ i, Log.recorded !! i) 9 Log.recorded_ok (λ _ _ H, H) Log.loaded_reachable); [vm_compute; reflexivity|vm_compute; discriminate].
Defined.
