(* ===== verification/ReplayFormat.v ===== *)
(** * The files of a recorded session
      (apps/desktop/src/main/session-replay-events.ts: the lines, the segments, the index)

    A recording is a file of JSON lines, compressed in pieces, and an index with one line
    per finished piece.  JSON, gzip and Node's Base64 are interfaces; this file reads the
    lines, the pieces and the index.  [ReplayWriter] writes them. *)

From S2P Require Import Prelude Collections ReplayData.

(** ** JSON

    The texts whose numbers are whole: every number of a recording is a count, a
    dimension or a time in milliseconds.  [json_value] are the values a JavaScript object
    can stand for (its keys are distinct and in the order the engine keeps). *)
Inductive JsonValue :=
| jv_null
| jv_bool (b : bool)
| jv_num (z : Z)
| jv_str (s : jsstring)
| jv_arr (l : list JsonValue)
| jv_obj (fields : list (jsstring * JsonValue)).

(** An object literal of the source: its keys are distinct and begin with a letter, its
    values are strings and numbers. *)
Definition is_word (k : jsstring) : bool :=
  match k with c :: _ => ((97 <=? c) && (c <=? 122) || (65 <=? c) && (c <=? 90))%N | [] => false end.
Definition is_scalar (v : JsonValue) : bool := match v with jv_num _ | jv_str _ => true | _ => false end.
Definition object_literal (fields : list (jsstring * JsonValue)) : Prop :=
  NoDup fields.*1 ∧ Forall (λ kv, is_word kv.1 = true ∧ is_scalar kv.2 = true) fields.

Definition is_ascii (s : jsstring) : Prop := Forall (λ c, (c < 128)%N) s.
Definition scalar_ascii (v : JsonValue) : Prop := match v with jv_str s => is_ascii s | _ => True end.

(** [JSON.parse] ([None] when it throws) and [JSON.stringify]. *)
Class JsonText := {
  json_parse : jsstring → option JsonValue;
  json_stringify : JsonValue → jsstring;
  parse_stringify fields : object_literal fields → json_parse (json_stringify (jv_obj fields)) = Some (jv_obj fields);
  stringify_object fields : ∃ body, json_stringify (jv_obj fields) = 123%N :: body ++ [125%N];
  stringify_no_newline v : 10%N ∉ json_stringify v;
  stringify_ascii fields :
    object_literal fields → Forall (λ kv, scalar_ascii kv.2) fields → is_ascii (json_stringify (jv_obj fields));
  parse_cut fields a b : json_stringify (jv_obj fields) = a ++ b → b ≠ [] → json_parse a = None;
  parse_string_shorter text fields k s :
    json_parse text = Some (jv_obj fields) → mget k fields = Some (jv_str s) → length s <= length text;
}.

(** ** Compression

    What is asked of a compressor, in order.  [gz calls] is everything it can have put
    out after the calls; it hands this out in pieces, whenever it likes. *)
Inductive GzipCall := gz_write (text : jsstring) | gz_flush | gz_end.
Definition call_text (c : GzipCall) : jsstring := match c with gz_write text => text | _ => [] end.
Definition calls_text (calls : list GzipCall) : jsstring := calls ≫= call_text.
(** A compressor is not written to after its end. *)
Definition calls_open (calls : list GzipCall) : Prop := gz_end ∉ calls.

(** The longest string there is. *)
Definition MAX_STRING : N := 2 ^ 29 - 24.
Class Gzip := {
  gz : list GzipCall → list N;
  (** [gunzip(bytes)], [gunzip(bytes, { finishFlush: Z_SYNC_FLUSH })], both read as UTF-8;
      [None] is an error of zlib. *)
  gunzip : list N → option jsstring;
  gunzip_cut : list N → option jsstring;
  (** [buffer.toString("utf8")] *)
  utf8_decode : list N → jsstring;
  gz_grows calls more : gz calls `prefix_of` gz (calls ++ more);
  gz_nonempty calls : gz (calls ++ [gz_end]) ≠ [] ∧ gz (calls ++ [gz_flush]) ≠ [];
  gunzip_member calls :
    calls_open calls → is_ascii (calls_text calls) → (N.of_nat (length (calls_text calls)) <= MAX_STRING)%N →
    gunzip (gz (calls ++ [gz_end])) = Some (calls_text calls);
  (** Members put one after the other, the last one cut off anywhere: what can be read is
      a part of what was written. *)
  gunzip_cut_prefix (members : list (list GzipCall)) calls cut text :
    Forall (λ m, calls_open m ∧ is_ascii (calls_text m)) members → calls_open calls → is_ascii (calls_text calls) →
    cut `prefix_of` gz (calls ++ [gz_end]) →
    gunzip_cut (mjoin ((λ m, gz (m ++ [gz_end])) <$> members) ++ cut) = Some text →
    text `prefix_of` (members ≫= calls_text) ++ calls_text calls;
  gunzip_cut_string bytes text : gunzip_cut bytes = Some text → (N.of_nat (length text) <= MAX_STRING)%N;
  (** What was flushed can be read without an end. *)
  gunzip_flushed calls :
    calls_open calls → is_ascii (calls_text calls) → (N.of_nat (length (calls_text calls)) <= MAX_STRING)%N →
    gunzip_cut (gz (calls ++ [gz_flush])) = Some (calls_text calls);
}.

(** ** Node's Base64: [buffer.toString("base64")], [Buffer.from(s, "base64")] (it never
    throws), [Buffer.byteLength(s, "base64")] *)
Definition is_bytes (l : list N) : Prop := Forall (λ b, (b < 256)%N) l.
Class NodeBase64 := {
  b64_encode : list N → jsstring;
  b64_decode : jsstring → list N;
  b64_byteLength : jsstring → N;
  b64_decode_encode l : is_bytes l → b64_decode (b64_encode l) = l;
  b64_encode_ascii l : is_bytes l → is_ascii (b64_encode l);
  b64_decode_length s : length (b64_decode s) <= length s;
  b64_byteLength_encode l : is_bytes l → b64_byteLength (b64_encode l) = N.of_nat (length l);
}.

(** ** Lines *)

Definition REPLAY_SEGMENT_BYTES : N := 1024 * 1024.
Definition WRITE_BATCH_BYTES : N := 64 * 1024.
Definition TAIL_SEGMENT_MAX_BYTES : N := 1024 * 1024.
Definition MAX_TERMINAL_DIMENSION : Z := 65535.

(** One line of the file. *)
Inductive EntryKind := en_output (dataBase64 : jsstring) | en_resize (cols rows : N).
Record SessionReplayEntry := { en_atMs : Z; en_kind : EntryKind }.

(** One line of the index: a segment and where it is in the file. *)
Record ReplaySegmentRecord := {
  sr_offset : N; sr_length : N; sr_info : SessionReplaySegmentInfo; sr_cutOff : bool; sr_plain : bool }.

Definition isTerminalDimension (value : option JsonValue) : option N :=
  match value with
  | Some (jv_num z) => if (0 <? z)%Z && (z <=? MAX_TERMINAL_DIMENSION)%Z then Some (Z.to_N z) else None
  | _ => None
  end.

(** A number is finite and whole (see [JsonValue]). *)
Definition num_field (k : string) (fields : list (jsstring * JsonValue)) : option Z :=
  match mget (js k) fields with Some (jv_num z) => Some z | _ => None end.
Definition str_field (k : string) (fields : list (jsstring * JsonValue)) : option jsstring :=
  match mget (js k) fields with Some (jv_str s) => Some s | _ => None end.
Definition type_is (t : string) (fields : list (jsstring * JsonValue)) : bool :=
  bool_decide (str_field "type" fields = Some (js t)).

Section format.
Context `{JT : !JsonText, GZ : !Gzip, NB : !NodeBase64}.

Definition parseReplayEntry (line : jsstring) : option SessionReplayEntry :=
  if negb (truthy (js_trim line)) then None else
  match json_parse line with
  | Some (jv_obj entry) =>
      match num_field "atMs" entry with
      | None => None
      | Some atMs =>
          match (if type_is "output" entry then str_field "dataBase64" entry else None) with
          | Some dataBase64 => Some {| en_atMs := atMs; en_kind := en_output dataBase64 |}
          | None =>
              if type_is "resize" entry then
                match isTerminalDimension (mget (js "cols") entry), isTerminalDimension (mget (js "rows") entry) with
                | Some cols, Some rows => Some {| en_atMs := atMs; en_kind := en_resize cols rows |}
                | _, _ => None
                end
              else None
          end
      end
  | _ => None
  end.

Definition outputBytesOf (entry : SessionReplayEntry) : N :=
  match en_kind entry with en_output dataBase64 => b64_byteLength dataBase64 | en_resize _ _ => 0 end.

(** ** A segment as the player gets it

    [Uint32Array.from] and [Uint16Array.from] keep the low bits of a number. *)
Definition uint32 (n : nat) : nat := N.to_nat (N.of_nat n mod 2 ^ 32).
Definition uint16 (n : N) : N := (n mod 2 ^ 16)%N.

Record Decoding := { dc_clock : Z; dc_items : list SegmentItem; dc_data : list N }.
Definition decode_entry (entry : SessionReplayEntry) (d : Decoding) : Decoding :=
  let clock := Z.max (dc_clock d) (en_atMs entry) in
  let '(data, cols, rows) :=
    match en_kind entry with
    | en_output dataBase64 => (dc_data d ++ b64_decode dataBase64, 0%N, 0%N)
    | en_resize cols rows => (dc_data d, cols, rows)
    end in
  {| dc_clock := clock;
     dc_items := dc_items d ++ [{| it_atMs := clock; it_dataEnd := uint32 (length data); it_cols := uint16 cols; it_rows := uint16 rows |}];
     dc_data := data |}.
Definition decode_line (d : Decoding) (line : jsstring) : Decoding :=
  match parseReplayEntry line with Some entry => decode_entry entry d | None => d end.
Definition decodeReplaySegment (text : jsstring) (startAtMs : Z) : SessionReplaySegment :=
  let d := foldl decode_line {| dc_clock := startAtMs; dc_items := []; dc_data := [] |} (js_split 10 text) in
  {| sg_items := dc_items d; sg_data := dc_data d |}.

(** ** Reading a segment *)

(** [handle.read] until [length] bytes are there or the file ends. *)
Definition read_at (file : list N) (offset length : N) : list N := take (N.to_nat length) (drop (N.to_nat offset) file).
Definition readSegmentText (file : list N) (offset length : N) (cutOff compressed : bool) : option jsstring :=
  let buffer := read_at file offset length in
  if negb compressed then Some (utf8_decode buffer)
  else if cutOff then gunzip_cut buffer else gunzip buffer.
Definition readReplaySegment (file : list N) (r : ReplaySegmentRecord) : option SessionReplaySegment :=
  text ← readSegmentText file (sr_offset r) (sr_length r) (sr_cutOff r) (negb (sr_plain r));
  Some (decodeReplaySegment text (si_startAtMs (sr_info r))).

(** ** The index *)

(** [JSON.stringify(record)] of the record the writer makes. *)
Definition record_fields (r : ReplaySegmentRecord) : list (jsstring * JsonValue) :=
  [(js "offset", jv_num (Z.of_N (sr_offset r))); (js "length", jv_num (Z.of_N (sr_length r)));
   (js "startAtMs", jv_num (si_startAtMs (sr_info r))); (js "endAtMs", jv_num (si_endAtMs (sr_info r)));
   (js "entryCount", jv_num (Z.of_nat (si_entryCount (sr_info r))));
   (js "outputBytes", jv_num (Z.of_N (si_outputBytes (sr_info r))))].
Definition record_line (r : ReplaySegmentRecord) : jsstring := json_stringify (jv_obj (record_fields r)) ++ [10%N].

(** The record a value is, when it is one ([isSegmentRecord], and the copy of its fields). *)
Definition count_field (k : string) (fields : list (jsstring * JsonValue)) : option Z :=
  z ← num_field k fields; if (0 <=? z)%Z then Some z else None.
Definition isSegmentRecord (value : JsonValue) : option ReplaySegmentRecord :=
  match value with
  | jv_obj record =>
      offset ← count_field "offset" record;
      length ← count_field "length" record;
      startAtMs ← count_field "startAtMs" record;
      endAtMs ← count_field "endAtMs" record;
      entryCount ← count_field "entryCount" record;
      outputBytes ← count_field "outputBytes" record;
      if (0 <? length)%Z && (0 <? entryCount)%Z && (startAtMs <=? endAtMs)%Z then
        Some {| sr_offset := Z.to_N offset; sr_length := Z.to_N length;
                sr_info := {| si_startAtMs := startAtMs; si_endAtMs := endAtMs; si_entryCount := Z.to_nat entryCount; si_outputBytes := Z.to_N outputBytes |};
                sr_cutOff := false; sr_plain := false |}
      else None
  | _ => None
  end.
Fixpoint parse_index (eventsSize indexedEnd : N) (clock : Z) (lines : list jsstring) : list ReplaySegmentRecord :=
  match lines with
  | [] => []
  | line :: lines =>
      if negb (truthy (js_trim line)) then parse_index eventsSize indexedEnd clock lines else
      match json_parse line ≫= isSegmentRecord with
      | Some r =>
          if (sr_offset r <? indexedEnd)%N || (eventsSize <? sr_offset r + sr_length r)%N || (si_startAtMs (sr_info r) <? clock)%Z then []
          else r :: parse_index eventsSize (sr_offset r + sr_length r) (si_endAtMs (sr_info r)) lines
      | None => []
      end
  end.
Definition parseReplayIndex (text : jsstring) (eventsSize : N) : list ReplaySegmentRecord :=
  parse_index eventsSize 0 0 (js_split 10 text).

(** ** What is after the last segment of the index *)

Record Tail := { tl_entryCount : nat; tl_outputBytes : N; tl_startAtMs : Z; tl_clock : Z }.
Definition tail_line (t : Tail) (line : jsstring) : Tail :=
  match parseReplayEntry line with
  | None => t
  | Some entry =>
      let clock := Z.max (tl_clock t) (en_atMs entry) in
      {| tl_entryCount := S (tl_entryCount t); tl_outputBytes := tl_outputBytes t + outputBytesOf entry;
         tl_startAtMs := if tl_entryCount t =? 0 then clock else tl_startAtMs t; tl_clock := clock |}
  end.
Definition summarizeReplayTail (file : list N) (offset length : N) (previousEndAtMs : Z) : option ReplaySegmentRecord :=
  text ← readSegmentText file offset length true true;
  let t := foldl tail_line {| tl_entryCount := 0; tl_outputBytes := 0; tl_startAtMs := previousEndAtMs; tl_clock := previousEndAtMs |}
             (js_split 10 text) in
  if 0 <? tl_entryCount t then
    Some {| sr_offset := offset; sr_length := length;
            sr_info := {| si_startAtMs := tl_startAtMs t; si_endAtMs := tl_clock t; si_entryCount := tl_entryCount t; si_outputBytes := tl_outputBytes t |};
            sr_cutOff := true; sr_plain := false |}
  else None.

(** The files of a recording: [None] is a file that does not exist. *)
Record ReplayEventFiles := { rf_events : option (list N); rf_legacyEvents : option jsstring; rf_index : option jsstring }.
(** What opening a recording comes to: the segments, or the file to rewrite first. *)
Inductive LoadPlan := lp_segments (records : list ReplaySegmentRecord) | lp_convert_events | lp_convert_legacy.
Definition loadReplaySegments (files : ReplayEventFiles) : LoadPlan :=
  let converted :=
    match rf_events files, rf_legacyEvents files with
    | Some _, _ => lp_convert_events
    | None, Some _ => lp_convert_legacy
    | None, None => lp_segments []
    end in
  match rf_events files, rf_index files with
  | Some events, Some index =>
      let eventsSize := N.of_nat (length events) in
      let records := parseReplayIndex index eventsSize in
      let indexedEnd := from_option (λ r, sr_offset r + sr_length r)%N 0%N (last records) in
      let tailLength := (Z.of_N eventsSize - Z.of_N indexedEnd)%Z in
      if (tailLength <=? 0)%Z then lp_segments records
      else if (tailLength <=? Z.of_N TAIL_SEGMENT_MAX_BYTES)%Z then
        match summarizeReplayTail events indexedEnd (Z.to_N tailLength) (from_option (λ r, si_endAtMs (sr_info r)) 0%Z (last records)) with
        | Some tail => lp_segments (records ++ [tail])
        | None => lp_segments records
        end
      else converted
  | _, _ => converted
  end.

(** ** What lines do to a terminal *)

Definition entry_op (entry : SessionReplayEntry) : TermOp :=
  match en_kind entry with en_output dataBase64 => op_output (b64_decode dataBase64) | en_resize cols rows => op_resize cols rows end.
(** The reference for a segment: its lines one after the other, on a clock that never goes
    back. *)
Fixpoint line_ops (clock : Z) (lines : list jsstring) : list (Z * TermOp) :=
  match lines with
  | [] => []
  | line :: lines =>
      match parseReplayEntry line with
      | Some entry => let clock := Z.max clock (en_atMs entry) in (clock, entry_op entry) :: line_ops clock lines
      | None => line_ops clock lines
      end
  end.
Fixpoint lines_clock (clock : Z) (lines : list jsstring) : Z :=
  match lines with
  | [] => clock
  | line :: lines => lines_clock (from_option (λ e, Z.max clock (en_atMs e)) clock (parseReplayEntry line)) lines
  end.

Lemma line_ops_app clock a b : line_ops clock (a ++ b) = line_ops clock a ++ line_ops (lines_clock clock a) b.
Proof.
  revert clock. induction a as [|l a IH]; intros clock; [done|]. cbn [app line_ops lines_clock].
  destruct (parseReplayEntry l); cbn [from_option]; rewrite IH; done.
Qed.
Lemma lines_clock_le clock lines : (clock <= lines_clock clock lines)%Z.
Proof.
  revert clock. induction lines as [|l lines IH]; intros clock; cbn [lines_clock]; [done|].
  etrans; [|apply IH]. destruct (parseReplayEntry l); cbn [from_option]; lia.
Qed.
Lemma line_ops_times clock lines op : op ∈ line_ops clock lines → (clock <= op.1 <= lines_clock clock lines)%Z.
Proof.
  revert clock. induction lines as [|l lines IH]; intros clock; cbn [line_ops lines_clock]; [by intros []%elem_of_nil|].
  destruct (parseReplayEntry l) as [e|]; cbn [from_option]; [|apply IH]. intros [->|Hin]%elem_of_cons.
  - cbn. pose proof (lines_clock_le (Z.max clock (en_atMs e)) lines). lia.
  - specialize (IH _ Hin). lia.
Qed.
(** On a clock that is not ahead, the times are those of the lines. *)
Lemma line_ops_clock clock clock' lines :
  (∀ line e, line ∈ lines → parseReplayEntry line = Some e → (clock <= en_atMs e)%Z ∧ (clock' <= en_atMs e)%Z) →
  line_ops clock lines = line_ops clock' lines.
Proof.
  revert clock clock'. induction lines as [|l lines IH]; intros clock clock' H; cbn [line_ops]; [done|].
  destruct (parseReplayEntry l) as [e|] eqn:E.
  - destruct (H l e ltac:(by left) E). by replace (Z.max clock (en_atMs e)) with (Z.max clock' (en_atMs e)) by lia.
  - apply IH. intros line e' Hin. apply H. by right.
Qed.

(** ** Reading a line *)

Lemma isTerminalDimension_spec v n : isTerminalDimension v = Some n → (0 < n < 65536)%N.
Proof.
  unfold isTerminalDimension, MAX_TERMINAL_DIMENSION. destruct v as [[]|]; try done.
  destruct (Z.ltb_spec 0 z), (Z.leb_spec z 65535); intros; simplify_eq/=; lia.
Qed.
Lemma parse_output line at_ms b64 :
  parseReplayEntry line = Some {| en_atMs := at_ms; en_kind := en_output b64 |} → length b64 <= length line.
Proof.
  unfold parseReplayEntry. destruct (negb _); [done|]. destruct (json_parse line) as [[| | | | |fields]|] eqn:E; try done.
  destruct (num_field _ fields); [|done]. destruct (type_is "output" fields).
  - unfold str_field at 1. destruct (mget _ fields) as [[| | |s| |]|] eqn:Es; repeat case_match; intros; simplify_eq; by eapply parse_string_shorter.
  - repeat case_match; intros; simplify_eq.
Qed.
Lemma parse_resize line at_ms cols rows :
  parseReplayEntry line = Some {| en_atMs := at_ms; en_kind := en_resize cols rows |} → (0 < cols < 65536)%N ∧ (0 < rows < 65536)%N.
Proof.
  unfold parseReplayEntry. destruct (negb _); [done|]. destruct (json_parse line) as [[| | | | |fields]|] eqn:E; try done.
  destruct (num_field _ fields); [|done]. destruct (if type_is "output" fields then _ else _); [intros; simplify_eq|].
  destruct (type_is "resize" fields); [|done].
  destruct (isTerminalDimension _) eqn:E1; [|done]. destruct (isTerminalDimension (mget (js "rows") _)) eqn:E2; [|done].
  intros; simplify_eq. by eauto using isTerminalDimension_spec.
Qed.

(** ** Decoding *)

Lemma uint32_small n : (N.of_nat n < 2 ^ 32)%N → uint32 n = n.
Proof. intros H. unfold uint32. rewrite N.mod_small by done. lia. Qed.
Lemma uint16_small n : (n < 65536)%N → uint16 n = n.
Proof. intros H. unfold uint16. by rewrite N.mod_small. Qed.

Definition lines_length (lines : list jsstring) : nat := sum_list (length <$> lines).
(** A state of the decoding that has put [ops] together. *)
Record decoded (clock0 : Z) (d : Decoding) (ops : list (Z * TermOp)) : Prop := {
  dd_items : items_ok clock0 0 (dc_items d) (length (dc_data d));
  dd_clock : last_time clock0 (dc_items d) = dc_clock d;
  dd_end : last_end 0 (dc_items d) = length (dc_data d);
  dd_ops : item_ops (dc_data d) 0 (dc_items d) = ops;
}.

Lemma item_ops_data data more clock from items :
  items_ok clock from items (length data) → item_ops (data ++ more) from items = item_ops data from items.
Proof.
  revert clock from. induction items as [|i items IH]; intros clock from Hok; [done|]. destruct Hok as (_ & Hle & _ & Hok).
  cbn [item_ops]. rewrite (IH _ _ Hok). do 2 f_equal. case_match; [|done]. f_equal. unfold subarray.
  destruct (le_lt_dec from (length data)); [rewrite drop_app_le, take_app_le; [done|rewrite length_drop; lia|lia]|lia].
Qed.
Lemma items_ok_more clock from items size size' : items_ok clock from items size → size <= size' → items_ok clock from items size'.
Proof.
  revert clock from. induction items as [|i items IH]; intros clock from; [done|]. intros (? & ? & ? & Hok) Hle.
  cbn [items_ok]. split_and!; [done|lia|lia|done|by apply IH].
Qed.
Lemma decode_entry_spec clock0 d ops entry line :
  decoded clock0 d ops → parseReplayEntry line = Some entry → (N.of_nat (length (dc_data d) + length line) < 2 ^ 32)%N →
  decoded clock0 (decode_entry entry d) (ops ++ [(Z.max (dc_clock d) (en_atMs entry), entry_op entry)])
  ∧ length (dc_data (decode_entry entry d)) <= length (dc_data d) + length line.
Proof.
  intros [Hi Hc He Ho] Hp Hlt. destruct entry as [at_ms [b64|cols rows]].
  - pose proof (parse_output _ _ _ Hp). pose proof (b64_decode_length b64).
    unfold decode_entry. cbn [en_kind en_atMs]. rewrite uint32_small by (rewrite length_app; lia).
    split; [|cbn; rewrite length_app; lia]. split; cbn [dc_items dc_data dc_clock].
    + apply items_ok_app. split; [eapply items_ok_more; [done|rewrite length_app; lia]|].
      rewrite Hc, He. cbn. rewrite length_app. split_and!; [lia|lia|lia|done|done].
    + unfold last_time. by rewrite last_snoc.
    + unfold last_end. by rewrite last_snoc.
    + rewrite item_ops_app, He, (item_ops_data _ _ _ _ _ Hi), Ho. f_equal. cbn. unfold entry_op. cbn [en_kind]. do 3 f_equal.
      unfold subarray. rewrite drop_app_length, length_app. rewrite firstn_all2; [done|lia].
  - apply parse_resize in Hp as [Hcols Hrows]. unfold decode_entry. cbn [en_kind en_atMs].
    rewrite uint32_small, !uint16_small by lia. split; [|cbn; lia]. split; cbn [dc_items dc_data dc_clock].
    + apply items_ok_app. split; [done|]. rewrite Hc, He. cbn. split_and!; [lia|lia|lia|done|done].
    + unfold last_time. by rewrite last_snoc.
    + unfold last_end. by rewrite last_snoc.
    + rewrite item_ops_app, He, Ho. f_equal. cbn. unfold entry_op. cbn [en_kind].
      by rewrite (proj2 (N.eqb_neq _ _)) by lia.
Qed.
Lemma decode_lines_spec clock0 d ops lines :
  decoded clock0 d ops → (N.of_nat (length (dc_data d) + lines_length lines) < 2 ^ 32)%N →
  decoded clock0 (foldl decode_line d lines) (ops ++ line_ops (dc_clock d) lines).
Proof.
  revert d ops. induction lines as [|l lines IH]; intros d ops Hd Hlt; cbn [foldl line_ops]; [by rewrite app_nil_r|].
  change (lines_length (l :: lines)) with (length l + lines_length lines) in Hlt.
  destruct (parseReplayEntry l) as [e|] eqn:E.
  2: { replace (decode_line d l) with d by (unfold decode_line; by rewrite E). apply IH; [done|lia]. }
  replace (decode_line d l) with (decode_entry e d) by (unfold decode_line; by rewrite E).
  destruct (decode_entry_spec _ _ _ _ _ Hd E) as [Hd' Hle]; [lia|].
  specialize (IH _ _ Hd' ltac:(lia)). rewrite <- app_assoc in IH. unfold decode_entry in IH at 2. by destruct (en_kind e).
Qed.
Lemma lines_length_split text : lines_length (js_split 10 text) <= length text.
Proof.
  induction text as [|c text IH]; [done|]. unfold lines_length in *. cbn [js_split]. case_decide; cbn; [lia|].
  destruct (js_split 10 text); cbn in *; lia.
Qed.

(** What the player gets of a text is what its lines say. *)
Lemma decodeReplaySegment_spec text startAtMs :
  (N.of_nat (length text) < 2 ^ 32)%N →
  let s := decodeReplaySegment text startAtMs in
  items_ok startAtMs 0 (sg_items s) (length (sg_data s)) ∧ segment_ops s = line_ops startAtMs (js_split 10 text).
Proof.
  intros Hlt. pose proof (lines_length_split text).
  destruct (decode_lines_spec startAtMs {| dc_clock := startAtMs; dc_items := []; dc_data := [] |} [] (js_split 10 text)) as [H1 _ _ H4];
    [by split|cbn [length dc_data]; lia|]. cbn [app dc_clock] in H4. by split.
Qed.

(** ** A text of lines, and what is left of one that is cut off *)

Definition lines_text (lines : list jsstring) : jsstring := lines ≫= (λ line, line ++ [10%N]).
(** A line that is the JSON of an object. *)
Definition object_line (line : jsstring) : Prop := ∃ fields, line = json_stringify (jv_obj fields).

Lemma object_line_newline line : object_line line → 10%N ∉ line.
Proof. intros [f ->]. apply stringify_no_newline. Qed.
Lemma object_line_nonblank line : object_line line → truthy (js_trim line) = true.
Proof.
  intros [f ->]. apply truthy_spec. destruct (stringify_object f) as [body ->].
  unfold js_trim, trim_end. cbn [trim_start]. change (is_ws 123) with false. cbv iota.
  change (123%N :: body ++ [125%N]) with ((123%N :: body) ++ [125%N]). rewrite reverse_snoc. cbn [trim_start]. change (is_ws 125) with false. cbv iota.
  intros E%(f_equal reverse). rewrite reverse_involutive in E. by rewrite reverse_nil in E.
Qed.
Lemma lines_text_app a b : lines_text (a ++ b) = lines_text a ++ lines_text b.
Proof. apply bind_app. Qed.
Lemma js_split_lines lines : Forall (λ l, 10%N ∉ l) lines → js_split 10 (lines_text lines) = lines ++ [[]].
Proof.
  induction 1 as [|l lines Hl _ IH]; [done|]. unfold lines_text in *. cbn [mbind list_bind].
  rewrite <- app_assoc. cbn [app]. by rewrite js_split_app, IH, js_split_no_sep.
Qed.
Lemma lines_text_join lines : lines ≠ [] → lines_text lines = js_join [10%N] lines ++ [10%N].
Proof.
  induction lines as [|a [|b lines] IH]; intros H; [done|cbn; by rewrite app_nil_r|].
  rewrite js_join_cons by done. change (lines_text (a :: b :: lines)) with ((a ++ [10%N]) ++ lines_text (b :: lines)).
  rewrite IH by done. by rewrite <- !app_assoc.
Qed.
Lemma js_split_cut lines text :
  Forall (λ l, 10%N ∉ l) lines → text `prefix_of` lines_text lines →
  ∃ n rest, js_split 10 text = take n lines ++ [rest]
    ∧ (rest = [] ∨ ∃ line more, lines !! n = Some line ∧ line = rest ++ more).
Proof.
  intros Hl. revert text. induction Hl as [|l lines Hl _ IH]; intros text Hp.
  { apply prefix_nil_inv in Hp as ->. exists 0, []. split; [done|by left]. }
  unfold lines_text in Hp. cbn [mbind list_bind] in Hp. fold (lines_text lines) in Hp. rewrite <- app_assoc in Hp. cbn [app] in Hp.
  destruct Hp as [rest E]. symmetry in E. apply app_eq_inv in E as [(k & -> & E)|(k & -> & E)].
  - destruct k as [|c k].
    + rewrite app_nil_r. exists 0, l. split; [by apply js_split_no_sep|]. right. exists l, []. by rewrite app_nil_r.
    + injection E as <- E. rewrite js_split_app, js_split_no_sep by done.
      destruct (IH k ltac:(by exists rest)) as (n & r & -> & Hr). exists (S n), r. split; [done|exact Hr].
  - exists 0, text. split; [apply js_split_no_sep; set_solver|]. right. by exists (text ++ k), k.
Qed.

(** A cut text says what its whole lines say, and no more. *)
Lemma parse_rest rest more line :
  object_line line → line = rest ++ more → rest ≠ line → parseReplayEntry rest = None.
Proof.
  intros [f ->] E Hne. unfold parseReplayEntry. destruct (negb _); [done|].
  rewrite (parse_cut f rest more); [done|done|]. intros ->. apply Hne. by rewrite E, app_nil_r.
Qed.
Lemma parse_blank : parseReplayEntry [] = None.
Proof. done. Qed.
Lemma line_ops_cut lines text clock :
  Forall object_line lines → text `prefix_of` lines_text lines →
  ∃ n, line_ops clock (js_split 10 text) = line_ops clock (take n lines)
    ∧ lines_clock clock (js_split 10 text) = lines_clock clock (take n lines)
    ∧ length (lines_text (take n lines)) <= S (length text).
Proof.
  intros Hl Hp. assert (Hn : Forall (λ l, 10%N ∉ l) lines) by (eapply Forall_impl; [done|apply object_line_newline]).
  destruct (js_split_cut lines text Hn Hp) as (n & rest & E & Hr).
  assert (Hlen : length (lines_text (take n lines ++ [rest])) = S (length text)).
  { pose proof (js_join_split 10 text) as Hj. rewrite E in Hj. rewrite <- Hj. clear. generalize (take n lines). intros l.
    rewrite lines_text_join by (by destruct l). rewrite length_app. cbn. lia. }
  assert (Hskip : parseReplayEntry rest = None →
    line_ops clock (js_split 10 text) = line_ops clock (take n lines) ∧ lines_clock clock (js_split 10 text) = lines_clock clock (take n lines)).
  { intros Hnone. rewrite E. split.
    - rewrite line_ops_app. cbn. by rewrite Hnone, app_nil_r.
    - clear -Hnone. generalize (take n lines). intros l. revert clock. induction l as [|a l IH]; intros clock; cbn; [by rewrite Hnone|apply IH]. }
  rewrite lines_text_app, length_app in Hlen.
  destruct Hr as [->|(line & more & Hi & El)].
  { exists n. destruct (Hskip parse_blank). split_and!; [done|done|lia]. }
  destruct (decide (rest = line)) as [->|Hne].
  - exists (S n). rewrite (take_S_r _ _ _ Hi), E, lines_text_app, length_app. split_and!; [done|done|lia].
  - exists n. rewrite Forall_lookup in Hl. destruct Hskip as [H1 H2]; [by eapply parse_rest, Hne; [by eapply Hl|]|]. split_and!; [done|done|lia].
Qed.

(** ** The index *)

Definition record_ok (r : ReplaySegmentRecord) : Prop :=
  (0 < sr_length r)%N ∧ 0 < si_entryCount (sr_info r) ∧ (0 <= si_startAtMs (sr_info r) <= si_endAtMs (sr_info r))%Z
  ∧ sr_cutOff r = false ∧ sr_plain r = false.
(** Each segment starts where, and when, the one before ended. *)
Fixpoint chained (indexedEnd : N) (clock : Z) (records : list ReplaySegmentRecord) : Prop :=
  match records with
  | [] => True
  | r :: records =>
      sr_offset r = indexedEnd ∧ record_ok r ∧ (clock <= si_startAtMs (sr_info r))%Z
      ∧ chained (indexedEnd + sr_length r) (si_endAtMs (sr_info r)) records
  end.
Definition records_end (indexedEnd : N) (records : list ReplaySegmentRecord) : N := foldl (λ e r, e + sr_length r)%N indexedEnd records.
Definition record_text (r : ReplaySegmentRecord) : jsstring := json_stringify (jv_obj (record_fields r)).

Lemma record_fields_literal r : object_literal (record_fields r).
Proof.
  split; [apply (bool_decide_unpack _); vm_compute; exact I|]. unfold record_fields. repeat (apply Forall_cons_2; [split; vm_compute; reflexivity|]). constructor.
Qed.
Lemma record_roundtrip r : record_ok r → json_parse (record_text r) ≫= isSegmentRecord = Some r.
Proof.
  intros (Hl & He & Ht & Hc & Hp). unfold record_text. rewrite parse_stringify by apply record_fields_literal. destruct r as [o l [s e n b] c p].
  cbn in *. subst. unfold isSegmentRecord, count_field, num_field.
  change (mget (js "offset") (record_fields _)) with (Some (jv_num (Z.of_N o))).
  change (mget (js "length") (record_fields _)) with (Some (jv_num (Z.of_N l))).
  change (mget (js "startAtMs") (record_fields _)) with (Some (jv_num s)).
  change (mget (js "endAtMs") (record_fields _)) with (Some (jv_num e)).
  change (mget (js "entryCount") (record_fields _)) with (Some (jv_num (Z.of_nat n))).
  change (mget (js "outputBytes") (record_fields _)) with (Some (jv_num (Z.of_N b))). cbv beta iota.
  cbn [mbind option_bind]. rewrite !(proj2 (Z.leb_le _ _)) by lia. cbn [mbind option_bind].
  rewrite !(proj2 (Z.ltb_lt _ _)) by lia. cbn [andb]. rewrite (proj2 (Z.leb_le _ _)) by lia. by rewrite !N2Z.id, Nat2Z.id.
Qed.
(** The index read back gives the records that lie within the file. *)
Lemma parse_index_spec eventsSize indexedEnd clock records rest :
  chained indexedEnd clock records →
  (∀ indexedEnd clock, parse_index eventsSize indexedEnd clock rest = []) →
  ∃ n, parse_index eventsSize indexedEnd clock ((record_text <$> records) ++ rest) = take n records
    ∧ (records_end indexedEnd (take n records) <= N.max indexedEnd eventsSize)%N
    ∧ ((records_end indexedEnd records <= eventsSize)%N → take n records = records).
Proof.
  intros Hch Hrest. revert indexedEnd clock Hch. induction records as [|r records IH]; intros indexedEnd clock Hch.
  - exists 0. cbn in *. rewrite Hrest. split_and!; [done|lia|done].
  - destruct Hch as (Ho & Hok & Hc & Hch). cbn [fmap list_fmap app parse_index].
    rewrite object_line_nonblank by (by eexists). cbn [negb]. rewrite record_roundtrip by done.
    rewrite (proj2 (N.ltb_ge _ _)) by lia. rewrite (proj2 (Z.ltb_ge _ _)) by done. cbn [orb]. rewrite orb_false_r.
    assert (Hmono : ∀ e l, (e <= records_end e l)%N).
    { clear. intros e l. unfold records_end. revert e. induction l as [|r l IH]; intros e; cbn; [lia|]. etrans; [|apply IH]. lia. }
    destruct (N.ltb_spec eventsSize (sr_offset r + sr_length r)) as [Hs|Hs].
    { exists 0. cbn. split_and!; [done|lia|]. intros Hle. exfalso. specialize (Hmono (indexedEnd + sr_length r)%N records). unfold records_end in *. cbn in Hle. lia. }
    rewrite Ho in Hs |- *. destruct (IH (indexedEnd + sr_length r)%N _ Hch) as (n & -> & Hle & Hall).
    exists (S n). cbn [take]. split_and!; [done| |].
    + change (records_end indexedEnd (r :: take n records)) with (records_end (indexedEnd + sr_length r) (take n records)). lia.
    + intros Hle'. f_equal. by apply Hall.
Qed.

Lemma chained_take j indexedEnd clock records : chained indexedEnd clock records → chained indexedEnd clock (take j records).
Proof.
  revert j indexedEnd clock. induction records as [|r records IH]; intros [|j] e c; try done.
  intros (? & ? & ? & H). cbn. split_and!; [done..|by apply IH].
Qed.
(** An index that is cut off, or ahead of the file, gives the first segments that are
    there. *)
Lemma parseReplayIndex_cut records text eventsSize :
  chained 0 0 records → text `prefix_of` lines_text (record_text <$> records) →
  ∃ n, parseReplayIndex text eventsSize = take n records
    ∧ (records_end 0 (take n records) <= eventsSize)%N
    ∧ (text = lines_text (record_text <$> records) → (records_end 0 records <= eventsSize)%N → take n records = records).
Proof.
  intros Hch Hp. unfold parseReplayIndex.
  assert (Hobj : Forall object_line (record_text <$> records)).
  { apply Forall_fmap, Forall_forall. intros r _. by eexists. }
  assert (Hn : Forall (λ l, 10%N ∉ l) (record_text <$> records)) by (eapply Forall_impl; [done|apply object_line_newline]).
  assert (Htake : ∀ j rest, (∀ e c, parse_index eventsSize e c rest = []) →
    ∃ n, parse_index eventsSize 0 0 (take j (record_text <$> records) ++ rest) = take n records
      ∧ (records_end 0 (take n records) <= eventsSize)%N
      ∧ (take j records = records → (records_end 0 records <= eventsSize)%N → take n records = records)).
  { intros j rest Hrest. rewrite <- fmap_take.
    assert (Hch' : chained 0 0 (take j records)).
    { by apply chained_take. }
    destruct (parse_index_spec eventsSize 0 0 (take j records) rest Hch' Hrest) as (n & E & Hle & Hall).
    rewrite take_take in E, Hle, Hall. exists (n `min` j). split_and!; [done|lia|]. intros Ej. rewrite Ej in Hall. by apply Hall. }
  destruct (js_split_cut _ _ Hn Hp) as (j & rest & E & Hr). rewrite E.
  assert (Hfull : text = lines_text (record_text <$> records) → take j records = records ∨ rest ≠ []).
  { intros ->. rewrite js_split_lines in E by done. apply app_inj_tail in E as [E _]. left. apply (f_equal length) in E.
    rewrite length_take, length_fmap in E. apply take_ge. lia. }
  destruct Hr as [->|(line & more & Hi & El)].
  { destruct (Htake j [[]]) as (n & H1 & H2 & H3); [done|]. exists n. split_and!; [done|done|]. intros Ht. destruct (Hfull Ht); [auto|done]. }
  destruct (decide (rest = line)) as [->|Hne].
  - destruct (Htake (S j) []) as (n & H1 & H2 & H3); [done|]. rewrite (take_S_r _ _ _ Hi), app_nil_r in H1. exists n. split_and!; [done|done|].
    intros ->. rewrite js_split_lines in E by done. apply app_inj_tail in E as [_ <-]. rewrite Forall_lookup in Hobj.
    pose proof (object_line_nonblank _ (Hobj _ _ Hi)). done.
  - destruct (Htake j [rest]) as (n & H1 & H2 & H3).
    { intros e c. cbn. destruct (negb _); [done|]. rewrite Forall_lookup in Hobj. destruct (Hobj _ _ Hi) as [f Ef].
      rewrite (parse_cut f rest more); [done|congruence|]. intros ->. apply Hne. by rewrite El, app_nil_r. }
    exists n. split_and!; [done|done|]. intros ->. rewrite js_split_lines in E by done. apply app_inj_tail in E as [E <-].
    apply H3. apply (f_equal length) in E. rewrite length_take, length_fmap in E. apply take_ge. lia.
Qed.
End format.
