(* ===== verification/ReplayWriter.v ===== *)
(** * Writing a recording
      (class ReplayEventsWriter of apps/desktop/src/main/session-replay-events.ts)

    The writer compresses in pieces ("members").  A member that is finished may still have
    output to come when the next one has begun, and the next one may be ready first: only
    the first member writes to the file, the others keep what they put out.  The store of
    members is explicit, because the handlers of a compressor hold its member after it has
    left the queue.  What the compressors, the disk and the caller do is a step relation. *)

From S2P Require Import Prelude Collections ReplayData ReplayFormat.

Record Member := {
  mb_calls : list GzipCall;             (** what [gzip] was asked *)
  mb_out : list N;                      (** what [gzip] has handed out *)
  mb_destroyed : bool;
  mb_waiting : option (list (list N));
  mb_length : N;
  mb_ended : bool;
  mb_startAtMs : Z;
  mb_endAtMs : Z;
  mb_entryCount : nat;
  mb_outputBytes : N;
  mb_textBytes : N;
}.

Record ReplayEventsWriter := {
  wr_heap : list Member;                (** every member, in the order of creation *)
  wr_members : list nat;
  wr_current : option nat;
  wr_batch : list jsstring;
  wr_batchBytes : N;
  wr_dirty : bool;
  wr_nextOffset : N;
  wr_ending : bool;
  wr_failed : bool;                     (** [failedError !== null] *)
  wr_errors : nat;                      (** how often [onError] was called *)
  wr_segments : list ReplaySegmentRecord;
  wr_file : list N;                     (** what was written to the file *)
  wr_fileEnded : bool;                  (** [file.writableEnded] *)
  wr_fileDestroyed : bool;
  wr_index : jsstring;                  (** what was written to the index *)
}.

Definition update_member (f : Member → Member) (id : nat) (w : ReplayEventsWriter) : ReplayEventsWriter :=
  {| wr_heap := alter f id (wr_heap w); wr_members := wr_members w; wr_current := wr_current w; wr_batch := wr_batch w;
     wr_batchBytes := wr_batchBytes w; wr_dirty := wr_dirty w; wr_nextOffset := wr_nextOffset w; wr_ending := wr_ending w;
     wr_failed := wr_failed w; wr_errors := wr_errors w; wr_segments := wr_segments w; wr_file := wr_file w;
     wr_fileEnded := wr_fileEnded w; wr_fileDestroyed := wr_fileDestroyed w; wr_index := wr_index w |}.
Definition set_current (current : option nat) (w : ReplayEventsWriter) : ReplayEventsWriter :=
  {| wr_heap := wr_heap w; wr_members := wr_members w; wr_current := current; wr_batch := wr_batch w;
     wr_batchBytes := wr_batchBytes w; wr_dirty := wr_dirty w; wr_nextOffset := wr_nextOffset w; wr_ending := wr_ending w;
     wr_failed := wr_failed w; wr_errors := wr_errors w; wr_segments := wr_segments w; wr_file := wr_file w;
     wr_fileEnded := wr_fileEnded w; wr_fileDestroyed := wr_fileDestroyed w; wr_index := wr_index w |}.
Definition set_batch (batch : list jsstring) (batchBytes : N) (w : ReplayEventsWriter) : ReplayEventsWriter :=
  {| wr_heap := wr_heap w; wr_members := wr_members w; wr_current := wr_current w; wr_batch := batch;
     wr_batchBytes := batchBytes; wr_dirty := wr_dirty w; wr_nextOffset := wr_nextOffset w; wr_ending := wr_ending w;
     wr_failed := wr_failed w; wr_errors := wr_errors w; wr_segments := wr_segments w; wr_file := wr_file w;
     wr_fileEnded := wr_fileEnded w; wr_fileDestroyed := wr_fileDestroyed w; wr_index := wr_index w |}.
Definition set_dirty (dirty : bool) (w : ReplayEventsWriter) : ReplayEventsWriter :=
  {| wr_heap := wr_heap w; wr_members := wr_members w; wr_current := wr_current w; wr_batch := wr_batch w;
     wr_batchBytes := wr_batchBytes w; wr_dirty := dirty; wr_nextOffset := wr_nextOffset w; wr_ending := wr_ending w;
     wr_failed := wr_failed w; wr_errors := wr_errors w; wr_segments := wr_segments w; wr_file := wr_file w;
     wr_fileEnded := wr_fileEnded w; wr_fileDestroyed := wr_fileDestroyed w; wr_index := wr_index w |}.
Definition file_write (bytes : list N) (w : ReplayEventsWriter) : ReplayEventsWriter :=
  {| wr_heap := wr_heap w; wr_members := wr_members w; wr_current := wr_current w; wr_batch := wr_batch w;
     wr_batchBytes := wr_batchBytes w; wr_dirty := wr_dirty w; wr_nextOffset := wr_nextOffset w; wr_ending := wr_ending w;
     wr_failed := wr_failed w; wr_errors := wr_errors w; wr_segments := wr_segments w; wr_file := wr_file w ++ bytes;
     wr_fileEnded := wr_fileEnded w; wr_fileDestroyed := wr_fileDestroyed w; wr_index := wr_index w |}.
Definition file_end (w : ReplayEventsWriter) : ReplayEventsWriter :=
  {| wr_heap := wr_heap w; wr_members := wr_members w; wr_current := wr_current w; wr_batch := wr_batch w;
     wr_batchBytes := wr_batchBytes w; wr_dirty := wr_dirty w; wr_nextOffset := wr_nextOffset w; wr_ending := wr_ending w;
     wr_failed := wr_failed w; wr_errors := wr_errors w; wr_segments := wr_segments w; wr_file := wr_file w;
     wr_fileEnded := true; wr_fileDestroyed := wr_fileDestroyed w; wr_index := wr_index w |}.
Definition set_ending (w : ReplayEventsWriter) : ReplayEventsWriter :=
  {| wr_heap := wr_heap w; wr_members := wr_members w; wr_current := wr_current w; wr_batch := wr_batch w;
     wr_batchBytes := wr_batchBytes w; wr_dirty := wr_dirty w; wr_nextOffset := wr_nextOffset w; wr_ending := true;
     wr_failed := wr_failed w; wr_errors := wr_errors w; wr_segments := wr_segments w; wr_file := wr_file w;
     wr_fileEnded := wr_fileEnded w; wr_fileDestroyed := wr_fileDestroyed w; wr_index := wr_index w |}.

Definition new_writer : ReplayEventsWriter :=
  {| wr_heap := []; wr_members := []; wr_current := None; wr_batch := []; wr_batchBytes := 0; wr_dirty := false;
     wr_nextOffset := 0; wr_ending := false; wr_failed := false; wr_errors := 0; wr_segments := []; wr_file := [];
     wr_fileEnded := false; wr_fileDestroyed := false; wr_index := [] |}.

(** [fail(error)] *)
Definition destroy_member (m : Member) : Member :=
  {| mb_calls := mb_calls m; mb_out := mb_out m; mb_destroyed := true; mb_waiting := mb_waiting m; mb_length := mb_length m;
     mb_ended := mb_ended m; mb_startAtMs := mb_startAtMs m; mb_endAtMs := mb_endAtMs m; mb_entryCount := mb_entryCount m;
     mb_outputBytes := mb_outputBytes m; mb_textBytes := mb_textBytes m |}.
Definition fail (w : ReplayEventsWriter) : ReplayEventsWriter :=
  if wr_failed w then w else
  {| wr_heap := foldl (λ heap id, alter destroy_member id heap) (wr_heap w) (wr_members w);
     wr_members := []; wr_current := None; wr_batch := [];
     wr_batchBytes := wr_batchBytes w; wr_dirty := wr_dirty w; wr_nextOffset := wr_nextOffset w; wr_ending := wr_ending w;
     wr_failed := true; wr_errors := S (wr_errors w); wr_segments := wr_segments w; wr_file := wr_file w;
     wr_fileEnded := wr_fileEnded w; wr_fileDestroyed := true; wr_index := wr_index w |}.

(** [startMember(atMs)]; the new member's number. *)
Definition startMember (atMs : Z) (w : ReplayEventsWriter) : nat * ReplayEventsWriter :=
  let member := {| mb_calls := []; mb_out := []; mb_destroyed := false;
                   mb_waiting := match wr_members w with [] => None | _ => Some [] end;
                   mb_length := 0; mb_ended := false; mb_startAtMs := atMs; mb_endAtMs := atMs;
                   mb_entryCount := 0; mb_outputBytes := 0; mb_textBytes := 0 |} in
  let id := length (wr_heap w) in
  (id, {| wr_heap := wr_heap w ++ [member]; wr_members := wr_members w ++ [id]; wr_current := wr_current w; wr_batch := wr_batch w;
     wr_batchBytes := wr_batchBytes w; wr_dirty := wr_dirty w; wr_nextOffset := wr_nextOffset w; wr_ending := wr_ending w;
     wr_failed := wr_failed w; wr_errors := wr_errors w; wr_segments := wr_segments w; wr_file := wr_file w;
     wr_fileEnded := wr_fileEnded w; wr_fileDestroyed := wr_fileDestroyed w; wr_index := wr_index w |}).

(** [member.gzip.write], [.flush], [.end] *)
Definition gzip_call (c : GzipCall) (m : Member) : Member :=
  {| mb_calls := mb_calls m ++ [c]; mb_out := mb_out m; mb_destroyed := mb_destroyed m; mb_waiting := mb_waiting m; mb_length := mb_length m;
     mb_ended := mb_ended m; mb_startAtMs := mb_startAtMs m; mb_endAtMs := mb_endAtMs m; mb_entryCount := mb_entryCount m;
     mb_outputBytes := mb_outputBytes m; mb_textBytes := mb_textBytes m |}.
Definition writeBatch (w : ReplayEventsWriter) : ReplayEventsWriter :=
  match wr_current w, wr_batch w with
  | Some id, _ :: _ => set_batch [] 0 (update_member (gzip_call (gz_write (mjoin (wr_batch w)))) id w)
  | _, _ => w
  end.
Definition endCurrent (w : ReplayEventsWriter) : ReplayEventsWriter :=
  match wr_current w with
  | Some id => update_member (gzip_call gz_end) id (set_current None w)
  | None => w
  end.

(** The entry counts for the member it goes to. *)
Definition count_entry (atMs : Z) (outputBytes lineBytes : N) (m : Member) : Member :=
  {| mb_calls := mb_calls m; mb_out := mb_out m; mb_destroyed := mb_destroyed m; mb_waiting := mb_waiting m; mb_length := mb_length m;
     mb_ended := mb_ended m; mb_startAtMs := mb_startAtMs m; mb_endAtMs := atMs; mb_entryCount := S (mb_entryCount m);
     mb_outputBytes := mb_outputBytes m + outputBytes; mb_textBytes := mb_textBytes m + lineBytes |}.
Definition member_textBytes (id : nat) (w : ReplayEventsWriter) : N := from_option mb_textBytes 0%N (wr_heap w !! id).

(** The line goes to the batch of the current member, or of a new one. *)
Definition take_line (line : jsstring) (atMs : Z) (outputBytes : N) (w : ReplayEventsWriter) : nat * ReplayEventsWriter :=
  let '(id, w) := match wr_current w with
                  | Some id => (id, w)
                  | None => let '(id, w) := startMember atMs w in (id, set_current (Some id) w)
                  end in
  let lineBytes := (N.of_nat (length line) + 1)%N in
  let w := update_member (count_entry atMs outputBytes lineBytes) id w in
  (id, set_dirty true (set_batch (wr_batch w ++ [line; [10%N]]) (wr_batchBytes w + lineBytes) w)).
Definition append (segmentBytes : N) (line : jsstring) (atMs : Z) (outputBytes : N) (w : ReplayEventsWriter) : ReplayEventsWriter :=
  if wr_failed w || wr_ending w then w else
  let '(id, w) := take_line line atMs outputBytes w in
  if (segmentBytes <=? member_textBytes id w)%N then endCurrent (writeBatch w)
  else if (WRITE_BATCH_BYTES <=? wr_batchBytes w)%N then writeBatch w else w.

Definition flush (w : ReplayEventsWriter) : ReplayEventsWriter :=
  if wr_failed w || negb (wr_dirty w) then w else
  let w := writeBatch (set_dirty false w) in
  match wr_current w with
  | Some id => if from_option mb_destroyed true (wr_heap w !! id) then w else update_member (gzip_call gz_flush) id w
  | None => w
  end.

Section writer.
Context `{JT : !JsonText, GZ : !Gzip}.
(** Whether the write of the n-th line of the index succeeds. *)
Variable writeSync_ok : nat → bool.

Definition member_record (offset : N) (m : Member) : ReplaySegmentRecord :=
  {| sr_offset := offset; sr_length := mb_length m;
     sr_info := {| si_startAtMs := mb_startAtMs m; si_endAtMs := mb_endAtMs m; si_entryCount := mb_entryCount m; si_outputBytes := mb_outputBytes m |};
     sr_cutOff := false; sr_plain := false |}.
(** [members.shift()], [nextOffset += length] *)
Definition shift (rest : list nat) (m : Member) (w : ReplayEventsWriter) : ReplayEventsWriter :=
  {| wr_heap := wr_heap w; wr_members := rest; wr_current := wr_current w; wr_batch := wr_batch w;
     wr_batchBytes := wr_batchBytes w; wr_dirty := wr_dirty w; wr_nextOffset := wr_nextOffset w + mb_length m; wr_ending := wr_ending w;
     wr_failed := wr_failed w; wr_errors := wr_errors w; wr_segments := wr_segments w; wr_file := wr_file w;
     wr_fileEnded := wr_fileEnded w; wr_fileDestroyed := wr_fileDestroyed w; wr_index := wr_index w |}.
Definition list_record (r : ReplaySegmentRecord) (w : ReplayEventsWriter) : ReplayEventsWriter :=
  {| wr_heap := wr_heap w; wr_members := wr_members w; wr_current := wr_current w; wr_batch := wr_batch w;
     wr_batchBytes := wr_batchBytes w; wr_dirty := wr_dirty w; wr_nextOffset := wr_nextOffset w; wr_ending := wr_ending w;
     wr_failed := wr_failed w; wr_errors := wr_errors w; wr_segments := wr_segments w ++ [r]; wr_file := wr_file w;
     wr_fileEnded := wr_fileEnded w; wr_fileDestroyed := wr_fileDestroyed w; wr_index := wr_index w ++ record_line r |}.
(** The waiting output of the member that is first now. *)
Definition stop_waiting (m : Member) : Member :=
  {| mb_calls := mb_calls m; mb_out := mb_out m; mb_destroyed := mb_destroyed m; mb_waiting := None; mb_length := mb_length m;
     mb_ended := mb_ended m; mb_startAtMs := mb_startAtMs m; mb_endAtMs := mb_endAtMs m; mb_entryCount := mb_entryCount m;
     mb_outputBytes := mb_outputBytes m; mb_textBytes := mb_textBytes m |}.
Definition release (w : ReplayEventsWriter) : ReplayEventsWriter :=
  match head (wr_members w) with
  | Some next =>
      match wr_heap w !! next with
      | Some m =>
          match mb_waiting m with
          | Some waiting => update_member stop_waiting next (foldl (λ w chunk, file_write chunk w) w waiting)
          | None => w
          end
      | None => w
      end
  | None => w
  end.
(** The loop of [drain]; [None] when it has returned out of it. *)
Fixpoint drain_loop (members : list nat) (w : ReplayEventsWriter) : ReplayEventsWriter * bool :=
  match members with
  | [] => (w, false)
  | id :: rest =>
      match wr_heap w !! id with
      | Some m =>
          if mb_ended m then
            let record := member_record (wr_nextOffset w) m in
            let w := shift rest m w in
            if 0 <? mb_entryCount m then
              if writeSync_ok (length (wr_segments w)) then drain_loop rest (release (list_record record w))
              else (fail w, true)
            else drain_loop rest (release w)
          else (w, false)
      | None => (w, false)
      end
  end.
Definition drain (w : ReplayEventsWriter) : ReplayEventsWriter :=
  if wr_failed w then w else
  let '(w, returned) := drain_loop (wr_members w) w in
  if returned then w
  else if wr_ending w && bool_decide (wr_members w = []) && negb (wr_fileEnded w) then file_end w else w.

(** [end()] *)
Definition end_ (w : ReplayEventsWriter) : ReplayEventsWriter :=
  if wr_ending w then w else
  let w := set_ending w in
  if wr_failed w then w else drain (endCurrent (writeBatch w)).

(** The handlers of a compressor: a piece of output, its end. *)
Definition emit (chunk : list N) (m : Member) : Member :=
  {| mb_calls := mb_calls m; mb_out := mb_out m ++ chunk; mb_destroyed := mb_destroyed m; mb_waiting := mb_waiting m; mb_length := mb_length m;
     mb_ended := mb_ended m; mb_startAtMs := mb_startAtMs m; mb_endAtMs := mb_endAtMs m; mb_entryCount := mb_entryCount m;
     mb_outputBytes := mb_outputBytes m; mb_textBytes := mb_textBytes m |}.
Definition take_chunk (chunk : list N) (m : Member) : Member :=
  {| mb_calls := mb_calls m; mb_out := mb_out m; mb_destroyed := mb_destroyed m;
     mb_waiting := (λ waiting, waiting ++ [chunk]) <$> mb_waiting m; mb_length := mb_length m + N.of_nat (length chunk);
     mb_ended := mb_ended m; mb_startAtMs := mb_startAtMs m; mb_endAtMs := mb_endAtMs m; mb_entryCount := mb_entryCount m;
     mb_outputBytes := mb_outputBytes m; mb_textBytes := mb_textBytes m |}.
Definition on_data (id : nat) (chunk : list N) (w : ReplayEventsWriter) : ReplayEventsWriter :=
  if wr_failed w then w else
  let w' := update_member (take_chunk chunk) id w in
  match wr_heap w !! id with
  | Some m => match mb_waiting m with Some _ => w' | None => file_write chunk w' end
  | None => w'
  end.
Definition set_ended (m : Member) : Member :=
  {| mb_calls := mb_calls m; mb_out := mb_out m; mb_destroyed := mb_destroyed m; mb_waiting := mb_waiting m; mb_length := mb_length m;
     mb_ended := true; mb_startAtMs := mb_startAtMs m; mb_endAtMs := mb_endAtMs m; mb_entryCount := mb_entryCount m;
     mb_outputBytes := mb_outputBytes m; mb_textBytes := mb_textBytes m |}.
Definition on_end (id : nat) (w : ReplayEventsWriter) : ReplayEventsWriter := drain (update_member set_ended id w).

(** ** What happens to a writer *)

(** A line the caller appends. *)
Record Line := { ln_text : jsstring; ln_atMs : Z; ln_outputBytes : N }.
Variable line_ok : Line → Prop.
Variable segmentBytes : N.

Record WriterWorld := { ww_writer : ReplayEventsWriter; ww_log : list Line }.
Implicit Types ww : WriterWorld.

Definition last_atMs (log : list Line) : Z := from_option ln_atMs 0%Z (last log).
(** The compressors are free to hand out what they have when they like, in any pieces; what
    they were told to finish ends when all of it is out.  The log is what the writer has
    accepted. *)
Inductive wstep ww : WriterWorld → Prop :=
| ws_append l :
    line_ok l → (last_atMs (ww_log ww) <= ln_atMs l)%Z →
    wstep ww {| ww_writer := append segmentBytes (ln_text l) (ln_atMs l) (ln_outputBytes l) (ww_writer ww);
                ww_log := if wr_failed (ww_writer ww) || wr_ending (ww_writer ww) then ww_log ww else ww_log ww ++ [l] |}
| ws_flush : wstep ww {| ww_writer := flush (ww_writer ww); ww_log := ww_log ww |}
| ws_end : wstep ww {| ww_writer := end_ (ww_writer ww); ww_log := ww_log ww |}
| ws_data id m chunk :
    wr_heap (ww_writer ww) !! id = Some m → mb_destroyed m = false → mb_ended m = false → chunk ≠ [] →
    mb_out m ++ chunk `prefix_of` gz (mb_calls m) →
    wstep ww {| ww_writer := on_data id chunk (update_member (emit chunk) id (ww_writer ww)); ww_log := ww_log ww |}
| ws_gzip_end id m :
    wr_heap (ww_writer ww) !! id = Some m → mb_destroyed m = false → mb_ended m = false →
    gz_end ∈ mb_calls m → mb_out m = gz (mb_calls m) →
    wstep ww {| ww_writer := on_end id (ww_writer ww); ww_log := ww_log ww |}
| ws_error : wstep ww {| ww_writer := fail (ww_writer ww); ww_log := ww_log ww |}.

Definition wreachable : WriterWorld → Prop := rtc wstep {| ww_writer := new_writer; ww_log := [] |}.
End writer.
