(* ===== verification/ReplayWriterInvariant.v ===== *)
(** * What always holds of a recording that is being written

    [Content]: every line the writer has accepted is in one member or in the batch of the
    last one.  [Queue]: the file is the output of the finished members and of the first
    unfinished one, the index lists the finished ones.  [OnDisk] is what a reader of the
    two files can rely on; it holds after a failure too. *)

From S2P Require Import Prelude Collections ReplayData ReplayFormat ReplayWriter.

(** A finished member: what its compressor was told before the end, and its lines. *)
Abbreviation Piece := (list GzipCall * list Line)%type.

Section invariant.
Context `{JT : !JsonText, GZ : !Gzip}.
Variable writeSync_ok : nat → bool.
Variable segmentBytes : N.
Implicit Types w : ReplayEventsWriter.
Implicit Types m : Member.

(** A line is well below the longest string there is. *)
Definition MAX_LINE : N := 2 ^ 28.
Definition line_ok (l : Line) : Prop :=
  object_line (ln_text l) ∧ is_ascii (ln_text l) ∧ (N.of_nat (length (ln_text l)) < MAX_LINE)%N ∧ (0 <= ln_atMs l)%Z
  ∧ ∀ e, parseReplayEntry (ln_text l) = Some e → en_atMs e = ln_atMs l.

Definition part_text (lines : list Line) : jsstring := lines_text (ln_text <$> lines).
Definition total_output (lines : list Line) : N := foldl (λ n l, n + ln_outputBytes l)%N 0%N lines.

Record member_ok (is_open : bool) (pending : jsstring) m (lines : list Line) : Prop := {
  mo_text : calls_text (mb_calls m) ++ (if is_open then pending else []) = part_text lines;
  mo_calls : if is_open then calls_open (mb_calls m) else ∃ c, mb_calls m = c ++ [gz_end] ∧ calls_open c;
  mo_out : mb_out m `prefix_of` gz (mb_calls m);
  mo_length : mb_length m = N.of_nat (length (mb_out m));
  mo_ended : mb_ended m = true → is_open = false ∧ mb_out m = gz (mb_calls m);
  mo_start : ln_atMs <$> head lines = Some (mb_startAtMs m);
  mo_end : ln_atMs <$> last lines = Some (mb_endAtMs m);
  mo_count : mb_entryCount m = length lines;
  mo_outputBytes : mb_outputBytes m = total_output lines;
  mo_textBytes : mb_textBytes m = N.of_nat (length (part_text lines));
  mo_destroyed : mb_destroyed m = false;
}.

Definition is_open w (i : nat) : bool := bool_decide (wr_current w = Some i).
Record Content w (log : list Line) (parts : list (list Line)) : Prop := {
  ct_log : mjoin parts = log;
  ct_length : length (wr_heap w) = length parts;
  ct_member i m lines : wr_heap w !! i = Some m → parts !! i = Some lines → member_ok (is_open w i) (mjoin (wr_batch w)) m lines;
  ct_current id : wr_current w = Some id → S id = length (wr_heap w);
  ct_batch : wr_current w = None → wr_batch w = [];
}.

Definition Sizes w : Prop :=
  ∀ i m, wr_heap w !! i = Some m → (if is_open w i then mb_textBytes m < segmentBytes else mb_textBytes m <= segmentBytes + MAX_LINE)%N.

Fixpoint member_records (offset : N) (ms : list Member) : list ReplaySegmentRecord :=
  match ms with
  | [] => []
  | m :: ms => member_record offset m :: member_records (offset + mb_length m) ms
  end.
Record Queue w (finished : nat) : Prop := {
  qu_le : finished <= length (wr_heap w);
  qu_members : wr_members w = seq finished (length (wr_heap w) - finished);
  qu_done i m : wr_heap w !! i = Some m → i < finished → mb_ended m = true;
  qu_first m : wr_heap w !! finished = Some m → mb_waiting m = None;
  qu_waiting i m : wr_heap w !! i = Some m → finished < i → ∃ chunks, mb_waiting m = Some chunks ∧ mjoin chunks = mb_out m;
  qu_offset : wr_nextOffset w = N.of_nat (length (mjoin (mb_out <$> take finished (wr_heap w))));
  qu_file : wr_file w = mjoin (mb_out <$> take (S finished) (wr_heap w));
  qu_segments : wr_segments w = member_records 0 (take finished (wr_heap w));
  qu_index : wr_index w = lines_text (record_text <$> wr_segments w);
  qu_failed : wr_failed w = false;
}.

(** ** The queue does not see what a member is asked to compress *)

Lemma outs_alter (f : Member → Member) id (heap : list Member) :
  (∀ m, heap !! id = Some m → mb_out (f m) = mb_out m) → mb_out <$> alter f id heap = mb_out <$> heap.
Proof.
  intros Hf. apply list_eq. intros i. rewrite !list_lookup_fmap. destruct (decide (i = id)) as [->|Hne].
  - rewrite list_lookup_alter_eq. destruct (heap !! id) eqn:E; [|done]. cbn. by rewrite Hf.
  - by rewrite list_lookup_alter_ne.
Qed.
Lemma alter_alter (f g : Member → Member) id (heap : list Member) : alter f id (alter g id heap) = alter (f ∘ g) id heap.
Proof.
  apply list_eq. intros i. destruct (decide (id = i)) as [<-|Hne]; [|by rewrite !list_lookup_alter_ne].
  rewrite !list_lookup_alter_eq. by destruct (heap !! id).
Qed.
Lemma take_outs n heap heap' : mb_out <$> heap' = mb_out <$> heap → mb_out <$> take n heap' = mb_out <$> take n heap.
Proof. intros H. by rewrite !fmap_take, H. Qed.
(** Everything of [w] that [Queue] is about, but the members. *)
Definition same_queue w w' : Prop :=
  wr_members w' = wr_members w ∧ wr_nextOffset w' = wr_nextOffset w ∧ wr_file w' = wr_file w ∧ wr_segments w' = wr_segments w
  ∧ wr_index w' = wr_index w ∧ wr_failed w' = wr_failed w.
Lemma Queue_alter w w' finished f id :
  Queue w finished → wr_heap w' = alter f id (wr_heap w) → same_queue w w' → finished <= id →
  (∀ m, wr_heap w !! id = Some m → mb_out (f m) = mb_out m ∧ mb_waiting (f m) = mb_waiting m) → Queue w' finished.
Proof.
  intros [Q1 Q2 Q3 Q4 Q5 Q6 Q7 Q8 Q9 Q10] Hh (E1 & E2 & E3 & E4 & E5 & E6) Hle Hf.
  assert (Ho : mb_out <$> wr_heap w' = mb_out <$> wr_heap w) by (rewrite Hh; apply outs_alter; intros m Hm; by apply Hf).
  assert (Hl : length (wr_heap w') = length (wr_heap w)) by by rewrite Hh, length_alter.
  split; rewrite ?E1, ?E2, ?E3, ?E4, ?E5, ?E6, ?Hl; try done.
  - intros i m. rewrite Hh. intros Hi Hlt. rewrite list_lookup_alter_ne in Hi by lia. by eapply Q3.
  - intros m. rewrite Hh. destruct (decide (id = finished)) as [->|Hne].
    + rewrite list_lookup_alter_eq. destruct (wr_heap w !! finished) as [m0|] eqn:E; [|done]. intros [= <-]. destruct (Hf m0 eq_refl) as [_ ->]. by apply Q4.
    + rewrite list_lookup_alter_ne by done. apply Q4.
  - intros i m. rewrite Hh. destruct (decide (id = i)) as [->|Hne].
    + rewrite list_lookup_alter_eq. destruct (wr_heap w !! i) as [m0|] eqn:E; [|done]. intros [= <-] Hi. destruct (Hf m0 eq_refl) as [-> ->]. by eapply Q5.
    + rewrite list_lookup_alter_ne by done. apply Q5.
  - by rewrite (take_outs _ _ _ Ho).
  - by rewrite (take_outs _ _ _ Ho).
  - by rewrite Hh, take_alter_ge by done.
Qed.
Lemma Queue_same w w' finished : Queue w finished → wr_heap w' = wr_heap w → same_queue w w' → Queue w' finished.
Proof.
  intros [Q1 Q2 Q3 Q4 Q5 Q6 Q7 Q8 Q9 Q10] Hh (E1 & E2 & E3 & E4 & E5 & E6). split; rewrite ?Hh, ?E1, ?E2, ?E3, ?E4, ?E5, ?E6; done.
Qed.
Lemma Queue_push w w' finished m :
  Queue w finished → wr_heap w' = wr_heap w ++ [m] → mb_out m = [] →
  mb_waiting m = match wr_members w with [] => None | _ => Some [] end →
  wr_members w' = wr_members w ++ [length (wr_heap w)] →
  wr_nextOffset w' = wr_nextOffset w → wr_file w' = wr_file w → wr_segments w' = wr_segments w →
  wr_index w' = wr_index w → wr_failed w' = wr_failed w → Queue w' finished.
Proof.
  intros [Q1 Q2 Q3 Q4 Q5 Q6 Q7 Q8 Q9 Q10] Hh Ho Hw E1 E2 E3 E4 E5 E6. pose proof (lookup_app_Some (wr_heap w) [m]) as Happ.
  assert (Hnew : ∀ i m', wr_heap w' !! i = Some m' → wr_heap w !! i = Some m' ∨ (i = length (wr_heap w) ∧ m' = m)).
  { intros i m'. rewrite Hh, Happ. intros [?|[? [? ->]%list_lookup_singleton_Some]]; [by left|right]. split; [lia|done]. }
  assert (Htake : take finished (wr_heap w') = take finished (wr_heap w)) by (rewrite Hh; by apply take_app_le).
  split; rewrite ?E1, ?E2, ?E3, ?E4, ?E5, ?E6, ?Htake, ?Hh; try done.
  - rewrite length_app. cbn. lia.
  - rewrite Q2, length_app. cbn. replace (length (wr_heap w) + 1 - finished) with (S (length (wr_heap w) - finished)) by lia.
    rewrite seq_S. do 2 f_equal. lia.
  - intros i m' Hm' Hi. rewrite <- Hh in Hm'. apply Hnew in Hm' as [Hm'|[-> _]]; [by eapply Q3|lia].
  - intros m' Hm'. rewrite <- Hh in Hm'. apply Hnew in Hm' as [Hm'|[-> ->]]; [by apply Q4|]. by rewrite Hw, Q2, Nat.sub_diag.
  - intros i m' Hm' Hi. rewrite <- Hh in Hm'. apply Hnew in Hm' as [Hm'|[-> ->]]; [by eapply Q5|].
    rewrite Hw, Q2, Ho. destruct (length (wr_heap w) - finished) eqn:E; [lia|]. by exists [].
  - rewrite Q7. destruct (le_lt_dec (length (wr_heap w)) finished) as [Hle|Hlt].
    + rewrite !take_ge by (rewrite ?length_app; cbn; lia). rewrite fmap_app, join_app. cbn. by rewrite Ho, !app_nil_r.
    + by rewrite take_app_le by lia.
Qed.
Lemma open_not_finished w log parts finished id :
  Content w log parts → Queue w finished → wr_current w = Some id → finished <= id.
Proof.
  intros C Q Hc. pose proof (ct_current _ _ _ C _ Hc) as Hid. destruct (le_lt_dec finished id) as [|Hlt]; [done|]. exfalso.
  destruct (lookup_lt_is_Some_2 (wr_heap w) id) as [m Hm]; [lia|]. pose proof (qu_done _ _ Q _ _ Hm Hlt) as He.
  destruct (lookup_lt_is_Some_2 parts id) as [lines Hl]; [rewrite <- (ct_length _ _ _ C); lia|].
  destruct (mo_ended _ _ _ _ (ct_member _ _ _ C _ _ _ Hm Hl) He) as [Ho _]. unfold is_open in Ho. by rewrite bool_decide_eq_false in Ho.
Qed.

(** ** What the caller's operations do *)

Lemma calls_text_snoc calls c : calls_text (calls ++ [c]) = calls_text calls ++ call_text c.
Proof. unfold calls_text. rewrite bind_app. cbn. by rewrite app_nil_r. Qed.
Lemma calls_open_snoc calls c : calls_open calls → c ≠ gz_end → calls_open (calls ++ [c]).
Proof. unfold calls_open. set_solver. Qed.
Lemma gz_out_grows m c : mb_out m `prefix_of` gz (mb_calls m) → mb_out m `prefix_of` gz (mb_calls m ++ [c]).
Proof. intros H. etrans; [exact H|apply gz_grows]. Qed.

Lemma is_open_Some w id i : wr_current w = Some id → is_open w i = bool_decide (id = i).
Proof. unfold is_open. intros ->. apply bool_decide_ext. naive_solver. Qed.
Lemma is_open_None w i : wr_current w = None → is_open w i = false.
Proof. unfold is_open. by intros ->. Qed.

(** A call on the member that takes the lines. *)
Lemma gzip_call_ok pending c m lines :
  member_ok true pending m lines → c ≠ gz_end → call_text c = [] ∨ call_text c = pending →
  member_ok true (if decide (call_text c = []) then pending else []) (gzip_call c m) lines.
Proof.
  intros [M1 M2 M3 M4 M5 M6 M7 M8 M9 M10 M11] Hc Ht. split; cbn [gzip_call mb_calls mb_out mb_length mb_ended mb_startAtMs mb_endAtMs mb_entryCount mb_outputBytes mb_textBytes mb_destroyed]; try done.
  - rewrite calls_text_snoc, <- M1. case_decide as Ed; [by rewrite Ed, app_nil_r|]. destruct Ht as [Ht|Ht]; [done|]. by rewrite Ht, app_nil_r.
  - by apply calls_open_snoc.
  - by apply gz_out_grows.
  - intros He. destruct (M5 He). done.
Qed.
Lemma gzip_end_ok m lines : member_ok true [] m lines → member_ok false [] (gzip_call gz_end m) lines.
Proof.
  intros [M1 M2 M3 M4 M5 M6 M7 M8 M9 M10 M11]. split; cbn [gzip_call mb_calls mb_out mb_length mb_ended mb_startAtMs mb_endAtMs mb_entryCount mb_outputBytes mb_textBytes mb_destroyed]; try done.
  - rewrite calls_text_snoc, <- M1. cbn [call_text]. by rewrite !app_nil_r.
  - eauto.
  - by apply gz_out_grows.
  - intros He. by destruct (M5 He).
Qed.
(** What is pending matters to the open member only. *)
Lemma member_ok_closed pending pending' m lines : member_ok false pending m lines → member_ok false pending' m lines.
Proof. by intros []. Qed.

Lemma Content_open w log parts id m lines :
  Content w log parts → wr_current w = Some id → wr_heap w !! id = Some m → parts !! id = Some lines →
  member_ok true (mjoin (wr_batch w)) m lines.
Proof. intros C Hc Hm Hl. pose proof (ct_member _ _ _ C _ _ _ Hm Hl) as H. rewrite (is_open_Some _ _ _ Hc), bool_decide_eq_true_2 in H; done. Qed.
(** Changing the open member alone. *)
Lemma Content_alter w w' log parts f id :
  Content w log parts → wr_current w = Some id → wr_heap w' = alter f id (wr_heap w) →
  wr_current w' = Some id ∨ (wr_current w' = None ∧ wr_batch w' = []) →
  (∀ m lines, member_ok true (mjoin (wr_batch w)) m lines → member_ok (is_open w' id) (mjoin (wr_batch w')) (f m) lines) →
  Content w' log parts.
Proof.
  intros C Hc Hh Hc' Hf. pose proof C as [C1 C2 C3 C4 C5]. split; try done.
  - by rewrite Hh, length_alter.
  - intros i m lines. rewrite Hh. destruct (decide (id = i)) as [<-|Hne].
    + rewrite list_lookup_alter_eq. destruct (wr_heap w !! id) as [m0|] eqn:Hm; [|done]. intros [= <-] Hl. apply Hf. by eapply Content_open.
    + rewrite list_lookup_alter_ne by done. intros Hm Hl. specialize (C3 _ _ _ Hm Hl).
      rewrite (is_open_Some _ _ _ Hc), bool_decide_eq_false_2 in C3 by done.
      replace (is_open w' i) with false; [by eapply member_ok_closed|].
      destruct Hc' as [Hc'|[Hc' _]]; [rewrite (is_open_Some _ _ _ Hc'); by rewrite bool_decide_eq_false_2|by rewrite is_open_None].
  - intros i Hi. rewrite Hh, length_alter. apply C4. destruct Hc' as [Hc'|[Hc' _]]; congruence.
  - intros Hn. destruct Hc' as [?|[_ ?]]; [congruence|done].
Qed.
Lemma Sizes_alter w w' f id :
  Sizes w → wr_heap w' = alter f id (wr_heap w) → wr_current w' = wr_current w → (∀ m, mb_textBytes (f m) = mb_textBytes m) → Sizes w'.
Proof.
  intros S Hh Hc Hf i m. rewrite Hh. unfold is_open. rewrite Hc. fold (is_open w i). destruct (decide (id = i)) as [<-|Hne].
  - rewrite list_lookup_alter_eq. destruct (wr_heap w !! id) as [m0|] eqn:Hm; [|done]. intros [= <-]. rewrite Hf. by apply S.
  - rewrite list_lookup_alter_ne by done. apply S.
Qed.

Lemma writeBatch_spec w log parts finished :
  Content w log parts → Queue w finished →
  let w' := writeBatch w in
  Content w' log parts ∧ Queue w' finished ∧ wr_batch w' = [] ∧ wr_current w' = wr_current w ∧ wr_ending w' = wr_ending w
  ∧ wr_fileEnded w' = wr_fileEnded w ∧ length (wr_heap w') = length (wr_heap w)
  ∧ (∀ i m, wr_heap w' !! i = Some m → ∃ m0, wr_heap w !! i = Some m0 ∧ mb_textBytes m = mb_textBytes m0).
Proof.
  intros C Q. unfold writeBatch. destruct (wr_current w) as [id|] eqn:Hc.
  2: { cbn zeta. split_and!; [done|done|by apply (ct_batch _ _ _ C)|done|done|done|done|eauto]. }
  destruct (wr_batch w) as [|b batch] eqn:Hb; [cbn zeta; split_and!; [done..|eauto]|]. rewrite <- Hb. cbn zeta.
  split_and!; try done.
  - eapply (Content_alter w _ _ _ _ id C Hc); [reflexivity|by left|]. intros m lines Hm.
    rewrite (is_open_Some _ id) by done. rewrite bool_decide_eq_true_2 by done. cbn [set_batch wr_batch].
    pose proof (gzip_call_ok _ (gz_write (mjoin (wr_batch w))) _ _ Hm ltac:(done) ltac:(by right)) as H.
    cbn [call_text] in H. case_decide as Ed; [|exact H]. by rewrite Ed in H |- *.
  - eapply (Queue_alter w); [done|reflexivity|done|by eapply open_not_finished|done].
  - cbn. by rewrite length_alter.
  - intros i m. cbn [set_batch update_member wr_heap]. destruct (decide (id = i)) as [<-|Hne].
    + rewrite list_lookup_alter_eq. destruct (wr_heap w !! id) as [m0|] eqn:Hm; [|done]. intros [= <-]. by exists m0.
    + rewrite list_lookup_alter_ne by done. eauto.
Qed.
Lemma endCurrent_spec w log parts finished :
  Content w log parts → Queue w finished → wr_batch w = [] →
  let w' := endCurrent w in
  Content w' log parts ∧ Queue w' finished ∧ wr_current w' = None ∧ wr_ending w' = wr_ending w ∧ wr_fileEnded w' = wr_fileEnded w
  ∧ (∀ i m, wr_heap w' !! i = Some m → ∃ m0, wr_heap w !! i = Some m0 ∧ mb_textBytes m = mb_textBytes m0).
Proof.
  intros C Q Hb. unfold endCurrent. destruct (wr_current w) as [id|] eqn:Hc; cbn zeta; [|split_and!; eauto].
  split_and!; try done.
  - eapply (Content_alter w _ _ _ _ id C Hc); [reflexivity|by right|]. intros m lines Hm. rewrite is_open_None by done.
    change (wr_batch (update_member _ _ _)) with (wr_batch w). rewrite Hb in *. by apply gzip_end_ok.
  - eapply (Queue_alter w); [done|reflexivity|done|by eapply open_not_finished|done].
  - intros i m. cbn [set_current update_member wr_heap]. destruct (decide (id = i)) as [<-|Hne].
    + rewrite list_lookup_alter_eq. destruct (wr_heap w !! id) as [m0|] eqn:Hm; [|done]. intros [= <-]. by exists m0.
    + rewrite list_lookup_alter_ne by done. eauto.
Qed.

Lemma part_text_snoc lines l : part_text (lines ++ [l]) = part_text lines ++ (ln_text l ++ [10%N]).
Proof. unfold part_text. rewrite fmap_app, lines_text_app. cbn. by rewrite app_nil_r. Qed.
Lemma total_output_snoc lines l : total_output (lines ++ [l]) = (total_output lines + ln_outputBytes l)%N.
Proof. unfold total_output. by rewrite foldl_app. Qed.
Lemma join_line batch (line : jsstring) : mjoin (batch ++ [line; [10%N]]) = mjoin batch ++ (line ++ [10%N]).
Proof. rewrite join_app. cbn. done. Qed.

(** The member [m], of the lines [lines], takes one more. *)
Lemma count_entry_ok pending m lines l :
  calls_text (mb_calls m) ++ pending = part_text lines → calls_open (mb_calls m) → mb_out m `prefix_of` gz (mb_calls m) →
  mb_length m = N.of_nat (length (mb_out m)) → mb_ended m = false → ln_atMs <$> head (lines ++ [l]) = Some (mb_startAtMs m) →
  mb_entryCount m = length lines → mb_outputBytes m = total_output lines → mb_textBytes m = N.of_nat (length (part_text lines)) →
  mb_destroyed m = false →
  member_ok true (pending ++ (ln_text l ++ [10%N])) (count_entry (ln_atMs l) (ln_outputBytes l) (N.of_nat (length (ln_text l)) + 1) m) (lines ++ [l]).
Proof.
  intros M1 M2 M3 M4 M5 M6 M8 M9 M10 M11.
  split; cbn [count_entry mb_calls mb_out mb_length mb_ended mb_startAtMs mb_endAtMs mb_entryCount mb_outputBytes mb_textBytes mb_destroyed]; try done.
  - by rewrite part_text_snoc, <- M1, app_assoc.
  - by rewrite M5.
  - by rewrite last_snoc.
  - rewrite length_app, M8. cbn. lia.
  - by rewrite total_output_snoc, M9.
  - rewrite part_text_snoc, !length_app, M10. cbn. lia.
Qed.

Lemma take_line_spec w log parts finished l :
  Content w log parts → Queue w finished → Sizes w → line_ok l →
  let '(id, w') := take_line (ln_text l) (ln_atMs l) (ln_outputBytes l) w in
  (∃ parts', Content w' (log ++ [l]) parts') ∧ Queue w' finished ∧ wr_current w' = Some id
  ∧ wr_ending w' = wr_ending w ∧ wr_fileEnded w' = wr_fileEnded w
  ∧ (∀ i m, wr_heap w' !! i = Some m → mb_textBytes m <= segmentBytes + MAX_LINE)%N.
Proof.
  intros C Q S (_ & _ & Hlen & _). unfold take_line. destruct (wr_current w) as [id|] eqn:Hc.
  - (* the current member *)
    pose proof (ct_current _ _ _ C _ Hc) as Hid. pose proof (ct_length _ _ _ C) as Hl.
    destruct (lookup_lt_is_Some_2 (wr_heap w) id) as [m0 Hm0]; [lia|].
    destruct (lookup_lt_is_Some_2 parts id) as [lines0 Hl0]; [lia|].
    assert (Hparts : parts = take id parts ++ [lines0]).
    { rewrite <- (take_S_r _ _ _ Hl0), Hid, Hl, firstn_all. done. }
    split_and!; try done.
    + exists (take id parts ++ [lines0 ++ [l]]). split; cbn [set_dirty set_batch update_member wr_heap wr_current wr_batch].
      * rewrite <- (ct_log _ _ _ C). rewrite Hparts at 2. rewrite !join_app. cbn. by rewrite !app_nil_r, app_assoc.
      * rewrite length_alter, length_app, length_take. cbn. lia.
      * intros i m lines Hm Hli. rewrite (is_open_Some _ id) by done. rewrite join_line.
        pose proof (Content_open _ _ _ _ _ _ C Hc Hm0 Hl0) as M. destruct (decide (id = i)) as [<-|Hne].
        -- rewrite bool_decide_eq_true_2 by done. rewrite list_lookup_alter_eq, Hm0 in Hm. injection Hm as <-.
           rewrite lookup_app_r, length_take, Nat.min_l, Nat.sub_diag in Hli by (rewrite ?length_take; lia). injection Hli as <-.
           destruct M as [M1 M2 M3 M4 M5 M6 M7 M8 M9 M10 M11]. apply count_entry_ok; try done.
           ++ destruct (mb_ended m0); [by destruct (M5 eq_refl)|done].
           ++ by destruct lines0.
        -- rewrite bool_decide_eq_false_2 by done. rewrite list_lookup_alter_ne in Hm by done.
           assert (i < id) by (apply lookup_lt_Some in Hm; lia).
           rewrite lookup_app_l, lookup_take in Hli by (rewrite ?length_take; lia). rewrite decide_True in Hli by done.
           pose proof (ct_member _ _ _ C _ _ _ Hm Hli) as M'. rewrite (is_open_Some _ _ _ Hc), bool_decide_eq_false_2 in M' by done.
           by eapply member_ok_closed.
      * intros i Hi. rewrite length_alter. assert (i = id) as -> by (revert Hi; cbn; rewrite Hc; by intros [= ->]). done.
      * intros Hn. revert Hn. cbn. by rewrite Hc.
    + eapply (Queue_alter w); [done|reflexivity|done|by eapply open_not_finished|done].
    + intros i m. cbn [set_dirty set_batch update_member wr_heap]. destruct (decide (id = i)) as [<-|Hne].
      * rewrite list_lookup_alter_eq, Hm0. intros [= <-]. cbn. pose proof (S _ _ Hm0) as Hs. rewrite (is_open_Some _ _ _ Hc), bool_decide_eq_true_2 in Hs by done. lia.
      * rewrite list_lookup_alter_ne by done. intros Hm. pose proof (S _ _ Hm) as Hs. rewrite (is_open_Some _ _ _ Hc), bool_decide_eq_false_2 in Hs by done. lia.
  - (* a new member *)
    cbn [startMember]. pose proof (ct_batch _ _ _ C Hc) as Hb. pose proof (ct_length _ _ _ C) as Hl.
    set (m0 := {| mb_calls := [] |}). set (n := length (wr_heap w)).
    assert (Hheap : alter (count_entry (ln_atMs l) (ln_outputBytes l) (N.of_nat (length (ln_text l)) + 1)) n (wr_heap w ++ [m0])
                    = wr_heap w ++ [count_entry (ln_atMs l) (ln_outputBytes l) (N.of_nat (length (ln_text l)) + 1) m0]).
    { apply list_eq. intros i. destruct (decide (n = i)) as [<-|Hne].
      - rewrite list_lookup_alter_eq. unfold n. by rewrite !list_lookup_middle.
      - rewrite list_lookup_alter_ne by done. destruct (le_lt_dec n i); [|by rewrite !lookup_app_l by done].
        rewrite !lookup_ge_None_2; [done|rewrite length_app; cbn; unfold n in *; lia..]. }
    split_and!; try done.
    + exists (parts ++ [[l]]). split; cbn [set_dirty set_batch update_member set_current wr_heap wr_current wr_batch]; rewrite ?Hheap.
      * rewrite <- (ct_log _ _ _ C), join_app. done.
      * rewrite !length_app. cbn. lia.
      * intros i m lines Hm Hli. rewrite (is_open_Some _ n) by done. rewrite join_line, Hb. destruct (decide (n = i)) as [<-|Hne].
        -- rewrite bool_decide_eq_true_2 by done. unfold n in Hm, Hli. rewrite list_lookup_middle in Hm by done. rewrite Hl, list_lookup_middle in Hli by done.
           simplify_eq. apply (count_entry_ok [] m0 [] l); try done; [by intros []%elem_of_nil|apply prefix_nil].
        -- rewrite bool_decide_eq_false_2 by done. assert (i < n) by (apply lookup_lt_Some in Hm; rewrite length_app in Hm; cbn in Hm; unfold n in *; lia).
           rewrite lookup_app_l in Hm by done. rewrite lookup_app_l in Hli by (unfold n in *; lia).
           pose proof (ct_member _ _ _ C _ _ _ Hm Hli) as M. rewrite is_open_None in M by done. by eapply member_ok_closed.
      * intros i [= <-]. rewrite length_app. cbn. unfold n. lia.
      * done.
    + eapply (Queue_push w); [done|exact Hheap|done..].
    + intros i m. cbn [set_dirty set_batch update_member set_current wr_heap]. rewrite Hheap. intros [Hm|[Hge Hm]]%lookup_app_Some.
      * pose proof (S _ _ Hm) as Hs. rewrite is_open_None in Hs by done. lia.
      * apply list_lookup_singleton_Some in Hm as [_ <-]. cbn. lia.
Qed.

Definition Live w (log : list Line) (finished : nat) : Prop :=
  (∃ parts, Content w log parts) ∧ Queue w finished ∧ Sizes w.
(** The flags an operation leaves alone. *)
Definition same_flags w w' : Prop := wr_ending w' = wr_ending w ∧ wr_fileEnded w' = wr_fileEnded w.

Lemma Sizes_bound w w' :
  (∀ i m, wr_heap w !! i = Some m → mb_textBytes m <= segmentBytes + MAX_LINE)%N → wr_current w' = None →
  (∀ i m, wr_heap w' !! i = Some m → ∃ m0, wr_heap w !! i = Some m0 ∧ mb_textBytes m = mb_textBytes m0) → Sizes w'.
Proof. intros Hb Hc Hm i m Hi. rewrite is_open_None by done. destruct (Hm _ _ Hi) as (m0 & H0 & ->). by eapply Hb. Qed.
Lemma Sizes_same w w' :
  Sizes w → wr_current w' = wr_current w →
  (∀ i m, wr_heap w' !! i = Some m → ∃ m0, wr_heap w !! i = Some m0 ∧ mb_textBytes m = mb_textBytes m0) → Sizes w'.
Proof.
  intros S Hc Hm i m Hi. destruct (Hm _ _ Hi) as (m0 & H0 & ->). unfold is_open. rewrite Hc. by apply (S i m0).
Qed.

Lemma append_spec w log finished l :
  Live w log finished → wr_failed w = false → wr_ending w = false → line_ok l →
  let w' := append segmentBytes (ln_text l) (ln_atMs l) (ln_outputBytes l) w in
  Live w' (log ++ [l]) finished ∧ same_flags w w' ∧ wr_heap w' ≠ [].
Proof.
  intros ((parts & C) & Q & S) Hf He Hl. unfold append. rewrite Hf, He. cbn [orb].
  pose proof (take_line_spec _ _ _ _ _ C Q S Hl) as Ht. destruct (take_line _ _ _ w) as [id w1].
  destruct Ht as ((parts1 & C1) & Q1 & Hc & E1 & E2 & Hb). cbn zeta.
  destruct (lookup_lt_is_Some_2 (wr_heap w1) id) as [m Hm]; [rewrite <- (ct_current _ _ _ C1 _ Hc); lia|].
  assert (Hne : wr_heap w1 ≠ []) by (intros E; rewrite E in Hm; done).
  destruct (writeBatch_spec _ _ _ _ C1 Q1) as (C2 & Q2 & Hb2 & Hc2 & E3 & E4 & El & Hm2).
  destruct (N.leb_spec segmentBytes (member_textBytes id w1)) as [Hs|Hs].
  - destruct (endCurrent_spec _ _ _ _ C2 Q2 Hb2) as (C3 & Q3 & Hc3 & E5 & E6 & Hm3). split_and!; [|split; congruence|].
    + split_and!; [by eexists|done|]. eapply (Sizes_bound w1); [done|done|]. intros i m3 H3. destruct (Hm3 _ _ H3) as (m2 & H2 & ->). by apply Hm2.
    + intros E%(f_equal length). rewrite (ct_length _ _ _ C3), <- (ct_length _ _ _ C2), El in E. by destruct (wr_heap w1).
  - assert (S1 : Sizes w1).
    { intros i m' Hm'. rewrite (is_open_Some _ _ _ Hc). case_bool_decide as Hi; [|by eapply Hb]. subst i.
      unfold member_textBytes in Hs. rewrite Hm' in Hs. done. }
    destruct (WRITE_BATCH_BYTES <=? wr_batchBytes w1)%N.
    + split_and!; [|split; congruence|intros E; rewrite E in El; by destruct (wr_heap w1)].
      split_and!; [by eexists|done|]. by eapply (Sizes_same w1).
    + split_and!; [|split; congruence|done]. split_and!; [by eexists|done|done].
Qed.

Lemma flush_spec w log finished :
  Live w log finished → let w' := flush w in Live w' log finished ∧ same_flags w w' ∧ wr_members w' = wr_members w ∧ length (wr_heap w') = length (wr_heap w).
Proof.
  intros ((parts & C) & Q & S). unfold flush. destruct (wr_failed w || negb (wr_dirty w)); [split_and!; try done; split_and!; [by eexists|done..]|].
  assert (C0 : Content (set_dirty false w) log parts) by (by destruct C).
  assert (Q0 : Queue (set_dirty false w) finished) by by eapply Queue_same.
  destruct (writeBatch_spec _ _ _ _ C0 Q0) as (C2 & Q2 & Hb2 & Hc2 & E3 & E4 & El & Hm2). cbn zeta.
  assert (S2 : Sizes (writeBatch (set_dirty false w))) by by eapply (Sizes_same w).
  assert (Hmem : wr_members (writeBatch (set_dirty false w)) = wr_members w).
  { rewrite (qu_members _ _ Q2), El. symmetry. apply (qu_members _ _ Q). }
  set (w1 := writeBatch (set_dirty false w)) in *.
  assert (Hdone : Live w1 log finished ∧ same_flags w w1 ∧ wr_members w1 = wr_members w ∧ length (wr_heap w1) = length (wr_heap w)).
  { split_and!; [|done..]. split_and!; [by eexists|done|done]. }
  destruct (wr_current w1) as [id|] eqn:Hc; [|done]. destruct (from_option mb_destroyed true _); [done|].
  split_and!; [|done|done|cbn; by rewrite length_alter]. split_and!.
  - exists parts. eapply (Content_alter w1 _ _ _ _ id C2 Hc); [reflexivity|by left|]. intros m lines Hm.
    rewrite (is_open_Some _ id) by done. rewrite bool_decide_eq_true_2 by done. change (wr_batch (update_member _ _ _)) with (wr_batch w1).
    rewrite Hb2 in *. apply (gzip_call_ok [] gz_flush) in Hm; [exact Hm|done|by left].
  - eapply (Queue_alter w1); [done|reflexivity|done|by eapply open_not_finished|done].
  - eapply (Sizes_alter w1); [done|reflexivity|done|done].
Qed.

(** ** What the compressors do *)

Lemma Content_member w w' log parts f id :
  Content w log parts → wr_heap w' = alter f id (wr_heap w) → wr_current w' = wr_current w → wr_batch w' = wr_batch w →
  (∀ m lines, wr_heap w !! id = Some m → member_ok (is_open w id) (mjoin (wr_batch w)) m lines →
     member_ok (is_open w id) (mjoin (wr_batch w)) (f m) lines) →
  Content w' log parts.
Proof.
  intros [C1 C2 C3 C4 C5] Hh Hc Hb Hf. split; rewrite ?Hc, ?Hb; try done.
  - by rewrite Hh, length_alter.
  - intros i m lines. unfold is_open. rewrite Hc. fold (is_open w i). rewrite Hh. destruct (decide (id = i)) as [<-|Hne].
    + rewrite list_lookup_alter_eq. destruct (wr_heap w !! id) as [m0|] eqn:Hm; [|done]. intros [= <-] Hl. apply Hf; [done|by eapply C3].
    + rewrite list_lookup_alter_ne by done. apply C3.
  - intros i Hi. rewrite Hh, length_alter. by apply C4.
Qed.
Lemma member_ok_length w log parts i m : Content w log parts → wr_heap w !! i = Some m → mb_length m = N.of_nat (length (mb_out m)).
Proof.
  intros C Hm. destruct (lookup_lt_is_Some_2 parts i) as [lines Hl]; [rewrite <- (ct_length _ _ _ C); by eapply lookup_lt_Some|].
  apply (mo_length _ _ _ _ (ct_member _ _ _ C _ _ _ Hm Hl)).
Qed.

Lemma foldl_file_write chunks w : foldl (λ w chunk, file_write chunk w) w chunks = file_write (mjoin chunks) w.
Proof.
  revert w. induction chunks as [|c chunks IH]; intros w; cbn [foldl]; [destruct w; unfold file_write; cbn; by rewrite app_nil_r|].
  rewrite IH. unfold file_write. cbn. by rewrite <- app_assoc.
Qed.
Lemma member_records_app offset a b :
  member_records offset (a ++ b) = member_records offset a ++ member_records (foldl (λ o m, o + mb_length m)%N offset a) b.
Proof. revert offset. induction a as [|m a IH]; intros offset; [done|]. cbn. by rewrite IH. Qed.
Lemma offset_outs offset ms :
  Forall (λ m, mb_length m = N.of_nat (length (mb_out m))) ms →
  foldl (λ o m, o + mb_length m)%N offset ms = (offset + N.of_nat (length (mjoin (mb_out <$> ms))))%N.
Proof.
  intros H. revert offset. induction H as [|m ms Hm _ IH]; intros offset; cbn [foldl]; [by rewrite N.add_0_r|].
  rewrite IH, fmap_cons. change (mjoin (mb_out m :: (mb_out <$> ms))) with (mb_out m ++ mjoin (mb_out <$> ms)). rewrite length_app, Hm. lia.
Qed.

(** *** The queue moves on *)

Lemma seq_cons_inv a n id rest : id :: rest = seq a n → id = a ∧ rest = seq (S a) (n - 1) ∧ 0 < n.
Proof. destruct n as [|n]; [done|]. cbn. intros [= -> ->]. rewrite Nat.sub_0_r. split_and!; [done|done|lia]. Qed.

Definition advance_queue (rest : list nat) m w : ReplayEventsWriter :=
  release (list_record (member_record (wr_nextOffset w) m) (shift rest m w)).

Lemma release_spec w (next : nat) m :
  head (wr_members w) = Some next → wr_heap w !! next = Some m →
  release w = match mb_waiting m with
              | Some waiting => update_member stop_waiting next (file_write (mjoin waiting) w)
              | None => w
              end.
Proof. intros Hh Hm. unfold release. rewrite Hh, Hm. destruct (mb_waiting m) as [ws|]; [|done]. by rewrite foldl_file_write. Qed.

Lemma stop_waiting_ok o pending m lines : member_ok o pending m lines → member_ok o pending (stop_waiting m) lines.
Proof. by intros []. Qed.

Lemma advance_queue_spec w log finished id rest m :
  Live w log finished → wr_members w = id :: rest → wr_heap w !! id = Some m → mb_ended m = true →
  let w' := advance_queue rest m w in
  Live w' log (S finished) ∧ same_flags w w' ∧ wr_members w' = rest ∧ wr_current w' = wr_current w ∧ wr_batch w' = wr_batch w
  ∧ length (wr_heap w') = length (wr_heap w).
Proof.
  intros ((parts & C) & Q & HS) Hmem Hm He. pose proof Q as [Q1 Q2 Q3 Q4 Q5 Q6 Q7 Q8 Q9 Q10].
  rewrite Hmem in Q2. apply seq_cons_inv in Q2 as (-> & Hrest & Hlt).
  set (w1 := list_record (member_record (wr_nextOffset w) m) (shift rest m w)).
  assert (Hrel : advance_queue rest m w =
    match wr_heap w !! S finished with
    | Some next => update_member stop_waiting (S finished) (file_write (mb_out next) w1)
    | None => w1
    end).
  { unfold advance_queue. fold w1. destruct (wr_heap w !! S finished) as [next|] eqn:Hn.
    - rewrite (release_spec w1 (S finished) next); [| |done].
      + by destruct (Q5 _ _ Hn ltac:(lia)) as (chunks & -> & ->).
      + change (wr_members w1) with rest. rewrite Hrest. apply lookup_lt_Some in Hn. by destruct (_ - 1) eqn:E; [lia|].
    - apply lookup_ge_None in Hn. unfold release. change (wr_members w1) with rest. rewrite Hrest. by replace (_ - 1) with 0 by lia. }
  rewrite Hrel. set (w' := match wr_heap w !! S finished with Some _ => _ | None => _ end).
  assert (Hh : wr_heap w' = alter stop_waiting (S finished) (wr_heap w)).
  { unfold w'. destruct (wr_heap w !! S finished) eqn:Hn; [done|]. change (wr_heap w1) with (wr_heap w). symmetry.
    apply list_eq. intros i. destruct (decide (S finished = i)) as [<-|Hne]; [by rewrite list_lookup_alter_eq, Hn|by rewrite list_lookup_alter_ne]. }
  assert (Hfr : wr_members w' = rest ∧ wr_current w' = wr_current w ∧ wr_batch w' = wr_batch w ∧ wr_nextOffset w' = (wr_nextOffset w + mb_length m)%N
     ∧ wr_segments w' = wr_segments w ++ [member_record (wr_nextOffset w) m]
     ∧ wr_index w' = wr_index w ++ record_line (member_record (wr_nextOffset w) m) ∧ wr_failed w' = false
     ∧ wr_file w' = wr_file w ++ from_option mb_out [] (wr_heap w !! S finished) ∧ same_flags w w').
  { unfold w'. destruct (wr_heap w !! S finished); cbn; rewrite ?app_nil_r; by split_and!. }
  destruct Hfr as (F1 & F2 & F3 & F4 & F5 & F6 & F7 & F8 & F9).
  assert (Hout : mb_out <$> wr_heap w' = mb_out <$> wr_heap w) by (rewrite Hh; by apply outs_alter).
  assert (Hlen : length (wr_heap w') = length (wr_heap w)) by by rewrite Hh, length_alter.
  assert (Hml : mb_length m = N.of_nat (length (mb_out m))) by by eapply member_ok_length.
  cbn zeta. split_and!; try done. split_and!.
  - exists parts. eapply (Content_member w); [done|exact Hh|done|done|]. intros m0 lines _. apply stop_waiting_ok.
  - split; rewrite ?F1, ?F4, ?F5, ?F6, ?F7, ?F8, ?Hlen, ?(take_outs _ _ _ Hout).
    + lia.
    + rewrite Hrest. f_equal. lia.
    + intros i m'. rewrite Hh. intros Hi Hle. rewrite list_lookup_alter_ne in Hi by lia.
      destruct (decide (i = finished)) as [->|]; [congruence|]. eapply Q3; [done|lia].
    + intros m'. rewrite Hh, list_lookup_alter_eq. destruct (wr_heap w !! S finished); [|done]. by intros [= <-].
    + intros i m'. rewrite Hh. intros Hi Hle. rewrite list_lookup_alter_ne in Hi by lia. eapply Q5; [done|lia].
    + rewrite (take_S_r _ _ _ Hm), fmap_app, join_app, length_app, Q6, Hml. cbn. rewrite app_nil_r. lia.
    + rewrite Q7. destruct (wr_heap w !! S finished) as [next|] eqn:Hn; cbn [from_option].
      * rewrite (take_S_r _ _ _ Hn), fmap_app, join_app. cbn. by rewrite app_nil_r.
      * apply lookup_ge_None in Hn. rewrite !take_ge by lia. by rewrite app_nil_r.
    + rewrite Hh, take_alter_ge by lia. rewrite (take_S_r _ _ _ Hm), member_records_app, Q8. cbn. do 2 f_equal.
      rewrite offset_outs, Q6; [done|]. apply Forall_forall. intros m' (i & Hi)%list_elem_of_lookup. apply lookup_take_Some in Hi as [Hi _].
      by eapply member_ok_length.
    + rewrite fmap_app, lines_text_app, Q9. cbn. by rewrite app_nil_r.
    + done.
  - eapply (Sizes_same w); [done|done|]. intros i m'. rewrite Hh. destruct (decide (S finished = i)) as [<-|Hne].
    + rewrite list_lookup_alter_eq. destruct (wr_heap w !! S finished) as [m0|]; [|done]. intros [= <-]. by exists m0.
    + rewrite list_lookup_alter_ne by done. eauto.
Qed.

(** The first member of the queue has not ended. *)
Definition head_open w : Prop := ∀ id m, head (wr_members w) = Some id → wr_heap w !! id = Some m → mb_ended m = false.
Lemma member_ok_entry o pending m lines : member_ok o pending m lines → 0 < mb_entryCount m.
Proof. intros M. rewrite (mo_count _ _ _ _ M). pose proof (mo_start _ _ _ _ M). destruct lines; [done|cbn; lia]. Qed.

Lemma drain_loop_spec members w log finished :
  Live w log finished → wr_members w = members →
  let '(w', returned) := drain_loop writeSync_ok members w in
  if returned then wr_failed w' = true ∧ wr_ending w' = wr_ending w ∧ ∃ w0 f, Live w0 log f ∧ wr_file w' = wr_file w0 ∧ wr_index w' = wr_index w0
  else (∃ f, Live w' log f) ∧ same_flags w w' ∧ head_open w' ∧ wr_current w' = wr_current w ∧ length (wr_heap w') = length (wr_heap w).
Proof.
  revert w finished. induction members as [|id rest IH]; intros w finished HL Hmem; cbn [drain_loop].
  { split_and!; [by eexists|done| |done|done]. intros i m Hi. by rewrite Hmem in Hi. }
  pose proof HL as ((parts & C) & Q & HS).
  assert (Hid : is_Some (wr_heap w !! id)).
  { pose proof (qu_members _ _ Q) as E. rewrite Hmem in E. apply seq_cons_inv in E as (-> & _ & ?). apply lookup_lt_is_Some. lia. }
  destruct Hid as [m Hm]. rewrite Hm. destruct (mb_ended m) eqn:He.
  2: { split_and!; [by eexists|done| |done|done]. intros i m' Hi Hm'. rewrite Hmem in Hi. by simplify_eq/=. }
  destruct (lookup_lt_is_Some_2 parts id) as [lines Hl]; [rewrite <- (ct_length _ _ _ C); by eapply lookup_lt_Some|].
  rewrite (proj2 (Nat.ltb_lt _ _)) by (eapply member_ok_entry, (ct_member _ _ _ C); eauto).
  destruct (writeSync_ok _) eqn:Ew.
  - destruct (advance_queue_spec _ _ _ _ _ _ HL Hmem Hm He) as (HL' & Hf & Hmem' & Hc & _ & Hlen).
    specialize (IH _ _ HL' Hmem'). unfold advance_queue in *. destruct (drain_loop _ rest _) as [w' [|]].
    + destruct IH as (? & IHe & ?). split_and!; [done| |done]. rewrite IHe. apply Hf.
    + destruct IH as (? & Hf' & ? & Hc' & Hlen'). split_and!; [done| |done|congruence|congruence]. destruct Hf, Hf'. split; congruence.
  - pose proof (qu_failed _ _ Q) as Hf. unfold fail. change (wr_failed (shift rest m w)) with (wr_failed w). rewrite Hf.
    split_and!; [done|done|]. exists w, finished. done.
Qed.

(** ** The files *)

Definition piece_bytes (p : Piece) : list N := gz (p.1 ++ [gz_end]).
Definition piece_ok (p : Piece) : Prop :=
  p.2 ≠ [] ∧ calls_open p.1 ∧ calls_text p.1 = part_text p.2 ∧ (N.of_nat (length (part_text p.2)) <= segmentBytes + MAX_LINE)%N.
Definition piece_record (offset : N) (p : Piece) : ReplaySegmentRecord :=
  {| sr_offset := offset; sr_length := N.of_nat (length (piece_bytes p));
     sr_info := {| si_startAtMs := from_option ln_atMs 0%Z (head p.2); si_endAtMs := from_option ln_atMs 0%Z (last p.2);
                   si_entryCount := length p.2; si_outputBytes := total_output p.2 |};
     sr_cutOff := false; sr_plain := false |}.
Fixpoint piece_records (offset : N) (pieces : list Piece) : list ReplaySegmentRecord :=
  match pieces with
  | [] => []
  | p :: pieces => piece_record offset p :: piece_records (offset + N.of_nat (length (piece_bytes p))) pieces
  end.
(** The finished pieces, a part of the next one, and what is not in the file yet. *)
Definition OnDisk (file : list N) (index : jsstring) (log : list Line) (pieces : list Piece) (complete : bool) : Prop :=
  ∃ calls lines rest cut,
    log = mjoin (pieces.*2) ++ lines ++ rest ∧ file = mjoin (piece_bytes <$> pieces) ++ cut
    ∧ Forall piece_ok pieces ∧ calls_open calls ∧ calls_text calls `prefix_of` part_text lines ∧ cut `prefix_of` gz (calls ++ [gz_end])
    ∧ index = lines_text (record_text <$> piece_records 0 pieces)
    ∧ (complete = true → lines = [] ∧ rest = [] ∧ cut = []).

Definition finished_ok m (lines : list Line) : Prop :=
  member_ok false [] m lines ∧ mb_ended m = true ∧ (mb_textBytes m <= segmentBytes + MAX_LINE)%N.
Definition piece_of m (lines : list Line) : Piece := (removelast (mb_calls m), lines).
Lemma removelast_snoc {A} (l : list A) x : removelast (l ++ [x]) = l.
Proof. apply removelast_last. Qed.
Lemma piece_of_spec m lines : finished_ok m lines →
  piece_ok (piece_of m lines) ∧ piece_bytes (piece_of m lines) = mb_out m ∧ ∀ offset, piece_record offset (piece_of m lines) = member_record offset m.
Proof.
  intros ([M1 M2 M3 M4 M5 M6 M7 M8 M9 M10 M11] & He & Hs). destruct M2 as (c & Ec & Hc). destruct (M5 He) as [_ Ho].
  assert (Hb : piece_bytes (piece_of m lines) = mb_out m).
  { unfold piece_bytes, piece_of. cbn [fst]. by rewrite Ec, removelast_snoc, <- Ec. }
  split_and!; [|exact Hb|].
  - unfold piece_ok, piece_of. cbn [fst snd]. rewrite Ec, removelast_snoc. split_and!; [by destruct lines|done| |lia].
    rewrite Ec, calls_text_snoc, app_nil_r in M1. cbn in M1. by rewrite app_nil_r in M1.
  - intros offset. unfold piece_record, member_record. rewrite Hb, M4, M8, M9. unfold piece_of. cbn [snd].
    revert M6 M7. destruct (head lines), (last lines); intros H1 H2; simplify_eq/=; by rewrite H1, H2.
Qed.
Lemma pieces_spec ms parts : Forall2 finished_ok ms parts →
  let pieces := zip_with piece_of ms parts in
  pieces.*2 = parts ∧ Forall piece_ok pieces ∧ piece_bytes <$> pieces = mb_out <$> ms ∧ ∀ offset, piece_records offset pieces = member_records offset ms.
Proof.
  intros H. cbn zeta. induction H as [|m lines ms parts Hm _ (IH1 & IH2 & IH3 & IH4)]; [by repeat constructor|].
  destruct (piece_of_spec _ _ Hm) as (H1 & H2 & H3). cbn [zip_with]. split_and!.
  - cbn [fmap list_fmap]. by rewrite IH1.
  - by constructor.
  - rewrite !fmap_cons. by rewrite H2, IH3.
  - intros offset. cbn [piece_records member_records]. rewrite H3, H2, IH4. f_equal. f_equal. by destruct Hm as ([_ _ _ -> _ _ _ _ _ _ _] & _).
Qed.
Lemma Live_finished w log parts finished :
  Content w log parts → Queue w finished → Sizes w → Forall2 finished_ok (take finished (wr_heap w)) (take finished parts).
Proof.
  intros C Q HS. apply Forall2_same_length_lookup. split; [rewrite !length_take, (ct_length _ _ _ C); done|].
  intros i m lines [Hm Hlt]%lookup_take_Some [Hl _]%lookup_take_Some. pose proof (qu_done _ _ Q _ _ Hm Hlt) as He.
  pose proof (ct_member _ _ _ C _ _ _ Hm Hl) as M. destruct (mo_ended _ _ _ _ M He) as [Ho _]. specialize (HS _ _ Hm).
  rewrite Ho in M, HS. split_and!; [by eapply member_ok_closed|done|done].
Qed.
Lemma Live_OnDisk w log finished :
  Live w log finished → ∃ pieces, OnDisk (wr_file w) (wr_index w) log pieces (bool_decide (wr_members w = []))
    ∧ wr_segments w = piece_records 0 pieces.
Proof.
  intros ((parts & C) & Q & HS). pose proof (pieces_spec _ _ (Live_finished _ _ _ _ C Q HS)) as (P1 & P2 & P3 & P4).
  set (pieces := zip_with piece_of _ _) in *. exists pieces. split; [|by rewrite P4, (qu_segments _ _ Q)].
  assert (Hindex : wr_index w = lines_text (record_text <$> piece_records 0 pieces)) by by rewrite P4, <- (qu_segments _ _ Q), <- (qu_index _ _ Q).
  pose proof (qu_members _ _ Q) as Hmem. destruct (wr_heap w !! finished) as [m|] eqn:Hm.
  - destruct (lookup_lt_is_Some_2 parts finished) as [lines Hl]; [rewrite <- (ct_length _ _ _ C); by eapply lookup_lt_Some|].
    pose proof (ct_member _ _ _ C _ _ _ Hm Hl) as M.
    exists (if is_open w finished then mb_calls m else removelast (mb_calls m)), lines, (mjoin (drop (S finished) parts)), (mb_out m).
    split_and!.
    + rewrite <- (ct_log _ _ _ C), P1. rewrite <- (take_drop finished parts) at 1. rewrite (drop_S _ _ _ Hl), join_app. done.
    + rewrite (qu_file _ _ Q), P3, (take_S_r _ _ _ Hm), fmap_app, join_app. cbn. by rewrite app_nil_r.
    + done.
    + pose proof (mo_calls _ _ _ _ M) as Hc. destruct (is_open w finished); [done|]. destruct Hc as (c & -> & Hc). by rewrite removelast_snoc.
    + pose proof (mo_text _ _ _ _ M) as Ht. pose proof (mo_calls _ _ _ _ M) as Hc. destruct (is_open w finished); [by eexists|].
      destruct Hc as (c & Ec & Hc). rewrite Ec, calls_text_snoc in Ht. rewrite Ec, removelast_snoc. exists []. rewrite <- Ht. cbn. by rewrite !app_nil_r.
    + pose proof (mo_out _ _ _ _ M) as Ho. pose proof (mo_calls _ _ _ _ M) as Hc. destruct (is_open w finished); [by apply gz_out_grows|].
      destruct Hc as (c & Ec & Hc). rewrite Ec, removelast_snoc in *. done.
    + done.
    + intros Hcomp%bool_decide_eq_true. rewrite Hcomp in Hmem. apply lookup_lt_Some in Hm. by destruct (length (wr_heap w) - finished) eqn:E; [lia|].
  - apply lookup_ge_None in Hm. exists [], [], [], []. pose proof (ct_length _ _ _ C) as Hlen. split_and!; try done.
    + rewrite <- (ct_log _ _ _ C), P1, take_ge, !app_nil_r by lia. done.
    + rewrite (qu_file _ _ Q), P3, !take_ge by lia. by rewrite app_nil_r.
    + by intros []%elem_of_nil.
    + apply prefix_nil.
Qed.

(** ** The invariant of the steps *)

Record Flags w : Prop := {
  fl_head : head_open w;
  fl_fileEnded : wr_fileEnded w = wr_ending w && bool_decide (wr_members w = []);
  fl_ending : wr_ending w = true → wr_current w = None;
}.
Definition Alive w (log : list Line) : Prop := (∃ finished, Live w log finished) ∧ Flags w.
(** What an operation on a live writer gives: a live writer, or one that has failed with
    its files as they were at some time. *)
Definition alive_or_failed w (log : list Line) : Prop :=
  Alive w log ∨ (wr_failed w = true ∧ ∃ pieces complete, OnDisk (wr_file w) (wr_index w) log pieces complete).

Lemma Live_failed w log finished : Live w log finished → wr_failed w = false.
Proof. intros (_ & Q & _). apply (qu_failed _ _ Q). Qed.
Lemma Live_failing w w' log finished :
  Live w log finished → wr_failed w' = true → wr_file w' = wr_file w → wr_index w' = wr_index w → alive_or_failed w' log.
Proof.
  intros HL Hf Efile Eindex. right. split; [done|]. destruct (Live_OnDisk _ _ _ HL) as (pieces & H & _). rewrite Efile, Eindex. eauto.
Qed.
Lemma fail_spec w log : Alive w log → alive_or_failed (fail w) log.
Proof.
  intros [[f HL] _]. eapply Live_failing; [done|..]; unfold fail; by rewrite (Live_failed _ _ _ HL).
Qed.
Lemma Flags_file_end w : head_open w → (wr_ending w = true → wr_current w = None) → wr_ending w = true → wr_members w = [] → Flags (file_end w).
Proof. intros H1 H2 He Hm. split; [done| |done]. cbn. rewrite He, Hm. done. Qed.
Lemma Live_file_end w log f : Live w log f → Live (file_end w) log f.
Proof. intros ((parts & []) & Q & HS). split_and!; [exists parts; by split|by eapply Queue_same|done]. Qed.

Lemma drain_spec w log finished :
  Live w log finished → (wr_fileEnded w = true → wr_ending w = true ∧ wr_members w = []) → (wr_ending w = true → wr_current w = None) →
  alive_or_failed (drain writeSync_ok w) log.
Proof.
  intros HL He Hc. unfold drain. rewrite (Live_failed _ _ _ HL). pose proof (drain_loop_spec _ w log finished HL eq_refl) as H.
  destruct (drain_loop _ _ w) as [w' [|]] eqn:E.
  - destruct H as (Hf & _ & w0 & f & HL0 & Efile & Eindex). by eapply Live_failing.
  - destruct H as ([f HL'] & [E1 E2] & Hh & Ec & _). left.
    destruct (wr_ending w' && bool_decide (wr_members w' = [])) eqn:Eb; cbn [andb].
    + apply andb_true_iff in Eb as [Ee Em%bool_decide_eq_true].
      assert (Hend : wr_ending w' = true → wr_current w' = None) by (rewrite E1, Ec; done).
      destruct (wr_fileEnded w') eqn:Ef; cbn [negb]; (split; [exists f; try apply Live_file_end; done|]); [split; [done| |done]|by apply Flags_file_end].
      by rewrite Ef, Ee, Em.
    + split; [by exists f|]. split; [done| |by rewrite E1, Ec]. rewrite Eb, E2. destruct (wr_fileEnded w) eqn:Ef; [|done].
      exfalso. destruct (He eq_refl) as [He1 He2]. rewrite He2 in E. cbn in E. injection E as <-. rewrite He1, He2 in Eb. done.
Qed.

Lemma end_spec w log : Alive w log → alive_or_failed (end_ writeSync_ok w) log.
Proof.
  intros [[f ((parts & C) & Q & HS)] [F1 F2 F3]]. unfold end_. destruct (wr_ending w) eqn:He; [left; split; [exists f; split_and!; by eauto|split; by rewrite ?He]|].
  pose proof (qu_failed _ _ Q) as Hf. change (wr_failed (set_ending w)) with (wr_failed w). rewrite Hf.
  assert (C0 : Content (set_ending w) log parts) by (by destruct C). assert (Q0 : Queue (set_ending w) f) by by eapply Queue_same.
  destruct (writeBatch_spec _ _ _ _ C0 Q0) as (C2 & Q2 & Hb2 & Hc2 & E3 & E4 & El & Hm2).
  destruct (endCurrent_spec _ _ _ _ C2 Q2 Hb2) as (C3 & Q3 & Hc3 & E5 & E6 & Hm3).
  apply drain_spec with f; [|rewrite E6, E4; cbn; by rewrite F2|done].
  split_and!; [by eexists|done|]. apply (Sizes_bound w); [|done|].
  - intros i m Hm. specialize (HS _ _ Hm). destruct (is_open w i); lia.
  - intros i m H3. destruct (Hm3 _ _ H3) as (m2 & H2 & ->). by apply Hm2.
Qed.

Lemma on_end_spec w log id m :
  Alive w log → wr_heap w !! id = Some m → mb_ended m = false → gz_end ∈ mb_calls m → mb_out m = gz (mb_calls m) →
  alive_or_failed (on_end writeSync_ok id w) log.
Proof.
  intros [[f ((parts & C) & Q & HS)] [F1 F2 F3]] Hm He Hin Hout. unfold on_end.
  assert (Hle : f <= id). { destruct (le_lt_dec f id) as [|Hlt]; [done|]. pose proof (qu_done _ _ Q _ _ Hm Hlt). congruence. }
  assert (Hne : wr_members w ≠ []).
  { rewrite (qu_members _ _ Q). apply lookup_lt_Some in Hm. by destruct (length (wr_heap w) - f) eqn:E; [lia|]. }
  apply drain_spec with f; [|cbn; rewrite F2, bool_decide_eq_false_2, andb_false_r by done; done|done]. split_and!.
  - exists parts. eapply (Content_member w); [done|reflexivity|done|done|]. intros m' lines Hm' M. assert (m' = m) as -> by congruence.
    destruct M as [M1 M2 M3 M4 M5 M6 M7 M8 M9 M10 M11]. split; try done. cbn. intros _. split; [|done].
    destruct (is_open w id); [by destruct M2|done].
  - eapply (Queue_alter w); [done|reflexivity|done|done|done].
  - eapply (Sizes_alter w); [done|reflexivity|done|done].
Qed.

Lemma on_data_spec w log id m chunk :
  Alive w log → wr_heap w !! id = Some m → mb_ended m = false → mb_out m ++ chunk `prefix_of` gz (mb_calls m) →
  Alive (on_data id chunk (update_member (emit chunk) id w)) log.
Proof.
  intros [[f ((parts & C) & Q & HS)] [F1 F2 F3]] Hm He Hpre. pose proof Q as [Q1 Q2 Q3 Q4 Q5 Q6 Q7 Q8 Q9 Q10].
  assert (Hle : f <= id). { destruct (le_lt_dec f id) as [|Hlt]; [done|]. pose proof (Q3 _ _ Hm Hlt). congruence. }
  set (w' := on_data id chunk (update_member (emit chunk) id w)).
  assert (Hfr : wr_heap w' = alter (take_chunk chunk ∘ emit chunk) id (wr_heap w) ∧ wr_members w' = wr_members w ∧ wr_current w' = wr_current w
    ∧ wr_batch w' = wr_batch w ∧ wr_nextOffset w' = wr_nextOffset w ∧ wr_segments w' = wr_segments w ∧ wr_index w' = wr_index w ∧ wr_failed w' = false
    ∧ wr_ending w' = wr_ending w ∧ wr_fileEnded w' = wr_fileEnded w
    ∧ wr_file w' = wr_file w ++ match mb_waiting m with Some _ => [] | None => chunk end).
  { unfold w', on_data. change (wr_failed (update_member _ _ w)) with (wr_failed w). rewrite Q10.
    change (wr_heap (update_member (emit chunk) id w)) with (alter (emit chunk) id (wr_heap w)). rewrite list_lookup_alter_eq, Hm. cbn [fmap option_fmap option_map].
    change (mb_waiting (emit chunk m)) with (mb_waiting m). destruct (mb_waiting m); cbn; rewrite ?alter_alter, ?app_nil_r; by split_and!. }
  destruct Hfr as (E1 & E2 & E3 & E4 & E5 & E6 & E7 & E8 & E9 & E10 & E11). split; [exists f; split_and!|].
  - exists parts. eapply (Content_member w); [done|exact E1|done|done|]. intros m' lines Hm' M. assert (m' = m) as -> by congruence.
    destruct M as [M1 M2 M3 M4 M5 M6 M7 M8 M9 M10 M11]. split; try done; cbn.
    + rewrite M4, length_app. lia.
    + by rewrite He.
  - assert (Hh : ∀ i m', wr_heap w' !! i = Some m' → (i = id ∧ m' = take_chunk chunk (emit chunk m)) ∨ (i ≠ id ∧ wr_heap w !! i = Some m')).
    { intros i m'. rewrite E1. destruct (decide (id = i)) as [<-|Hne]; [rewrite list_lookup_alter_eq, Hm; intros [= <-]; by left|].
      rewrite list_lookup_alter_ne by done. by right. }
    assert (Hlen : length (wr_heap w') = length (wr_heap w)) by by rewrite E1, length_alter.
    assert (Htake : ∀ n, n <= id → take n (wr_heap w') = take n (wr_heap w)) by (intros n Hn; rewrite E1; by apply take_alter_ge).
    split; rewrite ?E2, ?E5, ?E6, ?E7, ?E8, ?Hlen, ?(Htake f Hle); try done.
    + intros i m' [[-> ->]|[_ Hi]]%Hh Hlt; [lia|by eapply Q3].
    + intros m' [[<- ->]|[_ Hi]]%Hh; [|by apply Q4]. cbn. by rewrite (Q4 _ Hm).
    + intros i m' [[-> ->]|[_ Hi]]%Hh Hlt; [|by eapply Q5]. destruct (Q5 _ _ Hm Hlt) as (chunks & Ew & Eo). exists (chunks ++ [chunk]).
      cbn. rewrite Ew. split; [done|]. rewrite join_app, Eo. cbn. by rewrite app_nil_r.
    + rewrite E11, Q7. destruct (decide (f = id)) as [->|Hne].
      * rewrite (Q4 _ Hm), (take_S_r _ _ _ Hm). rewrite (take_S_r (wr_heap w') _ (take_chunk chunk (emit chunk m))) by (by rewrite E1, list_lookup_alter_eq, Hm).
        rewrite Htake, !fmap_app, !join_app by done. cbn. by rewrite !app_nil_r, app_assoc.
      * destruct (Q5 _ _ Hm ltac:(lia)) as (chunks & -> & _). rewrite app_nil_r, Htake by lia. done.
  - eapply (Sizes_same w); [done|done|]. intros i m'. rewrite E1. destruct (decide (id = i)) as [<-|Hne].
    + rewrite list_lookup_alter_eq, Hm. intros [= <-]. by exists m.
    + rewrite list_lookup_alter_ne by done. eauto.
  - split; rewrite ?E2, ?E3, ?E9, ?E10; [|done|done]. intros i m' Hi. rewrite E2 in Hi. rewrite E1. destruct (decide (id = i)) as [<-|Hne].
    + rewrite list_lookup_alter_eq, Hm. by intros [= <-].
    + rewrite list_lookup_alter_ne by done. by apply F1.
Qed.

(** The caller's operations end no member. *)
Definition ended_from w w' : Prop :=
  ∀ i m', wr_heap w' !! i = Some m' → mb_ended m' = true → ∃ m, wr_heap w !! i = Some m ∧ mb_ended m = true.
Lemma ended_from_alter w w' f id :
  wr_heap w' = alter f id (wr_heap w) → (∀ m, mb_ended (f m) = mb_ended m) → ended_from w w'.
Proof.
  intros E Hf i m'. rewrite E. destruct (decide (id = i)) as [<-|Hne]; [|rewrite list_lookup_alter_ne by done; eauto].
  rewrite list_lookup_alter_eq. destruct (wr_heap w !! id) as [m|]; [|done]. intros [= <-]. rewrite Hf. eauto.
Qed.
Lemma ended_from_refl w w' : wr_heap w' = wr_heap w → ended_from w w'.
Proof. intros E i m'. rewrite E. eauto. Qed.
Lemma ended_from_trans w1 w2 w3 : ended_from w1 w2 → ended_from w2 w3 → ended_from w1 w3.
Proof. intros H1 H2 i m3 Hm He. destruct (H2 _ _ Hm He) as (m2 & Hm2 & He2). eauto. Qed.
Lemma writeBatch_ended w : ended_from w (writeBatch w).
Proof.
  unfold writeBatch. destruct (wr_current w); [|by apply ended_from_refl]. destruct (wr_batch w); [by apply ended_from_refl|].
  by eapply ended_from_alter.
Qed.
Lemma endCurrent_ended w : ended_from w (endCurrent w).
Proof. unfold endCurrent. destruct (wr_current w); [|by apply ended_from_refl]. by eapply ended_from_alter. Qed.
Lemma take_line_ended line atMs outputBytes w : ended_from w (take_line line atMs outputBytes w).2.
Proof.
  unfold take_line. destruct (wr_current w) as [id|]; [by eapply ended_from_alter|].
  cbn [startMember snd]. match goal with |- ended_from _ ?w' => set (w'' := w') end. intros i m' Hm He.
  destruct (le_lt_dec (length (wr_heap w)) i) as [Hle|Hlt].
  - exfalso. revert Hm He. unfold w''. cbn [set_dirty set_batch update_member set_current wr_heap].
    destruct (decide (i = length (wr_heap w))) as [->|Hne].
    + rewrite list_lookup_alter_eq, list_lookup_middle by done. by intros [= <-].
    + rewrite list_lookup_alter_ne by done. rewrite lookup_ge_None_2; [done|]. rewrite length_app. cbn. lia.
  - revert Hm. unfold w''. cbn [set_dirty set_batch update_member set_current wr_heap]. rewrite list_lookup_alter_ne, lookup_app_l by lia. eauto.
Qed.
Lemma append_ended line atMs outputBytes w : ended_from w (append segmentBytes line atMs outputBytes w).
Proof.
  unfold append. destruct (_ || _); [by apply ended_from_refl|]. pose proof (take_line_ended line atMs outputBytes w) as H.
  destruct (take_line _ _ _ w) as [id w1]. cbn [snd] in H. eapply ended_from_trans; [exact H|].
  case_match; [eapply ended_from_trans; [apply writeBatch_ended|apply endCurrent_ended]|]. case_match; [apply writeBatch_ended|by apply ended_from_refl].
Qed.
Lemma flush_ended w : ended_from w (flush w).
Proof.
  unfold flush. destruct (_ || _); [by apply ended_from_refl|].
  assert (H : ended_from w (writeBatch (set_dirty false w))) by (eapply ended_from_trans; [by eapply (ended_from_refl _ (set_dirty false w))|apply writeBatch_ended]).
  case_match; [|done]. case_match; [done|]. eapply ended_from_trans; [exact H|]. by eapply ended_from_alter.
Qed.
Lemma head_open_from w w' log finished :
  head_open w → ended_from w w' → Live w log finished → Queue w' finished → head_open w'.
Proof.
  intros Hh He (_ & Q & _) Q' id m' Hi Hm'. destruct (mb_ended m') eqn:E; [|done]. exfalso.
  destruct (He _ _ Hm' E) as (m & Hm & Em). rewrite (qu_members _ _ Q') in Hi.
  assert (id = finished) as -> by (destruct (length (wr_heap w') - finished); [done|cbn in Hi; congruence]).
  rewrite (Hh finished m) in Em; [done| |done]. rewrite (qu_members _ _ Q). apply lookup_lt_Some in Hm.
  by destruct (length (wr_heap w) - finished) eqn:E'; [lia|].
Qed.

(** *** Every step *)

Fixpoint timed (clock : Z) (log : list Line) : Prop :=
  match log with
  | [] => True
  | l :: log => (clock <= ln_atMs l)%Z ∧ timed (ln_atMs l) log
  end.
Lemma timed_snoc clock log l :
  timed clock log → (from_option ln_atMs clock (last log) <= ln_atMs l)%Z → timed clock (log ++ [l]).
Proof.
  revert clock. induction log as [|a log IH]; intros clock; cbn [app timed]; [done|]. intros [Ha Ht] Hl. split; [done|]. apply IH; [done|].
  rewrite last_cons in Hl. by destruct (last log).
Qed.

Implicit Types ww : WriterWorld.
Record WriterInv ww : Prop := {
  wi_lines : Forall line_ok (ww_log ww);
  wi_timed : timed 0 (ww_log ww);
  wi_state : alive_or_failed (ww_writer ww) (ww_log ww);
}.
Lemma writer_start : WriterInv {| ww_writer := new_writer; ww_log := [] |}.
Proof.
  split; [constructor|done|]. left. split; [|by split].
  exists 0. split_and!; [exists []; by split|by split|done].
Qed.
Lemma failed_step w w' log :
  alive_or_failed w log → (wr_failed w = true → wr_failed w' = true ∧ wr_file w' = wr_file w ∧ wr_index w' = wr_index w) →
  (Alive w log → alive_or_failed w' log) → alive_or_failed w' log.
Proof.
  intros [Ha|[Hf H]] H1 H2; [by apply H2|]. right. destruct (H1 Hf) as (-> & -> & ->). done.
Qed.
Lemma writer_step ww ww' : WriterInv ww → wstep writeSync_ok line_ok segmentBytes ww ww' → WriterInv ww'.
Proof.
  intros [Hlines Htimed Hst] Hstep. destruct ww as [w log]. cbn [ww_writer ww_log] in *.
  destruct Hstep as [l Hok Hle| | |id m chunk Hm Hd He Hne Hpre|id m Hm Hd He Hin Hout|]; cbn [ww_writer ww_log] in *.
  - destruct (wr_failed w || wr_ending w) eqn:E.
    + unfold append. rewrite E. by split.
    + apply orb_false_iff in E as [Ef Ee]. split; cbn [ww_writer ww_log].
      * apply Forall_app_2; [done|by apply Forall_singleton].
      * apply timed_snoc; [done|]. exact Hle.
      * destruct Hst as [[[f HL] [F1 F2 F3]]|[? _]]; [|congruence]. destruct (append_spec _ _ _ _ HL Ef Ee Hok) as (HL' & [E1 E2] & Hne).
        left. split; [by exists f|]. split.
        -- eapply head_open_from; [done|apply append_ended|done|apply HL'].
        -- rewrite E2, F2, E1, Ee. done.
        -- rewrite E1, Ee. done.
  - split; [done|done|]. cbn [ww_writer ww_log]. apply (failed_step w); [done|intros Hf; unfold flush; by rewrite Hf|].
    intros [[f HL] [F1 F2 F3]]. destruct (flush_spec _ _ _ HL) as (HL' & [E1 E2] & Emem & Elen). left. split; [by exists f|]. split.
    + eapply head_open_from; [done|apply flush_ended|done|apply HL'].
    + by rewrite E1, E2, Emem.
    + rewrite E1. intros He. specialize (F3 He). unfold flush. destruct (_ || _); [done|]. unfold writeBatch. cbn [set_dirty wr_current]. rewrite F3. cbn. by rewrite F3.
  - split; [done|done|]. cbn [ww_writer ww_log]. apply (failed_step w); [done| |apply end_spec].
    intros Hf. unfold end_. destruct (wr_ending w); [done|]. cbn [set_ending wr_failed]. by rewrite Hf.
  - split; [done|done|]. cbn [ww_writer ww_log]. apply (failed_step w); [done| |].
    + intros Hf. unfold on_data. cbn [update_member wr_failed]. by rewrite Hf.
    + intros Ha. left. by eapply on_data_spec.
  - split; [done|done|]. cbn [ww_writer ww_log]. apply (failed_step w); [done| |intros Ha; by eapply on_end_spec].
    intros Hf. unfold on_end, drain. cbn [update_member wr_failed]. by rewrite Hf.
  - split; [done|done|]. cbn [ww_writer ww_log]. apply (failed_step w); [done| |apply fail_spec]. intros Hf. unfold fail. by rewrite Hf.
Qed.
Lemma writer_invariant ww : wreachable writeSync_ok line_ok segmentBytes ww → WriterInv ww.
Proof.
  unfold wreachable. intros H. remember {| ww_writer := new_writer; ww_log := [] |} as start eqn:E. assert (Hs : WriterInv start) by (subst; apply writer_start).
  clear E. induction H; [done|]. eauto using writer_step.
Qed.
End invariant.
