(* ===== verification/ReplayRecording.v ===== *)
(** * What is recorded is what is replayed
      (apps/desktop/src/main/session-replay-service.ts, with [ReplayWriter], [ReplayFormat]
       and [ReplayPlayer])

    The service turns the output and the resizes of a session into lines; the writer puts
    them in files; opening the recording reads the files back.  This file closes the loop:
    what comes back is the list of operations the session received, all of it when the
    recording was closed, a beginning of it when the program died. *)

From S2P Require Import Prelude Collections ReplayData ReplayPlayer ReplayFormat ReplayWriter ReplayWriterInvariant.

(** ** The recording side of the service *)

(** The part of [ActiveRecording] that changes; [ar_open] is [events !== null]. *)
Record ActiveRecording := {
  ar_connectedAtMs : Z;
  ar_lastAtMs : Z;
  ar_open : bool;
  ar_events : ReplayEventsWriter;
}.

Section service.
Context `{JT : !JsonText, GZ : !Gzip, NB : !NodeBase64}.
Variable writeSync_ok : nat → bool.
Implicit Types a : ActiveRecording.

Definition nextEntryAtMs (now : Z) a : Z * ActiveRecording :=
  let atMs := Z.max (ar_lastAtMs a) (now - ar_connectedAtMs a) in
  (atMs, {| ar_connectedAtMs := ar_connectedAtMs a; ar_lastAtMs := atMs; ar_open := ar_open a; ar_events := ar_events a |}).
Definition set_events (events : ReplayEventsWriter) a : ActiveRecording :=
  {| ar_connectedAtMs := ar_connectedAtMs a; ar_lastAtMs := ar_lastAtMs a; ar_open := ar_open a; ar_events := events |}.
Definition appendEntry (fields : list (jsstring * JsonValue)) (atMs : Z) (outputBytes : N) a : ActiveRecording :=
  if ar_open a then set_events (append REPLAY_SEGMENT_BYTES (json_stringify (jv_obj fields)) atMs outputBytes (ar_events a)) a else a.

Definition resize_fields (atMs cols rows : Z) : list (jsstring * JsonValue) :=
  [(js "type", jv_str (js "resize")); (js "atMs", jv_num atMs); (js "cols", jv_num cols); (js "rows", jv_num rows)].
Definition output_fields (atMs : Z) (chunk : list N) : list (jsstring * JsonValue) :=
  [(js "type", jv_str (js "output")); (js "atMs", jv_num atMs); (js "dataBase64", jv_str (b64_encode chunk))].
Definition handleTerminalResize (now cols rows : Z) a : ActiveRecording :=
  let '(atMs, a) := nextEntryAtMs now a in appendEntry (resize_fields atMs cols rows) atMs 0 a.
Definition handleTerminalStream (now : Z) (chunk : list N) a : ActiveRecording :=
  let '(atMs, a) := nextEntryAtMs now a in appendEntry (output_fields atMs chunk) atMs (N.of_nat (length chunk)) a.

(** [onError], and [closeEventsStream]. *)
Definition stop_events a : ActiveRecording :=
  {| ar_connectedAtMs := ar_connectedAtMs a; ar_lastAtMs := ar_lastAtMs a; ar_open := false; ar_events := ar_events a |}.
Definition closeEventsStream a : ActiveRecording :=
  if ar_open a then stop_events (set_events (end_ writeSync_ok (ar_events a)) a) else a.
(** [flushEventStreams], for this recording. *)
Definition flushEvents a : ActiveRecording := if ar_open a then set_events (flush (ar_events a)) a else a.
(** After whatever the compressors and the disk have done to the writer; [onError] has run
    if it has failed. *)
Definition after_event (events : ReplayEventsWriter) a : ActiveRecording :=
  let a := set_events events a in if wr_failed events then stop_events a else a.

Definition startRecording (connectedAtMs : Z) : ActiveRecording :=
  {| ar_connectedAtMs := connectedAtMs; ar_lastAtMs := 0; ar_open := true; ar_events := new_writer |}.

(** What a session has received while it was recorded, at the times of the recording. *)
Definition resize_op (cols rows : Z) : option TermOp :=
  match isTerminalDimension (Some (jv_num cols)), isTerminalDimension (Some (jv_num rows)) with
  | Some cols, Some rows => Some (op_resize cols rows)
  | _, _ => None
  end.

Record Session := { ss_recording : ActiveRecording; ss_received : list (Z * TermOp) }.
Implicit Types s : Session.
Definition accepting a : bool := ar_open a && negb (wr_failed (ar_events a)) && negb (wr_ending (ar_events a)).
Definition receive (atMs : Z) (op : option TermOp) s : list (Z * TermOp) :=
  if accepting (ss_recording s) then ss_received s ++ from_option (λ op, [(atMs, op)]) [] op else ss_received s.

(** A line fits: chunks are far smaller than strings can be. *)
Definition line_fits (fields : list (jsstring * JsonValue)) : Prop :=
  (N.of_nat (length (json_stringify (jv_obj fields))) < MAX_LINE)%N.

Inductive sstep s : Session → Prop :=
| ss_stream now chunk :
    is_bytes chunk → line_fits (output_fields (nextEntryAtMs now (ss_recording s)).1 chunk) →
    sstep s {| ss_recording := handleTerminalStream now chunk (ss_recording s);
               ss_received := receive (nextEntryAtMs now (ss_recording s)).1 (Some (op_output chunk)) s |}
| ss_resize now cols rows :
    line_fits (resize_fields (nextEntryAtMs now (ss_recording s)).1 cols rows) →
    sstep s {| ss_recording := handleTerminalResize now cols rows (ss_recording s);
               ss_received := receive (nextEntryAtMs now (ss_recording s)).1 (resize_op cols rows) s |}
| ss_flush : sstep s {| ss_recording := flushEvents (ss_recording s); ss_received := ss_received s |}
| ss_finalize : sstep s {| ss_recording := closeEventsStream (ss_recording s); ss_received := ss_received s |}
| ss_data id m chunk :
    wr_heap (ar_events (ss_recording s)) !! id = Some m → mb_destroyed m = false → mb_ended m = false → chunk ≠ [] →
    mb_out m ++ chunk `prefix_of` gz (mb_calls m) →
    sstep s {| ss_recording := after_event (on_data id chunk (update_member (emit chunk) id (ar_events (ss_recording s)))) (ss_recording s);
               ss_received := ss_received s |}
| ss_gzip_end id m :
    wr_heap (ar_events (ss_recording s)) !! id = Some m → mb_destroyed m = false → mb_ended m = false →
    gz_end ∈ mb_calls m → mb_out m = gz (mb_calls m) →
    sstep s {| ss_recording := after_event (on_end writeSync_ok id (ar_events (ss_recording s))) (ss_recording s); ss_received := ss_received s |}
| ss_error : sstep s {| ss_recording := after_event (fail (ar_events (ss_recording s))) (ss_recording s); ss_received := ss_received s |}.
Definition sreachable (connectedAtMs : Z) : Session → Prop :=
  rtc sstep {| ss_recording := startRecording connectedAtMs; ss_received := [] |}.

(** ** What a log does to a terminal *)

Definition log_ops (log : list Line) : list (Z * TermOp) :=
  log ≫= λ l, from_option (λ e, [(ln_atMs l, entry_op e)]) [] (parseReplayEntry (ln_text l)).
Lemma log_ops_app (log log' : list Line) : log_ops (log ++ log') = log_ops log ++ log_ops log'.
Proof. apply bind_app. Qed.
Lemma timed_ge clock log l : timed clock log → l ∈ log → (clock <= ln_atMs l)%Z.
Proof.
  revert clock. induction log as [|a log IH]; intros clock; [by intros _ []%elem_of_nil|]. intros [Ha Ht] [->|Hin]%elem_of_cons; [done|].
  specialize (IH _ Ht Hin). lia.
Qed.
Lemma timed_last clock log l : timed clock log → l ∈ log → (ln_atMs l <= from_option ln_atMs clock (last log))%Z.
Proof.
  revert clock. induction log as [|a log IH]; intros clock; [by intros _ []%elem_of_nil|]. intros [Ha Ht] Hin.
  assert (E : from_option ln_atMs clock (last (a :: log)) = from_option ln_atMs (ln_atMs a) (last log)) by (rewrite last_cons; by destruct (last log)).
  rewrite E. apply elem_of_cons in Hin as [->|Hin]; [|by apply IH].
  destruct (last log) as [b|] eqn:Eb; [|done]. cbn. eapply timed_ge; [done|]. by apply last_Some_elem_of.
Qed.
Lemma timed_app clock log log' : timed clock (log ++ log') ↔ timed clock log ∧ timed (from_option ln_atMs clock (last log)) log'.
Proof.
  revert clock. induction log as [|a log IH]; intros clock; [cbn; tauto|]. cbn [app timed]. rewrite IH, last_cons.
  destruct (last log); cbn [from_option]; tauto.
Qed.
Lemma log_ops_elem log op : op ∈ log_ops log → ∃ l, l ∈ log ∧ op.1 = ln_atMs l.
Proof.
  unfold log_ops. intros (l & Hop & Hl)%list_elem_of_bind. exists l. split; [done|]. destruct (parseReplayEntry _); cbn in Hop; [|by apply elem_of_nil in Hop].
  by apply list_elem_of_singleton in Hop as ->.
Qed.
Lemma line_ops_log clock log :
  timed clock log → Forall line_ok log → line_ops clock (ln_text <$> log) = log_ops log.
Proof.
  intros Ht Hl. revert clock Ht. induction Hl as [|l log Hl Hlog IH]; intros clock Ht; [done|]. destruct Ht as [Hc Ht].
  destruct Hl as (_ & _ & _ & _ & Hp). cbn [fmap list_fmap line_ops]. unfold log_ops. cbn [mbind list_bind]. fold (log_ops log).
  destruct (parseReplayEntry (ln_text l)) as [e|] eqn:E; cbn [from_option app].
  - rewrite (Hp _ eq_refl). rewrite Z.max_r by done. f_equal. by apply IH.
  - rewrite <- (IH _ Ht). apply line_ops_clock. intros line e' (l' & -> & Hin)%list_elem_of_fmap He'.
    rewrite Forall_forall in Hlog. destruct (Hlog _ Hin) as (_ & _ & _ & _ & Hp'). rewrite (Hp' _ He'). pose proof (timed_ge _ _ _ Ht Hin). lia.
Qed.

(** ** Reading a finished piece *)

Lemma lines_text_ascii (lines : list jsstring) : Forall is_ascii lines → is_ascii (lines_text lines).
Proof.
  induction 1 as [|l lines Hl _ IH]; [constructor|]. unfold lines_text. cbn [mbind list_bind]. unfold is_ascii in *.
  apply Forall_app_2; [apply Forall_app_2; [done|by apply Forall_singleton]|exact IH].
Qed.
Lemma part_text_ascii lines : Forall line_ok lines → is_ascii (part_text lines).
Proof. intros H. apply lines_text_ascii, Forall_fmap. eapply Forall_impl; [exact H|]. by intros l (_ & ? & _). Qed.
Lemma lines_objects lines : Forall line_ok lines → Forall object_line (ln_text <$> lines).
Proof. intros H. apply Forall_fmap. eapply Forall_impl; [exact H|]. by intros l (? & _). Qed.

Definition segment_of (p : Piece) : SessionReplaySegment :=
  decodeReplaySegment (part_text p.2) (from_option ln_atMs 0%Z (head p.2)).
Definition good_piece (p : Piece) : Prop := piece_ok REPLAY_SEGMENT_BYTES p ∧ Forall line_ok p.2.

Lemma part_string p : good_piece p → (N.of_nat (length (part_text p.2)) <= MAX_STRING)%N.
Proof. intros ((_ & _ & _ & H) & _). unfold MAX_STRING, MAX_LINE, REPLAY_SEGMENT_BYTES in *. lia. Qed.
Lemma read_at_middle (pre mid more : list N) :
  read_at (pre ++ mid ++ more) (N.of_nat (length pre)) (N.of_nat (length mid)) = mid.
Proof. unfold read_at. by rewrite !Nat2N.id, drop_app_length, take_app_length. Qed.
Lemma read_piece pre more p :
  good_piece p →
  readReplaySegment (pre ++ piece_bytes p ++ more) (piece_record (N.of_nat (length pre)) p) = Some (segment_of p).
Proof.
  intros Hp. pose proof (part_string _ Hp) as Hs. destruct Hp as ((_ & Hc & Ht & _) & Hl). unfold readReplaySegment, readSegmentText.
  cbn [piece_record sr_offset sr_length sr_cutOff sr_plain negb]. rewrite read_at_middle. unfold piece_bytes.
  rewrite gunzip_member; [by rewrite Ht|done|rewrite Ht; by apply part_text_ascii|by rewrite Ht].
Qed.
Lemma read_pieces pre more pieces :
  Forall good_piece pieces →
  mapM (readReplaySegment (pre ++ mjoin (piece_bytes <$> pieces) ++ more)) (piece_records (N.of_nat (length pre)) pieces) = Some (segment_of <$> pieces).
Proof.
  intros H. revert pre. induction H as [|p pieces Hp _ IH]; intros pre; [done|]. cbn [piece_records mapM fmap list_fmap].
  change (mjoin (piece_bytes p :: (piece_bytes <$> pieces))) with (piece_bytes p ++ mjoin (piece_bytes <$> pieces)). rewrite <- app_assoc.
  rewrite read_piece by done. cbn [mbind option_bind].
  specialize (IH (pre ++ piece_bytes p)). rewrite <- app_assoc, length_app, Nat2N.inj_add in IH. rewrite IH. done.
Qed.

Lemma segment_of_spec clock p offset :
  good_piece p → timed clock p.2 →
  segment_ok (sr_info (piece_record offset p)) (segment_of p) ∧ segment_ops (segment_of p) = log_ops p.2.
Proof.
  intros Hp Ht. pose proof (part_string _ Hp) as Hs. destruct Hp as ((Hne & _ & _ & _) & Hl).
  assert (Ht' : timed (from_option ln_atMs 0%Z (head p.2)) p.2) by (destruct p.2 as [|l lines]; [done|]; destruct Ht; by split).
  destruct (decodeReplaySegment_spec (part_text p.2) (from_option ln_atMs 0%Z (head p.2))) as [Hi Ho]; [unfold MAX_STRING in Hs; lia|].
  fold (segment_of p) in Hi, Ho. assert (Hops : segment_ops (segment_of p) = log_ops p.2).
  { rewrite Ho. unfold part_text. rewrite js_split_lines by (eapply Forall_impl; [by apply lines_objects|apply object_line_newline]).
    rewrite line_ops_app, line_ops_log by done. cbn. by rewrite app_nil_r. }
  split; [|done]. split; [exact Hi|]. rewrite Hops. intros op Hop. destruct (log_ops_elem _ _ Hop) as (l & Hin & ->). cbn.
  pose proof (timed_last _ _ _ Ht' Hin) as Hle. destruct (last p.2) as [b|] eqn:E; [done|]. apply last_None in E. by rewrite E in Hne.
Qed.

Lemma pieces_timed clock (pieces : list Piece) p :
  timed clock (mjoin pieces.*2) → p ∈ pieces → ∃ c, (clock <= c)%Z ∧ timed c p.2.
Proof.
  revert clock. induction pieces as [|q pieces IH]; intros clock; [by intros _ []%elem_of_nil|]. cbn [fmap list_fmap].
  change (mjoin (q.2 :: pieces.*2)) with (q.2 ++ mjoin pieces.*2). rewrite timed_app. intros [Hq Ht] [->|Hin]%elem_of_cons; [by exists clock|].
  destruct (IH _ Ht Hin) as (c & Hc & Hp). exists c. split; [|done]. destruct (last q.2) as [l|] eqn:E; cbn in Hc; [|done].
  pose proof (timed_ge _ _ l Hq ltac:(by apply last_Some_elem_of)). lia.
Qed.
Lemma pieces_table clock (pieces : list Piece) offset :
  timed clock (mjoin pieces.*2) → Forall good_piece pieces → table_ok clock (sr_info <$> piece_records offset pieces).
Proof.
  intros Ht H. revert clock offset Ht. induction H as [|p pieces ((Hne & _) & _) _ IH]; intros clock offset Ht; [done|].
  change (mjoin (p :: pieces).*2) with (p.2 ++ mjoin pieces.*2) in Ht. apply timed_app in Ht as [Hp Ht]. cbn [piece_records fmap list_fmap table_ok].
  destruct (last p.2) as [b|] eqn:E; [|by apply last_None in E]. cbn [from_option] in Ht.
  split; [|cbn; rewrite E; by apply IH]. cbn. rewrite E. cbn. destruct p.2 as [|a lines] eqn:Ep; [done|]. cbn. split.
  - apply Hp.
  - assert (Hin : b ∈ a :: lines) by by apply last_Some_elem_of. apply elem_of_cons in Hin as [->|Hin]; [done|]. by eapply timed_ge, Hin; apply Hp.
Qed.
Lemma piece_bytes_nonempty p : piece_bytes p ≠ [].
Proof. by apply gz_nonempty. Qed.
Lemma pieces_chained clock (pieces : list Piece) offset :
  (0 <= clock)%Z → timed clock (mjoin pieces.*2) → Forall good_piece pieces → chained offset clock (piece_records offset pieces).
Proof.
  intros H0 Ht H. revert clock offset H0 Ht. induction H as [|p pieces Hp Hps IH]; intros clock offset H0 Ht; [done|].
  pose proof (pieces_table clock (p :: pieces) offset Ht ltac:(by constructor)) as Htab. cbn [piece_records fmap list_fmap table_ok] in Htab. destruct Htab as [Htab _].
  cbn [piece_records chained]. split_and!; [done| |lia|].
  - split_and!; try done; cbn.
    + pose proof (piece_bytes_nonempty p). destruct (piece_bytes p); [done|cbn; lia].
    + destruct Hp as ((Hne & _) & _). destruct p.2; [done|cbn; lia].
    + cbn in Htab. lia.
    + cbn in Htab. lia.
  - change (mjoin (p :: pieces).*2) with (p.2 ++ mjoin pieces.*2) in Ht. apply timed_app in Ht as [_ Ht]. destruct Hp as ((Hne & _) & _).
    cbn. cbn in Htab. destruct (last p.2) eqn:E; [|by apply last_None in E]. apply IH; [cbn in *; lia|exact Ht].
Qed.
Lemma pieces_end offset pieces : records_end offset (piece_records offset pieces) = (offset + N.of_nat (length (mjoin (piece_bytes <$> pieces))))%N.
Proof.
  revert offset. induction pieces as [|p pieces IH]; intros offset; [cbn; lia|]. cbn [piece_records fmap list_fmap].
  change (mjoin (piece_bytes p :: (piece_bytes <$> pieces))) with (piece_bytes p ++ mjoin (piece_bytes <$> pieces)).
  change (records_end offset (?r :: ?rs)) with (records_end (offset + sr_length r) rs). cbn [piece_record sr_length]. rewrite IH, length_app. lia.
Qed.
Lemma piece_records_take n offset pieces : take n (piece_records offset pieces) = piece_records offset (take n pieces).
Proof. revert n offset. induction pieces as [|p pieces IH]; intros [|n] offset; [done..|]. cbn. by rewrite IH. Qed.
Lemma piece_records_last offset pieces :
  from_option (λ r, sr_offset r + sr_length r)%N offset (last (piece_records offset pieces)) = records_end offset (piece_records offset pieces).
Proof.
  revert offset. induction pieces as [|p pieces IH]; intros offset; [done|]. cbn [piece_records]. rewrite last_cons.
  change (records_end offset (?r :: ?rs)) with (records_end (offset + sr_length r) rs). cbn [piece_record sr_length]. rewrite <- IH. by destruct (last _).
Qed.

(** ** Opening the files *)

Definition files (events : list N) (legacy : option jsstring) (index : jsstring) : ReplayEventFiles :=
  {| rf_events := Some events; rf_legacyEvents := legacy; rf_index := Some index |}.
(** What opening the files gives: segments that can all be read and that follow the table,
    and what they do together. *)
Definition opens_as (events : list N) (records : list ReplaySegmentRecord) (ops : list (Z * TermOp)) : Prop :=
  ∃ recording, mapM (readReplaySegment events) records = Some recording
    ∧ recording_ok (sr_info <$> records) recording ∧ recording ≫= segment_ops = ops.

Lemma bind_segments (pieces : list Piece) clock :
  timed clock (mjoin pieces.*2) → Forall good_piece pieces → (segment_of <$> pieces) ≫= segment_ops = log_ops (mjoin pieces.*2).
Proof.
  intros Ht Hg. revert clock Ht. induction Hg as [|p pieces Hp _ IH]; intros clock Ht; [done|].
  change (mjoin (p :: pieces).*2) with (p.2 ++ mjoin pieces.*2) in *. pose proof Ht as Ht'. apply timed_app in Ht as [Htp Ht].
  rewrite log_ops_app. cbn [fmap list_fmap mbind list_bind]. rewrite (IH _ Ht). f_equal. by eapply (segment_of_spec _ _ 0).
Qed.
Lemma pieces_ok (pieces : list Piece) :
  timed 0 (mjoin pieces.*2) → Forall good_piece pieces → recording_ok (sr_info <$> piece_records 0 pieces) (segment_of <$> pieces).
Proof.
  intros Ht Hg.
  assert (Hlen : ∀ offset, length (piece_records offset pieces) = length pieces).
  { clear. induction pieces as [|p pieces IH]; intros offset; [done|]. cbn. by rewrite IH. }
  split; [by rewrite !length_fmap, Hlen|]. split; [exists 0%Z; by apply pieces_table|].
  intros i info s Hi Hs. apply list_lookup_fmap_Some in Hs as (p & -> & Hp). apply list_lookup_fmap_Some in Hi as (r & -> & Hr).
  assert (Hrec : ∃ offset, r = piece_record offset p).
  { clear -Hp Hr. revert i Hp Hr. generalize 0%N. induction pieces as [|q pieces IH]; intros o [|i] Hp Hr; simplify_eq/=; eauto. }
  destruct Hrec as [offset ->]. destruct (pieces_timed 0 pieces p Ht ltac:(by eapply list_elem_of_lookup_2)) as (c & _ & Htp).
  rewrite Forall_lookup in Hg. by eapply segment_of_spec; [eapply Hg|].
Qed.
Lemma pieces_open events more (pieces : list Piece) :
  events = mjoin (piece_bytes <$> pieces) ++ more → timed 0 (mjoin pieces.*2) → Forall good_piece pieces →
  opens_as events (piece_records 0 pieces) (log_ops (mjoin pieces.*2)).
Proof.
  intros -> Ht Hg. exists (segment_of <$> pieces). split_and!; [by apply (read_pieces [] more)|by apply pieces_ok|by eapply bind_segments].
Qed.

Lemma OnDisk_good events index log pieces complete :
  OnDisk REPLAY_SEGMENT_BYTES events index log pieces complete → Forall line_ok log → Forall good_piece pieces.
Proof.
  intros (calls & lines & rest & cut & -> & _ & Hp & _) Hl. apply Forall_app in Hl as [Hl _].
  apply Forall_forall. intros p Hin. split; [rewrite Forall_forall in Hp; by apply Hp|]. apply Forall_forall. intros l Hlin.
  rewrite Forall_forall in Hl. apply Hl, list_elem_of_join. exists p.2. split; [done|]. apply list_elem_of_fmap. eauto.
Qed.
Lemma load_complete events legacy index log pieces :
  OnDisk REPLAY_SEGMENT_BYTES events index log pieces true → timed 0 log → Forall line_ok log →
  loadReplaySegments (files events legacy index) = lp_segments (piece_records 0 pieces)
  ∧ opens_as events (piece_records 0 pieces) (log_ops log).
Proof.
  intros Hd Ht Hl. pose proof (OnDisk_good _ _ _ _ _ Hd Hl) as Hg. destruct Hd as (calls & lines & rest & cut & Elog & Eev & _ & _ & _ & _ & Eix & Hc).
  destruct (Hc eq_refl) as (-> & -> & ->). rewrite app_nil_r in Eev. rewrite !app_nil_r in Elog. subst log. split.
  - pose proof (pieces_chained 0 pieces 0 ltac:(lia) Ht Hg) as Hch.
    destruct (parseReplayIndex_cut _ index (N.of_nat (length events)) Hch) as (n & E & _ & Hall); [by rewrite Eix|].
    rewrite Hall in E; [|done|rewrite pieces_end, Eev; lia]. unfold loadReplaySegments, files. cbn [rf_events rf_index rf_legacyEvents]. rewrite E.
    rewrite piece_records_last, pieces_end, <- Eev. by rewrite (proj2 (Z.leb_le _ _)) by lia.
  - by apply (pieces_open _ []); [rewrite app_nil_r|..].
Qed.

(** *** After a crash *)

Lemma prefix_join {A} (ls : list (list A)) x cut :
  x `prefix_of` mjoin ls ++ cut →
  ∃ j c, x = mjoin (take j ls) ++ c ∧ ((∃ l, ls !! j = Some l ∧ c `prefix_of` l) ∨ (length ls <= j ∧ c `prefix_of` cut)).
Proof.
  revert x. induction ls as [|l ls IH]; intros x Hx; [exists 0, x; split; [done|by right]|].
  change (mjoin (l :: ls)) with (l ++ mjoin ls) in Hx. rewrite <- app_assoc in Hx. destruct Hx as [r E]. symmetry in E.
  apply app_eq_inv in E as [(k & -> & E)|(k & -> & E)].
  - destruct (IH k ltac:(by exists r)) as (j & c & -> & Hc). exists (S j), c. split; [by rewrite app_assoc|].
    destruct Hc as [?|[? ?]]; [by left|right]. cbn. split; [lia|done].
  - exists 0, x. split; [done|]. left. exists (x ++ k). split; [done|by exists k].
Qed.
Lemma calls_text_pieces (pieces : list Piece) :
  Forall good_piece pieces → (pieces.*1 ≫= calls_text) = part_text (mjoin pieces.*2).
Proof.
  induction 1 as [|p pieces ((_ & _ & Hp & _) & _) _ IH]; [done|]. cbn [fmap list_fmap mbind list_bind].
  change (mjoin (p.2 :: pieces.*2)) with (p.2 ++ mjoin pieces.*2). unfold part_text in *. by rewrite fmap_app, lines_text_app, <- IH, Hp.
Qed.
Lemma tail_text (post : list Piece) calls lines tail cut text :
  Forall good_piece post → Forall line_ok lines → calls_open calls → calls_text calls `prefix_of` part_text lines →
  cut `prefix_of` gz (calls ++ [gz_end]) → tail `prefix_of` mjoin (piece_bytes <$> post) ++ cut →
  gunzip_cut tail = Some text → text `prefix_of` part_text (mjoin post.*2 ++ lines).
Proof.
  intros Hg Hl Hc Hct Hcut Htail Ht. destruct (prefix_join _ _ _ Htail) as (j & c & -> & Hj). rewrite <- fmap_take in Ht.
  assert (Hmem : Forall (λ m, calls_open m ∧ is_ascii (calls_text m)) (take j post).*1).
  { apply Forall_fmap, Forall_take. eapply Forall_impl; [exact Hg|]. intros p ((_ & H1 & H2 & _) & H3). split; [done|]. cbn. rewrite H2. by apply part_text_ascii. }
  assert (Hb : piece_bytes <$> take j post = (λ m, gz (m ++ [gz_end])) <$> (take j post).*1) by by rewrite <- list_fmap_compose.
  rewrite Hb in Ht.
  assert (Hsplit : mjoin post.*2 = mjoin (take j post).*2 ++ mjoin (drop j post).*2).
  { rewrite <- join_app, <- fmap_app. by rewrite take_drop. }
  assert (Hgj : Forall good_piece (take j post)) by by apply Forall_take.
  destruct Hj as [(l & Hlj & Hcl)|[Hlen Hcc]].
  - apply list_lookup_fmap_Some in Hlj as (p & -> & Hp). assert (Hgp : good_piece p) by (rewrite Forall_lookup in Hg; by eapply Hg).
    pose proof Hgp as ((_ & H1 & H2 & _) & H3).
    pose proof (gunzip_cut_prefix _ p.1 c text Hmem H1 ltac:(rewrite H2; by apply part_text_ascii) Hcl Ht) as Hpre.
    rewrite calls_text_pieces, H2 in Hpre by done. etrans; [exact Hpre|]. rewrite Hsplit, (drop_S _ _ _ Hp). unfold part_text.
    rewrite !fmap_app, !lines_text_app, fmap_cons. change (mjoin (p.2 :: (drop (S j) post).*2)) with (p.2 ++ mjoin (drop (S j) post).*2).
    rewrite fmap_app, lines_text_app, <- !app_assoc. apply prefix_app, prefix_app_r. done.
  - pose proof (gunzip_cut_prefix _ calls c text Hmem Hc) as Hpre. rewrite calls_text_pieces in Hpre by done.
    rewrite take_ge in Hpre, Ht by (rewrite length_fmap in Hlen; lia).
    etrans; [apply Hpre; [|etrans; [exact Hcc|exact Hcut]|exact Ht]|].
    + destruct Hct as [k Ek]. assert (Ha : is_ascii (part_text lines)) by by apply part_text_ascii. rewrite Ek in Ha. by apply Forall_app in Ha as [? _].
    + unfold part_text. rewrite fmap_app, lines_text_app. by apply prefix_app.
Qed.

(** The summary of the tail. *)
Definition tail_entry (t : Tail) (e : SessionReplayEntry) : Tail :=
  let clock := Z.max (tl_clock t) (en_atMs e) in
  {| tl_entryCount := S (tl_entryCount t); tl_outputBytes := tl_outputBytes t + outputBytesOf e;
     tl_startAtMs := if tl_entryCount t =? 0 then clock else tl_startAtMs t; tl_clock := clock |}.
Lemma tail_line_spec t l : tail_line t l = from_option (tail_entry t) t (parseReplayEntry l).
Proof. unfold tail_line. by destruct (parseReplayEntry l). Qed.
Lemma tail_fold_started t lines :
  0 < tl_entryCount t →
  let t' := foldl tail_line t lines in
  tl_clock t' = lines_clock (tl_clock t) lines ∧ tl_startAtMs t' = tl_startAtMs t ∧ 0 < tl_entryCount t'.
Proof.
  revert t. induction lines as [|l lines IH]; intros t Ht; [done|]. cbn [foldl lines_clock]. rewrite tail_line_spec.
  destruct (parseReplayEntry l) as [e|]; cbn [from_option]; [|by apply IH].
  destruct (IH (tail_entry t e)) as (H1 & H2 & H3); [cbn; lia|].
  cbn zeta. split_and!; [by rewrite H1| |done]. rewrite H2. cbn. by rewrite (proj2 (Nat.eqb_neq _ _)) by lia.
Qed.
Lemma tail_fold prev bytes lines :
  let t := foldl tail_line {| tl_entryCount := 0; tl_outputBytes := bytes; tl_startAtMs := prev; tl_clock := prev |} lines in
  0 < tl_entryCount t →
  tl_clock t = lines_clock (tl_startAtMs t) lines ∧ line_ops (tl_startAtMs t) lines = line_ops prev lines ∧ (prev <= tl_startAtMs t)%Z.
Proof.
  induction lines as [|l lines IH]; [cbn; lia|]. cbn [foldl lines_clock line_ops]. rewrite tail_line_spec.
  destruct (parseReplayEntry l) as [e|]; cbn [from_option]; [|exact IH]. cbn zeta. intros _.
  destruct (tail_fold_started (tail_entry {| tl_entryCount := 0; tl_outputBytes := bytes; tl_startAtMs := prev; tl_clock := prev |} e) lines)
    as (H1 & H2 & _); [cbn; lia|]. rewrite H2, H1. cbn [tail_entry tl_clock tl_startAtMs tl_entryCount Nat.eqb].
  replace (Z.max (Z.max prev (en_atMs e)) (en_atMs e)) with (Z.max prev (en_atMs e)) by lia. split_and!; [done|done|lia].
Qed.
Lemma table_ok_snoc clock infos info :
  table_ok clock infos → (from_option si_endAtMs clock (last infos) <= si_startAtMs info <= si_endAtMs info)%Z → table_ok clock (infos ++ [info]).
Proof.
  revert clock. induction infos as [|a infos IH]; intros clock Hok Hi; [by split|]. destruct Hok as [Ha Hok]. split; [done|]. apply IH; [done|].
  rewrite last_cons in Hi. by destruct (last infos).
Qed.

Lemma opens_snoc events records ops r (s : SessionReplaySegment) :
  opens_as events records ops → readReplaySegment events r = Some s → segment_ok (sr_info r) s →
  (from_option (λ r, si_endAtMs (sr_info r)) 0%Z (last records) <= si_startAtMs (sr_info r) <= si_endAtMs (sr_info r))%Z →
  table_ok 0 (sr_info <$> records) → opens_as events (records ++ [r]) (ops ++ segment_ops s).
Proof.
  intros (recording & Hm & (Hlen & _ & Hok) & <-) Hr Hs Ht Htab. exists (recording ++ [s]). split_and!.
  - apply mapM_Some in Hm. apply mapM_Some, Forall2_app; [done|by repeat constructor].
  - rewrite fmap_app. split; [rewrite !length_app, Hlen; done|]. split.
    + exists 0%Z. apply table_ok_snoc; [done|]. rewrite fmap_last. by destruct (last records).
    + intros i info s' Hi Hs'. apply lookup_app_Some in Hi as [Hi|[Hge Hi]].
      * rewrite lookup_app_l in Hs' by (rewrite Hlen; by eapply lookup_lt_Some). by eapply Hok.
      * rewrite lookup_app_r in Hs' by (by rewrite Hlen). rewrite Hlen in Hs'. apply list_lookup_singleton_Some in Hi as [E <-].
        rewrite E in Hs'. by injection Hs' as <-.
  - rewrite bind_app. cbn. by rewrite app_nil_r.
Qed.
Lemma pieces_last_time clock offset (pieces : list Piece) :
  Forall good_piece pieces →
  from_option (λ r, si_endAtMs (sr_info r)) clock (last (piece_records offset pieces)) = from_option ln_atMs clock (last (mjoin pieces.*2)).
Proof.
  intros H. revert clock offset. induction H as [|p pieces ((Hne & _) & _) _ IH]; intros clock offset; [done|].
  change (mjoin (p :: pieces).*2) with (p.2 ++ mjoin pieces.*2). cbn [piece_records]. rewrite last_cons, last_app.
  specialize (IH (from_option ln_atMs clock (last p.2)) (offset + N.of_nat (length (piece_bytes p)))%N).
  destruct (last p.2) as [b|] eqn:E; [|by apply last_None in E]. cbn [from_option] in *.
  destruct (last (piece_records _ pieces)) as [r|], (last (mjoin pieces.*2)) as [b'|]; cbn [from_option] in *; rewrite ?E; cbn; try done; by rewrite <- ?IH, ?E.
Qed.

Lemma part_text_ops clock log :
  timed clock log → Forall line_ok log → line_ops clock (js_split 10 (part_text log)) = log_ops log.
Proof.
  intros Ht Hl. unfold part_text. rewrite js_split_lines by (eapply Forall_impl; [by apply lines_objects|apply object_line_newline]).
  rewrite line_ops_app, line_ops_log by done. cbn. by rewrite app_nil_r.
Qed.
(** The tail, read as one segment. *)
Lemma read_tail pre_bytes tail prev r log0 :
  summarizeReplayTail (pre_bytes ++ tail) (N.of_nat (length pre_bytes)) (N.of_nat (length tail)) prev = Some r →
  timed prev log0 → Forall line_ok log0 →
  (∀ text, gunzip_cut tail = Some text → text `prefix_of` part_text log0) →
  ∃ (s : SessionReplaySegment) n, readReplaySegment (pre_bytes ++ tail) r = Some s ∧ segment_ok (sr_info r) s
    ∧ (prev <= si_startAtMs (sr_info r) <= si_endAtMs (sr_info r))%Z ∧ segment_ops s = log_ops (take n log0)
    ∧ (gunzip_cut tail = Some (part_text log0) → segment_ops s = log_ops log0).
Proof.
  intros Hr Ht Hl Htext. unfold summarizeReplayTail, readSegmentText in Hr. cbn [negb] in Hr.
  pose proof (read_at_middle pre_bytes tail []) as Hread. rewrite app_nil_r in Hread. rewrite Hread in Hr.
  destruct (gunzip_cut tail) as [text|] eqn:Eg; [|done]. cbn [mbind option_bind] in Hr. specialize (Htext _ eq_refl).
  set (t := foldl tail_line _ (js_split 10 text)) in Hr. destruct (Nat.ltb_spec 0 (tl_entryCount t)) as [Hpos|]; [|done]. injection Hr as <-.
  destruct (tail_fold prev 0%N (js_split 10 text) Hpos) as (H1 & H2 & H3). fold t in H1, H2, H3.
  destruct (line_ops_cut (ln_text <$> log0) text prev) as (n & Hn & _); [by apply lines_objects|exact Htext|].
  pose proof (gunzip_cut_string _ _ Eg) as Hstr.
  destruct (decodeReplaySegment_spec text (tl_startAtMs t)) as [Hi Ho]; [unfold MAX_STRING in Hstr; lia|].
  exists (decodeReplaySegment text (tl_startAtMs t)), n. split_and!.
  - unfold readReplaySegment, readSegmentText. cbn [sr_offset sr_length sr_cutOff sr_plain sr_info si_startAtMs negb]. by rewrite Hread, Eg.
  - split; [exact Hi|]. rewrite Ho. intros op Hop. cbn. rewrite H1. by apply line_ops_times in Hop as [_ ?].
  - exact H3.
  - cbn. rewrite H1. apply lines_clock_le.
  - rewrite Ho, H2, Hn, <- fmap_take. apply line_ops_log; [|by apply Forall_take].
    rewrite <- (take_drop n log0) in Ht. by apply timed_app in Ht as [? _].
  - intros [= ->]. rewrite Ho, H2. by apply part_text_ops.
Qed.
Lemma tail_none prev pre_bytes tail log0 :
  summarizeReplayTail (pre_bytes ++ tail) (N.of_nat (length pre_bytes)) (N.of_nat (length tail)) prev = None →
  timed prev log0 → Forall line_ok log0 → gunzip_cut tail = Some (part_text log0) → log_ops log0 = [].
Proof.
  intros Hr Ht Hl Hg. unfold summarizeReplayTail, readSegmentText in Hr. cbn [negb] in Hr.
  pose proof (read_at_middle pre_bytes tail []) as Hread. rewrite app_nil_r in Hread. rewrite Hread, Hg in Hr. cbn [mbind option_bind] in Hr.
  rewrite <- (part_text_ops prev) by done. revert Hr. generalize (js_split 10 (part_text log0)). intros lines.
  destruct (Nat.ltb_spec 0 (tl_entryCount (foldl tail_line {| tl_entryCount := 0; tl_outputBytes := 0; tl_startAtMs := prev; tl_clock := prev |} lines))) as [|H0]; [done|].
  intros _. induction lines as [|l lines IH]; [done|]. cbn [foldl line_ops] in *. rewrite tail_line_spec in H0.
  destruct (parseReplayEntry l) as [e|]; cbn [from_option] in H0; [|by apply IH]. exfalso.
  destruct (tail_fold_started (tail_entry {| tl_entryCount := 0; tl_outputBytes := 0; tl_startAtMs := prev; tl_clock := prev |} e) lines) as (_ & _ & H1); [cbn; lia|].
  lia.
Qed.
Lemma load_after_crash events0 index0 log pieces complete events index legacy records :
  OnDisk REPLAY_SEGMENT_BYTES events0 index0 log pieces complete → timed 0 log → Forall line_ok log →
  events `prefix_of` events0 → index `prefix_of` index0 →
  loadReplaySegments (files events legacy index) = lp_segments records →
  ∃ n, opens_as events records (log_ops (take n log)).
Proof.
  intros Hd Ht Hl Hev Hix. pose proof (OnDisk_good _ _ _ _ _ Hd Hl) as Hg.
  destruct Hd as (calls & lines & rest & cut & Elog & Eev & _ & Hopen & Hct & Hcut & Eix & _).
  assert (Htp : timed 0 (mjoin pieces.*2)) by (rewrite Elog in Ht; by apply timed_app in Ht as [? _]).
  pose proof (pieces_chained 0 pieces 0 ltac:(lia) Htp Hg) as Hch. rewrite Eix in Hix.
  destruct (parseReplayIndex_cut _ index (N.of_nat (length events)) Hch Hix) as (k & Ek & Hle & _).
  rewrite piece_records_take in Ek, Hle. rewrite pieces_end in Hle.
  set (pre := take k pieces) in *. set (post := drop k pieces).
  assert (Hsplit : mjoin pieces.*2 = mjoin pre.*2 ++ mjoin post.*2) by (rewrite <- join_app, <- fmap_app; unfold pre, post; by rewrite take_drop).
  assert (Hbytes : mjoin (piece_bytes <$> pieces) = mjoin (piece_bytes <$> pre) ++ mjoin (piece_bytes <$> post))
    by (rewrite <- join_app, <- fmap_app; unfold pre, post; by rewrite take_drop).
  assert (Hpre : timed 0 (mjoin pre.*2)) by (rewrite Hsplit in Htp; by apply timed_app in Htp as [? _]).
  assert (Hgpre : Forall good_piece pre) by by apply Forall_take. assert (Hgpost : Forall good_piece post) by by apply Forall_drop.
  (* the file begins with the pieces of the index *)
  rewrite Eev, Hbytes, <- app_assoc in Hev.
  assert (Htail : ∃ tail, events = mjoin (piece_bytes <$> pre) ++ tail ∧ tail `prefix_of` mjoin (piece_bytes <$> post) ++ cut).
  { destruct Hev as [r E]. symmetry in E. apply app_eq_inv in E as [(q & -> & E)|(q & E & _)]; [exists q; split; [done|by exists r]|].
    exists []. rewrite app_nil_r. split; [|apply prefix_nil]. rewrite E in Hle |- *. rewrite length_app in Hle. destruct q; [by rewrite app_nil_r|cbn in Hle; lia]. }
  destruct Htail as (tail & -> & Htail).
  assert (Hindexed : ∃ n, opens_as (mjoin (piece_bytes <$> pre) ++ tail) (piece_records 0 pre) (log_ops (take n log))).
  { exists (length (mjoin pre.*2)). rewrite Elog, Hsplit, <- app_assoc, take_app_length. by eapply pieces_open. }
  unfold loadReplaySegments, files. cbn [rf_events rf_index rf_legacyEvents]. rewrite Ek, piece_records_last, pieces_end, N.add_0_l.
  destruct (Z.leb_spec (Z.of_N (N.of_nat (length (mjoin (piece_bytes <$> pre) ++ tail))) - Z.of_N (N.of_nat (length (mjoin (piece_bytes <$> pre))))) 0); [by intros [= <-]|].
  destruct (Z.leb_spec (Z.of_N (N.of_nat (length (mjoin (piece_bytes <$> pre) ++ tail))) - Z.of_N (N.of_nat (length (mjoin (piece_bytes <$> pre))))) (Z.of_N TAIL_SEGMENT_MAX_BYTES)); [|done].
  set (prev := from_option (λ r, si_endAtMs (sr_info r)) 0%Z (last (piece_records 0 pre))).
  destruct (summarizeReplayTail _ _ _ _) as [r|] eqn:Er; [|by intros [= <-]]. intros [= <-].
  replace (Z.to_N _) with (N.of_nat (length tail)) in Er by (rewrite length_app; lia).
  set (log0 := mjoin post.*2 ++ lines ++ rest).
  assert (Elog0 : log = mjoin pre.*2 ++ log0) by (rewrite Elog, Hsplit; by rewrite <- app_assoc).
  rewrite Elog0 in Ht, Hl. apply timed_app in Ht as [_ Ht0]. apply Forall_app in Hl as [_ Hl0].
  unfold prev in Er. rewrite (pieces_last_time _ _ _ Hgpre) in Er.
  destruct (read_tail _ _ _ _ log0 Er Ht0 Hl0) as (s & n & Hread & Hok & Htimes & Hops & _).
  { intros text Hg'. unfold log0 in Hl0. apply Forall_app in Hl0 as [_ Hl0]. apply Forall_app in Hl0 as [Hll _].
    pose proof (tail_text post calls lines tail cut text Hgpost Hll Hopen Hct Hcut Htail Hg') as Hp. etrans; [exact Hp|].
    unfold log0. rewrite app_assoc. unfold part_text. rewrite (fmap_app _ _ rest), lines_text_app. by apply prefix_app_r. }
  exists (length (mjoin pre.*2) + n). rewrite Elog0, take_app_add, log_ops_app, <- Hops. apply opens_snoc; [by eapply pieces_open|done|done| |by apply pieces_table].
  by rewrite (pieces_last_time _ _ _ Hgpre).
Qed.

(** ** The lines of the service *)

Lemma output_literal atMs chunk : object_literal (output_fields atMs chunk).
Proof.
  split; [refine (bool_decide_unpack (NoDup [js "type"; js "atMs"; js "dataBase64"]) _); vm_compute; exact I|].
  unfold output_fields. repeat (apply Forall_cons_2; [split; vm_compute; reflexivity|]). constructor.
Qed.
Lemma resize_literal atMs cols rows : object_literal (resize_fields atMs cols rows).
Proof.
  split; [refine (bool_decide_unpack (NoDup [js "type"; js "atMs"; js "cols"; js "rows"]) _); vm_compute; exact I|].
  unfold resize_fields. repeat (apply Forall_cons_2; [split; vm_compute; reflexivity|]). constructor.
Qed.
Lemma parse_output_line atMs chunk :
  parseReplayEntry (json_stringify (jv_obj (output_fields atMs chunk))) = Some {| en_atMs := atMs; en_kind := en_output (b64_encode chunk) |}.
Proof.
  unfold parseReplayEntry. rewrite object_line_nonblank by (by eexists). cbn [negb]. rewrite parse_stringify by apply output_literal.
  change (num_field "atMs" (output_fields atMs chunk)) with (Some atMs). cbv beta iota.
  change (type_is "output" (output_fields atMs chunk)) with true. cbv iota. done.
Qed.
Lemma parse_resize_line atMs cols rows :
  parseReplayEntry (json_stringify (jv_obj (resize_fields atMs cols rows))) =
    match isTerminalDimension (Some (jv_num cols)), isTerminalDimension (Some (jv_num rows)) with
    | Some cols, Some rows => Some {| en_atMs := atMs; en_kind := en_resize cols rows |}
    | _, _ => None
    end.
Proof.
  unfold parseReplayEntry. rewrite object_line_nonblank by (by eexists). cbn [negb]. rewrite parse_stringify by apply resize_literal.
  change (num_field "atMs" (resize_fields atMs cols rows)) with (Some atMs). cbv beta iota.
  change (type_is "output" (resize_fields atMs cols rows)) with false. change (type_is "resize" (resize_fields atMs cols rows)) with true. cbv iota.
  change (mget (js "cols") (resize_fields atMs cols rows)) with (Some (jv_num cols)).
  change (mget (js "rows") (resize_fields atMs cols rows)) with (Some (jv_num rows)). done.
Qed.
Definition output_line atMs chunk : Line :=
  {| ln_text := json_stringify (jv_obj (output_fields atMs chunk)); ln_atMs := atMs; ln_outputBytes := N.of_nat (length chunk) |}.
Definition resize_line atMs cols rows : Line :=
  {| ln_text := json_stringify (jv_obj (resize_fields atMs cols rows)); ln_atMs := atMs; ln_outputBytes := 0 |}.
Lemma output_line_ok atMs chunk : is_bytes chunk → line_fits (output_fields atMs chunk) → (0 <= atMs)%Z → line_ok (output_line atMs chunk).
Proof.
  intros Hb Hf H0. split_and!; [by eexists| |exact Hf|done|].
  - apply stringify_ascii; [apply output_literal|]. unfold output_fields. repeat (apply Forall_cons_2; cbn [scalar_ascii snd]; [|]); try done.
    by apply b64_encode_ascii.
  - intros e. cbn [output_line ln_text]. rewrite parse_output_line. by intros [= <-].
Qed.
Lemma resize_line_ok atMs cols rows : line_fits (resize_fields atMs cols rows) → (0 <= atMs)%Z → line_ok (resize_line atMs cols rows).
Proof.
  intros Hf H0. split_and!; [by eexists| |exact Hf|done|].
  - apply stringify_ascii; [apply resize_literal|]. unfold resize_fields. repeat (apply Forall_cons_2; cbn [scalar_ascii snd]; [|]); try done.
  - intros e. cbn [resize_line ln_text]. rewrite parse_resize_line. repeat case_match; intros; by simplify_eq/=.
Qed.
Lemma output_line_ops atMs chunk : is_bytes chunk → log_ops [output_line atMs chunk] = [(atMs, op_output chunk)].
Proof. intros Hb. unfold log_ops. cbn [mbind list_bind output_line ln_text ln_atMs]. rewrite parse_output_line. cbn. unfold entry_op. cbn. by rewrite b64_decode_encode. Qed.
Lemma resize_line_ops atMs cols rows : log_ops [resize_line atMs cols rows] = from_option (λ op, [(atMs, op)]) [] (resize_op cols rows).
Proof.
  unfold log_ops. cbn [mbind list_bind resize_line ln_text ln_atMs]. rewrite parse_resize_line. unfold resize_op. by repeat case_match.
Qed.

(** ** The session is the log of its writer *)

Abbreviation writer_reachable := (wreachable writeSync_ok line_ok REPLAY_SEGMENT_BYTES).
Record SessionInv s (log : list Line) : Prop := {
  si_writer : writer_reachable {| ww_writer := ar_events (ss_recording s); ww_log := log |};
  si_received : ss_received s = log_ops log;
  si_clock : (last_atMs log <= ar_lastAtMs (ss_recording s))%Z;
  si_nonneg : (0 <= ar_lastAtMs (ss_recording s))%Z;
}.
Lemma after_event_events events a : ar_events (after_event events a) = events ∧ ar_lastAtMs (after_event events a) = ar_lastAtMs a.
Proof. unfold after_event. by destruct (wr_failed events). Qed.
Lemma writer_step_reachable ww ww' : writer_reachable ww → wstep writeSync_ok line_ok REPLAY_SEGMENT_BYTES ww ww' → writer_reachable ww'.
Proof. intros H1 H2. eapply rtc_r; [exact H1|exact H2]. Qed.
Lemma append_entry_inv s log l fields op (atMs : Z) :
  SessionInv s log → ln_text l = json_stringify (jv_obj fields) → ln_atMs l = atMs → line_ok l →
  (ar_lastAtMs (ss_recording s) <= atMs)%Z → log_ops [l] = from_option (λ op, [(atMs, op)]) [] op →
  ∃ log', SessionInv {| ss_recording := appendEntry fields atMs (ln_outputBytes l)
                          {| ar_connectedAtMs := ar_connectedAtMs (ss_recording s); ar_lastAtMs := atMs;
                             ar_open := ar_open (ss_recording s); ar_events := ar_events (ss_recording s) |};
                        ss_received := receive atMs op s |} log'.
Proof.
  intros [H1 H2 H3 H4] Etext Eat Hl Ht Hops. unfold appendEntry, receive, accepting. cbn [ar_open].
  destruct (ar_open (ss_recording s)); cbn [andb].
  2: { exists log. split; cbn [ss_recording ss_received ar_lastAtMs]; [done|done|lia|lia]. }
  assert (Hle : (last_atMs log <= ln_atMs l)%Z) by (rewrite Eat; lia).
  pose proof (writer_step_reachable _ _ H1 (ws_append _ _ _ {| ww_writer := ar_events (ss_recording s); ww_log := log |} l Hl Hle)) as Hstep. cbn [ww_writer ww_log] in Hstep.
  rewrite Etext, Eat in Hstep.
  destruct (wr_failed (ar_events (ss_recording s)) || wr_ending (ar_events (ss_recording s))) eqn:E.
  - exists log. split; cbn [ss_recording ss_received set_events ar_lastAtMs ar_events]; [exact Hstep| |lia|lia].
    apply orb_true_iff in E as [->| ->]; [done|]. by rewrite andb_false_r.
  - apply orb_false_iff in E as [-> ->]. cbn [negb andb]. exists (log ++ [l]).
    split; cbn [ss_recording ss_received set_events ar_lastAtMs ar_events]; [exact Hstep| | |lia].
    + by rewrite log_ops_app, H2, Hops.
    + unfold last_atMs. rewrite last_snoc. cbn. lia.
Qed.
Lemma session_step_inv s s' log : SessionInv s log → sstep s s' → ∃ log', SessionInv s' log'.
Proof.
  intros H Hstep. pose proof H as [H1 H2 H3 H4]. destruct Hstep as [now chunk Hb Hf|now cols rows Hf| | |id m chunk Hm Hd He Hne Hpre|id m Hm Hd He Hin Hout|].
  - cbn [nextEntryAtMs fst] in Hf.
    eapply (append_entry_inv s log (output_line (nextEntryAtMs now (ss_recording s)).1 chunk) _ (Some (op_output chunk)) _ H); [reflexivity|reflexivity| |cbn; lia|by apply output_line_ops]. apply output_line_ok; [done|done|cbn; lia].
  - cbn [nextEntryAtMs fst] in Hf.
    eapply (append_entry_inv s log (resize_line (nextEntryAtMs now (ss_recording s)).1 cols rows) _ (resize_op cols rows) _ H); [reflexivity|reflexivity| |cbn; lia|by apply resize_line_ops]. apply resize_line_ok; [done|cbn; lia].
  - exists log. unfold flushEvents. destruct (ar_open (ss_recording s)); [|by split]. split; cbn; try done. exact (writer_step_reachable _ _ H1 (ws_flush _ _ _ _)).
  - exists log. unfold closeEventsStream. destruct (ar_open (ss_recording s)); [|by split]. split; cbn; try done. exact (writer_step_reachable _ _ H1 (ws_end _ _ _ _)).
  - exists log. match goal with |- SessionInv {| ss_recording := after_event ?e ?a |} _ => destruct (after_event_events e a) as [E1 E2] end.
    split; cbn [ss_recording ss_received]; rewrite ?E1, ?E2; try done. exact (writer_step_reachable _ _ H1 (ws_data _ _ _ {| ww_writer := ar_events (ss_recording s); ww_log := log |} id m chunk Hm Hd He Hne Hpre)).
  - exists log. match goal with |- SessionInv {| ss_recording := after_event ?e ?a |} _ => destruct (after_event_events e a) as [E1 E2] end.
    split; cbn [ss_recording ss_received]; rewrite ?E1, ?E2; try done. exact (writer_step_reachable _ _ H1 (ws_gzip_end _ _ _ {| ww_writer := ar_events (ss_recording s); ww_log := log |} id m Hm Hd He Hin Hout)).
  - exists log. match goal with |- SessionInv {| ss_recording := after_event ?e ?a |} _ => destruct (after_event_events e a) as [E1 E2] end.
    split; cbn [ss_recording ss_received]; rewrite ?E1, ?E2; try done. exact (writer_step_reachable _ _ H1 (ws_error _ _ _ _)).
Qed.
Lemma session_invariant connectedAtMs s : sreachable connectedAtMs s → ∃ log, SessionInv s log.
Proof.
  unfold sreachable. intros H. remember {| ss_recording := startRecording connectedAtMs; ss_received := [] |} as start eqn:E.
  assert (Hs : ∃ log, SessionInv start log) by (exists []; subst; split; [apply rtc_refl|done|done|done]). clear E.
  induction H as [|x y z Hxy _ IH]; [done|]. apply IH. destruct Hs as [log Hs]. by eapply session_step_inv.
Qed.
End service.
