(* ===== verification/ReplayInstances.v ===== *)
(** * Concrete texts, compressors and encodings for recordings

    Instances of the interfaces of [ReplayFormat]: an encoding of objects as one line, a
    compressor that marks the beginning and the end of a member, and the Base64 of the
    repository itself.  The witnesses run on them. *)

From S2P Require Import Prelude Collections ReplayFormat Base64.
Close Scope Z_scope.

(** ** Objects as lines

    Binary digits of the code of the fields, then as many dashes as the strings are long. *)
Fixpoint pos_digits (p : positive) : jsstring :=
  match p with xH => [] | xO p => 48%N :: pos_digits p | xI p => 49%N :: pos_digits p end.
Fixpoint digits_pos (l : jsstring) : positive :=
  match l with
  | [] => xH
  | c :: l => if (c =? 48)%N then xO (digits_pos l) else if (c =? 49)%N then xI (digits_pos l) else xH
  end.
Lemma digits_pos_digits p more : (∀ c, head more = Some c → c ≠ 48%N ∧ c ≠ 49%N) → digits_pos (pos_digits p ++ more) = p.
Proof.
  intros Hm. induction p as [p IH|p IH|]; cbn; [by rewrite IH..|]. destruct more as [|c more]; [done|]. cbn.
  destruct (Hm c eq_refl). by rewrite !(proj2 (N.eqb_neq _ _)).
Qed.

Definition scalar_code (v : JsonValue) : Z + jsstring := match v with jv_num z => inl z | jv_str s => inr s | _ => inl 0%Z end.
Definition scalar_value (c : Z + jsstring) : JsonValue := match c with inl z => jv_num z | inr s => jv_str s end.
Definition string_length (v : JsonValue) : nat := match v with jv_str s => length s | _ => 0 end.
Definition fields_code (fields : list (jsstring * JsonValue)) : list (jsstring * (Z + jsstring)) := prod_map id scalar_code <$> fields.
Definition fields_text (fields : list (jsstring * JsonValue)) : jsstring :=
  123%N :: (pos_digits (encode (fields_code fields)) ++ replicate (sum_list (string_length ∘ snd <$> fields)) 45%N) ++ [125%N].
Definition code_stringify (v : JsonValue) : jsstring := match v with jv_obj fields => fields_text fields | _ => [] end.
Definition code_parse (text : jsstring) : option JsonValue :=
  match text with
  | c :: body =>
      if negb (c =? 123)%N then None else
      codes ← decode (A := list (jsstring * (Z + jsstring))) (digits_pos body);
      let fields := prod_map id scalar_value <$> codes in
      if bool_decide (fields_text fields = text) then Some (jv_obj fields) else None
  | [] => None
  end.

Lemma code_units fields c : c ∈ pos_digits (encode (fields_code fields)) ++ replicate (sum_list (string_length ∘ snd <$> fields)) 45%N →
  c = 48%N ∨ c = 49%N ∨ c = 45%N.
Proof.
  intros [Hin|[-> _]%elem_of_replicate]%elem_of_app; [|tauto]. revert Hin. generalize (encode (fields_code fields)). intros p.
  induction p as [p IH|p IH|]; cbn; [intros [->|?]%elem_of_cons; tauto..|by intros []%elem_of_nil].
Qed.
Lemma scalar_roundtrip v : is_scalar v = true → scalar_value (scalar_code v) = v.
Proof. by destruct v. Qed.
Lemma code_roundtrip fields : object_literal fields → code_parse (fields_text fields) = Some (jv_obj fields).
Proof.
  intros [_ Hs]. unfold code_parse. change (negb (123 =? 123)%N) with false.
  unfold fields_text at 1. cbv iota. rewrite <- app_assoc, digits_pos_digits.
  2: { intros c Hc. destruct (sum_list _); cbn in Hc; injection Hc as <-; done. }
  rewrite countable.decode_encode. cbn [mbind option_bind].
  assert (E : prod_map id scalar_value <$> fields_code fields = fields).
  { unfold fields_code. rewrite <- list_fmap_compose. clear -Hs. induction Hs as [|[k v] fields [_ Hv] _ IH]; [done|].
    rewrite fmap_cons, IH. cbn in *. by rewrite scalar_roundtrip. }
  rewrite E. by rewrite bool_decide_eq_true_2.
Qed.
Lemma code_parse_text text v : code_parse text = Some v → code_stringify v = text.
Proof.
  unfold code_parse. destruct text as [|c body]; [done|]. destruct (negb _); [done|]. destruct (decode _) as [codes|]; [|done]. cbn [mbind option_bind].
  case_bool_decide as E; [|done]. by intros [= <-].
Qed.
#[export] Program Instance code_json : JsonText := {| json_parse := code_parse; json_stringify := code_stringify |}.
Next Obligation. intros fields H. by apply code_roundtrip. Qed.
Next Obligation. intros fields. by eexists. Qed.
Next Obligation.
  intros v Hin. destruct v; cbn in Hin; try by apply elem_of_nil in Hin.
  apply elem_of_cons in Hin as [?|[Hin|Hin%list_elem_of_singleton]%elem_of_app]; [done| |done].
  apply code_units in Hin as [?|[?|?]]; done.
Qed.
Next Obligation.
  intros fields _ _. apply Forall_forall. intros c. cbn. intros [->|[Hin| ->%list_elem_of_singleton]%elem_of_app]%elem_of_cons; [done| |done].
  by apply code_units in Hin as [->|[->| ->]].
Qed.
Next Obligation.
  intros fields a b E Hb. cbn in *. destruct (code_parse a) as [v|] eqn:Ea; [|done]. exfalso.
  assert (Ha : ∃ fields', a = fields_text fields').
  { unfold code_parse in Ea. destruct a as [|c body]; [done|]. destruct (negb _); [done|]. destruct (decode _) as [codes|]; [|done].
    cbn [mbind option_bind] in Ea. case_bool_decide as Et; [by eexists|done]. }
  destruct Ha as [fields' ->]. unfold fields_text in E. cbn [app] in E. injection E as E.
  assert (Hin : 125%N ∈ pos_digits (encode (fields_code fields)) ++ replicate (sum_list (string_length ∘ snd <$> fields)) 45%N).
  { destruct (exists_last Hb) as (b' & z & ->). rewrite !(app_assoc _ _ [z]) in E. apply app_inj_tail in E as [-> _]. set_solver. }
  apply code_units in Hin as [?|[?|?]]; done.
Qed.
Next Obligation.
  intros text fields k s Hp Hk. cbn in *. apply code_parse_text in Hp. cbn in Hp. subst text. unfold fields_text. cbn. rewrite !length_app, length_replicate.
  enough (length s <= sum_list (string_length ∘ snd <$> fields)) by lia. apply mget_Some_elem in Hk. clear -Hk.
  induction fields as [|[k' v] fields IH]; [by apply elem_of_nil in Hk|]. rewrite fmap_cons. cbn. apply elem_of_cons in Hk as [[= <- <-]|Hk]; [cbn; lia|].
  specialize (IH Hk). lia.
Qed.

(** ** A compressor

    0 begins a member, 1 ends it, and a unit is moved up by two. *)
Fixpoint marked_body (calls : list GzipCall) : list N :=
  match calls with
  | [] => []
  | gz_write text :: calls => ((λ c, c + 2)%N <$> text) ++ marked_body calls
  | gz_flush :: calls => marked_body calls
  | gz_end :: _ => [1%N]
  end.
Definition marked (calls : list GzipCall) : list N := 0%N :: marked_body calls.
Definition unmarked (bytes : list N) : jsstring := omap (λ b, if (b <? 2)%N then None else Some (b - 2)%N) bytes.
Definition bounded (text : jsstring) : option jsstring := if (N.of_nat (length text) <=? MAX_STRING)%N then Some text else None.

Lemma unmarked_app a b : unmarked (a ++ b) = unmarked a ++ unmarked b.
Proof. apply omap_app. Qed.
Lemma unmarked_text text : unmarked ((λ c, c + 2)%N <$> text) = text.
Proof.
  induction text as [|c text IH]; [done|]. rewrite fmap_cons. unfold unmarked in *. cbn. rewrite (proj2 (N.ltb_ge _ _)) by lia. rewrite IH. f_equal. lia.
Qed.
Lemma unmarked_body calls : calls_open calls → unmarked (marked_body calls) = calls_text calls ∧ unmarked (marked_body (calls ++ [gz_end])) = calls_text calls.
Proof.
  induction calls as [|c calls IH]; intros Ho; [done|]. destruct IH as [IH1 IH2]; [unfold calls_open in *; set_solver|].
  destruct c as [text| |]; cbn [app marked_body]; [|done|unfold calls_open in Ho; set_solver].
  by rewrite !unmarked_app, unmarked_text, IH1, IH2.
Qed.
Lemma marked_grows calls more : marked_body calls `prefix_of` marked_body (calls ++ more).
Proof. induction calls as [|[text| |] calls IH]; [apply prefix_nil|by apply prefix_app|done|done]. Qed.
Lemma unmarked_prefix a b : a `prefix_of` b → unmarked a `prefix_of` unmarked b.
Proof. intros [k ->]. rewrite unmarked_app. by apply prefix_app_r. Qed.
#[export] Program Instance marked_gzip : Gzip := {|
  gz := marked;
  gunzip bytes := if bool_decide (last bytes = Some 1%N) then bounded (unmarked bytes) else None;
  gunzip_cut bytes := bounded (unmarked bytes);
  utf8_decode := id;
|}.
Next Obligation. intros calls more. apply prefix_cons, marked_grows. Qed.
Next Obligation. done. Qed.
Next Obligation.
  intros calls Ho _ Hlen. cbn beta. rewrite bool_decide_eq_true_2.
  - unfold bounded, marked. change (unmarked (0%N :: ?l)) with (unmarked l). destruct (unmarked_body calls Ho) as [_ ->]. by rewrite (proj2 (N.leb_le _ _)).
  - unfold marked. clear Hlen. induction calls as [|[text| |] calls IH]; [done| | |unfold calls_open in Ho; set_solver]; cbn [app marked_body].
    + rewrite last_cons, last_app. unfold calls_open in *. specialize (IH ltac:(set_solver)). rewrite last_cons in IH. by destruct (last (marked_body _)).
    + apply IH. unfold calls_open in *. set_solver.
Qed.
Next Obligation.
  intros members calls cut text Hm Ho _ Hcut. cbn beta. unfold bounded. case_match; [|done]. intros [= <-]. rewrite unmarked_app.
  assert (Hmem : unmarked (mjoin ((λ m, marked (m ++ [gz_end])) <$> members)) = members ≫= calls_text).
  { clear -Hm. induction Hm as [|m members [Hm _] _ IH]; [done|]. rewrite fmap_cons.
    change (mjoin (marked (m ++ [gz_end]) :: ?l)) with (marked (m ++ [gz_end]) ++ mjoin l). rewrite unmarked_app, IH. cbn [mbind list_bind]. f_equal.
    by apply unmarked_body. }
  rewrite Hmem. apply prefix_app. etrans; [by apply unmarked_prefix|]. unfold marked. change (unmarked (0%N :: ?l)) with (unmarked l).
  by destruct (unmarked_body calls Ho) as [_ ->].
Qed.
Next Obligation. intros bytes text. cbn beta. unfold bounded. destruct (N.leb_spec (N.of_nat (length (unmarked bytes))) MAX_STRING); [|done]. by intros [= <-]. Qed.
Next Obligation.
  intros calls Ho _ Hlen. cbn beta. unfold bounded, marked. change (unmarked (0%N :: ?l)) with (unmarked l).
  assert (E : marked_body (calls ++ [gz_flush]) = marked_body calls).
  { clear Hlen. induction calls as [|[text| |] calls IH]; [done| | |done]; cbn; rewrite IH; (done || unfold calls_open in *; set_solver). }
  rewrite E. destruct (unmarked_body calls Ho) as [-> _]. by rewrite (proj2 (N.leb_le _ _)).
Qed.

(** ** Base64 *)

Definition of_bytes (l : list N) : list Z := Z.of_N <$> l.
Definition decode_base64 (s : jsstring) : list N := match base64ToBytes s with Ok bytes => Z.to_N <$> bytes | Throw _ => [] end.

Lemma letter_ascii z : (letter z < 128)%N.
Proof.
  unfold letter. rewrite list_lookup_total_alt. destruct (BASE64_ALPHABET !! Z.to_nat z) as [c|] eqn:E; [|done]. cbn.
  assert (H : Forall (λ c, (c < 128)%N) BASE64_ALPHABET) by (apply (bool_decide_unpack _); vm_compute; exact I).
  rewrite Forall_lookup in H. by eapply H.
Qed.
Lemma encode_group_ascii b0 o1 o2 : is_ascii (encode_group b0 o1 o2).
Proof. unfold encode_group, is_ascii. destruct o1, o2; repeat (apply Forall_cons_2; [apply letter_ascii || done|]); constructor. Qed.
Lemma base64_ascii n bytes : length bytes <= n → is_ascii (bytesToBase64 bytes).
Proof.
  revert bytes. induction n as [|n IH]; intros [|b0 [|b1 [|b2 bytes]]] Hn; cbn in Hn; try lia; try apply encode_group_ascii; [constructor..|].
  cbn [bytesToBase64]. apply Forall_app_2; [apply encode_group_ascii|]. apply IH. lia.
Qed.
Lemma decode_loop_length d s d' : decode_loop d s = Ok d' → length (d_bytes d') = length (d_bytes d).
Proof.
  revert d. induction s as [|c s IH]; intros d; cbn [decode_loop]; [by intros [= ->]|].
  unfold decode_char. destruct (_ <? 0)%Z; [done|]. destruct (8 <=? _)%Z; cbn [rbind]; intros H%IH; rewrite H; cbn; by rewrite ?length_insert.
Qed.
Lemma strip_pad_length s : length (strip_pad s) <= length s.
Proof.
  unfold strip_pad. rewrite length_reverse. rewrite <- (length_reverse s). generalize (reverse s). intros l.
  induction l as [|c l IH]; [done|]. cbn [strip_pad_start]. case_decide; cbn in *; lia.
Qed.
Lemma decode_base64_length s : length (decode_base64 s) <= length s.
Proof.
  unfold decode_base64, base64ToBytes. set (u := strip_pad _).
  assert (Hu : length u <= length s).
  { unfold u. etrans; [apply strip_pad_length|]. clear. induction s as [|c s IH]; [done|]. cbn. destruct (negb _); cbn; lia. }
  destruct (decide _); [cbn; lia|]. destruct (decode_loop _ u) as [d|] eqn:E; cbn [rbind]; [|cbn; lia].
  apply decode_loop_length in E. rewrite length_fmap, E. cbn [d_bytes]. rewrite length_replicate.
  assert (Z.of_nat (length u) * 3 / 4 <= Z.of_nat (length u))%Z by (apply Z.div_le_upper_bound; lia). lia.
Qed.
#[export] Program Instance repository_base64 : NodeBase64 := {|
  b64_encode l := bytesToBase64 (of_bytes l);
  b64_decode := decode_base64;
  b64_byteLength s := N.of_nat (length (decode_base64 s));
|}.
Next Obligation.
  intros l Hl. cbn beta. unfold decode_base64. rewrite decode_encode.
  - unfold of_bytes. rewrite <- list_fmap_compose. clear. induction l as [|b l IH]; [done|]. rewrite fmap_cons, IH. cbn. by rewrite N2Z.id.
  - unfold of_bytes. apply Forall_fmap. eapply Forall_impl; [exact Hl|]. intros b Hb. cbv beta in Hb. change (0 <= Z.of_N b < 256)%Z. lia.
Qed.
Next Obligation. intros l _. cbn beta. by eapply base64_ascii. Qed.
Next Obligation. intros s. apply decode_base64_length. Qed.
Next Obligation.
  intros l Hl. cbn beta. unfold decode_base64. rewrite decode_encode; [unfold of_bytes; by rewrite !length_fmap|].
  unfold of_bytes. apply Forall_fmap. eapply Forall_impl; [exact Hl|]. intros b Hb. cbv beta in Hb. change (0 <= Z.of_N b < 256)%Z. lia.
Qed.
