(* ===== verification/ReplaySession.v ===== *)
(** * The guarantees of a recorded session

    [replay_after_crash], [replay_flush_durable]: what a recording that was not
    closed opens as.  [replay_writer_closes]: closing ends.  [replay_shows_session]: from
    the bytes of the session to the screen of the player, through the files. *)

From S2P Require Import Prelude Collections ReplayData ReplayPlayer ReplayFormat ReplayWriter ReplayWriterInvariant ReplayRecording ReplayInstances.

(** ** Closing a recording *)

Section closing.
Context `{JT : !JsonText, GZ : !Gzip}.
Variable writeSync_ok : nat → bool.
Implicit Types w : ReplayEventsWriter.

(** What the compressors of a writer do. *)
Inductive cstep w : ReplayEventsWriter → Prop :=
| cs_data id m chunk :
    wr_heap w !! id = Some m → mb_destroyed m = false → mb_ended m = false → chunk ≠ [] →
    mb_out m ++ chunk `prefix_of` gz (mb_calls m) →
    cstep w (on_data id chunk (update_member (emit chunk) id w))
| cs_end id m :
    wr_heap w !! id = Some m → mb_destroyed m = false → mb_ended m = false →
    gz_end ∈ mb_calls m → mb_out m = gz (mb_calls m) → cstep w (on_end writeSync_ok id w).

(** The bytes still to be handed out, and the ends. *)
Definition member_work (m : Member) : nat := length (gz (mb_calls m)) - length (mb_out m) + (if mb_ended m then 0 else 1).
Definition work w : nat := sum_list (member_work <$> wr_heap w).

(** *** Nothing but a compressor's event changes the work *)

Lemma works_alter (f : Member → Member) id (heap : list Member) :
  (∀ m, member_work (f m) = member_work m) → member_work <$> alter f id heap = member_work <$> heap.
Proof.
  intros Hf. apply list_eq. intros i. rewrite !list_lookup_fmap. destruct (decide (id = i)) as [<-|Hne].
  - rewrite list_lookup_alter_eq. destruct (heap !! id); [cbn; by rewrite Hf|done].
  - by rewrite list_lookup_alter_ne.
Qed.
Lemma works_fail w : member_work <$> wr_heap (fail w) = member_work <$> wr_heap w.
Proof.
  unfold fail. destruct (wr_failed w); [done|]. cbn [wr_heap]. generalize (wr_members w). intros ids. generalize (wr_heap w).
  induction ids as [|id ids IH]; intros heap; [done|]. cbn [foldl]. rewrite IH. by apply works_alter.
Qed.
Lemma works_release w : member_work <$> wr_heap (release w) = member_work <$> wr_heap w.
Proof.
  unfold release. destruct (head _); [|done]. destruct (wr_heap w !! _); [|done]. destruct (mb_waiting _); [|done].
  rewrite foldl_file_write. cbn. by apply works_alter.
Qed.
Lemma works_drain_loop members w :
  member_work <$> wr_heap (drain_loop writeSync_ok members w).1 = member_work <$> wr_heap w
  ∧ wr_ending (drain_loop writeSync_ok members w).1 = wr_ending w.
Proof.
  revert w. induction members as [|id rest IH]; intros w; [done|]. cbn [drain_loop]. destruct (wr_heap w !! id) as [m|]; [|done].
  destruct (mb_ended m); [|done].
  assert (Hrel : ∀ w', wr_ending (release w') = wr_ending w').
  { intros w'. unfold release. destruct (head _); [|done]. destruct (wr_heap w' !! _); [|done]. destruct (mb_waiting _); [|done]. by rewrite foldl_file_write. }
  destruct (0 <? mb_entryCount m); [destruct (writeSync_ok _)|].
  - destruct (IH (release (list_record (member_record (wr_nextOffset w) m) (shift rest m w)))) as [-> ->]. by rewrite works_release, Hrel.
  - cbn [fst]. split; [by rewrite works_fail|]. unfold fail. by destruct (wr_failed _).
  - destruct (IH (release (shift rest m w))) as [-> ->]. by rewrite works_release, Hrel.
Qed.
Lemma works_drain w : member_work <$> wr_heap (drain writeSync_ok w) = member_work <$> wr_heap w ∧ wr_ending (drain writeSync_ok w) = wr_ending w.
Proof.
  unfold drain. destruct (wr_failed w); [done|]. pose proof (works_drain_loop (wr_members w) w) as H. destruct (drain_loop _ _ w) as [w' []]; [done|].
  by case_match.
Qed.
Lemma work_alter_lt (f : Member → Member) id (heap : list Member) m :
  heap !! id = Some m → member_work (f m) < member_work m →
  sum_list (member_work <$> alter f id heap) < sum_list (member_work <$> heap).
Proof.
  revert id. induction heap as [|a heap IH]; intros [|id] Hm Hlt; [done|done|injection Hm as ->; cbn; lia|]. specialize (IH _ Hm Hlt).
  change (member_work a + sum_list (member_work <$> alter f id heap) < member_work a + sum_list (member_work <$> heap)). lia.
Qed.
Lemma cstep_work w w' : cstep w w' → work w' < work w ∧ wr_ending w' = wr_ending w.
Proof.
  unfold work. intros [id m chunk Hm Hd He Hne [k Hk]|id m Hm Hd He Hin Hout].
  - set (w1 := update_member (emit chunk) id w).
    assert (H1 : sum_list (member_work <$> wr_heap w1) < sum_list (member_work <$> wr_heap w)).
    { eapply work_alter_lt; [exact Hm|]. unfold member_work. cbn. rewrite He, Hk, !length_app. destruct chunk; [done|cbn; lia]. }
    assert (H2 : member_work <$> wr_heap (on_data id chunk w1) = member_work <$> wr_heap w1 ∧ wr_ending (on_data id chunk w1) = wr_ending w1).
    { unfold on_data. destruct (wr_failed w1); [done|]. destruct (wr_heap w1 !! id) as [m'|]; [destruct (mb_waiting m')|]; cbn; (split; [|done]); by apply works_alter. }
    destruct H2 as [-> ->]. done.
  - unfold on_end. destruct (works_drain (update_member set_ended id w)) as [-> ->]. split; [|done].
    eapply work_alter_lt; [exact Hm|]. unfold member_work. cbn. rewrite He. lia.
Qed.
Lemma cstep_wstep line_ok segmentBytes w w' log :
  cstep w w' → wstep writeSync_ok line_ok segmentBytes {| ww_writer := w; ww_log := log |} {| ww_writer := w'; ww_log := log |}.
Proof.
  intros [id m chunk Hm Hd He Hne Hpre|id m Hm Hd He Hin Hout].
  - exact (ws_data _ _ _ {| ww_writer := w; ww_log := log |} id m chunk Hm Hd He Hne Hpre).
  - exact (ws_gzip_end _ _ _ {| ww_writer := w; ww_log := log |} id m Hm Hd He Hin Hout).
Qed.
(** A writer that has been told to end is not stuck. *)
Lemma closing_progress w log segmentBytes :
  Alive segmentBytes w log → wr_ending w = true → wr_fileEnded w = true ∨ ∃ w', cstep w w'.
Proof.
  intros [[f ((parts & C) & Q & HS)] [F1 F2 F3]] He. rewrite F2, He. cbn [andb]. specialize (F3 He).
  case_bool_decide as Hm; [by left|right]. pose proof (qu_members _ _ Q) as Hmem.
  destruct (length (wr_heap w) - f) as [|n] eqn:En; [by rewrite Hmem in Hm|]. cbn in Hmem.
  destruct (lookup_lt_is_Some_2 (wr_heap w) f) as [m Hf]; [lia|]. destruct (lookup_lt_is_Some_2 parts f) as [lines Hl]; [rewrite <- (ct_length _ _ _ C); lia|].
  pose proof (ct_member _ _ _ C _ _ _ Hf Hl) as M. rewrite is_open_None in M by done.
  assert (Hopen : mb_ended m = false) by (apply (F1 f m); [by rewrite Hmem|done]).
  destruct (mo_calls _ _ _ _ M) as (c & Ec & _). destruct (mo_out _ _ _ _ M) as [k Hk].
  destruct k as [|b k].
  - eexists. eapply cs_end; [exact Hf|apply (mo_destroyed _ _ _ _ M)|done|rewrite Ec; set_solver|by rewrite Hk, app_nil_r].
  - eexists. eapply (cs_data w f m (b :: k)); [exact Hf|apply (mo_destroyed _ _ _ _ M)|done|done|by rewrite Hk].
Qed.
Lemma closing_run line_ok n w w' log :
  (∀ w1 w2, wreachable writeSync_ok line_ok REPLAY_SEGMENT_BYTES {| ww_writer := w1; ww_log := log |} → cstep w1 w2 →
     wreachable writeSync_ok line_ok REPLAY_SEGMENT_BYTES {| ww_writer := w2; ww_log := log |}) →
  wreachable writeSync_ok line_ok REPLAY_SEGMENT_BYTES {| ww_writer := w; ww_log := log |} → nsteps cstep n w w' →
  wreachable writeSync_ok line_ok REPLAY_SEGMENT_BYTES {| ww_writer := w'; ww_log := log |} ∧ n + work w' <= work w ∧ wr_ending w' = wr_ending w.
Proof.
  intros Hstep Hr Hn. induction Hn as [w|n w1 w2 w3 H12 _ IH]; [split_and!; [done|lia|done]|].
  destruct (cstep_work _ _ H12) as [Hw He]. destruct (IH (Hstep _ _ Hr H12)) as (H1 & H2 & H3). split_and!; [done|lia|congruence].
Qed.
End closing.

(** ** What has been flushed *)

Section flushed.
Context `{JT : !JsonText, GZ : !Gzip, NB : !NodeBase64}.
Implicit Types w : ReplayEventsWriter.

(** The one member left has handed out everything up to a flush. *)
Definition flushed_out w : Prop :=
  ∃ id m calls, wr_members w = [id] ∧ wr_heap w !! id = Some m ∧ wr_batch w = []
    ∧ mb_calls m = calls ++ [gz_flush] ∧ mb_out m = gz (mb_calls m) ∧ (N.of_nat (length (mb_out m)) <= TAIL_SEGMENT_MAX_BYTES)%N.

Lemma flushed_OnDisk w log finished :
  Live REPLAY_SEGMENT_BYTES w log finished → flushed_out w → Forall line_ok log →
  ∃ pieces lines tail, log = mjoin pieces.*2 ++ lines ∧ Forall good_piece pieces
    ∧ wr_file w = mjoin (piece_bytes <$> pieces) ++ tail ∧ wr_index w = lines_text (record_text <$> piece_records 0 pieces)
    ∧ gunzip_cut tail = Some (part_text lines) ∧ tail ≠ [] ∧ (N.of_nat (length tail) <= TAIL_SEGMENT_MAX_BYTES)%N.
Proof.
  intros HL (id & m & calls & Hmem & Hm & Hb & Ecalls & Hout & Hmax) Hl. pose proof HL as ((parts & C) & Q & HS).
  pose proof (qu_members _ _ Q) as E. rewrite Hmem in E. apply seq_cons_inv in E as (-> & E & Hlt).
  assert (Hlast : length (wr_heap w) = S finished) by (destruct (length (wr_heap w) - finished - 1) eqn:E'; [lia|done]).
  pose proof (pieces_spec _ _ _ (Live_finished _ _ _ _ _ C Q HS)) as (P1 & P2 & P3 & P4). set (pieces := zip_with piece_of _ _) in *.
  destruct (lookup_lt_is_Some_2 parts finished) as [lines Hli]; [rewrite <- (ct_length _ _ _ C); lia|].
  pose proof (ct_member _ _ _ C _ _ _ Hm Hli) as M.
  assert (Hopen : is_open w finished = true).
  { destruct (is_open w finished) eqn:Eo; [done|]. exfalso. destruct (mo_calls _ _ _ _ M) as (c & Ec & _). rewrite Ecalls in Ec.
    by apply app_inj_tail in Ec as [_ ?]. }
  rewrite Hopen in M. pose proof (mo_text _ _ _ _ M) as Htext. rewrite Hb, app_nil_r in Htext. pose proof (mo_calls _ _ _ _ M) as Hco.
  assert (Elog : log = mjoin pieces.*2 ++ lines).
  { rewrite <- (ct_log _ _ _ C), P1. rewrite <- (take_drop finished parts) at 1. rewrite (drop_S _ _ _ Hli), join_app.
    rewrite (drop_ge parts (S finished)) by (rewrite <- (ct_length _ _ _ C); lia). cbn. by rewrite app_nil_r. }
  exists pieces, lines, (mb_out m). split_and!.
  - done.
  - apply Forall_forall. intros p Hp. split; [rewrite Forall_forall in P2; by apply P2|].
    rewrite Elog in Hl. apply Forall_app in Hl as [Hl _]. apply Forall_forall. intros l Hin. rewrite Forall_forall in Hl. apply Hl, list_elem_of_join.
    exists p.2. split; [done|]. apply list_elem_of_fmap. eauto.
  - rewrite (qu_file _ _ Q), P3, (take_S_r _ _ _ Hm), fmap_app, join_app. cbn. by rewrite app_nil_r.
  - by rewrite P4, <- (qu_segments _ _ Q), <- (qu_index _ _ Q).
  - rewrite Hout, Ecalls. rewrite Ecalls in Htext, Hco. rewrite calls_text_snoc in Htext. cbn [call_text] in Htext. rewrite app_nil_r in Htext.
    rewrite <- Htext. apply gunzip_flushed.
    + intros Hin. apply Hco, elem_of_app. by left.
    + rewrite Htext. apply part_text_ascii. rewrite Elog in Hl. by apply Forall_app in Hl as [_ ?].
    + rewrite Htext. specialize (HS _ _ Hm). rewrite Hopen in HS. rewrite (mo_textBytes _ _ _ _ M) in HS.
      unfold MAX_STRING, REPLAY_SEGMENT_BYTES in *. lia.
  - rewrite Hout, Ecalls. by apply gz_nonempty.
  - done.
Qed.
Lemma load_flushed w log finished legacy :
  Live REPLAY_SEGMENT_BYTES w log finished → flushed_out w → Forall line_ok log → timed 0 log →
  ∃ records, loadReplaySegments (files (wr_file w) legacy (wr_index w)) = lp_segments records ∧ opens_as (wr_file w) records (log_ops log).
Proof.
  intros HL Hf Hl Ht. destruct (flushed_OnDisk _ _ _ HL Hf Hl) as (pieces & lines & tail & -> & Hg & -> & -> & Hcut & Hne & Hmax).
  apply timed_app in Ht as [Htp Ht0]. apply Forall_app in Hl as [_ Hl0].
  pose proof (pieces_chained 0 pieces 0 ltac:(lia) Htp Hg) as Hch.
  destruct (parseReplayIndex_cut _ (lines_text (record_text <$> piece_records 0 pieces)) (N.of_nat (length (mjoin (piece_bytes <$> pieces) ++ tail))) Hch) as (k & Ek & _ & Hall); [done|].
  rewrite Hall in Ek; [|done|rewrite pieces_end, length_app; lia].
  unfold loadReplaySegments, files. cbn [rf_events rf_index rf_legacyEvents]. rewrite Ek, piece_records_last, pieces_end, N.add_0_l.
  rewrite (proj2 (Z.leb_gt _ _)) by (rewrite length_app; destruct tail; [done|cbn; lia]).
  rewrite (proj2 (Z.leb_le _ _)) by (rewrite length_app; lia).
  replace (Z.to_N _) with (N.of_nat (length tail)) by (rewrite length_app; lia). rewrite (pieces_last_time _ _ _ Hg).
  rewrite log_ops_app. destruct (summarizeReplayTail _ _ _ _) as [r|] eqn:Er.
  - destruct (read_tail _ _ _ _ lines Er Ht0 Hl0) as (s & n & Hread & Hok & Htimes & _ & Hops).
    { intros text E. rewrite Hcut in E. by injection E as <-. }
    eexists. split; [done|]. rewrite <- (Hops Hcut). apply opens_snoc; [by eapply pieces_open|done|done| |by apply pieces_table].
    by rewrite (pieces_last_time _ _ _ Hg).
  - eexists. split; [done|]. rewrite (tail_none _ _ _ _ Er Ht0 Hl0 Hcut), app_nil_r. by eapply pieces_open.
Qed.
End flushed.

(** ** The guarantees *)

Section guarantees.
Context `{JT : !JsonText, GZ : !Gzip, NB : !NodeBase64}.
Variable writeSync_ok : nat → bool.
Implicit Types s : Session.

Lemma session_state connectedAtMs s :
  sreachable writeSync_ok connectedAtMs s → ∃ log, ss_received s = log_ops log ∧ WriterInv REPLAY_SEGMENT_BYTES {| ww_writer := ar_events (ss_recording s); ww_log := log |}.
Proof.
  intros H. destruct (session_invariant _ _ _ H) as (log & [H1 H2 _ _]). exists log. split; [done|]. by eapply writer_invariant.
Qed.
Lemma log_ops_take (n : nat) (log : list Line) : ∃ m, log_ops (take n log) = take m (log_ops log).
Proof.
  exists (length (log_ops (take n log))). rewrite <- (take_drop n log) at 3. by rewrite log_ops_app, take_app_length.
Qed.
Lemma closed_session connectedAtMs s legacy :
  sreachable writeSync_ok connectedAtMs s → wr_failed (ar_events (ss_recording s)) = false → wr_fileEnded (ar_events (ss_recording s)) = true →
  loadReplaySegments (files (wr_file (ar_events (ss_recording s))) legacy (wr_index (ar_events (ss_recording s))))
    = lp_segments (wr_segments (ar_events (ss_recording s)))
  ∧ opens_as (wr_file (ar_events (ss_recording s))) (wr_segments (ar_events (ss_recording s))) (ss_received s).
Proof.
  intros Hr Hf He. destruct (session_state _ _ Hr) as (log & -> & [Hl Ht Hst]). cbn [ww_writer ww_log] in *.
  destruct Hst as [[[f HL] [_ F2 _]]|[? _]]; [|congruence]. destruct (Live_OnDisk _ _ _ _ HL) as (pieces & Hd & ->).
  rewrite F2 in He. apply andb_true_iff in He as [_ He]. rewrite He in Hd. by apply load_complete.
Qed.

(** C15: After a crash - the file and the index cut off anywhere, also if the writer had failed
    before - what opens is a beginning of the session: all its segments can be read and fit
    the table, and no output is shown that was not there. *)
Theorem replay_after_crash connectedAtMs s events index legacy records :
  sreachable writeSync_ok connectedAtMs s →
  events `prefix_of` wr_file (ar_events (ss_recording s)) → index `prefix_of` wr_index (ar_events (ss_recording s)) →
  loadReplaySegments (files events legacy index) = lp_segments records →
  ∃ recording n, mapM (readReplaySegment events) records = Some recording ∧ recording_ok (sr_info <$> records) recording
    ∧ recording ≫= segment_ops = take n (ss_received s).
Proof.
  intros Hr He Hi Hload. destruct (session_state _ _ Hr) as (log & -> & [Hl Ht Hst]). cbn [ww_writer ww_log] in *.
  assert (Hd : ∃ pieces complete, OnDisk REPLAY_SEGMENT_BYTES (wr_file (ar_events (ss_recording s))) (wr_index (ar_events (ss_recording s))) log pieces complete).
  { destruct Hst as [[[f HL] _]|[_ H]]; [|done]. destruct (Live_OnDisk _ _ _ _ HL) as (pieces & Hd & _). eauto. }
  destruct Hd as (pieces & complete & Hd).
  destruct (load_after_crash _ _ _ _ _ _ _ _ _ Hd Ht Hl He Hi Hload) as (n & recording & H1 & H2 & H3).
  destruct (log_ops_take n log) as [m Em]. exists recording, m. by rewrite H3, Em.
Qed.


(** C17: Closing ends: whatever the compressors do and in whatever order, there are at most as
    many events as bytes and ends left to come, and when nothing more can happen the file has
    been ended - nothing waits for ever in a member that is not the first. *)
Theorem replay_writer_closes connectedAtMs s n w :
  sreachable writeSync_ok connectedAtMs s → wr_ending (ar_events (ss_recording s)) = true →
  nsteps (cstep writeSync_ok) n (ar_events (ss_recording s)) w →
  n <= work (ar_events (ss_recording s)) ∧ (wr_failed w = false → (∀ w', ¬ cstep writeSync_ok w w') → wr_fileEnded w = true).
Proof.
  intros Hr He Hn. destruct (session_invariant _ _ _ Hr) as (log & [H1 _ _ _]).
  destruct (closing_run writeSync_ok line_ok n (ar_events (ss_recording s)) w log) as (H2 & H3 & H4); [|exact H1|exact Hn|].
  { intros w1 w2 Hw1 Hc. eapply writer_step_reachable; [exact Hw1|]. by apply cstep_wstep. }
  split; [lia|]. intros Hf Hstuck. apply writer_invariant in H2 as [_ _ [Ha|[? _]]]; cbn [ww_writer ww_log] in *; [|congruence].
  destruct (closing_progress writeSync_ok _ _ _ Ha ltac:(congruence)) as [?|[w' Hw']]; [done|by destruct (Hstuck w')].
Qed.

(** C14: End to end: a recording that was closed without an error opens, whatever else is in its
    folder, as the segments the writer listed; every one of them can be read and fits the
    table the player gets; together they do to a terminal what the session did, chunk by
    chunk and resize by resize, at the same times; and whenever the player says that it has
    caught up with a time, and has read what it asked for, the terminal shows - as soon as
    it has drawn what it was given - the screen that what the session had received by then
    makes of an empty terminal. *)
Theorem replay_shows_session {S T : Type} `{SC : !Screen S} `{RT : !ReplayTerminal S T} connectedAtMs s legacy (terminal : T) budgetChars spacingBytes :
  sreachable writeSync_ok connectedAtMs s → wr_failed (ar_events (ss_recording s)) = false → wr_fileEnded (ar_events (ss_recording s)) = true →
  let events := wr_file (ar_events (ss_recording s)) in
  let records := wr_segments (ar_events (ss_recording s)) in
  let infos := sr_info <$> records in
  loadReplaySegments (files events legacy (wr_index (ar_events (ss_recording s)))) = lp_segments records
  ∧ ∃ recording, mapM (readReplaySegment events) records = Some recording ∧ recording_ok infos recording ∧ recording ≫= segment_ops = ss_received s
    ∧ ∀ w t p, reachable infos recording terminal budgetChars spacingBytes w → rp_disposed (w_player w) = false → w_failed w = ∅ →
        (w_goal w <= t)%Z → advance infos t (w_player w) = Some (p, true) →
        t_shown (rp_terminal p) = render (List.filter (λ op, (op.1 <=? t)%Z) (ss_received s)) blank.
Proof.
  intros Hr Hf He events records infos. destruct (closed_session _ _ legacy Hr Hf He) as (Hload & recording & Hm & Hok & Hops).
  split; [exact Hload|]. exists recording. split_and!; [done..|]. intros w t p Hw Hd Hfail Hg Ha.
  destruct (shows_recording _ _ _ _ _ _ t Hok Hw Hd Hg) as (p' & b & Ha' & H).
  assert (E : Some (p, true) = Some (p', b)) by (etrans; [symmetry; exact Ha|exact Ha']). injection E as <- <-.
  destruct H as [_ H]. rewrite (H Hfail). unfold screen_at. by rewrite Hops.
Qed.
End guarantees.

(** ** A session that is recorded *)

Module SessionRun.
Definition always (n : nat) : bool := true.
Definition dummy : Member :=
  {| mb_calls := []; mb_out := []; mb_destroyed := true; mb_waiting := None; mb_length := 0; mb_ended := true; mb_startAtMs := 0; mb_endAtMs := 0;
     mb_entryCount := 0; mb_outputBytes := 0; mb_textBytes := 0 |}.
Abbreviation writer s := (ar_events (ss_recording s)).
Definition member (s : Session) : Member := from_option id dummy (wr_heap (writer s) !! 0).
Definition stream (now : Z) (chunk : list N) (s : Session) : Session :=
  {| ss_recording := handleTerminalStream now chunk (ss_recording s);
     ss_received := receive (nextEntryAtMs now (ss_recording s)).1 (Some (op_output chunk)) s |}.
Definition resize (now cols rows : Z) (s : Session) : Session :=
  {| ss_recording := handleTerminalResize now cols rows (ss_recording s);
     ss_received := receive (nextEntryAtMs now (ss_recording s)).1 (resize_op cols rows) s |}.
Definition flush_timer (s : Session) : Session := {| ss_recording := flushEvents (ss_recording s); ss_received := ss_received s |}.
Definition finalize (s : Session) : Session := {| ss_recording := closeEventsStream always (ss_recording s); ss_received := ss_received s |}.
Definition hand_out (chunk : list N) (s : Session) : Session :=
  {| ss_recording := after_event (on_data 0 chunk (update_member (emit chunk) 0 (writer s))) (ss_recording s); ss_received := ss_received s |}.
Definition finish (s : Session) : Session :=
  {| ss_recording := after_event (on_end always 0 (writer s)) (ss_recording s); ss_received := ss_received s |}.

(** The clock goes back between the resize and the second chunk, and a size of 0 is not one. *)
Definition started : Session := {| ss_recording := startRecording 1000; ss_received := [] |}.
Definition greeted : Session := stream 1005 [104; 105]%N started.
Definition resized : Session := resize 1006 0 24 (resize 1006 80 24 greeted).
Definition received : Session := stream 1004 [36]%N resized.
Definition flushed : Session := flush_timer received.
Definition flushed_to_disk : Session := hand_out (gz (mb_calls (member flushed))) flushed.
Definition ended : Session := finalize flushed_to_disk.
Definition handed_out : Session := hand_out [1]%N ended.
Definition closed : Session := finish handed_out.

Lemma and_then s s' : sreachable always 1000 s → sstep always s s' → sreachable always 1000 s'.
Proof. intros H1 H2. eapply rtc_r; [exact H1|exact H2]. Qed.
Lemma step_stream now chunk s :
  is_bytes chunk → line_fits (output_fields (nextEntryAtMs now (ss_recording s)).1 chunk) → sstep always s (stream now chunk s).
Proof. apply ss_stream. Qed.
Lemma step_resize now cols rows s : line_fits (resize_fields (nextEntryAtMs now (ss_recording s)).1 cols rows) → sstep always s (resize now cols rows s).
Proof. apply ss_resize. Qed.
Lemma step_flush s : sstep always s (flush_timer s).
Proof. apply ss_flush. Qed.
Lemma step_finalize s : sstep always s (finalize s).
Proof. apply ss_finalize. Qed.
Lemma step_hand_out chunk s m :
  wr_heap (writer s) !! 0 = Some m → mb_destroyed m = false → mb_ended m = false → chunk ≠ [] → mb_out m ++ chunk `prefix_of` gz (mb_calls m) →
  sstep always s (hand_out chunk s).
Proof. apply ss_data. Qed.
Lemma step_finish s m :
  wr_heap (writer s) !! 0 = Some m → mb_destroyed m = false → mb_ended m = false → gz_end ∈ mb_calls m → mb_out m = gz (mb_calls m) →
  sstep always s (finish s).
Proof. apply ss_gzip_end. Qed.

Lemma greeted_reachable : sreachable always 1000 greeted.
Proof.
  apply (and_then started); [apply rtc_refl|]. apply (step_stream 1005 [104; 105]%N started); [repeat constructor|unfold line_fits; vm_compute; reflexivity].
Qed.
Lemma resized_reachable : sreachable always 1000 resized.
Proof.
  apply (and_then (resize 1006 80 24 greeted)); [apply (and_then greeted); [exact greeted_reachable|]|].
  - apply (step_resize 1006 80 24 greeted). unfold line_fits. vm_compute. reflexivity.
  - apply (step_resize 1006 0 24 (resize 1006 80 24 greeted)). unfold line_fits. vm_compute. reflexivity.
Qed.
Lemma received_reachable : sreachable always 1000 received.
Proof.
  apply (and_then resized); [exact resized_reachable|]. apply (step_stream 1004 [36]%N resized); [repeat constructor|unfold line_fits; vm_compute; reflexivity].
Qed.
Lemma flushed_reachable : sreachable always 1000 flushed_to_disk.
Proof.
  apply (and_then flushed); [exact (and_then received flushed received_reachable (step_flush received))|].
  refine (step_hand_out (gz (mb_calls (member flushed))) flushed (member flushed) _ _ _ _ _); [vm_compute; reflexivity|vm_compute; reflexivity|vm_compute; reflexivity|discriminate|]. exists []. rewrite app_nil_r. vm_compute. reflexivity.
Qed.
Lemma ended_reachable : sreachable always 1000 ended.
Proof. exact (and_then flushed_to_disk ended flushed_reachable (step_finalize flushed_to_disk)). Qed.
Lemma closed_reachable : sreachable always 1000 closed.
Proof.
  apply (and_then handed_out); [apply (and_then ended); [exact ended_reachable|]|].
  - refine (step_hand_out [1]%N ended (member ended) _ _ _ _ _); [vm_compute; reflexivity|vm_compute; reflexivity|vm_compute; reflexivity|discriminate|]. exists []. rewrite app_nil_r. vm_compute. reflexivity.
  - refine (step_finish handed_out (member handed_out) _ _ _ _ _); [vm_compute; reflexivity|vm_compute; reflexivity|vm_compute; reflexivity| |vm_compute; reflexivity].
    apply (list_elem_of_lookup_2 _ 2). vm_compute. reflexivity.
Qed.
Lemma cstep_hand_out chunk s m :
  wr_heap (writer s) !! 0 = Some m → mb_destroyed m = false → mb_ended m = false → chunk ≠ [] → mb_out m ++ chunk `prefix_of` gz (mb_calls m) →
  cstep always (writer s) (writer (hand_out chunk s)).
Proof.
  assert (E : writer (hand_out chunk s) = on_data 0 chunk (update_member (emit chunk) 0 (writer s))) by apply after_event_events.
  rewrite E. apply cs_data.
Qed.
Lemma cstep_finish s m :
  wr_heap (writer s) !! 0 = Some m → mb_destroyed m = false → mb_ended m = false → gz_end ∈ mb_calls m → mb_out m = gz (mb_calls m) →
  cstep always (writer s) (writer (finish s)).
Proof. assert (E : writer (finish s) = on_end always 0 (writer s)) by apply after_event_events. rewrite E. apply cs_end. Qed.
Lemma closing_steps : nsteps (cstep always) 2 (writer ended) (writer closed).
Proof.
  eapply (nsteps_l _ 1 _ (writer handed_out)); [|apply nsteps_once].
  - refine (cstep_hand_out [1]%N ended (member ended) _ _ _ _ _);
      [vm_compute; reflexivity|vm_compute; reflexivity|vm_compute; reflexivity|discriminate|]. exists []. rewrite app_nil_r. vm_compute. reflexivity.
  - refine (cstep_finish handed_out (member handed_out) _ _ _ _ _);
      [vm_compute; reflexivity|vm_compute; reflexivity|vm_compute; reflexivity| |vm_compute; reflexivity].
    apply (list_elem_of_lookup_2 _ 2). vm_compute. reflexivity.
Qed.
End SessionRun.

(** What the session has received: two pieces of output and one resize, at times that do not
    go back. *)
Definition received_ops : list (Z * TermOp) := [(5%Z, op_output [104; 105]%N); (6%Z, op_resize 80 24); (6%Z, op_output [36]%N)].

(** The file is cut in the middle of the last line. *)
Lemma replay_after_crash_witness :
  ∃ records recording n,
    loadReplaySegments (files (take 2700 (wr_file (ar_events (ss_recording SessionRun.flushed_to_disk)))) None []) = lp_segments records
    ∧ mapM (readReplaySegment (take 2700 (wr_file (ar_events (ss_recording SessionRun.flushed_to_disk))))) records = Some recording
    ∧ recording ≫= segment_ops = take n received_ops ∧ length records = 1.
Proof.
  eexists. destruct (replay_after_crash SessionRun.always 1000 SessionRun.flushed_to_disk
      (take 2700 (wr_file (ar_events (ss_recording SessionRun.flushed_to_disk)))) [] None _ SessionRun.flushed_reachable
      (prefix_take _ _) (prefix_nil _) ltac:(vm_compute; reflexivity)) as (recording & n & H1 & _ & H2).
  exists recording, n. split; [vm_compute; reflexivity|]. split; [exact H1|]. split; [|vm_compute; reflexivity]. rewrite H2. vm_compute. reflexivity.
Defined.
Lemma flushed_to_disk_out : flushed_out (ar_events (ss_recording SessionRun.flushed_to_disk)).
Proof.
  exists 0, (SessionRun.member SessionRun.flushed_to_disk), (removelast (mb_calls (SessionRun.member SessionRun.flushed_to_disk))).
  split_and!; [vm_compute; reflexivity..|]. apply N.leb_le. vm_compute. reflexivity.
Qed.
Lemma replay_writer_closes_witness :
  2 <= work (ar_events (ss_recording SessionRun.ended)) ∧ wr_fileEnded (ar_events (ss_recording SessionRun.closed)) = true.
Proof.
  destruct (replay_writer_closes SessionRun.always 1000 SessionRun.ended 2 (ar_events (ss_recording SessionRun.closed)) SessionRun.ended_reachable) as [H1 H2].
  - vm_compute. reflexivity.
  - exact SessionRun.closing_steps.
  - split; [exact H1|]. apply H2; [vm_compute; reflexivity|]. intros w' Hc.
    assert (Hh : forallb mb_ended (wr_heap (ar_events (ss_recording SessionRun.closed))) = true) by (vm_compute; reflexivity).
    destruct Hc as [id m chunk Hm _ He _ _|id m Hm _ He _ _]; apply list_elem_of_lookup_2 in Hm; rewrite forallb_spec in Hh; specialize (Hh _ Hm); congruence.
Defined.
Section played.
#[local] Existing Instance Log.log_screen.
#[local] Existing Instance Log.log_terminal.
(** At 5 ms the first piece of output is on the screen, and nothing else. *)
Lemma replay_shows_session_witness :
  length (wr_segments (ar_events (ss_recording SessionRun.closed))) = 1
  ∧ ∃ recording, mapM (readReplaySegment (wr_file (ar_events (ss_recording SessionRun.closed)))) (wr_segments (ar_events (ss_recording SessionRun.closed))) = Some recording
    ∧ recording ≫= segment_ops = received_ops
    ∧ ∀ w p, reachable (sr_info <$> wr_segments (ar_events (ss_recording SessionRun.closed))) recording {| Log.drawn_part := []; Log.queue := [] |} 100 8 w →
        rp_disposed (w_player w) = false → w_failed w = ∅ → (w_goal w <= 5)%Z →
        advance (sr_info <$> wr_segments (ar_events (ss_recording SessionRun.closed))) 5 (w_player w) = Some (p, true) →
        t_shown (rp_terminal p) = [Log.log_byte 104; Log.log_byte 105].
Proof.
  split; [vm_compute; reflexivity|].
  destruct (replay_shows_session SessionRun.always 1000 SessionRun.closed None {| Log.drawn_part := []; Log.queue := [] |} 100 8 SessionRun.closed_reachable)
    as (_ & recording & H1 & _ & H2 & H3); [vm_compute; reflexivity|vm_compute; reflexivity|].
  exists recording. split; [exact H1|]. split; [rewrite H2; vm_compute; reflexivity|].
  intros w p Hr Hd Hf Hg Ha. etrans; [exact (H3 w 5%Z p Hr Hd Hf Hg Ha)|]. vm_compute. reflexivity.
Defined.
End played.
