(* ===== verification/SyncService.v ===== *)
(** * The synchronisation service (apps/desktop/src/main/sync-service.ts, auth-error-message.ts,
      and of auth-service.ts what it asks of the session and the vault)

    Every operation as an asynchronous function over the service's fields: the
    lease that ties it to an account, a vault key and a generation; the queue of
    operations; the conditional download, the upload and its revision; the retry.
    Server, session refresh and secret store answer the requests. *)

From S2P Require Import Prelude Collections Vault AsyncProc SyncRecords.

(** ** The session and the vault, as far as the service reads them *)

Inductive AuthStatus :=
| auth_loading | auth_unauthenticated | auth_local_only | auth_authenticating | auth_authenticated
| auth_offline_authenticated | auth_error.
#[export] Instance AuthStatus_eq_dec : EqDecision AuthStatus.
Proof. solve_decision. Defined.

Inductive InternalVaultState :=
| vault_none
| vault_legacy (epoch : Z) (migrationRequired : bool)
| vault_setup_required (epoch : Z)
| vault_error (errorMessage : jsstring)
| vault_locked (wrappedDekBase64 : jsstring) (kdf : VaultKdfDescriptor) (epoch wrapRevision : Z) (dekVerifierBase64 : option jsstring)
| vault_unlocked (dekBase64 : jsstring) (epoch wrapRevision : Z).

Record AuthSession := { as_userId : jsstring; as_accessToken : jsstring; as_keyBase64 : option jsstring }.
(** [as_serverUrl] is the normalized address of the configured server. *)
Record AuthService := {
  auth_status : AuthStatus;
  auth_session : option AuthSession;
  auth_serverUrl : jsstring;
  auth_vault : InternalVaultState;
  auth_serverVaultE2ee : option (jsstring * bool);
  auth_serverWebauthn : option (jsstring * bool);
  auth_serverDataFloor : option (jsstring * bool);
}.

Record AuthSyncContext := {
  ctx_userId : jsstring; ctx_serverUrl : jsstring; ctx_accessToken : jsstring;
  ctx_vaultKeyBase64 : jsstring; ctx_vaultEpoch : option Z }.

(** A message of the catalogue, with its parameters, in the language of the app; what
    [JSON.parse] makes of an error body. *)
Class Messages := t : string → list jsstring → jsstring.
Record ErrorBody := { eb_error : option jsstring; eb_message : option jsstring; eb_msg : option jsstring;
                      eb_detail : option jsstring; eb_code : option jsstring }.
Class ErrorJson := parse_error_body : jsstring → option ErrorBody.   (* its string fields; [None] throws *)
(** [process.env.DOLSSH_E2E_DISABLE_SYNC === '1'] *)
Class SyncEnv := isE2ESyncDisabled : bool.

Inductive SyncBootstrapStatus := st_idle | st_syncing | st_ready | st_paused | st_error.
#[export] Instance SyncBootstrapStatus_eq_dec : EqDecision SyncBootstrapStatus.
Proof. solve_decision. Defined.
Inductive AwsProfilesServerSupport := sup_unknown | sup_supported | sup_unsupported.
#[export] Instance AwsProfilesServerSupport_eq_dec : EqDecision AwsProfilesServerSupport.
Proof. solve_decision. Defined.

Record SyncStatus := {
  status : SyncBootstrapStatus;
  lastSuccessfulSyncAt : option jsstring;
  lastDataChangeAt : option jsstring;
  pendingPush : bool;
  errorMessage : option jsstring;
  awsProfilesServerSupport : AwsProfilesServerSupport;
}.
(** [state.sync] of the stored file. *)
Record PersistedSyncState := {
  ps_lastSuccessfulSyncAt : option jsstring; ps_pendingPush : bool; ps_errorMessage : option jsstring;
  ps_awsProfilesServerSupport : AwsProfilesServerSupport; ps_updatedAt : jsstring }.

Record SyncLease := { lease_context : AuthSyncContext; lease_generation : nat }.

Inductive SyncError :=
| StaleSyncLeaseError
| SyncAuthenticationError (message : jsstring)
| SyncVaultDekMismatchError (message : jsstring)
| SyncVaultDecodeError (message : jsstring)
| OtherError (message : jsstring).

(** ** Requests and answers *)

Inductive Endpoint := ep_info | ep_sync_get | ep_sync_post | ep_watch.
Record HttpRequest := {
  rq_endpoint : Endpoint; rq_serverUrl : jsstring; rq_accessToken : option jsstring;
  rq_ifNoneMatch : option jsstring; rq_vaultEpoch : option Z; rq_dataFloor : option N;
  rq_body : option SyncPayloadV2 }.

Record ServerInfoResponse := {
  si_awsProfiles : bool; si_dataFloor : bool; si_watch : bool; si_vaultE2ee : bool; si_webauthn : bool }.
(** The fields the client reads of a JSON body. *)
Record JsonBody := { jb_payload : PartialPayload; jb_revision : option N; jb_info : ServerInfoResponse }.
(** A response; reading its body as text or as JSON is another request. *)
Record HttpResponse := {
  http_status : Z; http_contentType : jsstring; http_etag : option jsstring;
  http_text : jsstring; http_json : option JsonBody }.
Definition http_ok (r : HttpResponse) : bool := ((200 <=? http_status r) && (http_status r <=? 299))%Z.

Inductive SyncWatchOutcome := watch_changed | watch_unchanged.
Record SyncWatchResult := { outcome_ : SyncWatchOutcome; live : bool }.

Section service.
Context {Data : Type} {SS : SyncStore Data} {CO : Collator} {ME : Messages} {EJ : ErrorJson} {SE : SyncEnv}.

Inductive Request :=
| Fetch (request : HttpRequest)
| ReadText (response : HttpResponse)
| ReadJson (response : HttpResponse)
| RefreshSession                       (* authService.refreshSession() *)
| HandleVaultDekRejected               (* authService.handleVaultDekRejected() *)
| LoadSecret (secretRef : jsstring)    (* secretStore.load(secretRef), parsed *)
| AppliedSnapshot                      (* this.onAppliedSnapshot?.() *)
| Sleep                                (* abortableSleep *)
| Tick.                                (* the microtask before a finally callback *)
Definition answer (r : Request) : Type :=
  match r with
  | Fetch _ => result HttpResponse
  | ReadText _ => result jsstring
  | ReadJson _ => result JsonBody
  | RefreshSession => result AuthStatus
  | HandleVaultDekRejected => result unit
  | LoadSecret _ => result (option Secret)
  | AppliedSnapshot => result unit
  | Sleep | Tick => unit
  end.

(** ** The fields of the service

    [ss_data], [ss_outbox] and [ss_persisted] are the stored desktop state,
    [ss_auth] the auth service, [ss_now] the clock.  The abort signal of a lease
    is that of its generation: it is aborted when the generation ends.
    [ss_operationTail] names the operation queued last.  [ss_committed] is auxiliary:
    the snapshots that were ever committed, which the code does not keep. *)
Record SyncService := {
  ss_data : Data;
  ss_outbox : list SyncDeletionRecord;
  ss_persisted : PersistedSyncState;
  ss_auth : AuthService;
  ss_state : SyncStatus;
  ss_pushTimer : bool;
  ss_pushTask : option nat;
  ss_bootstrapTask : option nat;
  ss_queuedPushGeneration : option nat;
  ss_syncGeneration : nat;
  ss_operationTail : option nat;
  ss_lastSyncRevision : option jsstring;
  ss_watchSupport : option (jsstring * bool);
  ss_now : jsstring;
  ss_seed : nat;
  ss_committed : list SyncPayloadV2;
}.
Definition set_data (v : Data) (s : SyncService) : SyncService :=
  {| ss_data := v; ss_outbox := ss_outbox s; ss_persisted := ss_persisted s; ss_auth := ss_auth s;
     ss_state := ss_state s; ss_pushTimer := ss_pushTimer s; ss_pushTask := ss_pushTask s;
     ss_bootstrapTask := ss_bootstrapTask s; ss_queuedPushGeneration := ss_queuedPushGeneration s;
     ss_syncGeneration := ss_syncGeneration s; ss_operationTail := ss_operationTail s;
     ss_lastSyncRevision := ss_lastSyncRevision s; ss_watchSupport := ss_watchSupport s; ss_now := ss_now
     s; ss_seed := ss_seed s; ss_committed := ss_committed s |}.
Definition set_outbox (v : list SyncDeletionRecord) (s : SyncService) : SyncService :=
  {| ss_data := ss_data s; ss_outbox := v; ss_persisted := ss_persisted s; ss_auth := ss_auth s; ss_state
     := ss_state s; ss_pushTimer := ss_pushTimer s; ss_pushTask := ss_pushTask s; ss_bootstrapTask :=
     ss_bootstrapTask s; ss_queuedPushGeneration := ss_queuedPushGeneration s; ss_syncGeneration :=
     ss_syncGeneration s; ss_operationTail := ss_operationTail s; ss_lastSyncRevision :=
     ss_lastSyncRevision s; ss_watchSupport := ss_watchSupport s; ss_now := ss_now s; ss_seed := ss_seed
     s; ss_committed := ss_committed s |}.
Definition set_persisted (v : PersistedSyncState) (s : SyncService) : SyncService :=
  {| ss_data := ss_data s; ss_outbox := ss_outbox s; ss_persisted := v; ss_auth := ss_auth s; ss_state :=
     ss_state s; ss_pushTimer := ss_pushTimer s; ss_pushTask := ss_pushTask s; ss_bootstrapTask :=
     ss_bootstrapTask s; ss_queuedPushGeneration := ss_queuedPushGeneration s; ss_syncGeneration :=
     ss_syncGeneration s; ss_operationTail := ss_operationTail s; ss_lastSyncRevision :=
     ss_lastSyncRevision s; ss_watchSupport := ss_watchSupport s; ss_now := ss_now s; ss_seed := ss_seed
     s; ss_committed := ss_committed s |}.
Definition set_auth (v : AuthService) (s : SyncService) : SyncService :=
  {| ss_data := ss_data s; ss_outbox := ss_outbox s; ss_persisted := ss_persisted s; ss_auth := v;
     ss_state := ss_state s; ss_pushTimer := ss_pushTimer s; ss_pushTask := ss_pushTask s;
     ss_bootstrapTask := ss_bootstrapTask s; ss_queuedPushGeneration := ss_queuedPushGeneration s;
     ss_syncGeneration := ss_syncGeneration s; ss_operationTail := ss_operationTail s;
     ss_lastSyncRevision := ss_lastSyncRevision s; ss_watchSupport := ss_watchSupport s; ss_now := ss_now
     s; ss_seed := ss_seed s; ss_committed := ss_committed s |}.
Definition set_state (v : SyncStatus) (s : SyncService) : SyncService :=
  {| ss_data := ss_data s; ss_outbox := ss_outbox s; ss_persisted := ss_persisted s; ss_auth := ss_auth
     s; ss_state := v; ss_pushTimer := ss_pushTimer s; ss_pushTask := ss_pushTask s; ss_bootstrapTask :=
     ss_bootstrapTask s; ss_queuedPushGeneration := ss_queuedPushGeneration s; ss_syncGeneration :=
     ss_syncGeneration s; ss_operationTail := ss_operationTail s; ss_lastSyncRevision :=
     ss_lastSyncRevision s; ss_watchSupport := ss_watchSupport s; ss_now := ss_now s; ss_seed := ss_seed
     s; ss_committed := ss_committed s |}.
Definition set_pushTimer (v : bool) (s : SyncService) : SyncService :=
  {| ss_data := ss_data s; ss_outbox := ss_outbox s; ss_persisted := ss_persisted s; ss_auth := ss_auth
     s; ss_state := ss_state s; ss_pushTimer := v; ss_pushTask := ss_pushTask s; ss_bootstrapTask :=
     ss_bootstrapTask s; ss_queuedPushGeneration := ss_queuedPushGeneration s; ss_syncGeneration :=
     ss_syncGeneration s; ss_operationTail := ss_operationTail s; ss_lastSyncRevision :=
     ss_lastSyncRevision s; ss_watchSupport := ss_watchSupport s; ss_now := ss_now s; ss_seed := ss_seed
     s; ss_committed := ss_committed s |}.
Definition set_pushTask (v : option nat) (s : SyncService) : SyncService :=
  {| ss_data := ss_data s; ss_outbox := ss_outbox s; ss_persisted := ss_persisted s; ss_auth := ss_auth
     s; ss_state := ss_state s; ss_pushTimer := ss_pushTimer s; ss_pushTask := v; ss_bootstrapTask :=
     ss_bootstrapTask s; ss_queuedPushGeneration := ss_queuedPushGeneration s; ss_syncGeneration :=
     ss_syncGeneration s; ss_operationTail := ss_operationTail s; ss_lastSyncRevision :=
     ss_lastSyncRevision s; ss_watchSupport := ss_watchSupport s; ss_now := ss_now s; ss_seed := ss_seed
     s; ss_committed := ss_committed s |}.
Definition set_bootstrapTask (v : option nat) (s : SyncService) : SyncService :=
  {| ss_data := ss_data s; ss_outbox := ss_outbox s; ss_persisted := ss_persisted s; ss_auth := ss_auth
     s; ss_state := ss_state s; ss_pushTimer := ss_pushTimer s; ss_pushTask := ss_pushTask s;
     ss_bootstrapTask := v; ss_queuedPushGeneration := ss_queuedPushGeneration s; ss_syncGeneration :=
     ss_syncGeneration s; ss_operationTail := ss_operationTail s; ss_lastSyncRevision :=
     ss_lastSyncRevision s; ss_watchSupport := ss_watchSupport s; ss_now := ss_now s; ss_seed := ss_seed
     s; ss_committed := ss_committed s |}.
Definition set_queuedPushGeneration (v : option nat) (s : SyncService) : SyncService :=
  {| ss_data := ss_data s; ss_outbox := ss_outbox s; ss_persisted := ss_persisted s; ss_auth := ss_auth
     s; ss_state := ss_state s; ss_pushTimer := ss_pushTimer s; ss_pushTask := ss_pushTask s;
     ss_bootstrapTask := ss_bootstrapTask s; ss_queuedPushGeneration := v; ss_syncGeneration :=
     ss_syncGeneration s; ss_operationTail := ss_operationTail s; ss_lastSyncRevision :=
     ss_lastSyncRevision s; ss_watchSupport := ss_watchSupport s; ss_now := ss_now s; ss_seed := ss_seed
     s; ss_committed := ss_committed s |}.
Definition set_syncGeneration (v : nat) (s : SyncService) : SyncService :=
  {| ss_data := ss_data s; ss_outbox := ss_outbox s; ss_persisted := ss_persisted s; ss_auth := ss_auth
     s; ss_state := ss_state s; ss_pushTimer := ss_pushTimer s; ss_pushTask := ss_pushTask s;
     ss_bootstrapTask := ss_bootstrapTask s; ss_queuedPushGeneration := ss_queuedPushGeneration s;
     ss_syncGeneration := v; ss_operationTail := ss_operationTail s; ss_lastSyncRevision :=
     ss_lastSyncRevision s; ss_watchSupport := ss_watchSupport s; ss_now := ss_now s; ss_seed := ss_seed
     s; ss_committed := ss_committed s |}.
Definition set_operationTail (v : option nat) (s : SyncService) : SyncService :=
  {| ss_data := ss_data s; ss_outbox := ss_outbox s; ss_persisted := ss_persisted s; ss_auth := ss_auth
     s; ss_state := ss_state s; ss_pushTimer := ss_pushTimer s; ss_pushTask := ss_pushTask s;
     ss_bootstrapTask := ss_bootstrapTask s; ss_queuedPushGeneration := ss_queuedPushGeneration s;
     ss_syncGeneration := ss_syncGeneration s; ss_operationTail := v; ss_lastSyncRevision :=
     ss_lastSyncRevision s; ss_watchSupport := ss_watchSupport s; ss_now := ss_now s; ss_seed := ss_seed
     s; ss_committed := ss_committed s |}.
Definition set_lastSyncRevision (v : option jsstring) (s : SyncService) : SyncService :=
  {| ss_data := ss_data s; ss_outbox := ss_outbox s; ss_persisted := ss_persisted s; ss_auth := ss_auth
     s; ss_state := ss_state s; ss_pushTimer := ss_pushTimer s; ss_pushTask := ss_pushTask s;
     ss_bootstrapTask := ss_bootstrapTask s; ss_queuedPushGeneration := ss_queuedPushGeneration s;
     ss_syncGeneration := ss_syncGeneration s; ss_operationTail := ss_operationTail s;
     ss_lastSyncRevision := v; ss_watchSupport := ss_watchSupport s; ss_now := ss_now s; ss_seed :=
     ss_seed s; ss_committed := ss_committed s |}.
Definition set_watchSupport (v : option (jsstring * bool)) (s : SyncService) : SyncService :=
  {| ss_data := ss_data s; ss_outbox := ss_outbox s; ss_persisted := ss_persisted s; ss_auth := ss_auth
     s; ss_state := ss_state s; ss_pushTimer := ss_pushTimer s; ss_pushTask := ss_pushTask s;
     ss_bootstrapTask := ss_bootstrapTask s; ss_queuedPushGeneration := ss_queuedPushGeneration s;
     ss_syncGeneration := ss_syncGeneration s; ss_operationTail := ss_operationTail s;
     ss_lastSyncRevision := ss_lastSyncRevision s; ss_watchSupport := v; ss_now := ss_now s; ss_seed :=
     ss_seed s; ss_committed := ss_committed s |}.
Definition set_now (v : jsstring) (s : SyncService) : SyncService :=
  {| ss_data := ss_data s; ss_outbox := ss_outbox s; ss_persisted := ss_persisted s; ss_auth := ss_auth
     s; ss_state := ss_state s; ss_pushTimer := ss_pushTimer s; ss_pushTask := ss_pushTask s;
     ss_bootstrapTask := ss_bootstrapTask s; ss_queuedPushGeneration := ss_queuedPushGeneration s;
     ss_syncGeneration := ss_syncGeneration s; ss_operationTail := ss_operationTail s;
     ss_lastSyncRevision := ss_lastSyncRevision s; ss_watchSupport := ss_watchSupport s; ss_now := v;
     ss_seed := ss_seed s; ss_committed := ss_committed s |}.
Definition set_seed (v : nat) (s : SyncService) : SyncService :=
  {| ss_data := ss_data s; ss_outbox := ss_outbox s; ss_persisted := ss_persisted s; ss_auth := ss_auth
     s; ss_state := ss_state s; ss_pushTimer := ss_pushTimer s; ss_pushTask := ss_pushTask s;
     ss_bootstrapTask := ss_bootstrapTask s; ss_queuedPushGeneration := ss_queuedPushGeneration s;
     ss_syncGeneration := ss_syncGeneration s; ss_operationTail := ss_operationTail s;
     ss_lastSyncRevision := ss_lastSyncRevision s; ss_watchSupport := ss_watchSupport s; ss_now := ss_now
     s; ss_seed := v; ss_committed := ss_committed s |}.
Definition set_committed (v : list SyncPayloadV2) (s : SyncService) : SyncService :=
  {| ss_data := ss_data s; ss_outbox := ss_outbox s; ss_persisted := ss_persisted s; ss_auth := ss_auth
     s; ss_state := ss_state s; ss_pushTimer := ss_pushTimer s; ss_pushTask := ss_pushTask s;
     ss_bootstrapTask := ss_bootstrapTask s; ss_queuedPushGeneration := ss_queuedPushGeneration s;
     ss_syncGeneration := ss_syncGeneration s; ss_operationTail := ss_operationTail s;
     ss_lastSyncRevision := ss_lastSyncRevision s; ss_watchSupport := ss_watchSupport s; ss_now := ss_now
     s; ss_seed := ss_seed s; ss_committed := v |}.

Implicit Types (s : SyncService) (l : SyncLease).
Abbreviation Proc := (proc SyncService Request SyncError answer).

(** ** The auth service's side *)

Definition getVaultKeyBase64 (a : AuthService) : result jsstring :=
  if negb (bool_decide (auth_status a = auth_authenticated) || bool_decide (auth_status a = auth_offline_authenticated))
  then Throw "auth.noVaultKey"
  else match auth_vault a with
       | vault_unlocked dek _ _ => Ok dek
       | vault_error _ => Throw "vault error"
       | vault_legacy _ false =>
           match auth_session a ≫= (λ x, opt_truthy (as_keyBase64 x)) with
           | Some key => Ok key
           | None => Throw "auth.noVaultKey"
           end
       | _ => Throw "auth.vaultUnlockRequired"
       end.

Definition captureSyncContext (a : AuthService) : result AuthSyncContext :=
  match auth_status a, auth_session a with
  | auth_authenticated, Some session =>
      let! key := getVaultKeyBase64 a in
      Ok {| ctx_userId := as_userId session; ctx_serverUrl := auth_serverUrl a;
            ctx_accessToken := as_accessToken session; ctx_vaultKeyBase64 := key;
            ctx_vaultEpoch := match auth_vault a with vault_unlocked _ epoch _ => Some epoch | _ => None end |}
  | _, _ => Throw "auth.syncOnlineOnly"
  end.
(** The access token may be refreshed: it is not compared. *)
Definition isSyncContextCurrent (a : AuthService) (context : AuthSyncContext) : bool :=
  match captureSyncContext a with
  | Ok current =>
      bool_decide (ctx_userId current = ctx_userId context) && bool_decide (ctx_serverUrl current = ctx_serverUrl context)
      && bool_decide (ctx_vaultKeyBase64 current = ctx_vaultKeyBase64 context)
      && bool_decide (ctx_vaultEpoch current = ctx_vaultEpoch context)
  | Throw _ => false
  end.
Definition isVaultReadyForSync (a : AuthService) : bool :=
  match auth_vault a with vault_legacy _ migrationRequired => negb migrationRequired | vault_unlocked _ _ _ => true | _ => false end.
Definition getAccessToken (a : AuthService) : result jsstring :=
  match auth_status a, auth_session a ≫= (λ x, opt_truthy (Some (as_accessToken x))) with
  | auth_offline_authenticated, _ => Throw "auth.offlineUnavailable"
  | auth_local_only, _ => Throw "auth.featureNeedsAccount"
  | auth_authenticated, Some token => Ok token
  | _, _ => Throw "auth.signInRequired"
  end.
(** [noteServerVaultSupport], [noteServerWebauthnSupport] and [noteServerDataFloorSupport]. *)
Definition note_server (vaultE2ee webauthn dataFloor : bool) (a : AuthService) : AuthService :=
  {| auth_status := auth_status a; auth_session := auth_session a; auth_serverUrl := auth_serverUrl a;
     auth_vault := auth_vault a; auth_serverVaultE2ee := Some (auth_serverUrl a, vaultE2ee);
     auth_serverWebauthn := Some (auth_serverUrl a, webauthn);
     auth_serverDataFloor := Some (auth_serverUrl a, dataFloor) |}.

(** ** Leases and generations *)

Definition captureSyncLease s : result SyncLease :=
  let! context := captureSyncContext (ss_auth s) in
  Ok {| lease_context := context; lease_generation := ss_syncGeneration s |}.
Definition isSyncLeaseActive s l : bool :=
  (lease_generation l =? ss_syncGeneration s)%nat && isSyncContextCurrent (ss_auth s) (lease_context l).
Definition assertSyncLeaseActive l : Proc unit :=
  get (λ s, if isSyncLeaseActive s l then ret tt else raise StaleSyncLeaseError).

Definition invalidateSyncGeneration (resetRevision : bool) s : SyncService :=
  let s := set_syncGeneration (S (ss_syncGeneration s)) s in
  let s := set_operationTail None s in
  let s := set_queuedPushGeneration None s in
  let s := set_pushTimer false s in
  if resetRevision then set_lastSyncRevision None s else s.

(** ** The status, in memory and stored *)

Definition shouldSyncAwsProfiles (support : AwsProfilesServerSupport) : bool := bool_decide (support ≠ sup_unsupported).
Definition listSyncableDeletions (support : AwsProfilesServerSupport) s : list SyncDeletionRecord :=
  List.filter (λ record, shouldSyncAwsProfiles support || bool_decide (del_kind record ≠ k_awsProfiles))
    (outbox_list (ss_outbox s)).

Definition persist (now : jsstring) (st : SyncStatus) : PersistedSyncState :=
  {| ps_lastSuccessfulSyncAt := lastSuccessfulSyncAt st; ps_pendingPush := pendingPush st;
     ps_errorMessage := errorMessage st; ps_awsProfilesServerSupport := awsProfilesServerSupport st;
     ps_updatedAt := now |}.
Definition patchState (patch : SyncStatus → SyncStatus) s : SyncService :=
  let state := patch (ss_state s) in
  set_persisted (persist (ss_now s) state) (set_state state s).

Definition loadPersistedState (p : PersistedSyncState) : SyncStatus :=
  {| status := st_idle; lastSuccessfulSyncAt := ps_lastSuccessfulSyncAt p; lastDataChangeAt := None;
     pendingPush := ps_pendingPush p; errorMessage := ps_errorMessage p;
     awsProfilesServerSupport := ps_awsProfilesServerSupport p |}.

Definition hasPendingLocalChanges s : bool :=
  pendingPush (ss_state s) || ps_pendingPush (ss_persisted s)
  || bool_decide (listSyncableDeletions (awsProfilesServerSupport (ss_state s)) s ≠ []).

(** The fields the patches below set. *)
Definition patch_status (v : SyncBootstrapStatus) (st : SyncStatus) : SyncStatus :=
  {| status := v; lastSuccessfulSyncAt := lastSuccessfulSyncAt st; lastDataChangeAt := lastDataChangeAt st;
     pendingPush := pendingPush st; errorMessage := errorMessage st; awsProfilesServerSupport := awsProfilesServerSupport st |}.
Definition patch_pending (v : bool) (st : SyncStatus) : SyncStatus :=
  {| status := status st; lastSuccessfulSyncAt := lastSuccessfulSyncAt st; lastDataChangeAt := lastDataChangeAt st;
     pendingPush := v; errorMessage := errorMessage st; awsProfilesServerSupport := awsProfilesServerSupport st |}.
Definition patch_error (v : option jsstring) (st : SyncStatus) : SyncStatus :=
  {| status := status st; lastSuccessfulSyncAt := lastSuccessfulSyncAt st; lastDataChangeAt := lastDataChangeAt st;
     pendingPush := pendingPush st; errorMessage := v; awsProfilesServerSupport := awsProfilesServerSupport st |}.
Definition patch_success (now : jsstring) (st : SyncStatus) : SyncStatus :=
  {| status := status st; lastSuccessfulSyncAt := Some now; lastDataChangeAt := lastDataChangeAt st;
     pendingPush := pendingPush st; errorMessage := errorMessage st; awsProfilesServerSupport := awsProfilesServerSupport st |}.
Definition patch_dataChange (v : option jsstring) (st : SyncStatus) : SyncStatus :=
  {| status := status st; lastSuccessfulSyncAt := lastSuccessfulSyncAt st; lastDataChangeAt := v;
     pendingPush := pendingPush st; errorMessage := errorMessage st; awsProfilesServerSupport := awsProfilesServerSupport st |}.
Definition patch_support (v : AwsProfilesServerSupport) (st : SyncStatus) : SyncStatus :=
  {| status := status st; lastSuccessfulSyncAt := lastSuccessfulSyncAt st; lastDataChangeAt := lastDataChangeAt st;
     pendingPush := pendingPush st; errorMessage := errorMessage st; awsProfilesServerSupport := v |}.

Definition pause (message : option jsstring) s : SyncService :=
  let s := invalidateSyncGeneration false s in
  let pending := hasPendingLocalChanges s in
  patchState (λ st, patch_error message (patch_pending pending (patch_status st_paused st))) s.
Definition markLocalChangesPendingPush s : SyncService := patchState (λ st, patch_error None (patch_pending true st)) s.
Definition resetVaultRecoveryState s : SyncService :=
  let s := invalidateSyncGeneration true s in
  let pending := hasPendingLocalChanges s in
  patchState (λ st, patch_error None (patch_pending pending (patch_status st_paused st))) s.
Definition markPendingPush s : SyncService :=
  if hasPendingLocalChanges s
  then if pendingPush (ss_state s) then s else patchState (patch_pending true) s
  else patchState (λ st, patch_error None (patch_pending true st)) s.
Definition scheduleRetry s : SyncService := set_pushTimer true s.
(** What the end-to-end tests run with. *)
Definition sync_disabled s : SyncService :=
  patchState (λ st, patch_error None (patch_pending false (patch_success (ss_now s) (patch_status st_ready st)))) s.

(** ** Errors of the server *)

Definition AUTH_INVALID_ERROR_MESSAGE : jsstring := t "misc.sessionExpiredOrInvalid" [].
Definition ko_sign_in_required : jsstring := [47196; 44536; 51064; 51060; 32; 54596; 50836; 54633; 45768; 45796]%N.
Definition ko_session_expired : jsstring := [49464; 49496; 51060; 32; 47564; 47308]%N.
Definition ko_sign_in : jsstring := [47196; 44536; 51064; 51060; 32; 54596; 50836]%N.
Definition ko_access_denied : jsstring := [54728; 50857; 46104; 51648; 32; 50506; 51008; 32; 51217; 44540]%N.
Definition ko_client_denied : jsstring := [54728; 50857; 46104; 51648; 32; 50506; 51008; 32; 53364; 46972; 51060; 50616; 53944]%N.

Definition authInvalidPattern : list jsstring :=
  (js <$> ["token is expired"; "invalid claims"; "expired refresh token"; "refresh token"; "unauthorized"; "forbidden"; "jwt";
           "unsupported_client"]%string)
  ++ [ko_sign_in; ko_session_expired; ko_access_denied; ko_client_denied].
Definition likelyAuthPattern : list jsstring :=
  (js <$> ["token is expired"; "invalid claims"; "unauthorized"; "forbidden"; "jwt"]%string)
  ++ [ko_sign_in_required; js "sign-in is required"; ko_session_expired; js "session has expired"].

Definition auth_failure (st : Z) : bool := (st =? 401)%Z || (st =? 403)%Z.
Definition normalizeAuthInvalidErrorMessage (st : Z) (message : jsstring) : option jsstring :=
  if auth_failure st || test_any authInvalidPattern message then Some AUTH_INVALID_ERROR_MESSAGE else None.

(** [typeof v === "string" && v.trim()] *)
Definition trimmed_field (o : option jsstring) : option jsstring := opt_truthy (js_trim <$> o).
Definition extractApiErrorMessage (text : jsstring) : option jsstring :=
  match js_trim text with
  | [] => None
  | trimmed =>
      match parse_error_body trimmed with
      | None => Some trimmed
      | Some parsed =>
          match trimmed_field (eb_error parsed), trimmed_field (eb_message parsed),
                trimmed_field (eb_msg parsed), trimmed_field (eb_detail parsed) with
          | Some m, _, _, _ | None, Some m, _, _ | None, None, Some m, _ | None, None, None, Some m => Some m
          | _, _, _, _ => Some trimmed
          end
      end
  end.

(** [`${fallback} (${response.status})`] *)
Definition with_http_status (fallback : jsstring) (st : Z) : jsstring := fallback ++ js " (" ++ show_N (Z.to_N st) ++ js ")".

Definition looksLikeHtml (response : HttpResponse) (text : jsstring) : bool :=
  includes (http_contentType response) (js "text/html") || startsWith text (js "<!DOCTYPE html")
  || startsWith text (js "<html") || includes text (js "<body>").

Definition api_error_message (response : HttpResponse) (fallback text : jsstring) : jsstring :=
  let text := js_trim text in
  if looksLikeHtml response text then t "sync.htmlResponse" [fallback; show_N (Z.to_N (http_status response))] else
  let extracted := extractApiErrorMessage text in
  match opt_truthy (extracted ≫= normalizeAuthInvalidErrorMessage (http_status response)), opt_truthy extracted with
  | Some m, _ => m
  | None, Some m => m
  | None, None => with_http_status fallback (http_status response)
  end.

(** An answered promise, or its rejection. *)
Definition settled {A} (r : result A) : Proc A :=
  match r with Ok a => ret a | Throw e => raise (OtherError (js e)) end.

Definition toApiErrorMessage (response : HttpResponse) (fallback : jsstring) : Proc jsstring :=
  (text ← request (ReadText response) ;
   text ← settled text ;
   ret (api_error_message response fallback text)).

Definition isLikelyAuthError (response : HttpResponse) (message : jsstring) : bool :=
  auth_failure (http_status response) || test_any likelyAuthPattern message.

Definition toApiError (response : HttpResponse) (fallback : jsstring) : Proc SyncError :=
  (message ← toApiErrorMessage response fallback ;
   ret (if isLikelyAuthError response message then SyncAuthenticationError message else OtherError message)).

Definition conflict_error (response : HttpResponse) (fallback text : jsstring) : SyncError :=
  let parsed := parse_error_body (js_trim text) in
  let message := default [] (parsed ≫= eb_error) in
  let code := default [] (parsed ≫= eb_code) in
  let resolvedMessage := if truthy message then message else with_http_status fallback (http_status response) in
  if isVaultEpochRejectionCode (Some code) then SyncVaultDekMismatchError resolvedMessage else OtherError resolvedMessage.
Definition toConflictError (response : HttpResponse) (fallback : jsstring) : Proc SyncError :=
  (text ← request (ReadText response) ;
   text ← settled text ;
   ret (conflict_error response fallback text)).

(** ** Talking to the server *)

Definition with_token (token : jsstring) (rq : HttpRequest) : HttpRequest :=
  {| rq_endpoint := rq_endpoint rq; rq_serverUrl := rq_serverUrl rq; rq_accessToken := Some token;
     rq_ifNoneMatch := rq_ifNoneMatch rq; rq_vaultEpoch := rq_vaultEpoch rq; rq_dataFloor := rq_dataFloor rq;
     rq_body := rq_body rq |}.
Definition accepted (passthrough : Z → bool) (response : HttpResponse) : bool :=
  http_ok response || (http_status response =? 304)%Z || passthrough (http_status response).

Definition fetchWithAuthRetry l (rq : HttpRequest) (fallback : jsstring) (passthrough : Z → bool) : Proc HttpResponse :=
  (assertSyncLeaseActive l ;;
   response ← request (Fetch (with_token (ctx_accessToken (lease_context l)) rq)) ;
   response ← settled response ;
   assertSyncLeaseActive l ;;
   if accepted passthrough response then ret response else
   if (http_status response =? 409)%Z then error ← toConflictError response fallback ; raise error else
   firstFailureMessage ← toApiErrorMessage response fallback ;
   assertSyncLeaseActive l ;;
   if negb (isLikelyAuthError response firstFailureMessage) then raise (OtherError firstFailureMessage) else
   refreshed ← request RefreshSession ;
   refreshed ← settled refreshed ;
   assertSyncLeaseActive l ;;
   if negb (bool_decide (refreshed = auth_authenticated))
   then raise (SyncAuthenticationError (if truthy firstFailureMessage then firstFailureMessage else AUTH_INVALID_ERROR_MESSAGE))
   else
   token ← get (λ s, match getAccessToken (ss_auth s) with Ok token => ret token | Throw e => raise (OtherError (t e [])) end) ;
   response ← request (Fetch (with_token token rq)) ;
   response ← settled response ;
   assertSyncLeaseActive l ;;
   if accepted passthrough response then ret response else
   if (http_status response =? 409)%Z then error ← toConflictError response fallback ; raise error
   else error ← toApiError response fallback ; raise error).

Definition no_passthrough (_ : Z) : bool := false.
Definition sync_request (endpoint : Endpoint) l : HttpRequest :=
  {| rq_endpoint := endpoint; rq_serverUrl := ctx_serverUrl (lease_context l); rq_accessToken := None;
     rq_ifNoneMatch := None; rq_vaultEpoch := None; rq_dataFloor := None; rq_body := None |}.
Definition with_ifNoneMatch (o : option jsstring) (rq : HttpRequest) : HttpRequest :=
  {| rq_endpoint := rq_endpoint rq; rq_serverUrl := rq_serverUrl rq; rq_accessToken := rq_accessToken rq;
     rq_ifNoneMatch := opt_truthy o; rq_vaultEpoch := rq_vaultEpoch rq; rq_dataFloor := rq_dataFloor rq;
     rq_body := rq_body rq |}.

Definition fetchRemoteSnapshot (support : AwsProfilesServerSupport) l : Proc (option SyncPayloadV2 * option jsstring) :=
  get (λ s,
  (response ← fetchWithAuthRetry l (with_ifNoneMatch (ss_lastSyncRevision s) (sync_request ep_sync_get l))
                (t "sync.fetchFailed" []) no_passthrough ;
   if (http_status response =? 304)%Z then get (λ s, ret (None, ss_lastSyncRevision s)) else
   body ← request (ReadJson response) ;
   body ← settled body ;
   assertSyncLeaseActive l ;;
   ret (Some (normalizeSyncPayload (shouldSyncAwsProfiles support) (jb_payload body)), http_etag response))).

(** The revision of an upload is kept only when it directly follows the last one
    known: otherwise another device's change is in between. *)
Definition keep_revision (revision : option N) s : SyncService :=
  match revision, parseSyncRevisionEtag (ss_lastSyncRevision s) with
  | Some revision, Some lastPulled =>
      if (revision <=? lastPulled + 1)%N then set_lastSyncRevision (Some (formatSyncRevisionEtag revision)) s else s
  | _, _ => s
  end.
Definition post_request l (payload : SyncPayloadV2) s : HttpRequest :=
  {| rq_endpoint := ep_sync_post; rq_serverUrl := ctx_serverUrl (lease_context l); rq_accessToken := None;
     rq_ifNoneMatch := None; rq_vaultEpoch := ctx_vaultEpoch (lease_context l);
     rq_dataFloor := Some (data_floor (ss_data s)); rq_body := Some payload |}.
Definition pushSnapshot (payload : SyncPayloadV2) l : Proc unit :=
  (assertSyncLeaseActive l ;;
   get (λ s,
   response ← fetchWithAuthRetry l (post_request l payload s) (t "sync.uploadFailed" []) no_passthrough ;
   catch
     (body ← request (ReadJson response) ;
      body ← settled body ;
      assertSyncLeaseActive l ;;
      modify (keep_revision (jb_revision body)))
     (λ _, ret tt))).

(** ** The snapshot of the local records *)

Definition bump_seed s : SyncService := set_seed (S (ss_seed s)) s.

Fixpoint load_secrets l (refs : list jsstring) (secrets : list SyncRecord) : Proc (list SyncRecord) :=
  match refs with
  | [] => ret secrets
  | secretRef :: refs =>
      (secret ← request (LoadSecret secretRef) ;
       secret ← settled secret ;
       assertSyncLeaseActive l ;;
       match secret with
       | None => load_secrets l refs secrets
       | Some secret =>
           get (λ s, modify bump_seed ;;
             load_secrets l refs
               (secrets ++ [encode_secret (ss_seed s) (ctx_vaultKeyBase64 (lease_context l)) secretRef secret]))
       end)
  end.

Definition with_secrets (secrets : list SyncRecord) (payload : SyncPayloadV2) : SyncPayloadV2 :=
  λ k, if decide (k = k_secrets) then secrets else payload k.

Definition buildEncryptedSnapshotResult (includeDeletions : bool) (support : AwsProfilesServerSupport) l
    : Proc (SyncPayloadV2 * list SyncDeletionRecord) :=
  (assertSyncLeaseActive l ;;
   modify (λ s, set_data (materialize (ss_data s)) s) ;;
   get (λ s, modify bump_seed ;;
   secrets ← load_secrets l (secret_refs (ss_data s)) [] ;
   let payload := with_secrets secrets
     (encode_records (ss_seed s) (ctx_vaultKeyBase64 (lease_context l)) (shouldSyncAwsProfiles support) (ss_data s)) in
   if negb includeDeletions then ret (payload, []) else
   get (λ s, let includedDeletions := listSyncableDeletions support s in
     ret (with_tombstones includedDeletions payload, includedDeletions)))).
Definition buildEncryptedSnapshot (includeDeletions : bool) (support : AwsProfilesServerSupport) l : Proc SyncPayloadV2 :=
  (snapshot ← buildEncryptedSnapshotResult includeDeletions support l ; ret snapshot.1).

(** ** Applying a downloaded snapshot *)

Definition decoded_or_raise {A} (r : result A) : Proc A :=
  match r with Ok a => ret a | Throw e => raise (SyncVaultDecodeError (js e)) end.
Definition commit (payload : SyncPayloadV2) (decoded : Decoded) s : SyncService :=
  set_committed (payload :: ss_committed s) (set_data (commit_snapshot (ss_now s) decoded (ss_data s)).1 s).

Definition applyRemoteSnapshotAtomically (payload : SyncPayloadV2) (support : AwsProfilesServerSupport) l : Proc bool :=
  (assertSyncLeaseActive l ;;
   get (λ s,
   decoded ← decoded_or_raise (decode_snapshot (ctx_vaultKeyBase64 (lease_context l)) (ss_now s)
                                 (shouldSyncAwsProfiles support) payload) ;
   assertSyncLeaseActive l ;;
   get (λ s, let rebasedWorkspaceGroups := (commit_snapshot (ss_now s) decoded (ss_data s)).2 in
   modify (commit payload decoded) ;;
   applied ← request AppliedSnapshot ;
   settled applied ;;
   assertSyncLeaseActive l ;;
   ret (had_conflicts decoded || rebasedWorkspaceGroups)))).

(** ** What the server supports *)

Definition unsupported_status (st : Z) : bool := (st =? 404)%Z || (st =? 405)%Z || (st =? 501)%Z.
Definition note_unsupported l s : SyncService :=
  set_watchSupport (Some (ctx_serverUrl (lease_context l), false)) (set_auth (note_server false false false (ss_auth s)) s).
Definition note_info l (info : ServerInfoResponse) s : SyncService :=
  set_watchSupport (Some (ctx_serverUrl (lease_context l), si_watch info))
    (set_auth (note_server (si_vaultE2ee info) (si_webauthn info) (si_dataFloor info) (ss_auth s)) s).
Definition resolveAwsProfilesServerSupport (info : ServerInfoResponse) : AwsProfilesServerSupport :=
  if si_awsProfiles info then sup_supported else sup_unsupported.
Definition known_support : Proc AwsProfilesServerSupport := get (λ s, ret (awsProfilesServerSupport (ss_state s))).
Definition is_stale (e : SyncError) : bool := match e with StaleSyncLeaseError => true | _ => false end.

Definition fetchAwsProfilesServerSupport l : Proc AwsProfilesServerSupport :=
  catch
    (response ← request (Fetch (sync_request ep_info l)) ;
     response ← settled response ;
     assertSyncLeaseActive l ;;
     if negb (http_ok response) then
       if unsupported_status (http_status response) then modify (note_unsupported l) ;; ret sup_unsupported
       else known_support
     else
     body ← request (ReadJson response) ;
     body ← settled body ;
     assertSyncLeaseActive l ;;
     modify (note_info l (jb_info body)) ;;
     ret (resolveAwsProfilesServerSupport (jb_info body)))
    (λ error, get (λ s, if is_stale error || negb (isSyncLeaseActive s l) then raise StaleSyncLeaseError else known_support)).

(** ** The operations *)

Definition message_of (e : SyncError) : jsstring :=
  match e with
  | StaleSyncLeaseError => t "sync.generationChanged" []
  | SyncAuthenticationError m | SyncVaultDekMismatchError m | SyncVaultDecodeError m | OtherError m => m
  end.
Definition is_unlocked (v : InternalVaultState) : bool := match v with vault_unlocked _ _ _ => true | _ => false end.
Definition this_state : Proc SyncStatus := get (λ s, ret (ss_state s)).
(** [return this.pause(message)] *)
Definition paused (message : jsstring) : Proc SyncStatus := (modify (pause (Some message)) ;; this_state).

Definition upload_local (support : AwsProfilesServerSupport) l : Proc bool :=
  (local ← buildEncryptedSnapshot true support l ;
   assertSyncLeaseActive l ;;
   if (0 <? totalRecordCount local)%nat then pushSnapshot local l ;; ret true else ret false).

(** The state when a download has been dealt with. *)
Definition bootstrapped (support : AwsProfilesServerSupport) (applied pullChangedLocalData : bool) s : SyncService :=
  let s := set_outbox (clearMany (listSyncableDeletions support s) (ss_outbox s)) s in
  let s := patchState (λ st, patch_error None (patch_pending pullChangedLocalData
             (patch_dataChange (if applied then Some (ss_now s) else lastDataChangeAt st)
               (patch_success (ss_now s) (patch_status st_ready st))))) s in
  if pullChangedLocalData then scheduleRetry s else s.

(** What is on the server - after an upload, when nothing was there. *)
Definition download (support : AwsProfilesServerSupport) l : Proc (option SyncPayloadV2 * option jsstring) :=
  (remote ← fetchRemoteSnapshot support l ;
   assertSyncLeaseActive l ;;
   match remote.1 with
   | Some payload =>
       if (totalRecordCount payload =? 0)%nat then
         pushed ← upload_local support l ;
         if pushed : bool then remote ← fetchRemoteSnapshot support l ; assertSyncLeaseActive l ;; ret remote
         else ret remote
       else ret remote
   | None => ret remote
   end).

(** The revision is kept only now that the snapshot has been applied. *)
Definition keep_etag (remote : option SyncPayloadV2 * option jsstring) s : SyncService :=
  match remote.1, opt_truthy remote.2 with
  | Some _, Some etag => set_lastSyncRevision (Some etag) s
  | _, _ => s
  end.
Definition apply_remote (remote : option SyncPayloadV2 * option jsstring) (support : AwsProfilesServerSupport) l : Proc unit :=
  (pullChangedLocalData ← (match remote.1 with
                           | Some payload => applyRemoteSnapshotAtomically payload support l
                           | None => ret false
                           end) ;
   assertSyncLeaseActive l ;;
   modify (keep_etag remote) ;;
   modify (bootstrapped support (bool_decide (remote.1 ≠ None)) pullChangedLocalData)).

Definition bootstrap_body (hadPendingLocalChanges : bool) l : Proc unit :=
  get (λ s, let previousAwsProfilesServerSupport := awsProfilesServerSupport (ss_state s) in
  (support ← fetchAwsProfilesServerSupport l ;
   assertSyncLeaseActive l ;;
   let shouldBackfillAwsProfiles :=
     bool_decide (previousAwsProfilesServerSupport = sup_unsupported) && bool_decide (support = sup_supported) in
   modify (patchState (patch_support support)) ;;
   (if hadPendingLocalChanges || shouldBackfillAwsProfiles then upload_local support l else ret false) ;;
   remote ← download support l ;
   apply_remote remote support l)).

Definition bootstrap_failed l (error : SyncError) : Proc SyncStatus :=
  get (λ s,
  if is_stale error || negb (isSyncLeaseActive s l) then this_state else
  match error with
  | SyncVaultDekMismatchError _ | SyncVaultDecodeError _ =>
      (rejected ← request HandleVaultDekRejected ;
       settled rejected ;;
       get (λ s,
       if negb (isSyncLeaseActive s l) then this_state else
       match error with
       | SyncVaultDecodeError _ =>
           if is_unlocked (auth_vault (ss_auth s)) then paused (t "sync.decryptCorrupt" []) else paused (message_of error)
       | _ => paused (message_of error)
       end))
  | _ =>
      (modify (patchState (λ st, patch_pending true (patch_error (Some (message_of error)) (patch_status st_error st)))) ;;
       raise error)
  end).

Definition runBootstrap l : Proc SyncStatus :=
  (assertSyncLeaseActive l ;;
   get (λ s, let hadPendingLocalChanges := hasPendingLocalChanges s in
   modify (patchState (λ st, patch_error None (patch_pending hadPendingLocalChanges (patch_status st_syncing st)))) ;;
   catch (bootstrap_body hadPendingLocalChanges l ;; this_state) (bootstrap_failed l))).

(** One round of the upload loop; says whether there is more. *)
Definition push_round l : Proc bool :=
  (assertSyncLeaseActive l ;;
   modify (λ s, if decide (ss_queuedPushGeneration s = Some (lease_generation l)) then set_queuedPushGeneration None s else s) ;;
   modify (patchState (λ st, patch_error None (patch_pending true
             (patch_status (if decide (status st = st_idle) then st_syncing else status st) st)))) ;;
   support ← known_support ;
   snapshot ← buildEncryptedSnapshotResult true support l ;
   assertSyncLeaseActive l ;;
   pushSnapshot snapshot.1 l ;;
   assertSyncLeaseActive l ;;
   modify (λ s, set_outbox (clearMany snapshot.2 (ss_outbox s)) s) ;;
   get (λ s, ret (bool_decide (ss_queuedPushGeneration s = Some (lease_generation l))
                  || bool_decide (listSyncableDeletions (awsProfilesServerSupport (ss_state s)) s ≠ [])))).
Definition push_succeeded s : SyncService :=
  patchState (λ st, patch_error None (patch_success (ss_now s) (patch_pending false (patch_status st_ready st)))) s.

Definition push_failed l (error : SyncError) : Proc SyncStatus :=
  get (λ s,
  if is_stale error || negb (isSyncLeaseActive s l) then this_state else
  match error with
  | SyncVaultDekMismatchError message =>
      (rejected ← request HandleVaultDekRejected ;
       settled rejected ;;
       get (λ s, if negb (isSyncLeaseActive s l) then this_state else paused message))
  | _ =>
      (modify (λ s, scheduleRetry
         (patchState (λ st, patch_error (Some (message_of error)) (patch_pending true (patch_status st_error st))) s)) ;;
       this_state)
  end).

Definition runPush l : Proc SyncStatus :=
  catch (doWhile (push_round l) raise (modify push_succeeded ;; this_state)) (push_failed l).

(** [.finally(cleanup)] *)
Definition finally (p : Proc SyncStatus) (cleanup : SyncService → SyncService) : Proc SyncStatus :=
  try_bind p (λ a, request Tick ;; modify cleanup ;; ret a) (λ e, request Tick ;; modify cleanup ;; raise e).
Definition bootstrap_cleanup l s : SyncService :=
  if decide (ss_bootstrapTask s = Some (lease_generation l)) then set_bootstrapTask None s else s.
Definition push_cleanup l s : SyncService :=
  let s := if decide (ss_pushTask s = Some (lease_generation l)) then set_pushTask None s else s in
  if decide (ss_queuedPushGeneration s = Some (lease_generation l)) then set_queuedPushGeneration None s else s.

(** What [enqueueSyncOperation] runs once the operation before has settled. *)
Definition guarded l (operation : Proc SyncStatus) : Proc SyncStatus :=
  get (λ s, if negb (isSyncLeaseActive s l) then this_state else operation).

Inductive TaskKind := task_bootstrap | task_push.
Definition task_body (kind : TaskKind) l : Proc SyncStatus :=
  match kind with
  | task_bootstrap => finally (guarded l (runBootstrap l)) (bootstrap_cleanup l)
  | task_push => finally (guarded l (runPush l)) (push_cleanup l)
  end.

(** ** The calls

    What [bootstrap()] and [pushDirty()] do before they return their promise: the new
    state, and the operation they queue, if any; [id] is the operation's. *)
Inductive Called :=
| called_returns               (* a settled promise of the state *)
| called_joins                 (* the promise of the running operation *)
| called_throws (message : string)
| called_queues (kind : TaskKind) (lease : SyncLease) (after : option nat).

Definition enqueue (id : nat) (kind : TaskKind) l s : SyncService * Called :=
  let after := ss_operationTail s in
  let s := set_operationTail (Some id) s in
  let s := match kind with
           | task_bootstrap => set_bootstrapTask (Some (lease_generation l)) s
           | task_push => set_pushTask (Some (lease_generation l)) s
           end in
  (s, called_queues kind l after).

Definition bootstrap (id : nat) s : SyncService * Called :=
  if isE2ESyncDisabled then (sync_disabled s, called_returns) else
  if decide (auth_status (ss_auth s) = auth_offline_authenticated)
  then (pause (Some (t "sync.pausedOffline" [])) s, called_returns) else
  if negb (isVaultReadyForSync (ss_auth s)) then (pause (Some (t "sync.pausedNeedsVault" [])) s, called_returns) else
  match captureSyncLease s with
  | Throw e => (s, called_throws e)
  | Ok lease =>
      if decide (ss_bootstrapTask s = Some (lease_generation lease)) then (s, called_joins)
      else enqueue id task_bootstrap lease s
  end.

Definition pushDirty (id : nat) s : SyncService * Called :=
  if isE2ESyncDisabled then (sync_disabled s, called_returns) else
  let s := set_pushTimer false s in
  let s := markPendingPush s in
  if decide (auth_status (ss_auth s) = auth_local_only) then (s, called_returns) else
  if decide (auth_status (ss_auth s) = auth_offline_authenticated)
  then (pause (Some (t "sync.pausedOfflineUpload" [])) s, called_returns) else
  if negb (isVaultReadyForSync (ss_auth s)) then (pause (Some (t "sync.pausedNeedsVaultUpload" [])) s, called_returns) else
  match captureSyncLease s with
  | Throw e => (s, called_throws e)
  | Ok lease =>
      if decide (ss_pushTask s = Some (lease_generation lease))
      then (set_queuedPushGeneration (Some (lease_generation lease)) s, called_joins)
      else enqueue id task_push lease s
  end.
End service.
