(* ===== verification/SyncLogic.v ===== *)
(** * Reasoning about the synchronisation service

    The server as the log of its revisions, the answers it may give, what others may do
    while an operation waits ([Env]), what an operation may write ([Guar]), and
    one lemma per asynchronous function of [SyncService]. *)

From S2P Require Import Prelude Collections Vault AsyncProc SyncRecords SyncService.

(** ** The server *)

(** Who made a revision: this client, by uploading a payload, or another device. *)
Inductive author := mine (payload : SyncPayloadV2) | another.
Record revision := { rev_author : author; rev_content : SyncPayloadV2 }.
(** The revisions in order: the [n]-th is number [n], counting from 1. *)
Abbreviation server := (list revision).

Definition content_at (x : server) (n : nat) : SyncPayloadV2 :=
  match n with
  | O => λ _, []
  | S n => match x !! n with Some r => rev_content r | None => λ _, [] end
  end.
Definition is_mine (x : server) (n : nat) : Prop :=
  ∃ m r payload, n = S m ∧ x !! m = Some r ∧ rev_author r = mine payload.
Definition accepted_at (x : server) (n : nat) (payload : SyncPayloadV2) : Prop :=
  ∃ m r, n = S m ∧ x !! m = Some r ∧ rev_author r = mine payload.

Definition etag_of (n : nat) : jsstring := formatSyncRevisionEtag (N.of_nat n).

Section logic.
Context {Data : Type} {SS : SyncStore Data} {CO : Collator} {ME : Messages} {EJ : ErrorJson} {SE : SyncEnv}.
Abbreviation SyncService := (@SyncService.SyncService Data).
Implicit Types (s : SyncService) (x : server) (l : SyncLease).

(** What the server answers between two states of its log: a download carries the
    content and the tag of one of the revisions in between, 304 is given to the tag of one of them,
    an accepted upload is one of the new revisions.  Anything may fail. *)
Definition response_ok (rq : HttpRequest) x0 (response : HttpResponse) x : Prop :=
  match rq_endpoint rq with
  | ep_sync_get =>
      (http_status response = 304%Z →
         ∃ n, (length x0 ≤ n ≤ length x)%nat ∧ rq_ifNoneMatch rq = Some (etag_of n))
      ∧ (http_status response ≠ 304%Z → ∃ n, (length x0 ≤ n ≤ length x)%nat
         ∧ (∀ e, http_etag response = Some e → e = etag_of n)
         ∧ ∀ b k, http_json response = Some b → default [] (jb_payload b k) = content_at x n k)
  | ep_sync_post =>
      ∃ n payload, rq_body rq = Some payload ∧ (length x0 < n ≤ length x)%nat ∧ accepted_at x n payload
        ∧ ∀ b r, http_json response = Some b → jb_revision b = Some r → r = N.of_nat n
  | _ => True
  end.
Definition answer_ok (r : Request) x0 : answer r → server → Prop :=
  match r return answer r → server → Prop with
  | Fetch rq => λ a x, match a with
                       | Ok response => http_ok response = true ∨ http_status response = 304%Z → response_ok rq x0 response x
                       | Throw _ => True
                       end
  | ReadJson response => λ a _, match a with Ok b => http_json response = Some b | Throw _ => True end
  | _ => λ _ _, True
  end.

(** ** Invariants of the service's fields *)

(** The status kept on disk is the one in memory. *)
Definition mirrored s : Prop := ∃ now, ss_persisted s = persist now (ss_state s).

(** Revision [n]'s content was committed, as the client normalizes it. *)
Definition applied_at s x (n : nat) : Prop :=
  ∃ include payload, payload ∈ ss_committed s
    ∧ ∀ k, payload k = normalizeSyncPayload include (λ k, Some (content_at x n k)) k.

(** The revision the client names is one whose changes it has: its last commit is of a
    revision [k], and everything after [k] is its own. *)
Definition revision_known s x : Prop :=
  ∀ e, ss_lastSyncRevision s = Some e →
    ∃ n k, e = etag_of n ∧ (k ≤ n ≤ length x)%nat ∧ applied_at s x k ∧ ∀ i, (k < i ≤ n)%nat → is_mine x i.

Definition inv s x : Prop := mirrored s ∧ revision_known s x.

(** Everything but the marks of the running operations. *)
Definition core s : SyncService := set_pushTask None (set_bootstrapTask None (set_queuedPushGeneration None s)).

(** An accepted upload carries the local records, and nothing deleted waits. *)
Definition carries l (payload : SyncPayloadV2) (d : Data) : Prop :=
  ∃ seed support secrets deletions,
    payload = with_tombstones deletions (with_secrets secrets
      (encode_records seed (ctx_vaultKeyBase64 (lease_context l)) (shouldSyncAwsProfiles support) d)).
Definition deletions_sent s : Prop := listSyncableDeletions (awsProfilesServerSupport (ss_state s)) s = [].
Definition uploaded l s x : Prop :=
  deletions_sent s ∧ ∃ n payload, accepted_at x n payload ∧ carries l payload (ss_data s).

(** ** What others may do *)

Variable signed_in_edits : bool.   (* whether edits are only made while the service can queue them *)

Record Env l s x s' x' : Prop := {
  env_gen : (ss_syncGeneration s ≤ ss_syncGeneration s')%nat;
  env_log : x `prefix_of` x';
  env_committed : ss_committed s ⊆ ss_committed s';
  env_inv : inv s x → inv s' x';
  env_same_gen : ss_syncGeneration s = lease_generation l → ss_syncGeneration s' = lease_generation l →
    ss_lastSyncRevision s' = ss_lastSyncRevision s
    ∧ (ss_pushTask s = Some (lease_generation l) →
         ss_pushTask s' = Some (lease_generation l)
         ∧ (pendingPush (ss_state s) = true → pendingPush (ss_state s') = true)
         ∧ (ss_queuedPushGeneration s = Some (lease_generation l) → ss_queuedPushGeneration s' = Some (lease_generation l))
         ∧ (signed_in_edits = true → ss_data s' = ss_data s ∨ ss_queuedPushGeneration s' = Some (lease_generation l)));
}.

Lemma Env_refl l s x : Env l s x s x.
Proof. split; [done|done|done|done|]. intros _ _. split; [done|]. intros. split_and!; auto. Qed.
Lemma Env_trans l s1 x1 s2 x2 s3 x3 : Env l s1 x1 s2 x2 → Env l s2 x2 s3 x3 → Env l s1 x1 s3 x3.
Proof.
  intros [g1 p1 c1 i1 e1] [g2 p2 c2 i2 e2]. split; [lia|by etrans|by etrans|by auto|].
  intros H1 H3. assert (Hm : ss_syncGeneration s2 = lease_generation l) by lia.
  destruct (e1 H1 Hm) as [r1 q1], (e2 Hm H3) as [r2 q2]. split; [congruence|].
  intros Hp. destruct (q1 Hp) as (Hp2 & Hw2 & Hq2 & Hd2). destruct (q2 Hp2) as (Hp3 & Hw3 & Hq3 & Hd3).
  split_and!; [done|auto|auto|].
  intros Hs. destruct (Hd2 Hs) as [Hd|Hq]; [|auto]. destruct (Hd3 Hs); [left; congruence|auto].
Qed.

Definition Rely l (r : Request) s x (a : answer r) s' x' : Prop := Env l s x s' x' ∧ answer_ok r x a x'.

(** ** What an operation may write *)

(** An upload ends the pending state only when the local records have been accepted, and
    takes a deletion off the queue only when it has been accepted. *)
Record push_rel l s s' x : Prop := {
  pr_pending : pendingPush (ss_state s') = false →
    (pendingPush (ss_state s) = false ∧ ss_data s' = ss_data s ∧ ss_outbox s' = ss_outbox s
       ∧ awsProfilesServerSupport (ss_state s') = awsProfilesServerSupport (ss_state s))
    ∨ (signed_in_edits = true → uploaded l s' x);
  pr_outbox : ∀ d, d ∈ ss_outbox s → d ∉ ss_outbox s' →
    ∃ n payload d', accepted_at x n payload ∧ tombstone_record d' ∈ payload (del_kind d') ∧ exact_key d' = exact_key d;
}.
Lemma uploaded_same l s s' x :
  ss_data s' = ss_data s → ss_outbox s' = ss_outbox s →
  awsProfilesServerSupport (ss_state s') = awsProfilesServerSupport (ss_state s) → uploaded l s x → uploaded l s' x.
Proof. intros Hd Ho Hs [H1 H2]. unfold uploaded, deletions_sent, listSyncableDeletions in *. by rewrite Hd, Ho, Hs. Qed.
Lemma push_rel_refl l s x : push_rel l s s x.
Proof. split; [by left|done]. Qed.
Lemma push_rel_trans l s1 s2 s3 x : push_rel l s1 s2 x → push_rel l s2 s3 x → push_rel l s1 s3 x.
Proof.
  intros [p1 o1] [p2 o2]. split.
  - intros H3. destruct (p2 H3) as [(H2 & Hd & Ho & Hs)|Hu]; [|auto].
    destruct (p1 H2) as [(H1 & Hd1 & Ho1 & Hs1)|Hu]; [left; split_and!; congruence|].
    right. intros Hx. by apply (uploaded_same l s2); auto.
  - intros d H1 H3. destruct (decide (d ∈ ss_outbox s2)); auto.
Qed.

(** The queue's end stays, or a new generation begins with an empty queue. *)
Definition tail_kept s s' : Prop :=
  (ss_syncGeneration s' = ss_syncGeneration s ∧ ss_operationTail s' = ss_operationTail s)
  ∨ ((ss_syncGeneration s < ss_syncGeneration s')%nat ∧ ss_operationTail s' = None).
Lemma tail_kept_le s s' : tail_kept s s' → (ss_syncGeneration s ≤ ss_syncGeneration s')%nat.
Proof. intros [[] | []]; lia. Qed.
Lemma tail_kept_trans s1 s2 s3 : tail_kept s1 s2 → tail_kept s2 s3 → tail_kept s1 s3.
Proof. intros [[] | []] [[] | []]; ((left; split; congruence) || (right; split; [lia|congruence])). Qed.

Record Guar (kind : TaskKind) l s s' x : Prop := {
  gu_tail : tail_kept s s';
  gu_committed : ss_committed s ⊆ ss_committed s';
  gu_inv : inv s x → inv s' x;
  gu_fence : isSyncLeaseActive s l = false → core s' = core s
    ∧ ∀ g, g ≠ lease_generation l →
        (ss_pushTask s = Some g → ss_pushTask s' = Some g)
        ∧ (ss_queuedPushGeneration s = Some g → ss_queuedPushGeneration s' = Some g);
  gu_push : kind = task_push → push_rel l s s' x;
  gu_pushTask : kind = task_bootstrap → ss_pushTask s' = ss_pushTask s;
}.
Lemma core_active s s' l : core s' = core s → isSyncLeaseActive s' l = isSyncLeaseActive s l.
Proof.
  intros Hc. assert (Hg : ss_syncGeneration s' = ss_syncGeneration s) by apply (f_equal ss_syncGeneration Hc).
  assert (Ha : ss_auth s' = ss_auth s) by apply (f_equal ss_auth Hc). unfold isSyncLeaseActive. by rewrite Hg, Ha.
Qed.
Lemma Guar_refl kind l s x : Guar kind l s s x.
Proof. split; [by left|done|done|done| |done]. intros _. apply push_rel_refl. Qed.
Lemma Guar_trans kind l s1 s2 s3 x : Guar kind l s1 s2 x → Guar kind l s2 s3 x → Guar kind l s1 s3 x.
Proof.
  intros [g1 c1 i1 f1 p1 t1] [g2 c2 i2 f2 p2 t2]. split; [by eapply tail_kept_trans|by etrans|by auto| | |].
  - intros Ha. destruct (f1 Ha) as [E1 Q1]. assert (Ha2 : isSyncLeaseActive s2 l = false) by (by rewrite (core_active _ _ _ E1)).
    destruct (f2 Ha2) as [E2 Q2]. split; [congruence|]. intros g Hg. destruct (Q1 g Hg), (Q2 g Hg). auto.
  - intros Hk. eapply push_rel_trans; auto.
  - intros Hk. by rewrite t2, t1.
Qed.

(** ** The rules *)

(** A running upload is the one the service knows. *)
Definition held kind l s : Prop :=
  kind = task_push → ss_syncGeneration s = lease_generation l → ss_pushTask s = Some (lease_generation l).
Definition Sent kind l (r : Request) s x : Prop := held kind l s.
Abbreviation WP kind l p Q E s x := (wp (Guar kind l) (Rely l) (Sent kind l) p Q E s x).
(** What survives whatever others do. *)
Definition stable kind l (K : SyncService → server → Prop) : Prop :=
  (∀ s x, K s x → held kind l s) ∧ ∀ s x s' x', K s x → Env l s x s' x' → K s' x'.

Lemma wp_settled {A} kind l (r : result A) Q E s x :
  (∀ a, r = Ok a → Q a s x) → (∀ e, E e s x) → WP kind l (settled (Data:=Data) r) Q E s x.
Proof. intros HQ HE. destruct r; cbn; auto. Qed.
Lemma wp_assert kind l Q E s x :
  (isSyncLeaseActive s l = true → Q tt s x) → E StaleSyncLeaseError s x → WP kind l (assertSyncLeaseActive l) Q E s x.
Proof. intros HQ HE. cbn. destruct (isSyncLeaseActive s l); cbn; auto. Qed.
Lemma wp_ask {A} kind l K (r : Request) (f : answer r → proc SyncService Request SyncError answer A) Q E s x :
  stable kind l K → K s x → (∀ a s' x', K s' x' → Env l s x s' x' → answer_ok r x a x' → WP kind l (f a) Q E s' x') →
  WP kind l (request r ≫= f) Q E s x.
Proof.
  intros [Hh Hst] HK Hf. apply wp_bind. cbn. split; [by eapply Hh|]. intros a s' x' [He Ha].
  apply Hf; [by eapply Hst|done|done].
Qed.
Lemma wp_text {A B} kind l K response (g : jsstring → B) (f : B → proc SyncService Request SyncError answer A) Q E s x :
  stable kind l K → K s x → (∀ b s' x', K s' x' → WP kind l (f b) Q E s' x') → (∀ e s' x', K s' x' → E e s' x') →
  WP kind l ((text ← request (ReadText response); text ← settled text; ret (g text)) ≫= f) Q E s x.
Proof.
  intros Hst HK Hf HE. apply wp_bind. eapply wp_ask; [done..|]. intros a s' x' HK' _ _. apply wp_bind.
  apply wp_settled; [|by auto]. intros text ->. cbn. by apply Hf.
Qed.

(** [fetchWithAuthRetry] writes nothing; it returns an answer that was given meanwhile,
    while the lease is active. *)
Definition answered l (rq : HttpRequest) x (response : HttpResponse) x' : Prop :=
  ∃ token x0 x1, x `prefix_of` x0 ∧ x1 `prefix_of` x'
    ∧ answer_ok (Fetch (with_token token rq)) x0 (Ok response) x1.
Lemma fetchWithAuthRetry_spec kind l rq fallback passthrough K Q E s x :
  stable kind l K → K s x →
  (∀ response s' x', K s' x' → isSyncLeaseActive s' l = true → accepted passthrough response = true →
     answered l rq x response x' → Q response s' x') →
  (∀ e s' x', K s' x' → E e s' x') →
  WP kind l (fetchWithAuthRetry l rq fallback passthrough) Q E s x.
Proof.
  intros Hst HK HQ HE. unfold fetchWithAuthRetry.
  set (K' := λ s' x', K s' x' ∧ x `prefix_of` x').
  assert (Hst' : stable kind l K').
  { split; [intros s1 x1 [HK1 _]; by apply Hst in HK1|]. intros s1 x1 s2 x2 [HK1 Hp] He. split; [by eapply Hst|].
    etrans; [done|apply He]. }
  assert (HK' : K' s x) by done. assert (HE' : ∀ e s' x', K' s' x' → E e s' x') by (intros e s' x' []; auto).
  assert (HQ' : ∀ response s' x', K' s' x' → isSyncLeaseActive s' l = true → accepted passthrough response = true →
    answered l rq x response x' → Q response s' x') by (intros response s' x' []; auto).
  assert (Hx : ∀ s' x', K' s' x' → x `prefix_of` x') by (by intros s' x' []).
  clearbody K'. clear Hst HK HQ HE.
  (* one exchange: the request, the lease, an accepted answer *)
  assert (Hex : ∀ token s1 x1 (f : HttpResponse → proc SyncService Request SyncError answer HttpResponse), K' s1 x1 →
    (∀ response s2 x2, K' s2 x2 → isSyncLeaseActive s2 l = true → accepted passthrough response = false →
       WP kind l (f response) Q E s2 x2) →
    WP kind l (response ← request (Fetch (with_token token rq)); response ← settled response;
      assertSyncLeaseActive l;; if accepted passthrough response then ret response else f response) Q E s1 x1).
  { intros token s1 x1 f HK1 Hf. eapply wp_ask; [done..|]. intros a s2 x2 HK2 Henv Hok. apply wp_bind.
    apply wp_settled; [|by auto]. intros response ->. apply wp_bind. apply wp_assert; [|by auto]. intros Hact.
    destruct (accepted passthrough response) eqn:Ea; [|by apply Hf]. cbn. apply HQ'; [done..|].
    exists token, x1, x2. split_and!; [by eapply Hx|done|done]. }
  apply wp_bind. apply wp_assert; [|by auto]. intros _. apply Hex; [done|]. intros response s2 x2 HK2 _ _.
  destruct (http_status response =? 409)%Z.
  { eapply wp_text; [done..| |done]. intros b s3 x3 HK3. cbn. by apply HE'. }
  eapply wp_text; [done..| |done]. intros msg s3 x3 HK3. apply wp_bind. apply wp_assert; [|by auto]. intros _.
  destruct (negb (isLikelyAuthError response msg)); [cbn; by apply HE'|].
  eapply wp_ask; [done..|]. intros a s4 x4 HK4 _ _. apply wp_bind. apply wp_settled; [|by auto]. intros st ->.
  apply wp_bind. apply wp_assert; [|by auto]. intros _. destruct (negb _); [cbn; by apply HE'|].
  apply wp_bind. cbn [wp]. destruct (getAccessToken (ss_auth s4)) as [token|e]; cbn [wp]; [|by auto].
  apply Hex; [done|]. intros response' s5 x5 HK5 _ _. destruct (http_status response' =? 409)%Z.
  { eapply wp_text; [done..| |done]. intros b s6 x6 HK6. cbn. by apply HE'. }
  unfold toApiError. apply wp_bind. eapply wp_text; [done..| |done]. intros b s6 x6 HK6. cbn. by apply HE'.
Qed.

(** ** Monotonicity in the server's log *)

Lemma content_at_prefix x x' n : x `prefix_of` x' → (n ≤ length x)%nat → content_at x' n = content_at x n.
Proof.
  intros Hp Hn. destruct n as [|n]; [done|]. cbn. destruct (lookup_lt_is_Some_2 x n) as [r Hr]; [lia|].
  by rewrite Hr, (prefix_lookup_Some _ _ _ _ Hr Hp).
Qed.
Lemma is_mine_prefix x x' n : x `prefix_of` x' → is_mine x n → is_mine x' n.
Proof. intros Hp (m & r & payload & -> & Hm & Hr). exists m, r, payload. split_and!; [done|by eapply prefix_lookup_Some|done]. Qed.
Lemma accepted_at_prefix x x' n payload : x `prefix_of` x' → accepted_at x n payload → accepted_at x' n payload.
Proof. intros Hp (m & r & -> & Hm & Hr). exists m, r. split_and!; [done|by eapply prefix_lookup_Some|done]. Qed.
Lemma accepted_is_mine x n payload : accepted_at x n payload → is_mine x n.
Proof. intros (m & r & -> & Hm & Hr). by exists m, r, payload. Qed.
Lemma applied_at_mono s s' x x' n :
  ss_committed s ⊆ ss_committed s' → x `prefix_of` x' → (n ≤ length x)%nat → applied_at s x n → applied_at s' x' n.
Proof.
  intros Hc Hp Hn (include & payload & Hin & Hk). exists include, payload. split; [by apply Hc|].
  intros k. rewrite Hk. unfold normalizeSyncPayload. cbn. by rewrite (content_at_prefix x x') by done.
Qed.
Lemma revision_known_mono s s' x x' :
  ss_lastSyncRevision s' = ss_lastSyncRevision s → ss_committed s ⊆ ss_committed s' → x `prefix_of` x' →
  revision_known s x → revision_known s' x'.
Proof.
  intros Hl Hc Hp Hr e He. rewrite Hl in He. destruct (Hr e He) as (n & k & -> & Hn & Ha & Hi).
  exists n, k. pose proof (prefix_length _ _ Hp). split_and!; [done|lia|lia| |].
  - eapply applied_at_mono; [done..|lia|done].
  - intros i Hik. eapply is_mine_prefix; [done|]. by apply Hi.
Qed.
Lemma etag_of_inj n m : etag_of n = etag_of m → n = m.
Proof. unfold etag_of. intros E%formatSyncRevisionEtag_inj. lia. Qed.

(** ** The upload *)

(** The revision the server gave an upload is kept only when nobody else's is in between. *)
Lemma keep_revision_known s x x0 n payload r e0 :
  revision_known s x → (∀ m, e0 = Some (etag_of m) → (m ≤ length x0)%nat) → ss_lastSyncRevision s = e0 →
  (length x0 < n ≤ length x)%nat → accepted_at x n payload → (∀ r', r = Some r' → r' = N.of_nat n) →
  revision_known (keep_revision r s) x.
Proof.
  intros Hk Hm0 Hl Hn Ha Hr. unfold keep_revision. destruct r as [r|]; [|done]. rewrite (Hr r eq_refl).
  destruct (ss_lastSyncRevision s) as [e|] eqn:El; [|done]. destruct (Hk e El) as (m & k & -> & Hmk & Hap & Hi).
  specialize (Hm0 m (eq_sym Hl)). unfold etag_of at 1. rewrite parse_format.
  destruct (Z.of_N (N.of_nat m) <=? _)%Z; [|done]. destruct (N.leb_spec (N.of_nat n) (N.of_nat m + 1)); [|done].
  intros e [= <-]. exists n, k. split_and!; [done|lia|lia|done|]. intros i Hik.
  destruct (decide (i = n)) as [->|]; [by eapply accepted_is_mine|]. apply Hi. lia.
Qed.

Lemma active_gen s l : isSyncLeaseActive s l = true → ss_syncGeneration s = lease_generation l.
Proof. unfold isSyncLeaseActive. intros [Hg _]%andb_true_iff. by apply Nat.eqb_eq in Hg. Qed.
Lemma Guar_active kind l s s' x :
  isSyncLeaseActive s l = true → tail_kept s s' → ss_committed s ⊆ ss_committed s' →
  (inv s x → inv s' x) → (kind = task_push → push_rel l s s' x) → (kind = task_bootstrap → ss_pushTask s' = ss_pushTask s) →
  Guar kind l s s' x.
Proof. intros Ha Hg Hc Hi Hp Ht. split; [done..| |done|done]. by rewrite Ha. Qed.
Lemma push_rel_same l s s' x :
  ss_data s' = ss_data s → ss_outbox s' = ss_outbox s → ss_state s' = ss_state s → push_rel l s s' x.
Proof. intros Hd Ho Hs. split; [rewrite Hs; by left|]. intros d. by rewrite Ho. Qed.

(** What every operation knows. *)
Definition based l s x : Prop := (lease_generation l ≤ ss_syncGeneration s)%nat ∧ inv s x.
Lemma based_stable l : stable task_bootstrap l (based l).
Proof. split; [done|]. intros s x s' x' [Hg Hi] []. split; [lia|auto]. Qed.

Lemma pushSnapshot_spec kind l payload K (Q : unit → SyncService → server → Prop) E s x :
  stable kind l K → K s x → (∀ s x, K s x → based l s x) →
  (∀ v s x, K s x → inv (set_lastSyncRevision v s) x → K (set_lastSyncRevision v s) x) →
  (∀ n s' x', K s' x' → accepted_at x' n payload → Q tt s' x') → (∀ e s' x', K s' x' → E e s' x') →
  WP kind l (pushSnapshot payload l) Q E s x.
Proof.
  intros Hst HK Hb Hset HQ HE. unfold pushSnapshot. apply wp_bind. apply wp_assert; [|by auto]. intros Hact.
  pose proof (active_gen _ _ Hact) as Hgen. cbn [wp]. apply wp_bind.
  set (K1 := λ s' x', K s' x' ∧ x `prefix_of` x' ∧
    (ss_syncGeneration s' = lease_generation l → ss_lastSyncRevision s' = ss_lastSyncRevision s)).
  assert (Hst1 : stable kind l K1).
  { split; [intros s1 x1 [HK1 _]; by apply Hst in HK1|].
    intros s1 x1 s2 x2 (HK1 & Hp & Hl) He. split_and!; [by eapply Hst|etrans; [done|apply He]|]. intros Hg2.
    assert (Hg1 : ss_syncGeneration s1 = lease_generation l).
    { pose proof (env_gen _ _ _ _ _ He). destruct (Hb _ _ HK1). lia. }
    rewrite (proj1 (env_same_gen _ _ _ _ _ He Hg1 Hg2)). auto. }
  eapply fetchWithAuthRetry_spec; [exact Hst1|by split_and!| |intros e s' x' [HK' _]; by apply HE].
  intros response s1 x1 HK1 _ Hacc (token & x0 & x2 & Hp0 & Hp2 & Hok).
  assert (Hresp : http_ok response = true ∨ http_status response = 304%Z).
  { unfold accepted, no_passthrough in Hacc. rewrite orb_false_r in Hacc. apply orb_true_iff in Hacc as [?|?%Z.eqb_eq]; auto. }
  destruct (Hok Hresp) as (n & p & [= <-] & Hn & Ha & Hr).
  assert (Ha1 : accepted_at x1 n payload) by (by eapply accepted_at_prefix).
  set (K2 := λ s' x', K1 s' x' ∧ x1 `prefix_of` x').
  assert (Hst2 : stable kind l K2).
  { split; [intros s3 x3 [HK3 _]; by apply Hst1 in HK3|].
    intros s3 x3 s4 x4 [HK3 Hp3] He. split; [by eapply Hst1|]. etrans; [done|apply He]. }
  assert (HQ2 : ∀ s' x', K2 s' x' → Q tt s' x').
  { intros s' x' [[HK' _] Hp']. eapply HQ; [done|]. by eapply accepted_at_prefix. }
  assert (HK2 : K2 s1 x1) by done.
  apply wp_catch. eapply wp_ask; [exact Hst2|done|]. intros a s3 x3 HK3 _ Hjson. apply wp_bind.
  apply wp_settled; [|intros e; by apply HQ2]. intros body ->. apply wp_bind. apply wp_assert; [|by apply HQ2].
  intros Hact3. pose proof (active_gen _ _ Hact3) as Hgen3. destruct HK3 as [(HK3 & Hpx3 & Hlast) Hp3].
  assert (Hinv : inv (keep_revision (jb_revision body) s3) x3).
  { destruct (Hb _ _ HK3) as [_ [Hm Hk3]]. split.
    - unfold keep_revision. by repeat case_match.
    - eapply (keep_revision_known s3 x3 x0 n payload); [done| |reflexivity| |by eapply accepted_at_prefix|].
      + intros m Hm0. rewrite (Hlast Hgen3) in Hm0. destruct (Hb _ _ HK) as [_ [_ Hk]].
        destruct (Hk _ Hm0) as (m' & k & ->%etag_of_inj & Hmk & _). pose proof (prefix_length _ _ Hp0). lia.
      + pose proof (prefix_length _ _ Hp2). pose proof (prefix_length _ _ Hp3). lia.
      + intros r' Er. by eapply Hr. }
  assert (HKk : K (keep_revision (jb_revision body) s3) x3).
  { revert Hinv. unfold keep_revision. repeat case_match; intros Hinv; try done. by apply Hset. }
  apply wp_modify.
  - apply Guar_active; [done|left; by unfold keep_revision; repeat case_match|by unfold keep_revision; repeat case_match|done| |].
    + intros _. by apply push_rel_same; unfold keep_revision; repeat case_match.
    + intros _. unfold keep_revision. by repeat case_match.
  - eapply HQ; [exact HKk|]. by eapply accepted_at_prefix.
Qed.
End logic.
