(* ===== verification/SyncSpecs.v ===== *)
(** * The operations of the synchronisation service, verified

    [runBootstrap] and [runPush] against the promise [Guar] of [SyncLogic], one
    lemma per asynchronous function they are made of. *)

From S2P Require Import Prelude Collections Vault AsyncProc SyncRecords SyncService SyncLogic.

Section specs.
Context {Data : Type} {SS : SyncStore Data} {CO : Collator} {ME : Messages} {EJ : ErrorJson} {SE : SyncEnv}.
Abbreviation SyncService := (@SyncService.SyncService Data).
Implicit Types (s : SyncService) (x : list revision) (l : SyncLease).
Variable signed_in_edits : bool.
Abbreviation Env := (SyncLogic.Env signed_in_edits).
Abbreviation Guar := (SyncLogic.Guar signed_in_edits).
Abbreviation WP kind l p Q E s x := (wp (St:=SyncService) (Req:=Request) (Err:=SyncError) (resp:=answer) (Guar kind l) (Rely signed_in_edits l) (Sent kind l) p Q E s x).
Abbreviation stable := (SyncLogic.stable signed_in_edits).

(** A write under an active lease that leaves generation, commits and invariants alone. *)
Lemma wp_write kind l f (Q : unit → SyncService → list revision → Prop) E s x :
  isSyncLeaseActive s l = true → ss_syncGeneration (f s) = ss_syncGeneration s → ss_operationTail (f s) = ss_operationTail s →
  ss_committed (f s) = ss_committed s →
  (inv s x → inv (f s) x) → (kind = task_push → push_rel signed_in_edits l s (f s) x) →
  (kind = task_bootstrap → ss_pushTask (f s) = ss_pushTask s) → Q tt (f s) x →
  WP kind l (modify f) Q E s x.
Proof. intros Ha Hg Ho Hc Hi Hp Ht HQ. apply wp_modify; [|done]. apply Guar_active; [done|by left|by rewrite Hc|done..]. Qed.
Lemma patchState_inv f s x : inv s x → inv (patchState f s) x.
Proof. intros [_ Hk]. split; [by exists (ss_now s)|exact Hk]. Qed.

(** ** Download *)

Definition fetched (payload : SyncPayloadV2) (etag : option jsstring) x : Prop :=
  ∃ n include, (n ≤ length x)%nat ∧ (∀ e, etag = Some e → e = etag_of n)
    ∧ ∀ k, payload k = normalizeSyncPayload include (λ k, Some (content_at x n k)) k.
Lemma fetched_mono payload etag x x' : x `prefix_of` x' → fetched payload etag x → fetched payload etag x'.
Proof.
  intros Hp (n & include & Hn & He & Hk). exists n, include. pose proof (prefix_length _ _ Hp).
  split_and!; [lia|done|]. intros k. rewrite Hk. unfold normalizeSyncPayload. cbn. by rewrite (content_at_prefix x x').
Qed.

Lemma fetchRemoteSnapshot_spec kind l support K
    (Q : option SyncPayloadV2 * option jsstring → SyncService → list revision → Prop) E s x :
  stable kind l K → K s x →
  (∀ remote s' x', K s' x' → (∀ payload, remote.1 = Some payload → fetched payload remote.2 x') → Q remote s' x') →
  (∀ e s' x', K s' x' → E e s' x') →
  WP kind l (fetchRemoteSnapshot support l) Q E s x.
Proof.
  intros Hst HK HQ HE. unfold fetchRemoteSnapshot. cbn [wp]. apply wp_bind.
  eapply fetchWithAuthRetry_spec; [exact Hst|exact HK| |exact HE].
  intros response s1 x1 HK1 _ Hacc (token & x0 & x2 & Hp0 & Hp2 & Hok).
  destruct (Z.eqb_spec (http_status response) 304) as [H304|H304]; [by cbn; apply HQ|].
  unfold accepted, no_passthrough in Hacc. rewrite orb_false_r, orb_true_iff, Z.eqb_eq in Hacc.
  destruct Hacc as [Hacc|]; [|done]. destruct (Hok (or_introl Hacc)) as [_ Hr]. destruct (Hr H304) as (n & Hn & He & Hc).
  set (K2 := λ s' x', K s' x' ∧ x2 `prefix_of` x').
  assert (Hst2 : stable kind l K2).
  { split; [intros s3 x3 [HK3 _]; by apply Hst in HK3|].
    intros s3 x3 s4 x4 [HK3 Hp3] Hev. split; [by eapply Hst|]. etrans; [done|apply Hev]. }
  eapply wp_ask; [exact Hst2|done|]. intros a s3 x3 [HK3 Hp3] _ Hj. apply wp_bind. apply wp_settled; [|by auto].
  intros b ->. apply wp_bind. apply wp_assert; [|by auto]. intros _. cbn. apply HQ; [done|]. cbn [fst snd].
  intros payload [= <-]. apply (fetched_mono _ _ x2); [done|]. exists n, (shouldSyncAwsProfiles support). split_and!; [lia|done|].
  intros k. unfold normalizeSyncPayload. cbn. by rewrite <- (Hc b k Hj).
Qed.

(** ** The local snapshot *)

(** An upload is due, and the records have not changed since they were read, unless
    another round is due. *)
Definition tracked kind l (d : Data) s : Prop :=
  kind = task_push → ss_syncGeneration s = lease_generation l →
  pendingPush (ss_state s) = true
  ∧ (signed_in_edits = true → ss_data s = d ∨ ss_queuedPushGeneration s = Some (lease_generation l)).
Definition known kind l s x : Prop := based l s x ∧ held kind l s.

Lemma known_stable kind l : stable kind l (known kind l).
Proof.
  split; [by intros s x []|].
  intros s x s' x' [Hb Hh] He. split; [by eapply based_stable|]. intros Hk Hg. destruct Hb as [Hle _].
  assert (Hg0 : ss_syncGeneration s = lease_generation l) by (pose proof (env_gen _ _ _ _ _ _ He); lia).
  apply (env_same_gen _ _ _ _ _ _ He Hg0 Hg). by apply Hh.
Qed.
Lemma tracked_stable kind l d : stable kind l (λ s x, known kind l s x ∧ tracked kind l d s).
Proof.
  split; [by intros s x [[] _]|].
  intros s x s' x' [Hk Ht] He. split; [by eapply known_stable|]. intros Hp Hg. destruct Hk as [[Hle _] Hh].
  assert (Hg0 : ss_syncGeneration s = lease_generation l) by (pose proof (env_gen _ _ _ _ _ _ He); lia).
  destruct (env_same_gen _ _ _ _ _ _ He Hg0 Hg) as [_ Hq]. destruct (Hq (Hh Hp Hg0)) as (_ & Hq0 & Hq1 & Hq2).
  destruct (Ht Hp Hg0) as [Hw Hd]. split; [by auto|]. intros Hs. destruct (Hd Hs) as [Hd1|]; [|by auto].
  destruct (Hq2 Hs); [left; congruence|by auto].
Qed.

Lemma load_secrets_spec kind l refs secrets d (Q : list SyncRecord → SyncService → list revision → Prop) E s x :
  known kind l s x → tracked kind l d s →
  (∀ secrets s' x', known kind l s' x' → tracked kind l d s' → Q secrets s' x') →
  (∀ e s' x', known kind l s' x' → E e s' x') →
  WP kind l (load_secrets l refs secrets) Q E s x.
Proof.
  intros Hk Ht HQ HE. revert secrets s x Hk Ht. induction refs as [|ref refs IH]; intros secrets s x Hk Ht; cbn [load_secrets].
  { by cbn; apply HQ. }
  eapply wp_ask; [apply (tracked_stable kind l d)|done|]. intros a s1 x1 [Hk1 Ht1] _ _. apply wp_bind.
  apply wp_settled; [|by intros e; apply HE]. intros o ->. apply wp_bind. apply wp_assert; [|by apply HE]. intros Ha.
  destruct o as [secret|]; [|by apply IH]. cbn [wp]. apply wp_bind. apply wp_write; [done..|by intros _; apply push_rel_same|done|].
  apply IH; [exact Hk1|exact Ht1].
Qed.

Lemma build_spec kind l support (Q : SyncPayloadV2 * list SyncDeletionRecord → SyncService → list revision → Prop) E s x :
  known kind l s x → (kind = task_push → pendingPush (ss_state s) = true) →
  (∀ snapshot s' x' d, known kind l s' x' → tracked kind l d s' → carries l snapshot.1 d →
     (∀ del, del ∈ snapshot.2 → tombstone_record del ∈ snapshot.1 (del_kind del)) → Q snapshot s' x') →
  (∀ e s' x', known kind l s' x' → E e s' x') →
  WP kind l (buildEncryptedSnapshotResult true support l) Q E s x.
Proof.
  intros Hk Hpend HQ HE. unfold buildEncryptedSnapshotResult. apply wp_bind. apply wp_assert; [|by apply HE]. intros Ha.
  apply wp_bind. apply wp_write; [done..| |done|].
  { intros Hp. split; [|done]. cbn. intros Hf. by rewrite Hpend in Hf. }
  cbn [wp]. apply wp_bind. apply wp_write; [done..|by intros _; apply push_rel_same|done|].
  set (d := materialize (ss_data s)). set (s2 := bump_seed _).
  assert (Hk2 : known kind l s2 x) by exact Hk. assert (Ht2 : tracked kind l d s2) by (intros Hp _; split; [by apply Hpend|by left]).
  clearbody s2. apply wp_bind. eapply load_secrets_spec; [exact Hk2|exact Ht2| |exact HE].
  intros secrets s3 x3 Hk3 Ht3. cbn. eapply HQ; [exact Hk3|exact Ht3| |].
  - eexists _, support, secrets, _. reflexivity.
  - cbn. intros del Hdel. unfold with_tombstones. apply elem_of_app. right. apply list_elem_of_fmap.
    exists del. split; [done|]. apply list_elem_of_In, filter_In. split; [by apply list_elem_of_In|]. by apply bool_decide_eq_true_2.
Qed.

(** ** The server's capabilities *)

Lemma fetchAwsProfilesServerSupport_spec l (Q : AwsProfilesServerSupport → SyncService → list revision → Prop)
    (E : SyncError → SyncService → list revision → Prop) s x :
  based l s x → (∀ support s' x', based l s' x' → Q support s' x') → (∀ e s' x', based l s' x' → E e s' x') →
  WP task_bootstrap l (fetchAwsProfilesServerSupport l) Q E s x.
Proof.
  intros Hb HQ HE. unfold fetchAwsProfilesServerSupport. apply wp_catch.
  match goal with |- wp _ _ _ _ _ ?E' _ _ => set (E1 := E') end.
  assert (HE1 : ∀ e s' x', based l s' x' → E1 e s' x').
  { intros e s' x' Hb'. unfold E1. cbn. destruct (is_stale e || _); cbn; auto. }
  clearbody E1. assert (Hst : stable task_bootstrap l (based (Data:=Data) l)) by apply based_stable.
  assert (Hknown : ∀ s' x', based l s' x' → WP task_bootstrap l known_support Q E1 s' x') by (intros; cbn; auto).
  eapply wp_ask; [exact Hst|done|]. intros a s1 x1 Hb1 _ _. apply wp_bind. apply wp_settled; [|by auto]. intros response ->.
  apply wp_bind. apply wp_assert; [|by auto]. intros Ha1. destruct (negb (http_ok response)).
  - destruct (unsupported_status _); [|by auto]. apply wp_bind.
    apply wp_write; [done..|]. cbn. by apply HQ.
  - eapply wp_ask; [exact Hst|done|]. intros a s2 x2 Hb2 _ _. apply wp_bind. apply wp_settled; [|by auto]. intros body ->.
    apply wp_bind. apply wp_assert; [|by auto]. intros Ha2. apply wp_bind. apply wp_write; [done..|]. cbn. by apply HQ.
Qed.

(** ** Applying a snapshot *)

Lemma applyRemoteSnapshotAtomically_spec l payload support K (Q : bool → SyncService → list revision → Prop) E s x :
  stable task_bootstrap l K → K s x → (∀ s x, K s x → based l s x) →
  (∀ decoded s x, K s x → K (commit payload decoded s) x) →
  (∀ changed s' x', K s' x' → payload ∈ ss_committed s' → Q changed s' x') → (∀ e s' x', K s' x' → E e s' x') →
  WP task_bootstrap l (applyRemoteSnapshotAtomically payload support l) Q E s x.
Proof.
  intros Hst HK Hb Hc HQ HE. unfold applyRemoteSnapshotAtomically. apply wp_bind. apply wp_assert; [|by auto]. intros Ha.
  cbn [wp]. apply wp_bind. destruct (decode_snapshot _ _ _ payload) as [decoded|e]; cbn [decoded_or_raise wp]; [|by auto].
  apply wp_bind. apply wp_assert; [|by auto]. intros _. cbn [wp]. apply wp_bind. apply wp_modify.
  - apply Guar_active; [done|by left|by apply list_subseteq_cons| |done|done].
    intros _. apply Hb. by apply Hc.
  - set (s1 := commit payload decoded s). assert (HK1 : K s1 x) by by apply Hc.
    assert (Hin : payload ∈ ss_committed s1) by by left. generalize (commit_snapshot (ss_now s) decoded (ss_data s)).2.
    clearbody s1. intros rebased.
    assert (Hst' : stable task_bootstrap l (λ s x, K s x ∧ payload ∈ ss_committed s)).
    { split; [done|]. intros s2 x2 s3 x3 [HK2 Hin2] Hev. split; [by eapply Hst|]. by apply (env_committed _ _ _ _ _ _ Hev). }
    eapply wp_ask; [exact Hst'|done|]. intros a s2 x2 [HK2 Hin2] _ _. apply wp_bind. apply wp_settled; [|by auto].
    intros [] _. apply wp_bind. apply wp_assert; [|by auto]. intros _. cbn. by apply HQ.
Qed.

(** ** The download operation *)

Lemma upload_local_spec l support (Q : bool → SyncService → list revision → Prop)
    (E : SyncError → SyncService → list revision → Prop) s x :
  based l s x → (∀ b s' x', based l s' x' → Q b s' x') → (∀ e s' x', based l s' x' → E e s' x') →
  WP task_bootstrap l (upload_local support l) Q E s x.
Proof.
  intros Hb HQ HE. unfold upload_local, buildEncryptedSnapshot. do 2 apply wp_bind.
  eapply build_spec; [done|done| |by intros e s' x' [Hb' _]; apply HE]. intros snapshot s1 x1 d [Hb1 _] _ _ _. cbn [wp].
  apply wp_bind. apply wp_assert; [|by auto]. intros _. destruct (_ <? _)%nat; [|by cbn; apply HQ]. apply wp_bind.
  eapply (pushSnapshot_spec _ _ _ _ (based (Data:=Data) l)); [apply based_stable|done|done| | |by auto].
  - intros v s2 x2 [Hg2 _] Hi2. done.
  - intros n s2 x2 Hb2 _. cbn. by apply HQ.
Qed.

Definition fetched_remote (remote : option SyncPayloadV2 * option jsstring) x : Prop :=
  ∀ payload, remote.1 = Some payload → fetched payload remote.2 x.
Definition with_remote l remote s x : Prop := based l s x ∧ fetched_remote remote x.
Lemma with_remote_stable l remote : stable task_bootstrap l (with_remote l remote).
Proof.
  split; [done|]. intros s x s' x' [Hb Hf] He. split; [by eapply based_stable|]. intros payload Hp.
  eapply fetched_mono; [apply He|]. by apply Hf.
Qed.

(** The revision of a committed download is known. *)
Lemma commit_known payload etag s x :
  payload ∈ ss_committed s → fetched payload (Some etag) x → inv s x → inv (set_lastSyncRevision (Some etag) s) x.
Proof.
  intros Hin (n & include & Hn & He & Hk) [Hm _]. split; [exact Hm|]. intros e [= <-]. exists n, n.
  split_and!; [by apply He|lia|lia|by exists include, payload|lia].
Qed.

Lemma apply_remote_spec l remote support (E : SyncError → SyncService → list revision → Prop)
    (Q : unit → SyncService → list revision → Prop) s x :
  with_remote l remote s x → (∀ s' x', based l s' x' → Q tt s' x') → (∀ e s' x', based l s' x' → E e s' x') →
  WP task_bootstrap l (apply_remote remote support l) Q E s x.
Proof.
  intros Hw HQ HE. unfold apply_remote.
  assert (Hend : ∀ changed s x, with_remote l remote s x → (∀ payload, remote.1 = Some payload → payload ∈ ss_committed s) →
    WP task_bootstrap l (assertSyncLeaseActive l ;; modify (keep_etag remote) ;;
      modify (bootstrapped support (bool_decide (remote.1 ≠ None)) changed)) Q E s x).
  { clear s x Hw. intros changed s x [[Hg Hi] Hf] Hin. apply wp_bind. apply wp_assert; [|by apply HE]. intros Ha.
    assert (Hf1 : inv (keep_etag remote s) x ∧ ss_syncGeneration (keep_etag remote s) = ss_syncGeneration s
      ∧ ss_committed (keep_etag remote s) = ss_committed s ∧ isSyncLeaseActive (keep_etag remote s) l = true).
    { unfold keep_etag. destruct remote.1 as [payload|] eqn:E1; [|done]. destruct (opt_truthy remote.2) as [etag|] eqn:E2; [|done].
      split_and!; [|done..]. apply opt_truthy_Some in E2 as [E2 _]. eapply commit_known; [by apply Hin| |done].
      specialize (Hf payload E1). by rewrite E2 in Hf. }
    destruct Hf1 as (Hi1 & Hg1 & Hc1 & Ha1). apply wp_bind. apply wp_write; [done|done|by unfold keep_etag; repeat case_match|done|done|done|by unfold keep_etag; repeat case_match|].
    assert (Hb : ∀ s1, inv s1 x → inv (bootstrapped support (bool_decide (remote.1 ≠ None)) changed s1) x).
    { intros s1 Hi'. unfold bootstrapped. destruct changed; apply (patchState_inv _ (set_outbox _ s1)); exact Hi'. }
    apply wp_write; [done|by destruct changed..|apply Hb|done|by destruct changed|].
    apply HQ. split; [|by apply Hb]. unfold bootstrapped. destruct changed; cbn; lia. }
  apply wp_bind. destruct remote.1 as [payload|] eqn:E1; [|by cbn [wp]; apply Hend].
  eapply (applyRemoteSnapshotAtomically_spec _ _ _ (with_remote l remote)); [apply with_remote_stable|done|by intros ?? []| | |].
  - intros decoded s5 x5 [[Hg5 [Hm5 Hk5]] Hf5]. split; [|exact Hf5]. split; [exact Hg5|]. split; [exact Hm5|].
    eapply (revision_known_mono s5); [done|by apply list_subseteq_cons|done|done].
  - intros changed s5 x5 Hw5 Hin5. apply Hend; [done|by intros ? [= <-]].
  - intros e s5 x5 []. by apply HE.
Qed.

Lemma download_spec l support (Q : option SyncPayloadV2 * option jsstring → SyncService → list revision → Prop)
    (E : SyncError → SyncService → list revision → Prop) s x :
  based l s x → (∀ remote s' x', with_remote l remote s' x' → Q remote s' x') → (∀ e s' x', based l s' x' → E e s' x') →
  WP task_bootstrap l (download support l) Q E s x.
Proof.
  intros Hb HQ HE. unfold download. apply wp_bind. eapply fetchRemoteSnapshot_spec; [apply based_stable|done| |by auto].
  intros remote s3 x3 Hb3 Hf3. apply wp_bind. apply wp_assert; [|by auto]. intros _.
  destruct remote.1 as [payload|] eqn:E1; [|cbn [wp]; apply HQ; by split; [|intros p; rewrite E1]].
  assert (Hf3' : fetched_remote remote x3) by (intros p; rewrite E1; intros Hp; by apply Hf3).
  destruct (_ =? 0)%nat; [|by cbn [wp]; apply HQ]. apply wp_bind. eapply wp_mono.
  - apply (wp_frame _ _ _ _ (λ x, fetched_remote remote x) (λ _ s x, based l s x) (λ _ s x, based l s x)); [|done|by apply upload_local_spec].
    intros r s4 x4 a s5 x5 [Hev _] Hf4 p Hp. eapply fetched_mono; [apply Hev|]. by apply Hf4.
  - intros pushed s4 x4 [Hb4 Hf4]. destruct pushed; [|by cbn [wp]; apply HQ].
    apply wp_bind. eapply fetchRemoteSnapshot_spec; [apply based_stable|done| |by auto].
    intros remote' s5 x5 Hb5 Hf5. apply wp_bind. apply wp_assert; [|by auto]. intros _. cbn [wp]. by apply HQ.
  - intros e s4 x4 []. by apply HE.
Qed.

Lemma bootstrap_body_spec l hadPending (Q : unit → SyncService → list revision → Prop)
    (E : SyncError → SyncService → list revision → Prop) s x :
  based l s x → (∀ s' x', based l s' x' → Q tt s' x') → (∀ e s' x', based l s' x' → E e s' x') →
  WP task_bootstrap l (bootstrap_body hadPending l) Q E s x.
Proof.
  intros Hb HQ HE. unfold bootstrap_body. cbn [wp]. generalize (awsProfilesServerSupport (ss_state s)). intros previous.
  apply wp_bind. apply fetchAwsProfilesServerSupport_spec; [done| |done]. intros support s1 x1 Hb1. apply wp_bind.
  apply wp_assert; [|by auto]. intros Ha1. apply wp_bind.
  apply wp_write; [done..|intros ?; by apply patchState_inv|done|done|].
  assert (Hb1' : based l (patchState (patch_support support) s1) x1).
  { destruct Hb1. split; [done|]. by apply patchState_inv. }
  assert (Hrest : ∀ s2 x2, based l s2 x2 → WP task_bootstrap l (remote ← download support l ; apply_remote remote support l) Q E s2 x2).
  { intros s2 x2 Hb2. apply wp_bind. apply download_spec; [done| |done]. intros remote s3 x3 Hw3. by apply apply_remote_spec. }
  apply wp_bind. destruct (hadPending || _); [|by cbn [wp]; apply Hrest]. apply upload_local_spec; auto.
Qed.

(** [this.pause(...)]: the write that ends the generation. *)
Lemma pause_inv message s x : inv s x → inv (pause message s) x.
Proof. intros Hi. unfold pause. apply patchState_inv. exact Hi. Qed.
Lemma pause_pending message s : pendingPush (ss_state (pause message s)) = false → pendingPush (ss_state s) = false.
Proof. cbn. unfold hasPendingLocalChanges. cbn. by destruct (pendingPush (ss_state s)). Qed.
Lemma paused_spec kind l message (Q : SyncStatus → SyncService → list revision → Prop)
    (E : SyncError → SyncService → list revision → Prop) s x :
  isSyncLeaseActive s l = true → based l s x → (∀ st s' x', inv s' x' → (lease_generation l < ss_syncGeneration s')%nat → Q st s' x') →
  WP kind l (paused message) Q E s x.
Proof.
  intros Ha [Hg Hi] HQ. unfold paused. apply wp_bind. apply wp_modify.
  - apply Guar_active; [done|right; split; [cbn; lia|done]|done|apply pause_inv| |done]. intros _. split; [|done].
    intros Hp%pause_pending. left. done.
  - cbn [this_state wp]. apply HQ; [by apply pause_inv|]. cbn. lia.
Qed.

Lemma runBootstrap_spec l (Q : SyncStatus → SyncService → list revision → Prop)
    (E : SyncError → SyncService → list revision → Prop) s x :
  based l s x → (∀ st s' x', based l s' x' → Q st s' x') → (∀ e s' x', based l s' x' → E e s' x') →
  WP task_bootstrap l (runBootstrap l) Q E s x.
Proof.
  intros Hb HQ HE. unfold runBootstrap. apply wp_bind. apply wp_assert; [|by apply HE]. intros Ha. cbn [wp].
  generalize (hasPendingLocalChanges s). intros hadPending. apply wp_bind.
  apply wp_write; [done..|intros ?; by apply patchState_inv|done|done|].
  assert (Hb1 : based l (patchState (λ st, patch_error None (patch_pending hadPending (patch_status st_syncing st))) s) x).
  { destruct Hb. split; [done|]. by apply patchState_inv. }
  apply wp_catch. apply wp_bind. apply bootstrap_body_spec; [done|by intros; cbn; apply HQ|]. clear s x Hb Ha Hb1.
  intros e s x Hb. unfold bootstrap_failed. cbn [wp]. destruct (is_stale e || _) eqn:Eb; [by cbn; apply HQ|].
  apply orb_false_iff in Eb as [_ Ha]. apply negb_false_iff in Ha.
  assert (Hpause : ∀ message s x, isSyncLeaseActive s l = true → based l s x → WP task_bootstrap l (paused message) Q E s x).
  { intros m s1 x1 Ha1 Hb1. apply paused_spec; [done|done|]. intros st s2 x2 Hi2 Hg2. apply HQ. split; [lia|done]. }
  assert (Hother : WP task_bootstrap l (modify (patchState (λ st, patch_pending true
      (patch_error (Some (message_of e)) (patch_status st_error st)))) ;; raise e) Q E s x).
  { apply wp_bind. apply wp_write; [done..|intros ?; by apply patchState_inv|done|done|]. cbn [wp]. apply HE.
    destruct Hb. split; [done|]. by apply patchState_inv. }
  destruct e as [| |m|m|]; try exact Hother.
  all: eapply wp_ask; [apply based_stable|exact Hb|]; intros a s1 x1 Hb1 _ _; apply wp_bind; apply wp_settled; [|by auto];
    intros [] _; cbn [wp]; destruct (isSyncLeaseActive s1 l) eqn:Ha1; cbn [negb]; [|by cbn; apply HQ].
  - by apply Hpause.
  - destruct (is_unlocked _); by apply Hpause.
Qed.

(** ** The upload operation *)

Lemma clearMany_removed deletions outbox d :
  d ∈ outbox → d ∉ clearMany deletions outbox → ∃ d', d' ∈ deletions ∧ exact_key d' = exact_key d.
Proof.
  intros Hin Hout. destruct (shas (exact_key d) (sof (exact_key <$> deletions))) eqn:Eh.
  - unfold shas in Eh. apply bool_decide_eq_true in Eh. apply elem_sof, list_elem_of_fmap in Eh as (d' & -> & Hd'). eauto.
  - exfalso. apply Hout. apply list_elem_of_In, filter_In. split; [by apply list_elem_of_In|]. by rewrite Eh.
Qed.

Lemma push_round_spec l (Q : bool → SyncService → list revision → Prop)
    (E : SyncError → SyncService → list revision → Prop) s x :
  known task_push l s x →
  (∀ b s' x', known task_push l s' x' → isSyncLeaseActive s' l = true →
     (b = false → deletions_sent s' ∧ (signed_in_edits = true → ∃ n payload, accepted_at x' n payload ∧ carries l payload (ss_data s'))) →
     Q b s' x') →
  (∀ e s' x', known task_push l s' x' → E e s' x') →
  WP task_push l (push_round l) Q E s x.
Proof.
  intros Hk HQ HE. unfold push_round. apply wp_bind. apply wp_assert; [|by apply HE]. intros Ha.
  apply wp_bind. apply wp_write; [done|by case_decide|by case_decide|by case_decide|by case_decide|by intros _; apply push_rel_same; case_decide|done|].
  match goal with |- context [WP _ _ _ _ _ ?s1' x] => set (s1 := s1') end.
  assert (Hk1 : known task_push l s1 x ∧ isSyncLeaseActive s1 l = true) by (unfold s1; case_decide; done).
  clearbody s1. clear s Hk Ha. destruct Hk1 as [Hk1 Ha1]. apply wp_bind.
  apply wp_write; [done..|intros ?; by apply patchState_inv|by intros _; split|done|].
  match goal with |- context [WP _ _ _ _ _ ?s2' x] => set (s2 := s2') end.
  assert (Hk2 : known task_push l s2 x ∧ pendingPush (ss_state s2) = true).
  { destruct Hk1 as [[Hg Hi] Hh]. split; [|done]. split; [|exact Hh]. split; [exact Hg|]. by apply patchState_inv. }
  clearbody s2. clear s1 Hk1 Ha1. destruct Hk2 as [Hk2 Hp2]. apply wp_bind. cbn [known_support wp].
  apply wp_bind. apply build_spec; [done|done| |exact HE]. intros snapshot s3 x3 d Hk3 Ht3 Hcar Hdel.
  apply wp_bind. apply wp_assert; [|by apply HE]. intros Ha3. apply wp_bind.
  eapply (pushSnapshot_spec _ _ _ _ (λ s x, known task_push l s x ∧ tracked task_push l d s));
    [apply tracked_stable|done|by intros ?? [[] ?]| | |by intros e s4 x4 []; apply HE].
  { intros v s4 x4 [[[Hg4 _] Hh4] Ht4] Hi4. done. }
  intros n s4 x4 [Hk4 Ht4] Hacc. apply wp_bind. apply wp_assert; [|by apply HE]. intros Ha4.
  pose proof (active_gen _ _ Ha4) as Hg4. destruct (Ht4 eq_refl Hg4) as [Hp4 Hd4]. apply wp_bind.
  apply wp_write; [done..| |done|].
  { intros _. split; [by cbn; rewrite Hp4|]. cbn. intros del Hin Hout.
    destruct (clearMany_removed _ _ _ Hin Hout) as (d' & Hd' & Hkey). exists n, snapshot.1, d'. auto. }
  cbn [wp]. apply HQ; [exact Hk4|exact Ha4|]. intros Hb. apply orb_false_iff in Hb as [Hq Hdl].
  apply bool_decide_eq_false in Hq, Hdl. split; [by apply dec_stable|]. intros Hs.
  destruct (Hd4 Hs) as [Hd|]; [|done]. exists n, snapshot.1. split; [done|]. cbn. by rewrite Hd.
Qed.

Lemma runPush_spec l (Q : SyncStatus → SyncService → list revision → Prop)
    (E : SyncError → SyncService → list revision → Prop) s x :
  known task_push l s x → (∀ st s' x', known task_push l s' x' → Q st s' x') → (∀ e s' x', known task_push l s' x' → E e s' x') →
  WP task_push l (runPush l) Q E s x.
Proof.
  intros Hk HQ HE. unfold runPush. apply wp_catch. cbn [wp]. exists (known task_push l). split; [done|].
  clear s x Hk. intros s x Hk. apply push_round_spec; [done| |].
  - intros b s1 x1 Hk1 Ha1 Hb. destruct b; [done|]. destruct (Hb eq_refl) as [Hdel Hup]. apply wp_bind.
    apply wp_write; [done..|intros ?; by apply patchState_inv| |done|].
    + intros _. split; [|done]. intros _. right. intros Hs. split; [exact Hdel|]. by apply Hup.
    + cbn [this_state wp]. apply HQ. destruct Hk1 as [[Hg Hi] Hh]. split; [|exact Hh]. split; [exact Hg|].
      by apply (patchState_inv _ s1).
  - clear s x Hk. intros e s x Hk. unfold push_failed. cbn [wp]. destruct (is_stale e || _) eqn:Eb; [by cbn; apply HQ|].
    apply orb_false_iff in Eb as [_ Ha]. apply negb_false_iff in Ha.
    assert (Hother : WP task_push l (modify (λ s, scheduleRetry (patchState (λ st, patch_error (Some (message_of e))
      (patch_pending true (patch_status st_error st))) s)) ;; this_state) Q E s x).
    { apply wp_bind. apply wp_write; [done..|intros ?; by apply (patchState_inv _ s)|by intros _; split|done|]. cbn [this_state wp].
      apply HQ. destruct Hk as [[Hg Hi] Hh]. split; [|exact Hh]. split; [exact Hg|]. by apply (patchState_inv _ s). }
    destruct e as [| |m| |]; try exact Hother.
    eapply wp_ask; [apply known_stable|exact Hk|]. intros a s1 x1 Hk1 _ _. apply wp_bind.
    apply wp_settled; [|by auto]. intros [] _. cbn [wp]. destruct (isSyncLeaseActive s1 l) eqn:Ha1; cbn [negb]; [|by cbn; apply HQ].
    apply paused_spec; [done|apply Hk1|]. intros st s2 x2 Hi2 Hg2. apply HQ. split; [split; [lia|done]|]. intros _ Hg. lia.
Qed.

(** ** A queued operation *)

Lemma task_body_spec kind l s x :
  known kind l s x → WP kind l (task_body kind l) (λ _ s x, based l s x) (λ _ s x, based l s x) s x.
Proof.
  intros Hk. assert (Hfin : ∀ p cleanup s x,
    (∀ Q E, (∀ st s' x', known kind l s' x' → Q st s' x') → (∀ e s' x', known kind l s' x' → E e s' x') → WP kind l p Q E s x) →
    (∀ s' x', known kind l s' x' → Guar kind l s' (cleanup s') x' ∧ based l (cleanup s') x') →
    WP kind l (finally p cleanup) (λ _ s x, based l s x) (λ _ s x, based l s x) s x).
  { clear s x Hk. intros p cleanup s x Hp Hc. unfold finally. apply wp_try_bind. apply Hp.
    - intros st s1 x1 Hk1. eapply wp_ask; [apply known_stable|exact Hk1|]. intros a s2 x2 Hk2 _ _. destruct (Hc s2 x2 Hk2).
      apply wp_bind. by apply wp_modify.
    - intros e s1 x1 Hk1. eapply wp_ask; [apply known_stable|exact Hk1|]. intros a s2 x2 Hk2 _ _. destruct (Hc s2 x2 Hk2).
      apply wp_bind. by apply wp_modify. }
  destruct kind; cbn [task_body]; apply Hfin; unfold guarded; cbn [wp].
  - intros Q E HQ HE. destruct (isSyncLeaseActive s l); cbn [negb]; [|by cbn; apply HQ].
    apply runBootstrap_spec; [apply Hk| |]; intros ? s' x' Hb; (apply HQ || apply HE); by split.
  - intros s' x' [Hb _]. unfold bootstrap_cleanup. case_decide; [|split; [apply Guar_refl|done]]. split; [|exact Hb].
    split; [by left|done|done| |done|done]. intros _. done.
  - intros Q E HQ HE. destruct (isSyncLeaseActive s l); cbn [negb]; [|by cbn; apply HQ]. by apply runPush_spec.
  - intros s' x' [Hb _]. unfold push_cleanup. split.
    + split; [left; repeat case_decide; done|repeat case_decide; done|repeat case_decide; done| | |done].
      * intros _. split; [by repeat case_decide|]. intros g Hg. repeat case_decide; cbn in *; split; congruence.
      * intros _. apply push_rel_same; by repeat case_decide.
    + repeat case_decide; exact Hb.
Qed.
End specs.
