(* ===== verification/SyncMachine.v ===== *)
(** * The synchronisation service at work

    The service together with its server and the operations it has queued, as a step
    relation: calls, edits, timers and other devices come at any time; an
    operation starts when the one queued before it has ended, runs to its next [await]
    and goes on when the answer arrives.  What holds in every reachable state. *)

From S2P Require Import Prelude Collections Vault AsyncProc SyncRecords SyncService SyncLogic SyncSpecs.

Section machine.
Context {Data : Type} {SS : SyncStore Data} {CO : Collator} {ME : Messages} {EJ : ErrorJson} {SE : SyncEnv}.
Abbreviation SyncService := (@SyncService.SyncService Data).
Implicit Types (s : SyncService) (x : list revision) (l : SyncLease).
Abbreviation Proc := (proc SyncService Request SyncError answer).
Abbreviation Outcome := (outcome SyncService Request SyncError answer SyncStatus).

(** ** The state *)

(** [sent] is the server's log when the request was made. *)
Inductive TaskState :=
| waiting
| running (sent : list revision) (r : Request) (k : answer r → Proc SyncStatus)
| ended.
(** A queued operation; [tk_after] is the one whose end it waits for. *)
Record Task := { tk_kind : TaskKind; tk_lease : SyncLease; tk_after : option nat; tk_state : TaskState }.
Record World := { w_service : SyncService; w_server : list revision; w_tasks : list Task }.

Definition with_service s (w : World) : World :=
  {| w_service := s; w_server := w_server w; w_tasks := w_tasks w |}.
Definition with_revision (r : revision) (w : World) : World :=
  {| w_service := w_service w; w_server := w_server w ++ [r]; w_tasks := w_tasks w |}.
(** A call has returned; what it queued waits. *)
Definition called (r : SyncService * Called) (w : World) : World :=
  {| w_service := r.1; w_server := w_server w;
     w_tasks := match r.2 with
                | called_queues kind l after =>
                    w_tasks w ++ [{| tk_kind := kind; tk_lease := l; tk_after := after; tk_state := waiting |}]
                | _ => w_tasks w
                end |}.
Definition next_id (w : World) : nat := length (w_tasks w).

Definition resumed x (o : Outcome) : TaskState :=
  match o with blocked r k => running x r k | _ => ended end.
Definition in_state (st : TaskState) (t : Task) : Task :=
  {| tk_kind := tk_kind t; tk_lease := tk_lease t; tk_after := tk_after t; tk_state := st |}.
Definition after_turn (i : nat) (t : Task) s (o : Outcome) (w : World) : World :=
  {| w_service := s; w_server := w_server w; w_tasks := <[i := in_state (resumed (w_server w) o) t]> (w_tasks w) |}.

(** A local edit: records and queued deletions are written, then [queueSync()]. *)
Definition edited (data : Data) (outbox : list SyncDeletionRecord) (w : World) : World :=
  called (pushDirty (next_id w) (set_outbox outbox (set_data data (w_service w)))) w.

(** ** The steps *)

(** With [signed_in_edits], edits are only made while a lease can be captured. *)
Inductive outside (signed_in_edits : bool) (w : World) : World → Prop :=
| out_bootstrap : outside signed_in_edits w (called (bootstrap (next_id w) (w_service w)) w)
| out_edit data outbox :
    (signed_in_edits = true → ∃ l, captureSyncLease (w_service w) = Ok l) →
    outside signed_in_edits w (edited data outbox w)
| out_timer : ss_pushTimer (w_service w) = true →
    outside signed_in_edits w (called (pushDirty (next_id w) (w_service w)) w)
| out_pause message : outside signed_in_edits w (with_service (pause message (w_service w)) w)
| out_mark : outside signed_in_edits w (with_service (markLocalChangesPendingPush (w_service w)) w)
| out_reset : outside signed_in_edits w (with_service (resetVaultRecoveryState (w_service w)) w)
| out_auth auth : outside signed_in_edits w (with_service (set_auth auth (w_service w)) w)
| out_clock now : outside signed_in_edits w (with_service (set_now now (w_service w)) w)
| out_other content :
    outside signed_in_edits w (with_revision {| rev_author := another; rev_content := content |} w)
| out_accept i t sent rq k payload content :        (* the server accepts a running upload *)
    w_tasks w !! i = Some t → tk_state t = running sent (Fetch rq) k →
    rq_endpoint rq = ep_sync_post → rq_body rq = Some payload →
    outside signed_in_edits w (with_revision {| rev_author := mine payload; rev_content := content |} w).

Inductive task_step (i : nat) (w : World) : World → Prop :=
| ts_start t s o :
    w_tasks w !! i = Some t → tk_state t = waiting →
    (∀ p, tk_after t = Some p → ∃ u, w_tasks w !! p = Some u ∧ tk_state u = ended) →
    turn (task_body (tk_kind t) (tk_lease t)) (w_service w) s o →
    task_step i w (after_turn i t s o w)
| ts_answer t sent r k a s o :
    w_tasks w !! i = Some t → tk_state t = running sent r k →
    answer_ok r sent a (w_server w) →
    turn (k a) (w_service w) s o →
    task_step i w (after_turn i t s o w).

Inductive step (signed_in_edits : bool) (w w' : World) : Prop :=
| step_outside : outside signed_in_edits w w' → step signed_in_edits w w'
| step_task i : task_step i w w' → step signed_in_edits w w'.

(** A service that has just been made. *)
Definition started (d : Data) (outbox : list SyncDeletionRecord) (p : PersistedSyncState) (auth : AuthService)
    (now : jsstring) : SyncService :=
  {| ss_data := d; ss_outbox := outbox; ss_persisted := p; ss_auth := auth; ss_state := loadPersistedState p;
     ss_pushTimer := false; ss_pushTask := None; ss_bootstrapTask := None; ss_queuedPushGeneration := None;
     ss_syncGeneration := 0; ss_operationTail := None; ss_lastSyncRevision := None; ss_watchSupport := None;
     ss_now := now; ss_seed := 0; ss_committed := [] |}.

Inductive reachable (signed_in_edits : bool) : World → Prop :=
| reach_started d outbox p auth now x :
    reachable signed_in_edits {| w_service := started d outbox p auth now; w_server := x; w_tasks := [] |}
| reach_step w w' : reachable signed_in_edits w → step signed_in_edits w w' → reachable signed_in_edits w'.
End machine.
