(* ===== verification/SyncInvariant.v ===== *)
(** * The invariant of the synchronisation service

    What holds of the queue and of every operation in it, kept by calls, edits,
    timers and other devices ([outside]) and by the operations themselves. *)

From S2P Require Import Prelude Collections Vault AsyncProc SyncRecords SyncService SyncLogic SyncSpecs SyncMachine.

Section invariant.
Context {Data : Type} {SS : SyncStore Data} {CO : Collator} {ME : Messages} {EJ : ErrorJson} {SE : SyncEnv}.
Abbreviation SyncService := (@SyncService.SyncService Data).
Abbreviation World := (@SyncMachine.World Data SS).
Abbreviation Task := (@SyncMachine.Task Data SS).
Implicit Types (s : SyncService) (x : list revision) (l : SyncLease) (w : World) (t u : Task).
Variable signed_in_edits : bool.
Abbreviation Env := (SyncLogic.Env signed_in_edits).
Abbreviation Guar := (SyncLogic.Guar signed_in_edits).

(** The end-to-end tests switch the service off. *)
Context (enabled : isE2ESyncDisabled = false).

(** ** The calls *)

(** Nothing an operation relies on is disturbed. *)
Definition calm s x s' x' : Prop := ∀ l, Env l s x s' x'.
Definition call_ok (id : nat) s x (r : SyncService * Called) : Prop :=
  calm s x r.1 x
  ∧ match r.2 with
    | called_queues kind l after =>
        lease_generation l = ss_syncGeneration s ∧ ss_syncGeneration r.1 = ss_syncGeneration s
        ∧ after = ss_operationTail s ∧ ss_operationTail r.1 = Some id
        ∧ (kind = task_push → ss_pushTask s ≠ Some (ss_syncGeneration s)) ∧ held kind l r.1
    | _ => tail_kept s r.1
    end.

Lemma calm_bump s s' x : (ss_syncGeneration s < ss_syncGeneration s')%nat → ss_committed s' = ss_committed s →
  (inv s x → inv s' x) → calm s x s' x.
Proof. intros Hg Hc Hi l. split; [lia|done|by rewrite Hc|done|lia]. Qed.
Lemma calm_quiet s s' x :
  ss_syncGeneration s' = ss_syncGeneration s → ss_committed s' = ss_committed s → (inv s x → inv s' x) →
  ss_lastSyncRevision s' = ss_lastSyncRevision s → ss_pushTask s' = ss_pushTask s → ss_data s' = ss_data s →
  (pendingPush (ss_state s) = true → pendingPush (ss_state s') = true) →
  ss_queuedPushGeneration s' = ss_queuedPushGeneration s → calm s x s' x.
Proof.
  intros Hg Hc Hi Hl Hp Hd Hw Hq l. split; [lia|done|by rewrite Hc|done|]. intros _ _. rewrite Hl, Hp, Hd, Hq.
  split; [done|]. auto.
Qed.
Lemma pause_calm message s x : calm s x (pause message s) x.
Proof. apply calm_bump; [cbn; lia|done|apply pause_inv]. Qed.
Lemma pause_tail message s : tail_kept s (pause message s).
Proof. right. split; [cbn; lia|done]. Qed.

Lemma captureSyncLease_gen s l : captureSyncLease s = Ok l → lease_generation l = ss_syncGeneration s.
Proof. unfold captureSyncLease. destruct (captureSyncContext _) as [c|e]; cbn; [by intros [= <-]|done]. Qed.
Lemma captureSyncLease_status s l : captureSyncLease s = Ok l → auth_status (ss_auth s) = auth_authenticated.
Proof.
  unfold captureSyncLease, captureSyncContext. destruct (auth_status (ss_auth s)); try done; by destruct (auth_session _).
Qed.

Lemma bootstrap_ok id s x : call_ok id s x (bootstrap id s).
Proof.
  unfold bootstrap. rewrite enabled. case_decide; [split; [apply pause_calm|apply pause_tail]|].
  destruct (negb _); [split; [apply pause_calm|apply pause_tail]|].
  destruct (captureSyncLease s) as [l|e] eqn:El; [|split; [by intros l; apply Env_refl|by left]].
  apply captureSyncLease_gen in El. case_decide; [split; [by intros l'; apply Env_refl|by left]|].
  split; [by apply calm_quiet|]. by split_and!.
Qed.

Lemma markPendingPush_facts s x (m := markPendingPush s) :
  ss_syncGeneration m = ss_syncGeneration s ∧ ss_operationTail m = ss_operationTail s ∧ ss_committed m = ss_committed s
  ∧ ss_lastSyncRevision m = ss_lastSyncRevision s ∧ ss_pushTask m = ss_pushTask s ∧ ss_auth m = ss_auth s
  ∧ ss_queuedPushGeneration m = ss_queuedPushGeneration s ∧ ss_data m = ss_data s
  ∧ pendingPush (ss_state m) = true ∧ (inv s x → inv m x).
Proof.
  unfold m, markPendingPush. destruct (hasPendingLocalChanges s); [destruct (pendingPush (ss_state s)) eqn:E|];
    split_and!; done || (intros Hi; by apply patchState_inv).
Qed.

(** [pushDirty] after an edit (or none). *)
Lemma pushDirty_ok id data outbox s x :
  (signed_in_edits = true → data = ss_data s ∨ ∃ l, captureSyncLease s = Ok l) →
  call_ok id s x (pushDirty id (set_outbox outbox (set_data data s))).
Proof.
  intros Hedit. set (s1 := set_outbox outbox (set_data data s)). unfold pushDirty. rewrite enabled.
  set (s2 := set_pushTimer false s1).
  assert (Hi2 : inv s x → inv s2 x) by done.
  destruct (markPendingPush_facts s2 x) as (Hg & Ht & Hc & Hl & Hp & Ha & Hq & Hd & Hw & Hi).
  set (m := markPendingPush s2) in *. change (ss_auth s2) with (ss_auth s) in Ha. change (ss_data s2) with data in Hd.
  change (ss_syncGeneration s2) with (ss_syncGeneration s) in Hg. change (ss_operationTail s2) with (ss_operationTail s) in Ht.
  change (ss_committed s2) with (ss_committed s) in Hc. change (ss_lastSyncRevision s2) with (ss_lastSyncRevision s) in Hl.
  change (ss_pushTask s2) with (ss_pushTask s) in Hp.
  change (ss_queuedPushGeneration s2) with (ss_queuedPushGeneration s) in Hq. clearbody m.
  assert (Hcap : captureSyncLease m = captureSyncLease s) by (unfold captureSyncLease; by rewrite Ha, Hg).
  assert (Hpause : ∀ message, call_ok id s x (pause message m, called_returns)).
  { intros message. split; [|right; cbn; split; [lia|done]]. apply calm_bump; [cbn; lia|done|]. intros Hs. by apply pause_inv, Hi, Hi2. }
  (* the early returns leave the state [m] *)
  assert (Hm : (∀ l, captureSyncLease s ≠ Ok l) → ∀ c, (c = called_returns ∨ ∃ e, c = called_throws e) → call_ok id s x (m, c)).
  { intros Hno c Hcalled. split; [|by destruct Hcalled as [->|[e ->]]; left]. intros l. split; [cbn; lia|done|by cbn; rewrite Hc|auto|].
    intros _ _. cbn [fst]. rewrite Hl, Hp, Hq, Hw, Hd. split_and!; auto. intros Hpt. split_and!; auto.
    intros Hs. destruct (Hedit Hs) as [->|[l' Hl']]; [by left|]. by destruct (Hno l'). }
  case_decide as Hlocal.
  { apply Hm; [|by left]. intros l Hl'%captureSyncLease_status. congruence. }
  case_decide; [apply Hpause|]. destruct (negb _); [apply Hpause|].
  destruct (captureSyncLease m) as [l|e] eqn:El; [|apply Hm; [congruence|right; by exists e]].
  pose proof (captureSyncLease_gen _ _ El) as Hlg. rewrite Hg in Hlg. case_decide as Hjoin.
  - split; [|left; done]. intros l'. split; [cbn; lia|done|by cbn; rewrite Hc|intros Hs; by apply Hi, Hi2|].
    intros Hs _. cbn. rewrite Hl, Hp. split; [done|]. intros Hpt. split_and!; [done|done|congruence|]. right. congruence.
  - split; [|cbn; split_and!; try done; congruence].
    intros l'. split; [cbn; lia|done|by cbn; rewrite Hc|intros Hs; by apply Hi, Hi2|].
    intros Hs _. cbn. split; [done|]. congruence.
Qed.

(** ** The operations *)

Definition live t : Prop := tk_state t ≠ ended.
(** A waiting operation only waits; a running one goes on from what it knew when it
    made its request. *)
Definition task_ok w t : Prop :=
  (lease_generation (tk_lease t) ≤ ss_syncGeneration (w_service w))%nat
  ∧ (live t → held (tk_kind t) (tk_lease t) (w_service w))
  ∧ match tk_state t with
    | running sent r k => ∃ s0,
        (lease_generation (tk_lease t) ≤ ss_syncGeneration s0)%nat ∧ Env (tk_lease t) s0 sent (w_service w) (w_server w)
        ∧ ∀ a s' x', Rely signed_in_edits (tk_lease t) r s0 sent a s' x' →
            wp (Guar (tk_kind t) (tk_lease t)) (Rely signed_in_edits (tk_lease t)) (Sent (tk_kind t) (tk_lease t)) (k a)
               (λ _ s x, based (tk_lease t) s x) (λ _ s x, based (tk_lease t) s x) s' x'
    | _ => True
    end.
Definition same_generation t u : Prop := lease_generation (tk_lease t) = lease_generation (tk_lease u).

Record WorldInv w : Prop := {
  wi_inv : inv (w_service w) (w_server w);
  wi_task : ∀ i t, w_tasks w !! i = Some t → task_ok w t;
  (* the queue: an operation waits for the one queued before it in its generation *)
  wi_after : ∀ i j t u, w_tasks w !! i = Some t → w_tasks w !! j = Some u → (i < j)%nat → same_generation t u →
    ∃ p v, tk_after u = Some p ∧ (i ≤ p < j)%nat ∧ w_tasks w !! p = Some v ∧ same_generation v u;
  wi_before : ∀ j u p, w_tasks w !! j = Some u → tk_after u = Some p → (p < j)%nat;
  wi_tail : ∀ i t, w_tasks w !! i = Some t → lease_generation (tk_lease t) = ss_syncGeneration (w_service w) →
    ∃ p v, ss_operationTail (w_service w) = Some p ∧ (i ≤ p)%nat ∧ w_tasks w !! p = Some v ∧ same_generation v t;
  wi_tail_bound : ∀ p, ss_operationTail (w_service w) = Some p → (p < length (w_tasks w))%nat;
  wi_turns : ∀ i j t u, w_tasks w !! i = Some t → w_tasks w !! j = Some u → (i < j)%nat → same_generation t u →
    live t → tk_state u = waiting;
  wi_one_push : ∀ i j t u, w_tasks w !! i = Some t → w_tasks w !! j = Some u → same_generation t u → live t → live u →
    tk_kind t = task_push → tk_kind u = task_push → i = j;
}.

Lemma held_calm kind l s x s' x' :
  (lease_generation l ≤ ss_syncGeneration s)%nat → Env l s x s' x' → held kind l s → held kind l s'.
Proof.
  intros Hle He Hh Hk Hg. assert (Hg0 : ss_syncGeneration s = lease_generation l) by (pose proof (env_gen _ _ _ _ _ _ He); lia).
  by apply (env_same_gen _ _ _ _ _ _ He Hg0 Hg), Hh.
Qed.
Lemma task_ok_calm w w' t :
  calm (w_service w) (w_server w) (w_service w') (w_server w') → task_ok w t → task_ok w' t.
Proof.
  intros Hc (Hle & Hh & Hst). pose proof (Hc (tk_lease t)) as He. split_and!.
  - pose proof (env_gen _ _ _ _ _ _ He). lia.
  - intros Hl. eapply held_calm; [done..|by apply Hh].
  - destruct (tk_state t); [done| |done]. destruct Hst as (s0 & Hle0 & He0 & Hwp). exists s0.
    split_and!; [done|by eapply Env_trans|done].
Qed.

(** Calls that queue nothing, and what is not a call. *)
Lemma WorldInv_calm w w' :
  WorldInv w → w_tasks w' = w_tasks w → calm (w_service w) (w_server w) (w_service w') (w_server w') →
  tail_kept (w_service w) (w_service w') → WorldInv w'.
Proof.
  intros [Hi Ht Ha Hb Htl Htb Htu Hp] Hw Hc Hk. split; rewrite ?Hw; try done.
  - eapply (env_inv _ _ _ _ _ _ (Hc {| lease_context := Build_AuthSyncContext [] [] [] [] None; lease_generation := 0 |})). exact Hi.
  - intros i t Hit. eapply task_ok_calm; [done|by eapply Ht].
  - intros i t Hit Hg. destruct (Ht _ _ Hit) as [Hle _]. destruct Hk as [[Hg' ->]|[Hlt _]]; [|lia]. eapply Htl; [done|congruence].
  - intros p. destruct Hk as [[_ ->]|[_ ->]]; [apply Htb|done].
Qed.

Lemma WorldInv_enqueue w s kind l after :
  WorldInv w → call_ok (next_id w) (w_service w) (w_server w) (s, called_queues kind l after) →
  WorldInv (called (s, called_queues kind l after) w).
Proof.
  intros [Hi Ht Ha Hb Htl Htb Htu Hp] (Hc & Hlg & Hsg & -> & Hst & Hpush & Hheld). cbn [fst snd] in *.
  set (new := {| tk_kind := kind; tk_lease := l; tk_after := ss_operationTail (w_service w); tk_state := waiting |}).
  assert (Hlk : ∀ i t, (w_tasks w ++ [new]) !! i = Some t →
    w_tasks w !! i = Some t ∧ (i < next_id w)%nat ∨ i = next_id w ∧ t = new).
  { intros i t [Hit|[Hge Hit]]%lookup_app_Some; [left; split; [done|]; by eapply lookup_lt_Some|]. right.
    apply list_lookup_singleton_Some in Hit as [? <-]. unfold next_id. split; [lia|done]. }
  assert (Hold : ∀ i t, w_tasks w !! i = Some t → (w_tasks w ++ [new]) !! i = Some t) by (intros; by apply lookup_app_l_Some).
  assert (Hfresh : ∀ i t, w_tasks w !! i = Some t → same_generation t new → live t → tk_kind t = task_push → kind = task_push → False).
  { intros i t Hit Hsame Hl Hk Hk'. destruct (Ht _ _ Hit) as (_ & Hh & _). unfold same_generation in Hsame. cbn in Hsame.
    apply (Hpush Hk'). rewrite (Hh Hl Hk); congruence. }
  assert (Hlast : ∀ i t, w_tasks w !! i = Some t → same_generation t new →
    ∃ p v, ss_operationTail (w_service w) = Some p ∧ (i ≤ p < next_id w)%nat ∧ w_tasks w !! p = Some v ∧ same_generation v t).
  { intros i t Hit Hsame. destruct (Htl _ _ Hit) as (p & v & Ho & Hle & Hpv & Hs); [unfold same_generation in Hsame; cbn in Hsame; congruence|].
    exists p, v. split_and!; [done|done|by eapply lookup_lt_Some|done..]. }
  split; cbn [called w_service w_server w_tasks fst snd].
  - eapply (env_inv _ _ _ _ _ _ (Hc l)). exact Hi.
  - intros i t [[Hit _]|[-> ->]]%Hlk.
    + eapply (task_ok_calm w); [done|by eapply Ht].
    + split_and!; [cbn; lia|by intros _|done].
  - intros i j t u Hit Huj Hlt Hsame. apply Hlk in Hit as [[Hit Hin]|[-> ->]].
    + apply Hlk in Huj as [[Huj _]|[-> ->]].
      * destruct (Ha _ _ _ _ Hit Huj Hlt Hsame) as (p & v & ? & ? & ? & ?). exists p, v. auto.
      * destruct (Hlast _ _ Hit Hsame) as (p & v & Ho & Hle & Hpv & Hs). exists p, v. split_and!; [done|lia|lia|by auto|].
        unfold same_generation in *. congruence.
    + apply Hlk in Huj as [[_ Hjn]|[-> _]]; lia.
  - intros j u p [[Huj _]|[-> ->]]%Hlk; [by apply Hb|]. cbn. apply Htb.
  - intros i t Hit Hg. exists (next_id w), new. split_and!; [done|by apply Hlk in Hit as [[_ ?]|[-> _]]; lia| |].
    + unfold next_id. by rewrite lookup_app_r, Nat.sub_diag by lia.
    + unfold same_generation. cbn. congruence.
  - intros p. rewrite Hst, length_app. intros [= <-]. unfold next_id. cbn. lia.
  - intros i j t u Hit Huj Hlt Hsame Hl. apply Hlk in Huj as [[Huj Hjn]|[-> ->]]; [|done].
    apply Hlk in Hit as [[Hit _]|[-> _]]; [exact (Htu _ _ _ _ Hit Huj Hlt Hsame Hl)|lia].
  - intros i j t u Hit Huj Hsame Hl Hl' Hk Hk'. apply Hlk in Hit as [[Hit _]|[-> ->]], Huj as [[Huj _]|[-> ->]]; [exact (Hp _ _ _ _ Hit Huj Hsame Hl Hl' Hk Hk')| | |done].
    + exfalso. exact (Hfresh i t Hit Hsame Hl Hk Hk').
    + exfalso. exact (Hfresh j u Huj (eq_sym Hsame) Hl' Hk' Hk).
Qed.
Lemma WorldInv_called w r :
  WorldInv w → call_ok (next_id w) (w_service w) (w_server w) r → WorldInv (called r w).
Proof.
  intros Hw Hc. destruct r as [s [| |e|kind l after]]; [| | |by apply WorldInv_enqueue];
    destruct Hc as [Hc Hk]; by eapply (WorldInv_calm w).
Qed.

Lemma log_calm s x x' : x `prefix_of` x' → calm s x s x'.
Proof.
  intros Hp l. split; [done|done|done| |].
  - intros [Hm Hr]. split; [done|]. by eapply revision_known_mono.
  - intros _ _. split; [done|]. auto.
Qed.

Lemma WorldInv_outside w w' : WorldInv w → outside signed_in_edits w w' → WorldInv w'.
Proof.
  intros Hw [|data outbox Hedit|_|message| | |auth|now|content|i t sent rq k payload content _ _ _ _].
  - apply WorldInv_called, bootstrap_ok. done.
  - apply WorldInv_called; [done|]. apply pushDirty_ok. auto.
  - apply WorldInv_called; [done|].
    replace (w_service w) with (set_outbox (ss_outbox (w_service w)) (set_data (ss_data (w_service w)) (w_service w))) at 2
      by by destruct (w_service w).
    apply pushDirty_ok. auto.
  - eapply WorldInv_calm; [done|done|apply pause_calm|apply pause_tail].
  - eapply WorldInv_calm; [done|done| |by left]. apply calm_quiet; try done. intros Hi. by apply patchState_inv.
  - eapply WorldInv_calm; [done|done| |right; split; [cbn; lia|done]].
    apply calm_bump; [cbn; lia|done|]. intros [Hm _]. apply patchState_inv. by split.
  - eapply WorldInv_calm; [done|done| |by left]. by apply calm_quiet.
  - eapply WorldInv_calm; [done|done| |by left]. apply calm_quiet; done.
  - eapply WorldInv_calm; [done|done| |by left]. apply log_calm. by eexists.
  - eapply WorldInv_calm; [done|done| |by left]. apply log_calm. by eexists.
Qed.

(** *** A turn of an operation *)

(** What an operation may write disturbs no running operation of another generation, and
    leaves the waiting ones of its own. *)
Lemma Guar_other kind l s s' x l' :
  (lease_generation l ≤ ss_syncGeneration s)%nat → Guar kind l s s' x → lease_generation l' ≠ lease_generation l →
  Env l' s x s' x.
Proof.
  intros Hle [Ht Hc Hi Hf _ _] Hne. pose proof (tail_kept_le _ _ Ht). split; [done|done|done|done|].
  intros Hg Hg'. assert (Ha : isSyncLeaseActive s l = false).
  { unfold isSyncLeaseActive. destruct (Nat.eqb_spec (lease_generation l) (ss_syncGeneration s)); [congruence|done]. }
  destruct (Hf Ha) as [Hcore Hkeep]. destruct (Hkeep _ Hne) as [Hp Hq].
  pose proof (f_equal ss_lastSyncRevision Hcore) as E1. pose proof (f_equal ss_state Hcore) as E2.
  pose proof (f_equal ss_data Hcore) as E3. cbn in E1, E2, E3.
  split; [done|]. intros Hpt. rewrite E2. split_and!; auto.
Qed.
Lemma Guar_held kind l s s' x kind' l' :
  (lease_generation l ≤ ss_syncGeneration s)%nat → (lease_generation l' ≤ ss_syncGeneration s)%nat →
  Guar kind l s s' x → held kind' l' s →
  (lease_generation l' = lease_generation l → kind' = task_push → kind = task_bootstrap) → held kind' l' s'.
Proof.
  intros Hle Hle' HG Hh Hone Hk Hg. pose proof (tail_kept_le _ _ (gu_tail _ _ _ _ _ _ HG)).
  assert (Hg0 : ss_syncGeneration s = lease_generation l') by lia.
  destruct (decide (lease_generation l' = lease_generation l)) as [E|E].
  - rewrite (gu_pushTask _ _ _ _ _ _ HG); auto.
  - apply (env_same_gen _ _ _ _ _ _ (Guar_other _ _ _ _ _ _ Hle HG E) Hg0 Hg). auto.
Qed.

Lemma earlier_ended w i t :
  WorldInv w → w_tasks w !! i = Some t →
  (tk_state t = waiting → ∀ p, tk_after t = Some p → ∃ u, w_tasks w !! p = Some u ∧ tk_state u = ended) → live t →
  ∀ j u, w_tasks w !! j = Some u → (j < i)%nat → same_generation u t → tk_state u = ended.
Proof.
  intros Hw Hit Hafter Hl j u Huj Hlt Hs. destruct (tk_state u) eqn:E; [| |done]; exfalso.
  all: assert (Hlu : live u) by (unfold live; by rewrite E).
  all: pose proof (wi_turns _ Hw _ _ _ _ Huj Hit Hlt Hs Hlu) as Hwait.
  all: destruct (wi_after _ Hw _ _ _ _ Huj Hit Hlt Hs) as (p & v & Hp & Hjp & Hv & Hsv).
  all: destruct (Hafter Hwait p Hp) as (v' & Hv' & Hend); simplify_eq.
  all: destruct (decide (j = p)) as [->|]; [simplify_eq; congruence|].
  all: assert (Hwv : tk_state v = waiting) by (eapply (wi_turns _ Hw j p); [done..|lia|unfold same_generation in *; congruence|done]).
  all: congruence.
Qed.

Lemma WorldInv_turn w i t s' o :
  WorldInv w → w_tasks w !! i = Some t → live t →
  (∀ j u, w_tasks w !! j = Some u → (j < i)%nat → same_generation u t → tk_state u = ended) →
  Guar (tk_kind t) (tk_lease t) (w_service w) s' (w_server w) →
  stopped (Guar (tk_kind t) (tk_lease t)) (Rely signed_in_edits (tk_lease t)) (Sent (tk_kind t) (tk_lease t))
    (λ _ s x, based (tk_lease t) s x) (λ _ s x, based (tk_lease t) s x) o s' (w_server w) →
  WorldInv (after_turn i t s' o w).
Proof.
  intros Hw Hit Hl Hearly HG Hst. destruct Hw as [Hi Ht Ha Hb Htl Htb Htu Hp]. set (w' := after_turn i t s' o w).
  destruct (Ht _ _ Hit) as (Hle & Hh & _). pose proof (tail_kept_le _ _ (gu_tail _ _ _ _ _ _ HG)) as Hgen.
  assert (Hlk : ∀ j u, w_tasks w' !! j = Some u → ∃ u0, w_tasks w !! j = Some u0 ∧ tk_kind u = tk_kind u0
    ∧ tk_lease u = tk_lease u0 ∧ tk_after u = tk_after u0 ∧ (live u → live u0) ∧ (j ≠ i → u = u0)).
  { intros j u [(-> & <- & _)|[Hne Hj]]%list_lookup_insert_Some; [by exists t|]. exists u. by split_and!. }
  assert (Hback : ∀ j u, w_tasks w !! j = Some u → ∃ u', w_tasks w' !! j = Some u' ∧ tk_lease u' = tk_lease u).
  { intros j u Hj. destruct (decide (j = i)) as [->|Hne].
    - exists (in_state (resumed (w_server w) o) t). simplify_eq. split; [|done]. apply list_lookup_insert_eq. by eapply lookup_lt_Some.
    - exists u. split; [|done]. by apply (eq_trans (list_lookup_insert_ne _ _ _ _ (not_eq_sym Hne))). }
  split.
  - by apply (gu_inv _ _ _ _ _ _ HG).
  - intros j u [(-> & <- & _)|[Hne Hj]]%list_lookup_insert_Some.
    + split_and!; [cbn; lia| |].
      * destruct o as [a|e|r k|p]; cbn; try done. intros _. by destruct Hst.
      * destruct o as [a|e|r k|p]; cbn; try done. exists s'. split_and!; [lia|apply Env_refl|by destruct Hst].
    + destruct (Ht _ _ Hj) as (Hlu & Hhu & Hstu). split_and!.
      * cbn. lia.
      * intros Hlive. eapply Guar_held; [exact Hle|exact Hlu|exact HG|by apply Hhu|]. intros Hs Hk.
        destruct (tk_kind t) eqn:Ek; [done|]. exfalso. apply Hne. exact (Hp _ _ _ _ Hit Hj (eq_sym Hs) Hl Hlive Ek Hk).
      * destruct (tk_state u) as [|sent r k|] eqn:Eu; [done| |done]. destruct Hstu as (s0 & Hle0 & He0 & Hwp). exists s0.
        split_and!; [done| |done]. eapply Env_trans; [exact He0|]. cbn. eapply Guar_other; [exact Hle|exact HG|]. intros Hs.
        destruct (decide (j < i)%nat); [by rewrite (Hearly j u) in Eu|].
        rewrite (Htu i j t u) in Eu; [done|done|done|lia|by unfold same_generation|done].
  - intros j1 j2 u1 u2 H1 H2 Hlt Hs. destruct (Hlk _ _ H1) as (v1 & Hv1 & _ & Hl1 & _), (Hlk _ _ H2) as (v2 & Hv2 & _ & Hl2 & Ha2 & _).
    destruct (Ha _ _ _ _ Hv1 Hv2 Hlt) as (p & v & Hap & Hpj & Hpv & Hsv); [unfold same_generation in *; congruence|].
    destruct (Hback _ _ Hpv) as (v' & Hv' & Hlv). exists p, v'. unfold same_generation in *. split_and!; [congruence|lia..|done|congruence].
  - intros j u p Hj Hap. destruct (Hlk _ _ Hj) as (v & Hv & _ & _ & Hav & _). apply (Hb j v); congruence.
  - intros j u Hj Hg. destruct (Hlk _ _ Hj) as (v & Hv & _ & Hlv & _). destruct (gu_tail _ _ _ _ _ _ HG) as [[Hg0 Ho]|[Hlt _]].
    + destruct (Htl _ _ Hv) as (p & z & Hop & Hjp & Hz & Hsz); [cbn in Hg; congruence|]. destruct (Hback _ _ Hz) as (z' & Hz' & Hlz).
      exists p, z'. unfold same_generation in *. split_and!; [cbn; congruence|done|done|congruence].
    + destruct (Ht _ _ Hv) as [Hlev _]. cbn in Hg. rewrite Hlv in Hg. lia.
  - intros p Hop. unfold w', after_turn. cbn [w_tasks]. rewrite length_insert. apply Htb.
    cbn in Hop. destruct (gu_tail _ _ _ _ _ _ HG) as [[_ Ho]|[_ Ho]]; congruence.
  - intros j1 j2 u1 u2 H1 H2 Hlt Hs Hl1. destruct (Hlk _ _ H1) as (v1 & Hv1 & _ & Hle1 & _ & Hlive1 & _), (Hlk _ _ H2) as (v2 & Hv2 & _ & Hle2 & _ & _ & Hsame).
    assert (Hs' : same_generation v1 v2) by (unfold same_generation in *; congruence).
    destruct (decide (j2 = i)) as [->|Hne]; [|rewrite (Hsame Hne); exact (Htu _ _ _ _ Hv1 Hv2 Hlt Hs' (Hlive1 Hl1))].
    simplify_eq. by destruct (Hlive1 Hl1); eapply Hearly.
  - intros j1 j2 u1 u2 H1 H2 Hs Hl1 Hl2 Hk1 Hk2. destruct (Hlk _ _ H1) as (v1 & Hv1 & Hkk1 & Hle1 & _ & Hlive1 & _), (Hlk _ _ H2) as (v2 & Hv2 & Hkk2 & Hle2 & _ & Hlive2 & _).
    apply (Hp j1 j2 v1 v2); unfold same_generation in *; auto; congruence.
Qed.

(** A step of an operation is a turn that keeps its promise. *)
Lemma task_step_turn w w' i :
  WorldInv w → task_step i w w' → ∃ t s' o, w_tasks w !! i = Some t ∧ live t ∧ w' = after_turn i t s' o w
    ∧ (∀ j u, w_tasks w !! j = Some u → (j < i)%nat → same_generation u t → tk_state u = ended)
    ∧ Guar (tk_kind t) (tk_lease t) (w_service w) s' (w_server w)
    ∧ stopped (Guar (tk_kind t) (tk_lease t)) (Rely signed_in_edits (tk_lease t)) (Sent (tk_kind t) (tk_lease t))
        (λ _ s x, based (tk_lease t) s x) (λ _ s x, based (tk_lease t) s x) o s' (w_server w).
Proof.
  intros Hw [t s o Hit Hst Hafter Hturn|t sent r k a s o Hit Hst Hok Hturn].
  - assert (Hl : live t) by (unfold live; by rewrite Hst). destruct (wi_task _ Hw _ _ Hit) as (Hle & Hh & _).
    exists t, s, o. do 4 (split; [done || by eapply earlier_ended|]).
    eapply (turn_sound _ _ _ (Guar_refl _ _ _) (Guar_trans _ _ _)) in Hturn as (HG & Hs & _); [done|].
    apply task_body_spec. split; [|by apply Hh]. split; [done|]. apply Hw.
  - assert (Hl : live t) by (unfold live; by rewrite Hst). destruct (wi_task _ Hw _ _ Hit) as (Hle & _ & Hrun). rewrite Hst in Hrun.
    destruct Hrun as (s0 & _ & He & Hwp).
    exists t, s, o. do 4 (split; [done || by (eapply earlier_ended; [done..|congruence|done])|]).
    eapply (turn_sound _ _ _ (Guar_refl _ _ _) (Guar_trans _ _ _)) in Hturn as (HG & Hs & _); [done|].
    by apply Hwp.
Qed.
Lemma WorldInv_step w w' : WorldInv w → step signed_in_edits w w' → WorldInv w'.
Proof.
  intros Hw [Ho|i Hs]; [by eapply WorldInv_outside|].
  destruct (task_step_turn _ _ _ Hw Hs) as (t & s' & o & Hit & Hl & -> & He & HG & Hst). by apply WorldInv_turn.
Qed.
Lemma reachable_inv w : reachable signed_in_edits w → WorldInv w.
Proof.
  induction 1 as [d outbox p auth now x|w w' _ IH Hs]; [|by eapply WorldInv_step].
  split; cbn; try done. split; [|done]. exists (ps_updatedAt p). by destruct p.
Qed.
End invariant.
