(* ===== verification/SyncSimulation.v ===== *)
(** * Running the synchronisation service

    An executable run of [SyncMachine] against a server that answers every request
    and accepts every upload, and a small store to run it with. *)

From S2P Require Import Prelude Collections Vault AsyncProc SyncRecords SyncService SyncLogic SyncMachine.

Section simulation.
Context {Data : Type} {SS : SyncStore Data} {CO : Collator} {ME : Messages} {EJ : ErrorJson} {SE : SyncEnv}.
Abbreviation SyncService := (@SyncService.SyncService Data).
Abbreviation World := (@SyncMachine.World Data SS).
Abbreviation Task := (@SyncMachine.Task Data SS).
Implicit Types (w : World).

(** ** The server *)

Definition respond (st : Z) (etag : option jsstring) (body : option JsonBody) : HttpResponse :=
  {| http_status := st; http_contentType := js "application/json"; http_etag := etag; http_text := []; http_json := body |}.
Definition server_info : ServerInfoResponse :=
  {| si_awsProfiles := true; si_dataFloor := true; si_watch := true; si_vaultE2ee := true; si_webauthn := true |}.
Definition json_body (payload : SyncPayloadV2) (revision : nat) : JsonBody :=
  {| jb_payload := λ k, Some (payload k); jb_revision := Some (N.of_nat revision); jb_info := server_info |}.

(** The answer to a request other than an upload, and to an upload just accepted. *)
Definition serve (rq : HttpRequest) (x : list revision) : HttpResponse :=
  let n := length x in
  match rq_endpoint rq with
  | ep_sync_get =>
      if decide (rq_ifNoneMatch rq = Some (etag_of n)) then respond 304 None None
      else respond 200 (Some (etag_of n)) (Some (json_body (content_at x n) n))
  | _ => respond 200 None (Some (json_body (λ _, []) n))
  end.
Definition reply (r : Request) (x : list revision) : answer (Data:=Data) r :=
  match r return answer r with
  | Fetch rq => Ok (serve rq x)
  | ReadText response => Ok (http_text response)
  | ReadJson response => match http_json response with Some b => Ok b | None => Throw "not json" end
  | RefreshSession => Ok auth_authenticated
  | HandleVaultDekRejected => Ok ()
  | LoadSecret _ => Ok None
  | AppliedSnapshot => Ok ()
  | Sleep => ()
  | Tick => ()
  end.
(** The server takes an upload as it is. *)
Definition upload_of (r : Request) : option SyncPayloadV2 :=
  match r with
  | Fetch rq => match rq_endpoint rq with ep_sync_post => rq_body rq | _ => None end
  | _ => None
  end.
Definition accepted_upload (payload : SyncPayloadV2) : revision := {| rev_author := mine payload; rev_content := payload |}.

Lemma content_at_last x payload : content_at (x ++ [accepted_upload payload]) (length (x ++ [accepted_upload payload])) = payload.
Proof. rewrite length_app. cbn [length]. rewrite Nat.add_1_r. cbn. rewrite lookup_app_r, Nat.sub_diag by lia. done. Qed.
Lemma reply_ok r sent x : (length sent ≤ length x)%nat →
  (∀ rq, r = Fetch rq → rq_endpoint rq = ep_sync_post →
     ∃ payload, rq_body rq = Some payload ∧ (length sent < length x)%nat ∧ accepted_at x (length x) payload) →
  answer_ok r sent (reply r x) x.
Proof.
  intros Hlen Hpost. destruct r as [rq|response|response| | |secretRef| | |]; cbn; try done.
  - intros _. specialize (Hpost rq eq_refl). unfold response_ok, serve. destruct (rq_endpoint rq); try done.
    + case_decide as Ee; cbn; (split; [intros E|intros E; try done]); [by exists (length x)|lia|].
      exists (length x). split_and!; [lia|lia|by intros e [= <-]|]. by intros b k [= <-].
    + destruct (Hpost eq_refl) as (payload & Hb & Hlt & Ha). exists (length x), payload. split_and!; [done|lia|lia|done|].
      by intros b r [= <-] [= <-].
  - destruct (http_json response); done.
Qed.

(** ** Events *)

Inductive Event :=
| ev_bootstrap
| ev_edit (data : Data) (outbox : list SyncDeletionRecord)
| ev_auth (auth : AuthService)
| ev_other (content : SyncPayloadV2)
| ev_start (i : nat)
| ev_reply (i : nat).

(** A turn that does not stop between two rounds of a loop. *)
Definition finish_turn (i : nat) (t : Task) (p : proc SyncService Request SyncError answer SyncStatus) w : option World :=
  match run p (w_service w) with
  | (_, again _) => None
  | (s, o) => Some (after_turn i t s o w)
  end.
Definition predecessor_ended (t : Task) w : bool :=
  match tk_after t with
  | None => true
  | Some p => match w_tasks w !! p with
              | Some u => match tk_state u with ended => true | _ => false end
              | None => false
              end
  end.

Definition exec (e : Event) w : option World :=
  match e with
  | ev_bootstrap => Some (called (bootstrap (next_id w) (w_service w)) w)
  | ev_edit data outbox =>
      match captureSyncLease (w_service w) with
      | Ok _ => Some (edited data outbox w)
      | Throw _ => None
      end
  | ev_auth auth => Some (with_service (set_auth auth (w_service w)) w)
  | ev_other content => Some (with_revision {| rev_author := another; rev_content := content |} w)
  | ev_start i =>
      match w_tasks w !! i with
      | None => None
      | Some t =>
          match tk_state t with
          | waiting => if predecessor_ended t w then finish_turn i t (task_body (tk_kind t) (tk_lease t)) w else None
          | _ => None
          end
      end
  | ev_reply i =>
      match w_tasks w !! i with
      | None => None
      | Some t =>
          match tk_state t with
          | running sent r k =>
              if (length sent <=? length (w_server w))%nat then
                match r as r0 return ((answer r0 → proc SyncService Request SyncError answer SyncStatus) → option World) with
                | Fetch rq => λ k,
                    match rq_endpoint rq, rq_body rq with
                    | ep_sync_post, Some payload =>
                        let w := with_revision (accepted_upload payload) w in
                        finish_turn i t (k (reply (Fetch rq) (w_server w))) w
                    | ep_sync_post, None => None
                    | _, _ => finish_turn i t (k (reply (Fetch rq) (w_server w))) w
                    end
                | r => λ k, finish_turn i t (k (reply r (w_server w))) w
                end k
              else None
          | _ => None
          end
      end
  end.
Fixpoint execs (es : list Event) w : option World :=
  match es with
  | [] => Some w
  | e :: es => match exec e w with Some w => execs es w | None => None end
  end.

Lemma finish_turn_turn i t p w w' : finish_turn i t p w = Some w' →
  ∃ s o, turn p (w_service w) s o ∧ w' = after_turn i t s o w.
Proof.
  unfold finish_turn. destruct (run p (w_service w)) as [s o] eqn:E. intros H. exists s, o.
  destruct o as [a|e|r k|q]; simplify_eq; (split; [by apply turn_stop|done]).
Qed.
Lemma exec_answer i t sent r k w w' :
  w_tasks w !! i = Some t → tk_state t = running sent r k → answer_ok r sent (reply r (w_server w)) (w_server w) →
  finish_turn i t (k (reply r (w_server w))) w = Some w' → task_step i w w'.
Proof.
  intros Hit Hst Hok (s & o & Hturn & ->)%finish_turn_turn. eapply ts_answer; done.
Qed.
Definition is_upload (i : nat) w : bool :=
  match w_tasks w !! i with
  | Some t => match tk_state t with
              | running _ (Fetch rq) _ => match rq_endpoint rq with ep_sync_post => true | _ => false end
              | _ => false
              end
  | None => false
  end.
Lemma exec_reply_step i w w' : exec (ev_reply i) w = Some w' → is_upload i w = false → task_step i w w'.
Proof.
  cbn [exec]. unfold is_upload. destruct (w_tasks w !! i) as [t|] eqn:Hit; [|done].
  destruct (tk_state t) as [|sent r k|] eqn:Est; [done| |done].
  destruct (Nat.leb_spec (length sent) (length (w_server w))) as [Hlen|]; [|done].
  intros He Hno. assert (Hf : finish_turn i t (k (reply r (w_server w))) w = Some w').
  { destruct r as [rq|response|response| | |secretRef| | |]; try exact He. by destruct (rq_endpoint rq). }
  eapply exec_answer; [done..| |done]. apply reply_ok; [done|]. intros rq -> Hp. by rewrite Hp in Hno.
Qed.
Lemma exec_steps b e w w' : exec e w = Some w' → rtc (step b) w w'.
Proof.
  destruct e as [|data outbox|auth|content|i|i]; cbn [exec].
  - intros [= <-]. apply rtc_once, step_outside, out_bootstrap.
  - destruct (captureSyncLease (w_service w)) as [l|] eqn:El; [|done]. intros [= <-]. apply rtc_once, step_outside, out_edit. by exists l.
  - intros [= <-]. apply rtc_once, step_outside, out_auth.
  - intros [= <-]. apply rtc_once, step_outside, out_other.
  - destruct (w_tasks w !! i) as [t|] eqn:Hit; [|done]. destruct (tk_state t) eqn:Est; [|done|done].
    destruct (predecessor_ended t w) eqn:Ep; [|done]. intros (s & o & Hturn & ->)%finish_turn_turn. apply rtc_once.
    eapply step_task, ts_start; [done..| |done]. intros p Hp. unfold predecessor_ended in Ep. rewrite Hp in Ep.
    destruct (w_tasks w !! p) as [u|]; [|done]. exists u. split; [done|]. by destruct (tk_state u).
  - destruct (w_tasks w !! i) as [t|] eqn:Hit; [|done]. destruct (tk_state t) as [|sent r k|] eqn:Est; [done| |done].
    destruct (Nat.leb_spec (length sent) (length (w_server w))) as [Hlen|]; [|done].
    destruct (is_upload i w) eqn:Eup.
    2: { intros He. apply rtc_once. apply step_task with i. apply exec_reply_step; [|done]. cbn [exec]. rewrite Hit, Est.
         destruct (Nat.leb_spec (length sent) (length (w_server w))); [done|lia]. }
    unfold is_upload in Eup. rewrite Hit, Est in Eup. destruct r as [rq|response|response| | |secretRef| | |]; try done.
    destruct (rq_endpoint rq) eqn:Erq; try done.
    destruct (rq_body rq) as [payload|] eqn:Eb; [|done]. intros Hf. eapply rtc_l.
    { apply step_outside. eapply (out_accept _ _ i t sent rq k payload payload); done. }
    apply rtc_once, step_task with i. eapply exec_answer; [exact Hit|exact Est| |exact Hf].
    assert (Hacc : accepted_at (w_server w ++ [accepted_upload payload]) (length (w_server w ++ [accepted_upload payload])) payload).
    { rewrite length_app. cbn [length]. rewrite Nat.add_1_r. exists (length (w_server w)), (accepted_upload payload). split_and!; [done| |done].
      by rewrite lookup_app_r, Nat.sub_diag by lia. }
    apply reply_ok; cbn [w_server with_revision].
    + rewrite length_app. lia.
    + intros rq' [= <-] _. exists payload. split_and!; [done|rewrite length_app; cbn; lia|done].
Qed.
Lemma execs_steps b es w w' : execs es w = Some w' → rtc (step b) w w'.
Proof.
  revert w. induction es as [|e es IH]; intros w; cbn [execs]; [by intros [= <-]|].
  destruct (exec e w) as [w1|] eqn:E; [|done]. intros H. etrans; [by eapply exec_steps|by apply IH].
Qed.
Lemma reachable_steps b w w' : reachable b w → rtc (step b) w w' → reachable b w'.
Proof. intros Hr. induction 1; [done|]. apply IHrtc. by eapply reach_step. Qed.
Lemma execs_reachable b es w w' : reachable b w → execs es w = Some w' → reachable b w'.
Proof. intros Hr He. eapply reachable_steps; [done|]. by eapply execs_steps. Qed.

(** The state after an event that happens, and a task of it. *)
Definition happens (e : Event) w : bool := match exec e w with Some _ => true | None => false end.
Definition next (e : Event) w : World := default w (exec e w).
Lemma next_step i w : happens (ev_reply i) w = true → is_upload i w = false → task_step i w (next (ev_reply i) w).
Proof. unfold happens, next. intros Hh Hu. destruct (exec _ w) as [w'|] eqn:E; [|done]. by apply exec_reply_step. Qed.
Definition no_task : Task :=
  {| tk_kind := task_push;
     tk_lease := {| lease_context := {| ctx_userId := []; ctx_serverUrl := []; ctx_accessToken := []; ctx_vaultKeyBase64 := [];
                                        ctx_vaultEpoch := None |}; lease_generation := 0 |};
     tk_after := None; tk_state := ended |}.
Definition task_at (i : nat) w : Task := default no_task (w_tasks w !! i).
Lemma task_at_lookup i w : (i < length (w_tasks w))%nat → w_tasks w !! i = Some (task_at i w).
Proof. intros [t Ht]%lookup_lt_is_Some_2. unfold task_at. by rewrite Ht. Qed.
End simulation.

(** ** A small store

    A list of host ids, encoded in the clear. *)

Definition plain_record (id : jsstring) : SyncRecord :=
  {| sr_id := id; encrypted_payload := id; updated_at := js "2026-01-01"; deleted_at := None |}.
Definition plain_hosts (ids : list jsstring) : SyncPayloadV2 :=
  λ k, if decide (k = k_hosts) then plain_record <$> ids else [].
#[export] Instance plain_store : SyncStore (list jsstring) := {
  Secret := unit;
  Decoded := list jsstring;
  materialize := id;
  encode_records _ _ _ ids := plain_hosts ids;
  secret_refs _ := [];
  encode_secret _ _ secretRef _ := plain_record secretRef;
  data_floor _ := 2%N;
  decode_snapshot _ _ _ payload := Ok (sr_id <$> List.filter (λ r, bool_decide (deleted_at r = None)) (payload k_hosts));
  had_conflicts _ := false;
  commit_snapshot _ decoded _ := (decoded, false);
}.
#[local] Existing Instance unit_collator.
#[export] Instance plain_messages : Messages := λ key _, js key.
#[export] Instance no_error_json : ErrorJson := λ _, None.
#[export] Instance sync_enabled : SyncEnv := false.

Definition signed_in : AuthService :=
  {| auth_status := auth_authenticated;
     auth_session := Some {| as_userId := js "user"; as_accessToken := js "token"; as_keyBase64 := None |};
     auth_serverUrl := js "https://ssh.example.org"; auth_vault := vault_unlocked (js "key") 1 1;
     auth_serverVaultE2ee := None; auth_serverWebauthn := None; auth_serverDataFloor := None |}.
Definition signed_out : AuthService :=
  {| auth_status := auth_unauthenticated; auth_session := None; auth_serverUrl := js "https://ssh.example.org";
     auth_vault := vault_none; auth_serverVaultE2ee := None; auth_serverWebauthn := None; auth_serverDataFloor := None |}.
Definition nothing_pending : PersistedSyncState :=
  {| ps_lastSuccessfulSyncAt := None; ps_pendingPush := false; ps_errorMessage := None;
     ps_awsProfilesServerSupport := sup_supported; ps_updatedAt := js "2026-01-01" |}.
(** This device and another both know of the host [web]. *)
Definition both_have_web : World (Data:=list jsstring) :=
  {| w_service := started [js "web"] [] nothing_pending signed_in (js "2026-01-02");
     w_server := [{| rev_author := another; rev_content := plain_hosts [js "web"] |}]; w_tasks := [] |}.
Lemma both_have_web_reachable b : reachable b both_have_web.
Proof. apply reach_started. Qed.
Definition after_events (es : list Event) : World (Data:=list jsstring) := default both_have_web (execs es both_have_web).
Lemma after_events_reachable b es : reachable b (after_events es).
Proof.
  unfold after_events. destruct (execs es both_have_web) as [w|] eqn:E; cbn; [|apply both_have_web_reachable].
  by eapply execs_reachable; [apply both_have_web_reachable|].
Qed.
