(* ===== verification/SyncSafety.v ===== *)
(** * What the synchronisation service guarantees

    The properties of the reachable states of [SyncMachine]. *)

From S2P Require Import Prelude Collections Vault AsyncProc SyncRecords SyncService SyncLogic SyncSpecs SyncMachine SyncInvariant SyncSimulation.

(** ** No operation spins *)

Section productive.
Context {Data : Type} {SS : SyncStore Data} {CO : Collator} {ME : Messages} {EJ : ErrorJson} {SE : SyncEnv}.
Implicit Types (l : SyncLease).

Ltac productive_step :=
  first [done | solve [auto 1] | progress intros | apply productive_bind | apply productive_try_bind | progress case_match | progress cbn].
Ltac productive_solve := repeat productive_step.

Lemma productive_settled {A} (r : result A) : productive (settled (Data:=Data) r).
Proof. by destruct r. Qed.
Lemma productive_assert l : productive (assertSyncLeaseActive (Data:=Data) l).
Proof. cbn. intros s. by case_match. Qed.
Lemma productive_decoded {A} (r : result A) : productive (decoded_or_raise (Data:=Data) r).
Proof. by destruct r. Qed.
#[local] Hint Resolve productive_settled productive_assert productive_decoded : core.
Lemma productive_fetch l rq fallback passthrough : productive (fetchWithAuthRetry (Data:=Data) l rq fallback passthrough).
Proof. unfold fetchWithAuthRetry, toConflictError, toApiErrorMessage, toApiError, toApiErrorMessage. productive_solve. Qed.
#[local] Hint Resolve productive_fetch : core.
Lemma productive_pushSnapshot payload l : productive (pushSnapshot (Data:=Data) payload l).
Proof. unfold pushSnapshot, catch. productive_solve. Qed.
Lemma productive_load_secrets l refs secrets : productive (load_secrets (Data:=Data) l refs secrets).
Proof. revert secrets. induction refs; intros secrets; cbn [load_secrets]; productive_solve. Qed.
#[local] Hint Resolve productive_pushSnapshot productive_load_secrets : core.
Lemma productive_build deletions support l : productive (buildEncryptedSnapshotResult (Data:=Data) deletions support l).
Proof. unfold buildEncryptedSnapshotResult. productive_solve. Qed.
#[local] Hint Resolve productive_build : core.
Lemma productive_upload support l : productive (upload_local (Data:=Data) support l).
Proof. unfold upload_local, buildEncryptedSnapshot. productive_solve. Qed.
Lemma productive_fetchRemote support l : productive (fetchRemoteSnapshot (Data:=Data) support l).
Proof. unfold fetchRemoteSnapshot. productive_solve. Qed.
Lemma productive_support l : productive (fetchAwsProfilesServerSupport (Data:=Data) l).
Proof. unfold fetchAwsProfilesServerSupport, catch. productive_solve. Qed.
Lemma productive_apply payload support l : productive (applyRemoteSnapshotAtomically (Data:=Data) payload support l).
Proof. unfold applyRemoteSnapshotAtomically, decoded_or_raise. productive_solve. Qed.
#[local] Hint Resolve productive_upload productive_fetchRemote productive_support productive_apply : core.
Lemma productive_runBootstrap l : productive (runBootstrap (Data:=Data) l).
Proof.
  unfold runBootstrap, bootstrap_body, bootstrap_failed, catch, download, apply_remote, paused, this_state. productive_solve.
Qed.

(** A round of the upload loop reaches the server, or throws. *)
Lemma waits_fetch l rq fallback passthrough (s : SyncService) : waits_at (fetchWithAuthRetry (Data:=Data) l rq fallback passthrough) s.
Proof. unfold fetchWithAuthRetry. by apply waits_at_bind_r. Qed.
Lemma push_round_waits l (s : SyncService) : waits_at (push_round (Data:=Data) l) s.
Proof.
  unfold push_round. apply waits_at_bind_r; [done|]. clear s. intros _ s. apply waits_at_bind_r; [done|]. clear s. intros _ s.
  apply waits_at_bind_r; [done|]. clear s. intros _ s. apply waits_at_bind_r; [done|]. clear s. intros support s.
  apply waits_at_bind_r; [done|]. clear s. intros snapshot s. apply waits_at_bind_r; [done|]. clear s. intros _ s.
  apply waits_at_bind_l. unfold pushSnapshot. apply waits_at_bind_r; [done|]. clear s. intros _ s. unfold waits_at. cbn [run].
  apply (waits_at_bind_l _ _ s). apply waits_fetch.
Qed.
Lemma productive_push_round l : productive (push_round (Data:=Data) l).
Proof. unfold push_round, known_support. productive_solve. Qed.
Lemma productive_runPush l : productive (runPush (Data:=Data) l).
Proof.
  unfold runPush, catch. apply productive_try_bind; [|done|].
  - apply waits_at_loop; [apply push_round_waits|apply productive_push_round|done|]. unfold this_state. productive_solve.
  - unfold push_failed, paused, this_state. productive_solve.
Qed.
Lemma productive_task_body kind l : productive (task_body (Data:=Data) kind l).
Proof.
  assert (Hfin : ∀ p cleanup, productive p → productive (finally (Data:=Data) p cleanup)).
  { intros p cleanup Hp. unfold finally. apply productive_try_bind; [done|..]; productive_solve. }
  destruct kind; apply Hfin; unfold guarded, this_state; cbn; intros s; case_match; [done| |done|].
  - apply productive_runBootstrap.
  - apply productive_runPush.
Qed.
End productive.

Section safety.
Context {Data : Type} {SS : SyncStore Data} {CO : Collator} {ME : Messages} {EJ : ErrorJson} {SE : SyncEnv}.
Abbreviation SyncService := (@SyncService.SyncService Data).
Abbreviation World := (@SyncMachine.World Data SS).
Abbreviation Task := (@SyncMachine.Task Data SS).
Implicit Types (s : SyncService) (x : list revision) (l : SyncLease) (w : World) (t u : Task).
Context (enabled : isE2ESyncDisabled = false).

(** ** Running operations *)

Definition is_running t : bool := match tk_state t with running _ _ _ => true | _ => false end.
Definition is_ended t : bool := match tk_state t with ended => true | _ => false end.

Definition continues_productively t : Prop :=
  match tk_state t with running _ _ k => ∀ a, productive (k a) | _ => True end.
Lemma running_productive b w : reachable b w → ∀ i t, w_tasks w !! i = Some t → continues_productively t.
Proof.
  induction 1 as [d outbox p auth now x|w w' _ IH Hs]; [done|].
  assert (Hturn : ∀ i t s o j u, w_tasks w !! i = Some t →
    match o with blocked _ k => ∀ a, productive (k a) | _ => True end →
    w_tasks (after_turn i t s o w) !! j = Some u → continues_productively u).
  { intros i t s o j u Hit Ho [(-> & <- & _)|[_ Hj]]%list_lookup_insert_Some; [|exact (IH _ _ Hj)].
    unfold continues_productively. by destruct o. }
  assert (Hcalled : ∀ c i t, w_tasks (called c w) !! i = Some t → continues_productively t).
  { intros [s [| |e|kind l after]] i t; cbn; try exact (IH i t).
    intros [Hi|[_ Hi]]%lookup_app_Some; [exact (IH _ _ Hi)|]. by apply list_lookup_singleton_Some in Hi as [_ <-]. }
  intros i t Hit. destruct Hs as [Ho|j Ht].
  - inversion Ho; subst w'; [exact (Hcalled _ _ _ Hit)..|exact (IH _ _ Hit)|exact (IH _ _ Hit)|exact (IH _ _ Hit)
      |exact (IH _ _ Hit)|exact (IH _ _ Hit)|exact (IH _ _ Hit)|exact (IH _ _ Hit)].
  - destruct Ht as [t0 s o Ht0 Hst0 _ Hturned|t0 sent0 r0 k0 a0 s o Ht0 Hst0 _ Hturned].
    + apply turn_productive in Hturned as [_ Ho]; [exact (Hturn _ _ _ _ _ _ Ht0 Ho Hit)|apply productive_task_body].
    + assert (Hk : productive (k0 a0)) by (pose proof (IH _ _ Ht0) as Hc; unfold continues_productively in Hc; rewrite Hst0 in Hc; apply Hc).
      apply turn_productive in Hturned as [_ Ho]; [exact (Hturn _ _ _ _ _ _ Ht0 Ho Hit)|exact Hk].
Qed.

Lemma some_answer (r : Request) sent x : ∃ a : answer (Data:=Data) r, answer_ok r sent a x.
Proof.
  destruct r as [rq|response|response| | |secretRef| | |].
  - by exists (Throw "offline").
  - by exists (Throw "offline").
  - by exists (Throw "offline").
  - by exists (Throw "offline").
  - by exists (Ok ()).
  - by exists (Throw "offline").
  - by exists (Ok ()).
  - by exists ().
  - by exists ().
Qed.

(** As long as an operation has not ended, one of them can go on. *)
Lemma some_task_steps b w : reachable b w → ∀ i t, w_tasks w !! i = Some t → live t → ∃ j w', task_step j w w'.
Proof.
  intros Hr. pose proof (reachable_inv b enabled _ Hr) as Hw. pose proof (running_productive _ _ Hr) as Hp.
  induction i as [i IH] using lt_wf_ind. intros t Hit Hl. unfold live in Hl. destruct (tk_state t) as [|sent r k|] eqn:Est; [| |done].
  - assert (Hstart : (∀ p, tk_after t = Some p → ∃ u, w_tasks w !! p = Some u ∧ tk_state u = ended) → ∃ j w', task_step j w w').
    { intros Hafter. destruct (productive_turn (task_body (tk_kind t) (tk_lease t)) (w_service w)) as (s' & o & Hturn & _);
        [apply productive_task_body|]. exists i, (after_turn i t s' o w). by apply ts_start. }
    destruct (tk_after t) as [p|] eqn:Ea; [|by apply Hstart].
    pose proof (wi_before _ _ Hw _ _ _ Hit Ea) as Hpi. destruct (lookup_lt_is_Some_2 (w_tasks w) p) as [u Hu];
      [apply lookup_lt_Some in Hit; lia|]. destruct (is_ended u) eqn:Eu.
    + apply Hstart. intros p' [= <-]. exists u. split; [done|]. unfold is_ended in Eu. by destruct (tk_state u).
    + apply (IH p Hpi u Hu). intros E. unfold is_ended in Eu. by rewrite E in Eu.
  - destruct (some_answer r sent (w_server w)) as [a Ha]. pose proof (Hp _ _ Hit) as Hk. unfold continues_productively in Hk.
    rewrite Est in Hk. destruct (productive_turn (k a) (w_service w) (Hk a)) as (s' & o & Hturn & _).
    exists i, (after_turn i t s' o w). by eapply ts_answer.
Qed.

(** What a step of operation [i] does to the service, from its promise. *)
Lemma task_step_guar b w w' i t :
  reachable b w → task_step i w w' → w_tasks w !! i = Some t →
  SyncLogic.Guar b (tk_kind t) (tk_lease t) (w_service w) (w_service w') (w_server w) ∧ w_server w' = w_server w.
Proof.
  intros Hr Hs Hit. destruct (task_step_turn b _ _ _ (reachable_inv b enabled _ Hr) Hs) as (t' & s' & o & Hit' & _ & -> & _ & HG & _).
  simplify_eq. done.
Qed.

(** ** The properties *)

(** C5: Once the account, the vault key or the generation an operation was started for has gone
    (sign-out, account switch, lock, reset, pause), nothing it still does - answers that arrive
    late, snapshots already downloaded - changes the records, the queue of deletions, the
    status or the known revision. *)
Theorem sync_fence b w w' i t :
  reachable b w → task_step i w w' → w_tasks w !! i = Some t → isSyncLeaseActive (w_service w) (tk_lease t) = false →
  core (w_service w') = core (w_service w).
Proof. intros Hr Hs Hit Ha. destruct (task_step_guar b _ _ _ _ Hr Hs Hit) as [HG _]. by apply (gu_fence _ _ _ _ _ _ HG). Qed.


(** The stored status always agrees with the one in memory: an app restarted at any moment
    starts from the same pending flag, error, times and server capability. *)
Theorem sync_restart b w d outbox auth now :
  reachable b w →
  let s := started (Data:=Data) d outbox (ss_persisted (w_service w)) auth now in
  ss_state s = patch_dataChange None (patch_status st_idle (ss_state (w_service w))).
Proof. intros Hr. destruct (wi_inv _ _ (reachable_inv b enabled _ Hr)) as [[now' Hm] _]. cbn. by rewrite Hm. Qed.

(** C7: Two operations of one generation never overlap: while one is between its first and its
    last step, every other one of the generation waits or has ended. *)
Theorem sync_no_overlap b w i j t u :
  reachable b w → w_tasks w !! i = Some t → w_tasks w !! j = Some u →
  lease_generation (tk_lease t) = lease_generation (tk_lease u) → is_running t = true → is_running u = true → i = j.
Proof.
  intros Hr Hit Huj Hg Ht Hu. pose proof (reachable_inv b enabled _ Hr) as Hw. unfold is_running in *.
  assert (Hlt : live t) by (intros E; by rewrite E in Ht). assert (Hlu : live u) by (intros E; by rewrite E in Hu).
  destruct (lt_eq_lt_dec i j) as [[Hlt'|]|Hlt']; [|done|].
  - rewrite (wi_turns _ _ Hw i j t u) in Hu; done.
  - rewrite (wi_turns _ _ Hw j i u t) in Ht; done.
Qed.


(** C8: An upload takes a deletion off the queue only when the server has accepted a payload with
    its tombstone. *)
Theorem sync_deletion_sent b w w' i t d :
  reachable b w → task_step i w w' → w_tasks w !! i = Some t → tk_kind t = task_push →
  d ∈ ss_outbox (w_service w) → d ∉ ss_outbox (w_service w') →
  ∃ n payload d', accepted_at (w_server w') n payload ∧ tombstone_record d' ∈ payload (del_kind d')
    ∧ exact_key d' = exact_key d.
Proof.
  intros Hr Hs Hit Hk Hin Hout. destruct (task_step_guar b _ _ _ _ Hr Hs Hit) as [HG ->].
  exact (pr_outbox _ _ _ _ _ (gu_push _ _ _ _ _ _ HG Hk) d Hin Hout).
Qed.

End safety.

(** ** Concrete runs *)

#[local] Existing Instance unit_collator.
Definition web_deleted : SyncDeletionRecord :=
  {| del_kind := k_hosts; del_recordId := js "web"; del_deletedAt := js "2026-01-02" |}.
(** The download is on its way when the user replaces [web] by [new]. *)
Definition download_started : list (Event (Data:=list jsstring)) := [ev_bootstrap; ev_start 0; ev_reply 0; ev_reply 0].
Definition edited_meanwhile : list (Event (Data:=list jsstring)) := download_started ++ [ev_edit [js "new"] [web_deleted]].
Definition download_applied : list (Event (Data:=list jsstring)) :=
  edited_meanwhile ++ [ev_reply 0; ev_reply 0; ev_reply 0; ev_reply 0].
Definition upload_accepted : list (Event (Data:=list jsstring)) :=
  [ev_edit [js "new"] [web_deleted]; ev_start 0; ev_reply 0].

(** A deletion and an edit made while a download is under way are lost: the download
    replaces the records by the server's and empties the queue of deletions, though no
    upload has carried either; the status is ready, with nothing pending. *)
Theorem edit_during_download_is_lost :
  ∃ w w', reachable true w ∧ rtc (step true) w w'
    ∧ ss_data (w_service w) = [js "new"] ∧ ss_outbox (w_service w) = [web_deleted]
    ∧ ss_data (w_service w') = [js "web"] ∧ ss_outbox (w_service w') = []
    ∧ status (ss_state (w_service w')) = st_ready ∧ pendingPush (ss_state (w_service w')) = false
    ∧ (∀ r, r ∈ w_server w' → rev_author r = another).
Proof.
  exists (after_events edited_meanwhile).
  exists (default both_have_web (execs [ev_reply 0; ev_reply 0; ev_reply 0; ev_reply 0] (after_events edited_meanwhile))).
  split; [apply after_events_reachable|]. split.
  - destruct (execs [_; _; _; _] _) as [w'|] eqn:E; [|by vm_compute in E]. by eapply execs_steps.
  - split_and!; [vm_compute; reflexivity..|]. intros r Hr.
    assert (Hl : w_server (default both_have_web (execs [ev_reply 0; ev_reply 0; ev_reply 0; ev_reply 0]
      (after_events edited_meanwhile))) = w_server both_have_web) by (vm_compute; reflexivity).
    rewrite Hl in Hr. cbn in Hr. apply list_elem_of_singleton in Hr as ->. done.
Qed.

(** ** Witnesses *)

Definition signed_out_meanwhile : World := after_events (download_started ++ [ev_auth signed_out]).
Lemma sync_fence_witness :
  isSyncLeaseActive (w_service signed_out_meanwhile) (tk_lease (task_at 0 signed_out_meanwhile)) = false
  ∧ core (w_service (next (ev_reply 0) signed_out_meanwhile)) = core (w_service signed_out_meanwhile).
Proof.
  split; [vm_compute; reflexivity|].
  apply (sync_fence eq_refl true signed_out_meanwhile (next (ev_reply 0) signed_out_meanwhile) 0 (task_at 0 signed_out_meanwhile)).
  - apply after_events_reachable.
  - apply next_step; vm_compute; reflexivity.
  - apply task_at_lookup. vm_compute. lia.
  - vm_compute. reflexivity.
Defined.

(** The revision known after a download. *)
Definition downloaded : World :=
  after_events (download_started ++ [ev_reply 0; ev_reply 0; ev_reply 0; ev_reply 0]).

Lemma sync_restart_witness :
  ss_state (started (Data:=list jsstring) [] [] (ss_persisted (w_service downloaded)) signed_in [])
  = patch_dataChange None (patch_status st_idle (ss_state (w_service downloaded))).
Proof. apply (sync_restart eq_refl true downloaded [] [] signed_in []). apply after_events_reachable. Defined.

Lemma sync_no_overlap_witness : is_running (task_at 0 (after_events edited_meanwhile)) = true ∧ 0%nat = 0%nat.
Proof.
  split; [vm_compute; reflexivity|].
  apply (sync_no_overlap eq_refl true (after_events edited_meanwhile) 0 0 (task_at 0 (after_events edited_meanwhile))
           (task_at 0 (after_events edited_meanwhile))).
  - apply after_events_reachable.
  - apply task_at_lookup. vm_compute. lia.
  - apply task_at_lookup. vm_compute. lia.
  - reflexivity.
  - vm_compute. reflexivity.
  - vm_compute. reflexivity.
Defined.

(** The upload of an edit has been accepted, its answer read last. *)
Definition uploading : World := after_events upload_accepted.

Lemma sync_deletion_sent_witness :
  ∃ n payload d', accepted_at (w_server (next (ev_reply 0) uploading)) n payload
    ∧ tombstone_record d' ∈ payload (del_kind d') ∧ exact_key d' = exact_key web_deleted.
Proof.
  apply (sync_deletion_sent eq_refl true uploading (next (ev_reply 0) uploading) 0 (task_at 0 uploading) web_deleted).
  - apply after_events_reachable.
  - apply next_step; vm_compute; reflexivity.
  - apply task_at_lookup. vm_compute. lia.
  - vm_compute. reflexivity.
  - assert (E : ss_outbox (w_service uploading) = [web_deleted]) by (vm_compute; reflexivity). rewrite E. by left.
  - assert (E : ss_outbox (w_service (next (ev_reply 0) uploading)) = []) by (vm_compute; reflexivity). rewrite E. by apply not_elem_of_nil.
Defined.

